(** * doqmate: the ingestion chunker, the LLM client and the query pipeline

    A shallow embedding of the Python services of the repository
    (services/embedding/chunking.py, services/llm/client.py,
    services/llm/firstRefine.py, services/llm/queryRefine.py,
    services/llm/answerGeneration.py, services/retrieval/search.py and
    services/queryService.py) together with the properties the
    specification states about them.

    Conventions of the embedding:
    - a Python [str] is a list of Unicode code points ([PyStr.str]);
    - a Python [int] is a [Z]; a finite [float] is the rational it denotes;
    - a function that may raise returns a [Result];
    - calls that leave the process (LLM server, vector store, clock) are
      answered by a [World] and recorded in a trace of events. *)

From Stdlib Require Import ZArith QArith List Lia Bool String Ascii.
From Stdlib Require Import DecimalString DecimalZ DecimalPos Sorting.Sorted Sorting.Permutation Lqa.
From stdpp Require Import base option list gmap sets sorting.

Close Scope Q_scope.
Open Scope Z_scope.

(* ===================================================================== *)
(** ** Python strings *)
(* ===================================================================== *)

Module PyStr.

Abbreviation char := N (only parsing).
Abbreviation str := (list N) (only parsing).

(** [str.isspace] on one code point (the characters [str.strip] removes
    and the regular expression class [\s] matches). *)
Definition is_space (c : char) : bool :=
  (((9 <=? c) && (c <=? 13)) || ((28 <=? c) && (c <=? 32))
   || (c =? 133) || (c =? 160) || (c =? 5760)
   || ((8192 <=? c) && (c <=? 8202))
   || (c =? 8232) || (c =? 8233) || (c =? 8239) || (c =? 8287)
   || (c =? 12288))%N.

Fixpoint lstrip (s : str) : str :=
  match s with
  | c :: r => if is_space c then lstrip r else s
  | [] => []
  end.

Definition rstrip (s : str) : str := rev (lstrip (rev s)).

Definition strip (s : str) : str := rstrip (lstrip s).

(** [not s] for a string. *)
Definition is_empty (s : str) : bool :=
  match s with [] => true | _ => false end.

(** [s[a:b]], with Python's treatment of negative and overlong indices. *)
Definition norm_index (len i : Z) : Z :=
  if i <? 0 then Z.max 0 (i + len) else Z.min i len.

Definition slice (s : str) (a b : Z) : str :=
  let len := Z.of_nat (length s) in
  let a' := norm_index len a in
  let b' := norm_index len b in
  take (Z.to_nat (b' - a')) (drop (Z.to_nat a') s).

(** Source literals: the bytes of a Rocq string literal, decoded as UTF-8. *)
Fixpoint bytes_of (s : string) : list N :=
  match s with
  | EmptyString => []
  | String a r => N_of_ascii a :: bytes_of r
  end.

Fixpoint utf8_decode (bs : list N) : str :=
  match bs with
  | [] => []
  | b :: r =>
      if (b <? 128)%N then b :: utf8_decode r
      else if (b <? 224)%N then
        match r with
        | b2 :: r' => ((b - 192) * 64 + (b2 - 128))%N :: utf8_decode r'
        | _ => []
        end
      else if (b <? 240)%N then
        match r with
        | b2 :: b3 :: r' =>
            ((b - 224) * 4096 + (b2 - 128) * 64 + (b3 - 128))%N
              :: utf8_decode r'
        | _ => []
        end
      else
        match r with
        | b2 :: b3 :: b4 :: r' =>
            ((b - 240) * 262144 + (b2 - 128) * 4096
             + (b3 - 128) * 64 + (b4 - 128))%N :: utf8_decode r'
        | _ => []
        end
  end.

Definition lit (s : string) : str := utf8_decode (bytes_of s).

(** [str(n)] / [f"{n}"] for an integer. *)
Definition str_of_Z (z : Z) : str :=
  bytes_of (NilZero.string_of_int (Z.to_int z)).

Definition eqb (a b : str) : bool := bool_decide (a = b).

(** [s.startswith(p)] *)
Fixpoint startswith (p s : str) : bool :=
  match p, s with
  | [], _ => true
  | a :: p', b :: s' => (a =? b)%N && startswith p' s'
  | _ :: _, [] => false
  end.

Definition endswith (p s : str) : bool := startswith (rev p) (rev s).

(** [s.find(p)]: index of the first occurrence, [None] for Python's -1. *)
Fixpoint find_from (p s : str) (i : nat) : option nat :=
  if startswith p s then Some i
  else match s with
       | [] => None
       | _ :: s' => find_from p s' (S i)
       end.

Definition find (p s : str) : option nat := find_from p s 0.

(** [s.rfind(p)]: index of the last occurrence. *)
Fixpoint rfind_from (p s : str) (i : nat) : option nat :=
  match s with
  | [] => if startswith p s then Some i else None
  | _ :: s' =>
      match rfind_from p s' (S i) with
      | Some j => Some j
      | None => if startswith p s then Some i else None
      end
  end.

Definition rfind (p s : str) : option nat := rfind_from p s 0.

(** Lexicographic order on code points, as [<] on Python strings. *)
Fixpoint compare (a b : str) : comparison :=
  match a, b with
  | [], [] => Eq
  | [], _ :: _ => Lt
  | _ :: _, [] => Gt
  | x :: a', y :: b' =>
      match (x ?= y)%N with
      | Eq => compare a' b'
      | c => c
      end
  end.

Definition leb (a b : str) : bool :=
  match compare a b with Gt => false | _ => true end.

End PyStr.

Import PyStr.

(* ===================================================================== *)
(** ** Exceptions and results *)
(* ===================================================================== *)

Inductive exn :=
| ValueError | RuntimeError | AttributeError | TypeError | KeyError.

Inductive Result (A : Type) :=
| Ok (a : A)
| Raise (e : exn).
Arguments Ok {A} a.
Arguments Raise {A} e.

(* ===================================================================== *)
(** ** services/embedding/chunking.py *)
(* ===================================================================== *)

Module Chunking.

(** [MergedTextBlock] of services/schemas/pdfSchemas.py; [debug_log] is
    write-only for the chunker and kept abstract. *)
Record MergedTextBlock := {
  mb_page : Z;
  mb_block_id : str;
  mb_text : option str;
  mb_src_block_ids : list str;
}.

(** The [meta] dictionary literal built by [_chunkPageText]. *)
Record ChunkMeta := {
  cm_filename : option str;
  cm_page : Z;
  cm_document_id : str;
  cm_chatbot_id : str;
  cm_user_group_tags : list str;
  cm_process_tag : str;
  cm_chunk_order : Z;
}.

(** [TextChunk] of services/schemas/embeddingSchemas.py. *)
Record TextChunk := {
  tc_chunk_id : str;
  tc_text : str;
  tc_page : Z;
  tc_order : Z;
  tc_meta : ChunkMeta;
}.

(** [sep.join(texts)] *)
Fixpoint join (sep : str) (texts : list str) : str :=
  match texts with
  | [] => []
  | [t] => t
  | t :: rest => t ++ sep ++ join sep rest
  end.

(** The loop of [_buildPageText]: stripped, non-empty block texts. *)
Fixpoint block_texts (blocks : list MergedTextBlock) : list str :=
  match blocks with
  | [] => []
  | block :: rest =>
      let text := strip (default [] (mb_text block)) in
      if is_empty text then block_texts rest else text :: block_texts rest
  end.

Definition _buildPageText (blocks : list MergedTextBlock) : str :=
  match blocks with
  | [] => []
  | _ =>
      match block_texts blocks with
      | [] => []
      | texts => strip (join [10; 10]%N texts)
      end
  end.

Section ChunkPageText.

Variables (page : Z) (chatbotId documentId : str) (filename : option str)
          (userGroupTags : list str) (maxChars overlap : Z).

(** The [TextChunk] appended in one iteration. *)
Definition make_chunk (order : Z) (chunkText : str) : TextChunk :=
  {| tc_chunk_id := documentId ++ lit "_p" ++ str_of_Z page
                      ++ lit "_c" ++ str_of_Z order;
     tc_text := chunkText;
     tc_page := page;
     tc_order := order;
     tc_meta := {| cm_filename := filename;
                cm_page := page;
                cm_document_id := documentId;
                cm_chatbot_id := chatbotId;
                cm_user_group_tags := userGroupTags;
                cm_process_tag := lit "body";
                cm_chunk_order := order |} |}.

(** What one pass through the body of [while start < length] does. *)
Inductive iteration :=
| BreakEmpty                                   (* [if not chunkText: break] *)
| AppendBreak (c : TextChunk)                  (* [if end >= length: break] *)
| AppendNext (c : TextChunk) (start order : Z) (* falls through to the test *).

Definition window_end (length start : Z) : Z := Z.min (start + maxChars) length.

Definition loop_body (text : str) (length start order : Z) : iteration :=
  let end_ := window_end length start in
  let chunkText := strip (slice text start end_) in
  if is_empty chunkText then BreakEmpty
  else
    let c := make_chunk order chunkText in
    if length <=? end_ then AppendBreak c
    else
      let start' := end_ - overlap in
      let start' := if start' <? 0 then 0 else start' in
      AppendNext c start' (order + 1).

(** The [while] loop; [None] when [fuel] iterations were not enough. *)
Fixpoint while_loop (fuel : nat) (text : str) (length start order : Z)
  : option (list TextChunk) :=
  if start <? length then
    match fuel with
    | O => None
    | S fuel' =>
        match loop_body text length start order with
        | BreakEmpty => Some []
        | AppendBreak c => Some [c]
        | AppendNext c start' order' =>
            cons c <$> while_loop fuel' text length start' order'
        end
    end
  else Some [].

Definition _chunkPageText (fuel : nat) (pageText : option str)
  : option (list TextChunk) :=
  let text := strip (default [] pageText) in
  if is_empty text then Some []
  else while_loop fuel text (Z.of_nat (length text)) 0 0.

(** The window starts the loop visits, whatever it emits: a view of the
    local variables [start] and [end] used to state properties of them. *)
Fixpoint window_starts (fuel : nat) (text : str) (length start order : Z)
  : list Z :=
  if start <? length then
    match fuel with
    | O => []
    | S fuel' =>
        match loop_body text length start order with
        | BreakEmpty => [start]
        | AppendBreak _ => [start]
        | AppendNext _ start' order' =>
            start :: window_starts fuel' text length start' order'
        end
    end
  else [].

End ChunkPageText.

(** [chunkMergedPages]; the page dictionary is a finite map and the pages
    are visited in increasing order. *)
Fixpoint chunk_pages (fuel : nat) (mergedPages : gmap Z (list MergedTextBlock))
    (chatbotId documentId : str) (filename : option str)
    (userGroupTags : list str) (maxChars overlap : Z) (pages : list Z)
  : option (list TextChunk) :=
  match pages with
  | [] => Some []
  | page :: rest =>
      let blocks := default [] (mergedPages !! page) in
      let pageText := _buildPageText blocks in
      if is_empty pageText then
        chunk_pages fuel mergedPages chatbotId documentId filename
                    userGroupTags maxChars overlap rest
      else
        pageChunks ← _chunkPageText page chatbotId documentId filename
                       userGroupTags maxChars overlap fuel (Some pageText);
        allChunks ← chunk_pages fuel mergedPages chatbotId documentId filename
                       userGroupTags maxChars overlap rest;
        Some (pageChunks ++ allChunks)
  end.

Definition chunkMergedPages (fuel : nat)
    (mergedPages : gmap Z (list MergedTextBlock))
    (chatbotId documentId : str) (filename : option str)
    (userGroupTags : option (list str)) (maxChars overlap : Z)
  : option (Result (list TextChunk)) :=
  if maxChars <=? 0 then Some (Raise ValueError)
  else if overlap <? 0 then Some (Raise ValueError)
  else if bool_decide (mergedPages = ∅) then Some (Ok [])
  else
    let userGroupTags :=
      match userGroupTags with
      | None | Some [] => [lit "default"]
      | Some tags => tags
      end in
    Ok <$> chunk_pages fuel mergedPages chatbotId documentId filename
             userGroupTags maxChars overlap
             (merge_sort Z.le (map fst (map_to_list mergedPages))).

(** *** Vocabulary of the chunking properties *)

(** [ceil(a / b)] for a positive divisor. *)
Definition cdiv (a b : Z) : Z := - ((- a) / b).

(** The untrimmed window of iteration [k]: [text[k(M-O) : min(k(M-O)+M, L)]]. *)
Definition window (maxChars overlap : Z) (text : str) (k : Z) : str :=
  slice text (k * (maxChars - overlap))
        (window_end maxChars (Z.of_nat (length text))
                    (k * (maxChars - overlap))).

(** No window that starts inside the text is made of white space only. *)
Definition no_blank_window (maxChars overlap : Z) (text : str) : bool :=
  forallb (fun k =>
             (Z.of_nat (length text) <=? k * (maxChars - overlap))
             || negb (is_empty (strip (window maxChars overlap text k))))
          (seqZ 0 (Z.of_nat (length text))).

(** The number of chunks of a trimmed page text of length [L]. *)
Definition chunk_count (maxChars overlap L : Z) : Z :=
  if L =? 0 then 0 else Z.max 1 (cdiv (L - overlap) (maxChars - overlap)).

End Chunking.

(* ===================================================================== *)
(** ** Python values (JSON documents, free-form dictionaries) *)
(* ===================================================================== *)

Module PyVal.

#[local] Set Warnings "-register-all".

Inductive pyval :=
| PNone
| PBool (b : bool)
| PInt (z : Z)
| PFloat (q : Q)
| PStr (s : str)
| PList (l : list pyval)
| PDict (d : list (str * pyval)).

(** A [dict] is its list of items in insertion order. *)
Definition dict := list (str * pyval).

(** [bool(v)] *)
Definition truthy (v : pyval) : bool :=
  match v with
  | PNone => false
  | PBool b => b
  | PInt z => negb (z =? 0)
  | PFloat q => negb (Qeq_bool q 0)
  | PStr s => negb (is_empty s)
  | PList l => match l with [] => false | _ => true end
  | PDict d => match d with [] => false | _ => true end
  end.

(** [d.get(k)], [None] of Rocq standing for a missing key. *)
Fixpoint lookup (k : str) (d : dict) : option pyval :=
  match d with
  | [] => None
  | (k', v) :: rest => if eqb k k' then Some v else lookup k rest
  end.

(** [d.get(k)] and [d.get(k, dflt)] as Python values. *)
Definition get (k : str) (d : dict) : pyval := default PNone (lookup k d).
Definition get_or (k : str) (dflt : pyval) (d : dict) : pyval :=
  default dflt (lookup k d).

(** [a or b] *)
Definition por (a b : pyval) : pyval := if truthy a then a else b.

(** [d[k] = v] *)
Fixpoint set (k : str) (v : pyval) (d : dict) : dict :=
  match d with
  | [] => [(k, v)]
  | (k', v') :: rest =>
      if eqb k k' then (k, v) :: rest else (k', v') :: set k v rest
  end.

(** [d.setdefault(k, v)], for its effect on [d]. *)
Definition setdefault (k : str) (v : pyval) (d : dict) : dict :=
  match lookup k d with
  | Some _ => d
  | None => d ++ [(k, v)]
  end.

End PyVal.

Import PyVal.

(* ===================================================================== *)
(** ** The outside world and the trace of calls *)
(* ===================================================================== *)

(** What [requests.post] to the chat-completions endpoint can lead to, in
    the cases [callQwen] tells apart. *)
Inductive http_body :=
| NotJson                       (* [resp.json()] raises *)
| BadFormat                     (* no [choices[0].message.content] *)
| Content (c : option str).     (* the content, a string or null *)

Inductive http_reply :=
| RequestException
| Response (status_code : Z) (body : http_body).

(** One record of the vector store, with the metadata keys the retrieval
    code reads. *)
Record StoreMeta := {
  sm_chunk_id : option str;
  sm_document_id : option str;
  sm_manual_id : option str;
  sm_chatbot_id : option str;
  sm_user_group : option str;
  sm_user_group_tags : option str;
  sm_order_index : option Z;
  sm_page_chunk_order : option Z;
  sm_page : option Z;
  sm_filename : option str;
  sm_process_tag : option str;
  sm_image_paths : option str;
}.

Record StoreRecord := {
  rec_id : str;
  rec_document : str;
  rec_meta : StoreMeta;
}.

Inductive event :=
| EvLlm (task_id : Z) (input_payload : str)   (* [callQwen] *)
| EvEmbed (text : str)                        (* [embedText] *)
| EvQuery (chatbotId : str) (userGroup : option str) (topK : Z)
                                              (* [col.query] *)
| EvGet (chatbotId : str) (doc_id : str) (min_idx max_idx : Z).
                                              (* [col.get] *)

Definition trace := list event.

(** The answers of the world; each may depend on everything that happened
    before. *)
Record World := {
  llm_reply : trace -> Z -> str -> http_reply;
  (** the collection of a chatbot, [None] when it does not exist *)
  collection : trace -> str -> option (list StoreRecord);
  (** the distance of a stored record to the embedded query text,
      [None] when [embedText] raises *)
  embed_distance : trace -> str -> option (StoreRecord -> Q);
  (** whether [col.query] / [col.get] raise *)
  query_fails : trace -> bool;
  get_fails : trace -> bool;
  (** [time.time()], in milliseconds *)
  clock_ms : trace -> Q;
}.

(** Computations that call the world: a trace in, a result and a trace out. *)
Definition M (A : Type) : Type := trace -> Result A * trace.

Definition ret {A} (a : A) : M A := fun tr => (Ok a, tr).
Definition raise {A} (e : exn) : M A := fun tr => (Raise e, tr).
Definition bind {A B} (m : M A) (k : A -> M B) : M B :=
  fun tr =>
    match m tr with
    | (Ok a, tr') => k a tr'
    | (Raise e, tr') => (Raise e, tr')
    end.
(** [try: m  except Exception: h] *)
Definition try_except {A} (m : M A) (h : exn -> M A) : M A :=
  fun tr =>
    match m tr with
    | (Ok a, tr') => (Ok a, tr')
    | (Raise e, tr') => h e tr'
    end.
Definition lift {A} (r : Result A) : M A := fun tr => (r, tr).

Declare Scope py_scope.
Delimit Scope py_scope with py.
Notation "x <~ m ; k" := (bind m (fun x => k))
  (at level 20, m at level 100, k at level 200, only parsing) : py_scope.

(* ===================================================================== *)
(** ** services/llm/client.py *)
(* ===================================================================== *)

Module LlmClient.

Definition callQwen (w : World) (task_id : Z) (input_payload : str) : M str :=
  fun tr =>
    let tr' := tr ++ [EvLlm task_id input_payload] in
    match llm_reply w tr task_id input_payload with
    | RequestException => (Raise RuntimeError, tr')
    | Response status_code body =>
        if negb (status_code =? 200) then (Raise RuntimeError, tr')
        else
          match body with
          | NotJson => (Raise RuntimeError, tr')
          | BadFormat => (Raise RuntimeError, tr')
          | Content content => (Ok (default [] content), tr')
          end
    end.

(** *** The regular expression of [parseJson]

    [```(?:json)?\s*(\{.*?\})\s*```] with DOTALL and IGNORECASE. Each
    quantifier has one way to succeed (the white space must be taken whole,
    [json] must be taken when present, the lazy body stops at the first
    closing brace that is followed by white space and a fence), so a search
    is a scan for the first position where a match starts. *)

Definition fence : str := lit "```".
Definition lbrace : N := 123.
Definition rbrace : N := 125.

(** [json], ignoring case; under IGNORECASE [s] also matches U+017F. *)
Definition json_ci (s : str) : bool :=
  match s with
  | j :: s' :: o :: n :: _ =>
      ((j =? 106) || (j =? 74)) && ((s' =? 115) || (s' =? 83) || (s' =? 383))
      && ((o =? 111) || (o =? 79)) && ((n =? 110) || (n =? 78))
  | _ => false
  end%N.

(** [.*?\}\s*```] after the opening brace; [acc] is the group so far,
    reversed. *)
Fixpoint lazy_body (rest acc : str) : option str :=
  match rest with
  | [] => None
  | c :: rest' =>
      if (c =? rbrace)%N && startswith fence (lstrip rest')
      then Some (rev (c :: acc))
      else lazy_body rest' (c :: acc)
  end.

(** A match that starts at the head of [s]: its group 1. *)
Definition match_here (s : str) : option str :=
  if startswith fence s then
    let s1 := drop 3 s in
    let s2 := if json_ci s1 then drop 4 s1 else s1 in
    match lstrip s2 with
    | c :: rest => if (c =? lbrace)%N then lazy_body rest [c] else None
    | [] => None
    end
  else None.

(** [code_block_pattern.search(raw)]: group 1 of the leftmost match. *)
Fixpoint code_block_search (s : str) : option str :=
  match match_here s with
  | Some g => Some g
  | None =>
      match s with
      | [] => None
      | _ :: s' => code_block_search s'
      end
  end.

Section ParseJson.

(** [json.loads], [None] when it raises. *)
Variable json_loads : str -> option pyval.

Definition parseJson (raw : option str) : Result pyval :=
  let raw := strip (default [] raw) in
  if is_empty raw then Raise ValueError
  else
    (* 1) the whole string *)
    match (if startswith [lbrace] raw && endswith [rbrace] raw
           then json_loads raw else None) with
    | Some v => Ok v
    | None =>
        (* 2) the first fenced code block *)
        match (match code_block_search raw with
               | Some g => json_loads (strip g)
               | None => None
               end) with
        | Some v => Ok v
        | None =>
            (* 3) first '{' to last '}' *)
            match find [lbrace] raw, rfind [rbrace] raw with
            | Some first, Some last =>
                if (last <=? first)%nat then Raise ValueError
                else
                  let json_str :=
                    strip (slice raw (Z.of_nat first) (Z.of_nat last + 1)) in
                  let json_str :=
                    match rfind fence json_str with
                    | Some trailing_backtick =>
                        strip (slice json_str 0 (Z.of_nat trailing_backtick))
                    | None => json_str
                    end in
                  match json_loads json_str with
                  | Some v => Ok v
                  | None => Raise ValueError
                  end
            | _, _ => Raise ValueError
            end
        end
    end.

(** *** The recovery strategy in the words of the specification *)

(** (1) the whole trimmed string, when it starts and ends with braces *)
Definition attempt_whole (s : str) : option pyval :=
  if startswith [lbrace] s && endswith [rbrace] s then json_loads s else None.

(** (2) the contents of the first fenced code block *)
Definition attempt_fenced (s : str) : option pyval :=
  g ← code_block_search s; json_loads (strip g).

(** (3) from the first '{' to the last '}', cut at a stray fence *)
Definition braces_substring (s : str) : option str :=
  first ← find [lbrace] s;
  last ← rfind [rbrace] s;
  if (last <=? first)%nat then None
  else
    let sub := strip (slice s (Z.of_nat first) (Z.of_nat last + 1)) in
    Some (match rfind fence sub with
          | Some i => strip (slice sub 0 (Z.of_nat i))
          | None => sub
          end).

Definition attempt_braces (s : str) : option pyval :=
  sub ← braces_substring s; json_loads sub.

Fixpoint first_success (attempts : list (option pyval)) : option pyval :=
  match attempts with
  | [] => None
  | Some v :: _ => Some v
  | None :: rest => first_success rest
  end.

Definition parseJson_spec (raw : option str) : Result pyval :=
  let s := strip (default [] raw) in
  match first_success [attempt_whole s; attempt_fenced s; attempt_braces s] with
  | Some v => Ok v
  | None => Raise ValueError
  end.

End ParseJson.

(** The sample inputs of the specification: [{"a":1}] bare, padded, in a
    fenced block and inside prose. *)
Definition dq : str := [34%N].
Definition obj_a1 : str := lit "{" ++ dq ++ lit "a" ++ dq ++ lit ":1}".
Definition prose_a1 : str := lit "Here it is: " ++ obj_a1 ++ lit " as asked.".

(** A stand-in for [json.loads] that knows this one document. *)
Definition loads_a1 (s : str) : option pyval :=
  if eqb s obj_a1 then Some (PDict [(lit "a", PInt 1)]) else None.

End LlmClient.

(* ===================================================================== *)
(** ** Library functions of Python the services call *)
(* ===================================================================== *)

Record PyLib := {
  json_loads : str -> option pyval;   (* [json.loads], [None] when it raises *)
  json_dumps : pyval -> str;          (* [json.dumps(v, ensure_ascii=False)] *)
  repr_other : pyval -> str;          (* [str(v)] of a float, list or dict *)
  int_of_str : str -> option Z;       (* [int(s)], [None] when it raises *)
  float_of_str : str -> option Q;     (* [float(s)], [None] when it raises *)
  dict_of_list : list pyval -> Result dict;   (* [dict(l)] of a list *)
}.

(** [str(v)] *)
Definition py_str (lib : PyLib) (v : pyval) : str :=
  match v with
  | PStr s => s
  | PNone => lit "None"
  | PBool true => lit "True"
  | PBool false => lit "False"
  | PInt z => str_of_Z z
  | _ => repr_other lib v
  end.

(** The receiver of [.get] / [.setdefault]: anything but a [dict] has no
    such attribute. *)
Definition as_dict (v : pyval) : Result dict :=
  match v with
  | PDict d => Ok d
  | _ => Raise AttributeError
  end.

(* ===================================================================== *)
(** ** services/llm/firstRefine.py *)
(* ===================================================================== *)

Module FirstRefine.
Import LlmClient.

(** [TextBlock] of services/schemas/pdfSchemas.py. *)
Record TextBlock := {
  tb_page : Z;
  tb_block_id : str;
  tb_bbox : Q * Q * Q * Q;
  tb_text : option str;
  tb_prob : option Q;
}.

Section WithWorld.

Variables (w : World) (lib : PyLib).

Local Open Scope py_scope.

Definition _safeCleanText (raw_text : str) : M str :=
  let text := strip raw_text in
  if is_empty text then ret raw_text
  else
    let payload :=
      json_dumps lib (PDict [(lit "raw_text", PStr raw_text)]) in
    called <~ try_except
                (raw_content <~ callQwen w 0 payload ; ret (Some raw_content))
                (fun _ => ret None) ;
    match called with
    | None => ret raw_text
    | Some raw_content =>
        try_except
          (data <~ lift (parseJson (json_loads lib) (Some raw_content)) ;
           d <~ lift (as_dict data) ;
           let cleaned :=
             strip (py_str lib (get_or (lit "cleaned_text") (PStr []) d)) in
           if is_empty cleaned then ret raw_text else ret cleaned)
          (fun _ => ret raw_text)
    end.

Definition cleanOcrTextRaw (raw_text : str) : M str := _safeCleanText raw_text.

(** The [for idx, block in enumerate(blocks)] loop. *)
Fixpoint clean_loop (blocks : list TextBlock) : M (list TextBlock) :=
  match blocks with
  | [] => ret []
  | block :: rest =>
      let original_text := default [] (tb_text block) in
      let stripped := strip original_text in
      if is_empty stripped then
        cleaned_blocks <~ clean_loop rest ;
        ret (block :: cleaned_blocks)
      else
        cleaned_text <~ _safeCleanText original_text ;
        let cleaned_block :=
          {| tb_page := tb_page block;
             tb_block_id := tb_block_id block;
             tb_bbox := tb_bbox block;
             tb_text := Some cleaned_text;
             tb_prob := tb_prob block |} in
        cleaned_blocks <~ clean_loop rest ;
        ret (cleaned_block :: cleaned_blocks)
  end.

Definition cleanOcrTextBlocks (blocks : list TextBlock) : M (list TextBlock) :=
  match blocks with
  | [] => ret blocks
  | _ => clean_loop blocks
  end.

(** *** The failures of the per-block call, as the specification lists them *)

Definition payload_of (text : str) : str :=
  json_dumps lib (PDict [(lit "raw_text", PStr text)]).


End WithWorld.

End FirstRefine.

(* ===================================================================== *)
(** ** services/retrieval/search.py *)
(* ===================================================================== *)

Module Search.

(** *** The vector store (Chroma), as far as the retrieval code uses it *)

(** The leaves of a [where] filter; a filter is their conjunction. *)
Inductive cond :=
| ChatbotIdEq (v : str)        (* {"chatbot_id": {"$eq": v}} *)
| UserGroupEq (v : str)        (* {"user_group": {"$eq": v}} *)
| DocumentIdEq (v : str)       (* {"document_id": {"$eq": v}} *)
| OrderIndexGte (z : Z)        (* {"order_index": {"$gte": z}} *)
| OrderIndexLte (z : Z).       (* {"order_index": {"$lte": z}} *)

Definition str_field_is (f : option str) (v : str) : bool :=
  match f with Some s => eqb s v | None => false end.

Definition satisfies_cond (m : StoreMeta) (c : cond) : bool :=
  match c with
  | ChatbotIdEq v => str_field_is (sm_chatbot_id m) v
  | UserGroupEq v => str_field_is (sm_user_group m) v
  | DocumentIdEq v => str_field_is (sm_document_id m) v
  | OrderIndexGte z =>
      match sm_order_index m with Some i => z <=? i | None => false end
  | OrderIndexLte z =>
      match sm_order_index m with Some i => i <=? z | None => false end
  end.

Definition satisfies (wh : list cond) (r : StoreRecord) : bool :=
  forallb (satisfies_cond (rec_meta r)) wh.

(** Stable insertion sort: the order Python's [sorted] / [list.sort] give. *)
Fixpoint insert_by {A} (le : A -> A -> bool) (x : A) (l : list A) : list A :=
  match l with
  | [] => [x]
  | y :: rest => if le x y then x :: l else y :: insert_by le x rest
  end.

Fixpoint sort_by {A} (le : A -> A -> bool) (l : list A) : list A :=
  match l with
  | [] => []
  | x :: rest => insert_by le x (sort_by le rest)
  end.

(** What [col.query] and [col.get] return: parallel lists. *)
Record QueryReply := {
  q_ids : list str;
  q_documents : list str;
  q_metadatas : list StoreMeta;
  q_distances : list Q;
}.

Record GetReply := {
  g_ids : list str;
  g_documents : list str;
  g_metadatas : list StoreMeta;
}.

(** [col.query(query_embeddings=[v], n_results=topK, where=wh)]: the
    [topK] matching records nearest to the query. *)
Definition col_query (col : list StoreRecord) (dist : StoreRecord -> Q)
    (topK : Z) (wh : list cond) : QueryReply :=
  let hits :=
    take (Z.to_nat topK)
         (sort_by (fun a b => Qle_bool (dist a) (dist b))
                  (filter (fun r => satisfies wh r = true) col)) in
  {| q_ids := rec_id <$> hits;
     q_documents := rec_document <$> hits;
     q_metadatas := rec_meta <$> hits;
     q_distances := dist <$> hits |}.

(** [col.get(where=wh)] *)
Definition col_get (col : list StoreRecord) (wh : list cond) : GetReply :=
  let hits := filter (fun r => satisfies wh r = true) col in
  {| g_ids := rec_id <$> hits;
     g_documents := rec_document <$> hits;
     g_metadatas := rec_meta <$> hits |}.

(** *** The code of search.py *)

(** The dictionary [_buildMeta] returns. *)
Record Meta := {
  filename : option str;
  page : Z;
  document_id : option str;
  manual_id : option str;
  chatbot_id : option str;
  process_tag : option str;
  user_group_tags : option str;     (* [None]: the default, an empty list *)
  image_paths : option str;         (* [None]: the default, an empty list *)
  order_index : option Z;
  page_chunk_order : option Z;
}.

(** A returned chunk: [{"chunk_id", "text", "score", "meta"}]. *)
Record Chunk := {
  chunk_id : option str;
  text : str;
  score : Q;
  meta : Meta;
}.

(** [bool(s)] and [a or b] on optional strings. *)
Definition truthy_str (s : option str) : bool :=
  match s with Some (_ :: _) => true | _ => false end.

Definition or_str (a b : option str) : option str :=
  if truthy_str a then a else b.

Definition _buildWhere (chatbotId : str) (userGroup : option str) : list cond :=
  let filters := [ChatbotIdEq chatbotId] in
  match userGroup with
  | Some (c :: g) => filters ++ [UserGroupEq (c :: g)]
  | _ => filters
  end.

Definition _buildMeta (metaRaw : StoreMeta) : Meta :=
  let documentId := or_str (sm_document_id metaRaw) (sm_manual_id metaRaw) in
  {| filename := sm_filename metaRaw;
     page := default 0 (sm_page metaRaw);
     document_id := documentId;
     manual_id := or_str (sm_manual_id metaRaw) documentId;
     chatbot_id := sm_chatbot_id metaRaw;
     process_tag := sm_process_tag metaRaw;
     user_group_tags := sm_user_group_tags metaRaw;
     image_paths := sm_image_paths metaRaw;
     order_index := sm_order_index metaRaw;
     page_chunk_order := sm_page_chunk_order metaRaw |}.

(** The empty metadata dictionary [{}]. *)
Definition no_meta : StoreMeta :=
  {| sm_chunk_id := None; sm_document_id := None; sm_manual_id := None;
     sm_chatbot_id := None; sm_user_group := None;
     sm_user_group_tags := None; sm_order_index := None;
     sm_page_chunk_order := None; sm_page := None; sm_filename := None;
     sm_process_tag := None; sm_image_paths := None |}.

(** [chunkId = metaRaw.get("chunk_id")], falling back on the store id. *)
Definition pick_chunk_id (metaRaw : StoreMeta) (ids : list str) (idx : nat)
  : option str :=
  let chunkId := sm_chunk_id metaRaw in
  if negb (truthy_str chunkId) then
    match ids !! idx with
    | Some i => Some i
    | None => chunkId
    end
  else chunkId.

(** [1.0 / (1.0 + dist)], 0.0 when the division raises. *)
Definition score_of (distances : list Q) (idx : nat) : Q :=
  match distances !! idx with
  | Some dist =>
      if Qeq_bool (1 + dist) 0 then 0%Q else (1 / (1 + dist))%Q
  | None => 0%Q
  end.

(** The [for idx, doc in enumerate(documents)] loop of [searchTopK]. *)
Fixpoint base_chunks (reply : QueryReply) (idx : nat) (documents : list str)
  : list Chunk :=
  match documents with
  | [] => []
  | doc :: rest =>
      let metaRaw := default no_meta (q_metadatas reply !! idx) in
      {| chunk_id := pick_chunk_id metaRaw (q_ids reply) idx;
         text := doc;
         score := score_of (q_distances reply) idx;
         meta := _buildMeta metaRaw |}
        :: base_chunks reply (S idx) rest
  end.

Section WithWorld.

Variable w : World.

Definition searchTopK (normalizedQuery chatbotId : str)
    (userGroup : option str) (topK : Z) : M (list Chunk) :=
  fun tr =>
    match collection w tr chatbotId with
    | None => (Ok [], tr)
    | Some col =>
        let tr1 := tr ++ [EvEmbed normalizedQuery] in
        match embed_distance w tr normalizedQuery with
        | None => (Ok [], tr1)
        | Some dist =>
            let where_ := _buildWhere chatbotId userGroup in
            let tr2 := tr1 ++ [EvQuery chatbotId userGroup topK] in
            if query_fails w tr1 then (Ok [], tr2)
            else
              let result := col_query col dist topK where_ in
              (Ok (base_chunks result 0 (q_documents result)), tr2)
        end
    end.

(** [range(-neighborRadius, neighborRadius + 1)] without 0, added to the
    order index. *)
Definition neighbor_orders (neighborRadius order_index : Z) : list Z :=
  (fun d => order_index + d)
    <$> filter (fun d => d <> 0) (seqZ (- neighborRadius) (2 * neighborRadius + 1)).

(** [doc_to_target_orders.setdefault(doc_id, set())] followed by the
    [add]s; the dictionary keeps its keys in insertion order. *)
Fixpoint add_targets (doc_id : str) (orders : list Z)
    (d : list (str * gset Z)) : list (str * gset Z) :=
  match d with
  | [] => [(doc_id, list_to_set orders)]
  | (k, s) :: rest =>
      if eqb k doc_id then (k, s ∪ list_to_set orders) :: rest
      else (k, s) :: add_targets doc_id orders rest
  end.

(** The first loop of [searchTopKWithNeighbors], over the base hits. *)
Fixpoint collect_targets (neighborRadius : Z) (baseChunks : list Chunk)
    (doc_to_target_orders : list (str * gset Z)) (seen_ids : gset (list N))
  : list (str * gset Z) * gset (list N) :=
  match baseChunks with
  | [] => (doc_to_target_orders, seen_ids)
  | ch :: rest =>
      let seen_ids :=
        match chunk_id ch with
        | Some (c :: id) => {[ c :: id ]} ∪ seen_ids
        | _ => seen_ids
        end in
      match document_id (meta ch), order_index (meta ch) with
      | Some doc_id, Some oi =>
          collect_targets neighborRadius rest
            (add_targets doc_id (neighbor_orders neighborRadius oi)
                         doc_to_target_orders)
            seen_ids
      | _, _ =>
          collect_targets neighborRadius rest doc_to_target_orders seen_ids
      end
  end.

(** [min(order_set)], [max(order_set)] *)
Definition set_min (s : gset Z) : Z :=
  match elements s with
  | [] => 0
  | x :: l => foldr Z.min x l
  end.

Definition set_max (s : gset Z) : Z :=
  match elements s with
  | [] => 0
  | x :: l => foldr Z.max x l
  end.

(** The [for idx, doc in enumerate(documents)] loop over one reply of
    [col.get]; returns the neighbors it appends and the ids seen. *)
Fixpoint neighbor_loop (res : GetReply) (order_set : gset Z) (idx : nat)
    (documents : list str) (seen_ids : gset (list N))
  : list Chunk * gset (list N) :=
  match documents with
  | [] => ([], seen_ids)
  | doc :: rest =>
      let metaRaw := default no_meta (g_metadatas res !! idx) in
      match sm_order_index metaRaw with
      | None => neighbor_loop res order_set (S idx) rest seen_ids
      | Some oi =>
          if negb (bool_decide (oi ∈ order_set)) then
            neighbor_loop res order_set (S idx) rest seen_ids
          else
            let chunkId := pick_chunk_id metaRaw (g_ids res) idx in
            if truthy_str chunkId && bool_decide (default [] chunkId ∈ seen_ids)
            then neighbor_loop res order_set (S idx) rest seen_ids
            else
              let seen_ids :=
                if truthy_str chunkId
                then {[ default [] chunkId ]} ∪ seen_ids else seen_ids in
              let neighbor :=
                {| chunk_id := chunkId;
                   text := doc;
                   score := 0%Q;
                   meta := _buildMeta metaRaw |} in
              let (more, seen_ids) :=
                neighbor_loop res order_set (S idx) rest seen_ids in
              (neighbor :: more, seen_ids)
      end
  end.

(** The loop over [doc_to_target_orders.items()]. *)
Fixpoint fetch_neighbors (chatbotId : str) (col : list StoreRecord)
    (items : list (str * gset Z)) (seen_ids : gset (list N))
  : M (list Chunk) :=
  match items with
  | [] => ret []
  | (doc_id, order_set) :: rest =>
      if bool_decide (order_set = ∅) then
        fetch_neighbors chatbotId col rest seen_ids
      else
        let min_idx := set_min order_set in
        let max_idx := set_max order_set in
        fun tr =>
          let tr' := tr ++ [EvGet chatbotId doc_id min_idx max_idx] in
          if get_fails w tr then
            fetch_neighbors chatbotId col rest seen_ids tr'
          else
            let res :=
              col_get col [DocumentIdEq doc_id; OrderIndexGte min_idx;
                           OrderIndexLte max_idx] in
            let (found, seen_ids) :=
              neighbor_loop res order_set 0 (g_documents res) seen_ids in
            bind (fetch_neighbors chatbotId col rest seen_ids)
                 (fun more => ret (found ++ more)) tr'
  end.

(** The sort key of the neighbors:
    [(document_id or "", order_index if order_index is not None else -1)]. *)
Definition neighbor_key (ch : Chunk) : str * Z :=
  (default [] (or_str (document_id (meta ch)) (Some [])),
   default (-1) (order_index (meta ch))).

Definition key_le (a b : str * Z) : bool :=
  match compare (fst a) (fst b) with
  | Lt => true
  | Eq => snd a <=? snd b
  | Gt => false
  end.

Definition neighbor_le (a b : Chunk) : bool :=
  key_le (neighbor_key a) (neighbor_key b).

Definition searchTopKWithNeighbors (normalizedQuery chatbotId : str)
    (userGroup : option str) (topK neighborRadius : Z) : M (list Chunk) :=
  bind (searchTopK normalizedQuery chatbotId userGroup topK) (fun baseChunks =>
  match baseChunks with
  | [] => ret baseChunks
  | _ =>
      if neighborRadius <=? 0 then ret baseChunks
      else fun tr =>
        match collection w tr chatbotId with
        | None => (Ok baseChunks, tr)
        | Some col =>
            let (doc_to_target_orders, seen_ids) :=
              collect_targets neighborRadius baseChunks [] ∅ in
            bind (fetch_neighbors chatbotId col doc_to_target_orders seen_ids)
                 (fun neighborChunks =>
                    ret (baseChunks ++ sort_by neighbor_le neighborChunks)) tr
        end
  end).

End WithWorld.

(** *** Vocabulary of the retrieval properties *)

(** The chunk id of a chunk when it has a non-empty one. *)
Definition truthy_id (ch : Chunk) : option (list N) :=
  if truthy_str (chunk_id ch) then chunk_id ch else None.

Definition chunk_ids (l : list Chunk) : list (list N) := omap truthy_id l.

(** The chunk built from a stored record as a neighbor. *)
Definition stored_as (ch : Chunk) (r : StoreRecord) : Prop :=
  meta ch = _buildMeta (rec_meta r) /\ text ch = rec_document r.


(** The replies of the store for a list of matching records. *)
Definition reply_of (hits : list StoreRecord) : GetReply :=
  {| g_ids := rec_id <$> hits;
     g_documents := rec_document <$> hits;
     g_metadatas := rec_meta <$> hits |}.

Definition query_reply_of (hits : list StoreRecord) (dist : StoreRecord -> Q)
  : QueryReply :=
  {| q_ids := rec_id <$> hits;
     q_documents := rec_document <$> hits;
     q_metadatas := rec_meta <$> hits;
     q_distances := dist <$> hits |}.

End Search.

(* ===================================================================== *)
(** ** services/llm/queryRefine.py *)
(* ===================================================================== *)

(** [len(v)] *)
Definition py_len (v : pyval) : Result Z :=
  match v with
  | PStr s => Ok (Z.of_nat (length s))
  | PList l => Ok (Z.of_nat (length l))
  | PDict d => Ok (Z.of_nat (length d))
  | _ => Raise TypeError
  end.

Definition opt_str (s : option str) : pyval :=
  match s with Some s => PStr s | None => PNone end.

Module QueryRefine.
Import LlmClient.

(** [QueryRefineResult] of services/schemas/querySchemas.py. *)
Record QueryRefineResult := {
  normalized_query : str;
  keywords : list str;
  filters : dict;
  meta : dict;
}.

Definition _defaultFilters : dict :=
  [ (lit "doc_type", PNone); (lit "section_hint", PNone);
    (lit "target_group", PNone); (lit "manual_tags", PList []) ].

Section WithWorld.

Variables (w : World) (lib : PyLib).

Local Open Scope py_scope.

Definition refine_payload (question chatbotId : str) (userGroup : option str)
  : str :=
  json_dumps lib
    (PDict [ (lit "question", PStr question);
             (lit "chatbot_id", PStr chatbotId);
             (lit "user_group", opt_str userGroup) ]).

Definition refine_fallback (question : str) : QueryRefineResult :=
  {| normalized_query := question;
     keywords := [];
     filters := _defaultFilters;
     meta := [(lit "original_query", PStr question)] |}.

Definition refineQuery (question chatbotId : str) (userGroup : option str)
  : M QueryRefineResult :=
  raw <~ callQwen w 1 (refine_payload question chatbotId userGroup) ;
  match parseJson (json_loads lib) (Some raw) with
  | Raise _ => ret (refine_fallback question)
  | Ok data =>
      data <~ lift (as_dict data) ;
      let normalizedQuery :=
        get_or (lit "normalized_query") (PStr question) data in
      let keywords := por (get_or (lit "keywords") (PList []) data) (PList []) in
      filters <~ lift (as_dict (por (get (lit "filters") data) (PDict []))) ;
      meta <~ lift (as_dict (por (get (lit "meta") data) (PDict []))) ;
      let filters := setdefault (lit "doc_type") PNone filters in
      let filters := setdefault (lit "section_hint") PNone filters in
      let filters := setdefault (lit "target_group") PNone filters in
      let filters := setdefault (lit "manual_tags") (PList []) filters in
      let meta := setdefault (lit "original_query") (PStr question) meta in
      let meta := setdefault (lit "in_scope") (PBool true) meta in
      let safetyMeta :=
        match por (get (lit "safety") meta) (PDict []) with
        | PDict s => s
        | _ => []
        end in
      let safetyMeta :=
        setdefault (lit "block_required") (PBool false) safetyMeta in
      let safetyMeta :=
        setdefault (lit "category") (PStr (lit "unknown")) safetyMeta in
      let safetyMeta := setdefault (lit "reason") PNone safetyMeta in
      let meta := PyVal.set (lit "safety") (PDict safetyMeta) meta in
      let keywords :=
        match keywords with
        | PList l => l
        | v => [PStr (py_str lib v)]
        end in
      (* the arguments of [logger.info]: [len(normalizedQuery or "")] *)
      _ <~ lift (py_len (por normalizedQuery (PStr []))) ;
      ret {| normalized_query := py_str lib normalizedQuery;
             keywords := py_str lib <$> keywords;
             filters := filters;
             meta := meta |}
  end.

End WithWorld.

End QueryRefine.

(* ===================================================================== *)
(** ** services/llm/answerGeneration.py *)
(* ===================================================================== *)

(** [float(v)] *)
Definition py_float (lib : PyLib) (v : pyval) : Result Q :=
  match v with
  | PFloat q => Ok q
  | PInt z => Ok (inject_Z z)
  | PBool b => Ok (if b then 1%Q else 0%Q)
  | PStr s =>
      match float_of_str lib s with
      | Some q => Ok q
      | None => Raise ValueError
      end
  | _ => Raise TypeError
  end.

(** [dict(v)] *)
Definition py_dict (lib : PyLib) (v : pyval) : Result dict :=
  match v with
  | PDict d => Ok d
  | PList l => dict_of_list lib l
  | PStr _ => Raise ValueError
  | _ => Raise TypeError
  end.

Definition result_bind {A B} (r : Result A) (k : A -> Result B) : Result B :=
  match r with
  | Ok a => k a
  | Raise e => Raise e
  end.

Fixpoint result_map {A B} (f : A -> Result B) (l : list A) : Result (list B) :=
  match l with
  | [] => Ok []
  | x :: rest =>
      result_bind (f x) (fun y =>
      result_bind (result_map f rest) (fun ys => Ok (y :: ys)))
  end.

Module AnswerGeneration.
Import LlmClient Search.

Definition MAX_SUPPORTING_CHUNKS_IN_RESULT : nat := 5.

(** [QueryContextChunk], [RagMeta] and [AnswerResult] of
    services/schemas/querySchemas.py. *)
Record QueryContextChunk := {
  qc_chunk_id : pyval;
  qc_text : str;
  qc_score : Q;
  qc_meta : dict;
}.

Record RagMeta := {
  retrieval_confidence : str;
  intent_ambiguity_level : str;
  need_clarification : bool;
}.

Record AnswerResult := {
  answer : str;
  supporting_chunks : list QueryContextChunk;
  meta : RagMeta;
}.

(** The dictionary a [Meta] stands for. *)
Definition opt_int (z : option Z) : pyval :=
  match z with Some z => PInt z | None => PNone end.

Definition opt_str_or_list (s : option str) : pyval :=
  match s with Some s => PStr s | None => PList [] end.

Definition meta_dict (m : Search.Meta) : dict :=
  [ (lit "filename", opt_str (filename m));
    (lit "page", PInt (page m));
    (lit "document_id", opt_str (document_id m));
    (lit "manual_id", opt_str (manual_id m));
    (lit "chatbot_id", opt_str (chatbot_id m));
    (lit "process_tag", opt_str (process_tag m));
    (lit "user_group_tags", opt_str_or_list (user_group_tags m));
    (lit "image_paths", opt_str_or_list (image_paths m));
    (lit "order_index", opt_int (order_index m));
    (lit "page_chunk_order", opt_int (page_chunk_order m)) ].

(** A chunk of the search as the dictionary it is. *)
Definition chunk_dict (c : Chunk) : pyval :=
  PDict [ (lit "chunk_id", opt_str (chunk_id c));
          (lit "text", PStr (text c));
          (lit "score", PFloat (score c));
          (lit "meta", PDict (meta_dict (Search.meta c))) ].

(** [QueryContextChunk(chunk_id=c.get("chunk_id"), text=str(c.get("text")
    or ""), score=float(c.get("score") or 0.0), meta=dict(c.get("meta") or
    {}))] for a chunk of the search. *)
Definition context_chunk (c : Chunk) : QueryContextChunk :=
  {| qc_chunk_id := opt_str (chunk_id c);
     qc_text := text c;
     qc_score := score c;
     qc_meta := meta_dict (Search.meta c) |}.

(** [sorted(chunks, key=lambda c: float(c.get("score") or 0.0),
    reverse=True)] *)
Definition score_ge (a b : Chunk) : bool := Qle_bool (score b) (score a).

Definition by_score_desc (chunks : list Chunk) : list Chunk :=
  sort_by score_ge chunks.

Definition FALLBACK_ANSWER : str :=
  lit "답변 생성 중 오류가 발생했습니다. 잠시 후 다시 시도해 주세요."
  ++ [10%N]
  ++ lit "이 챗봇은 문서에 근거하지 않은 내용을 임의로 생성하지 않습니다.".

Definition _fallbackAnswer (question : str) (chunks : list Chunk)
    (retrievalConfidence intentAmbiguityLevel : str) : AnswerResult :=
  let limitedChunks :=
    take MAX_SUPPORTING_CHUNKS_IN_RESULT (by_score_desc chunks) in
  {| answer := FALLBACK_ANSWER;
     supporting_chunks := context_chunk <$> limitedChunks;
     meta := {| retrieval_confidence := retrievalConfidence;
                intent_ambiguity_level := intentAmbiguityLevel;
                need_clarification := false |} |}.

Section WithWorld.

Variables (w : World) (lib : PyLib).

Local Open Scope py_scope.

Definition _buildInputObject (question normalizedQuery : str)
    (keywords : list str) (filters : dict)
    (retrievalConfidence intentAmbiguityLevel : str)
    (contextChunks : list Chunk) : pyval :=
  PDict [ (lit "question", PStr question);
          (lit "normalized_query", PStr normalizedQuery);
          (lit "keywords", PList (PStr <$> keywords));
          (lit "filters", PDict filters);
          (lit "retrieval_confidence", PStr retrievalConfidence);
          (lit "intent_ambiguity_level", PStr intentAmbiguityLevel);
          (lit "context_chunks", PList (chunk_dict <$> contextChunks)) ].

(** *** Supporting chunks the model returned itself *)

(** The key of the sort: [float(c.get("score") or 0.0)]. *)
Definition score_key (c : pyval) : Result Q :=
  result_bind (as_dict c) (fun d =>
  py_float lib (por (get (lit "score") d) (PFloat 0))).

(** The items [sorted] iterates over. *)
Definition iter_items (v : pyval) : Result (list pyval) :=
  match v with
  | PList l => Ok l
  | PStr s => Ok ((fun c => PStr [c]) <$> s)
  | PDict d => Ok ((fun kv => PStr (fst kv)) <$> d)
  | _ => Raise TypeError
  end.

(** [rawChunks[:MAX_SUPPORTING_CHUNKS_IN_RESULT]], then iterated. *)
Definition first_items (v : pyval) : Result (list pyval) :=
  match v with
  | PList l => Ok (take MAX_SUPPORTING_CHUNKS_IN_RESULT l)
  | PStr s => Ok ((fun c => PStr [c]) <$> take MAX_SUPPORTING_CHUNKS_IN_RESULT s)
  | _ => Raise TypeError
  end.

Definition limited_items (rawChunks : pyval) : Result (list pyval) :=
  match
    result_bind (iter_items rawChunks) (fun items =>
    result_bind (result_map score_key items) (fun keys =>
    Ok (take MAX_SUPPORTING_CHUNKS_IN_RESULT
          (snd <$> sort_by (fun a b => Qle_bool (fst b) (fst a))
                           (zip keys items)))))
  with
  | Ok l => Ok l
  | Raise _ => first_items rawChunks
  end.

Definition context_chunk_of (c : pyval) : Result QueryContextChunk :=
  result_bind (as_dict c) (fun d =>
  result_bind (py_float lib (por (get (lit "score") d) (PFloat 0)))
    (fun score =>
  result_bind (py_dict lib (por (get (lit "meta") d) (PDict [])))
    (fun meta =>
  Ok {| qc_chunk_id := get (lit "chunk_id") d;
        qc_text := py_str lib (por (get (lit "text") d) (PStr []));
        qc_score := score;
        qc_meta := meta |}))).

Definition answer_payload (question normalizedQuery : str)
    (keywords : list str) (filters : dict)
    (retrievalConfidence intentAmbiguityLevel : str)
    (contextChunks : list Chunk) : str :=
  json_dumps lib
    (_buildInputObject question normalizedQuery keywords filters
       retrievalConfidence intentAmbiguityLevel contextChunks).

Definition generateAnswerWithContext (question normalizedQuery : str)
    (keywords : list str) (filters : dict)
    (retrievalConfidence intentAmbiguityLevel : str)
    (contextChunks : list Chunk) : M AnswerResult :=
  raw <~ callQwen w 2
           (answer_payload question normalizedQuery keywords filters
              retrievalConfidence intentAmbiguityLevel contextChunks) ;
  let fallback :=
    _fallbackAnswer question contextChunks retrievalConfidence
                    intentAmbiguityLevel in
  match parseJson (json_loads lib) (Some raw) with
  | Raise _ => ret fallback
  | Ok data =>
      data <~ lift (as_dict data) ;
      let answerText :=
        strip (py_str lib (por (get (lit "answer") data) (PStr []))) in
      if is_empty answerText then ret fallback
      else
        let answerable :=
          truthy (get_or (lit "answerable") (PBool true) data) in
        let safetyBlocked :=
          truthy (get_or (lit "safety_blocked") (PBool false) data) in
        let rawChunks := get (lit "supporting_chunks") data in
        rawMeta <~ lift (as_dict (por (get (lit "meta") data) (PDict []))) ;
        let rawMeta :=
          setdefault (lit "retrieval_confidence") (PStr retrievalConfidence)
                     rawMeta in
        let rawMeta :=
          setdefault (lit "intent_ambiguity_level")
                     (PStr intentAmbiguityLevel) rawMeta in
        let rawMeta :=
          setdefault (lit "need_clarification") (PBool false) rawMeta in
        let rawMeta := setdefault (lit "answerable") (PBool answerable) rawMeta in
        let rawMeta :=
          setdefault (lit "safety_blocked") (PBool safetyBlocked) rawMeta in
        let meta :=
          {| retrieval_confidence :=
               py_str lib (por (get (lit "retrieval_confidence") rawMeta)
                               (PStr (lit "unknown")));
             intent_ambiguity_level :=
               py_str lib (por (get (lit "intent_ambiguity_level") rawMeta)
                               (PStr (lit "unknown")));
             need_clarification :=
               truthy (por (get (lit "need_clarification") rawMeta)
                           (PBool false)) |} in
        ctxChunks <~ lift
          (if truthy rawChunks then
             result_bind (limited_items rawChunks)
                         (result_map context_chunk_of)
           else
             Ok (context_chunk
                   <$> take MAX_SUPPORTING_CHUNKS_IN_RESULT
                            (by_score_desc contextChunks))) ;
        ret {| answer := answerText;
               supporting_chunks := ctxChunks;
               meta := meta |}
  end.

End WithWorld.

End AnswerGeneration.

(* ===================================================================== *)
(** ** services/queryService.py *)
(* ===================================================================== *)

Module QueryService.
Import LlmClient Search QueryRefine AnswerGeneration.

Definition MIN_CONFIDENCE_LEVEL_FOR_ANSWER : str := lit "low".
Definition CONFIDENCE_ORDER : list str :=
  [lit "unknown"; lit "low"; lit "medium"; lit "high"].
Definition MAX_CONTEXT_CHUNKS_FOR_LLM : nat := 10.

(** [l.index(x)], [None] for the [ValueError]. *)
Fixpoint index_of (x : str) (l : list str) : option nat :=
  match l with
  | [] => None
  | y :: rest => if eqb x y then Some O else S <$> index_of x rest
  end.

Definition _confidenceBelowMinimum (level : str) : bool :=
  match index_of level CONFIDENCE_ORDER,
        index_of MIN_CONFIDENCE_LEVEL_FOR_ANSWER CONFIDENCE_ORDER with
  | Some i, Some j => (i <? j)%nat
  | _, _ => true
  end.

(** The float literals 0.85, 0.65 and 0.40: the doubles nearest to them. *)
Definition SCORE_HIGH : Q := 7656119366529843 # 9007199254740992.
Definition SCORE_MEDIUM : Q := 5854679515581645 # 9007199254740992.
Definition SCORE_LOW : Q := 3602879701896397 # 9007199254740992.

Definition _estimateRetrievalConfidence (maxScore : Q) : str :=
  if Qle_bool SCORE_HIGH maxScore then lit "high"
  else if Qle_bool SCORE_MEDIUM maxScore then lit "medium"
  else if Qle_bool SCORE_LOW maxScore then lit "low"
  else lit "unknown".

Definition _analyzeIntentAmbiguity (numChunks : nat) : str :=
  if (numChunks =? 0)%nat then lit "high"
  else if (numChunks <=? 2)%nat then lit "medium"
  else lit "low".

(** [max(scores, default=0.0)] *)
Definition max_score (scores : list Q) : Q :=
  match scores with
  | [] => 0%Q
  | s :: rest => fold_left (fun m x => if Qle_bool x m then m else x) rest s
  end.

(** *** [_collectImagesFromChunks] *)

(** [os.path.splitext(p)[0]] *)
Fixpoint has_other_than_dot (s : str) : bool :=
  match s with
  | [] => false
  | c :: rest => negb (c =? 46)%N || has_other_than_dot rest
  end.

Definition splitext_root (p : str) : str :=
  match rfind [46%N] p with
  | None => p
  | Some dotIndex =>
      let filenameIndex :=
        match rfind [47%N] p with Some sepIndex => S sepIndex | None => O end in
      if (filenameIndex <=? dotIndex)%nat
         && has_other_than_dot (take (dotIndex - filenameIndex)
                                     (drop filenameIndex p))
      then take dotIndex p
      else p
  end.

(** [s.split(sep, 1)] when [sep] occurs: the parts before and after its
    first occurrence. *)
Definition split_once (sep s : str) : option (str * str) :=
  match find sep s with
  | Some i => Some (take i s, drop (i + length sep) s)
  | None => None
  end.

(** One entry of [image_map]; [related_chunk_ids] is a set. *)
Record ImageInfo := {
  image_key : str;
  img_document_id : option str;
  img_page : Z;
  image_index : option Z;
  related_chunk_ids : list str;
}.

(** One element of the returned list. *)
Record Image := {
  i_image_key : str;
  i_document_id : option str;
  i_page : Z;
  i_image_index : option Z;
  i_url : str;
  i_related_chunk_ids : list str;
}.

Section Images.

Variable lib : PyLib.

(** The [try] block that decodes ["DOC123/p3_img1.png"]: the document id,
    the page and the image index, as far as it gets. *)
Definition parse_image_key (image_key : str)
  : option str * option Z * option Z :=
  match split_once [47%N] image_key with
  | None => (None, None, None)
  | Some (doc_part, file_part) =>
      let base := splitext_root file_part in
      match base with
      | 112%N :: body =>
          match split_once (lit "_img") body with
          | Some (page_str, img_str) =>
              match int_of_str lib page_str with
              | None => (Some doc_part, None, None)
              | Some page_from_name =>
                  (Some doc_part, Some page_from_name, int_of_str lib img_str)
              end
          | None => (Some doc_part, None, None)
          end
      | _ => (Some doc_part, None, None)
      end
  end.

(** The list [image_paths] decoded from the metadata of a chunk. *)
Definition decode_image_paths (raw_image_paths : str) : list str :=
  match json_loads lib raw_image_paths with
  | Some (PList decoded) =>
      omap (fun x => match x with
                     | PNone => None
                     | v => Some (py_str lib v)
                     end) decoded
  | _ => [raw_image_paths]
  end.

(** [image_map.setdefault(key, {...})] and the additions to the entry. *)
Fixpoint record_image (key : str) (fresh : ImageInfo) (chunk_id : option str)
    (image_map : list ImageInfo) : list ImageInfo :=
  let touch info :=
    {| image_key := image_key info;
       img_document_id := img_document_id info;
       img_page := img_page info;
       image_index := image_index info;
       related_chunk_ids :=
         match chunk_id with
         | Some (c :: id) => related_chunk_ids info ++ [c :: id]
         | _ => related_chunk_ids info
         end |} in
  match image_map with
  | [] => [touch fresh]
  | info :: rest =>
      if eqb (image_key info) key then touch info :: rest
      else info :: record_image key fresh chunk_id rest
  end.

Definition collect_from_chunk (image_map : list ImageInfo) (c : Chunk)
  : list ImageInfo :=
  match image_paths (Search.meta c) with
  | Some (ch :: raw) =>
      fold_left
        (fun image_map p =>
           let '(document_id, page_from_name, image_index) :=
             parse_image_key p in
           let page :=
             match page_from_name with
             | Some n => if n =? 0 then page (Search.meta c) else n
             | None => page (Search.meta c)
             end in
           record_image p
             {| image_key := p;
                img_document_id := document_id;
                img_page := page;
                image_index := image_index;
                related_chunk_ids := [] |}
             (chunk_id c) image_map)
        (decode_image_paths (ch :: raw)) image_map
  | _ => image_map
  end.

Definition _collectImagesFromChunks (chunks : list Chunk) : list Image :=
  (fun info =>
     {| i_image_key := image_key info;
        i_document_id := img_document_id info;
        i_page := img_page info;
        i_image_index := image_index info;
        i_url := lit "/pdf_images/" ++ image_key info;
        i_related_chunk_ids :=
          sort_by PyStr.leb (remove_dups (related_chunk_ids info)) |})
    <$> fold_left collect_from_chunk chunks [].

End Images.

(** *** [progressQuery] *)

(** [QueryResult] of services/schemas/querySchemas.py. *)
Record QueryResult := {
  qr_question : str;
  qr_normalized_query : str;
  qr_answer : str;
  qr_supporting_chunks : list QueryContextChunk;
  qr_retrieval_confidence : str;
  qr_intent_ambiguity_level : str;
  qr_need_clarification : bool;
  qr_latency_ms : Q;
  qr_images : list Image;
}.

Definition BLOCKED_ANSWER : str :=
  lit "이 챗봇은 업로드된 문서를 기반으로 한 업무 질의응답용입니다."
  ++ [10%N]
  ++ lit "해당 질문은 서비스 정책상 답변하지 않습니다.".

Definition LOW_CONFIDENCE_ANSWER : str :=
  lit "이 챗봇은 업로드된 문서를 기반으로만 답변합니다."
  ++ [10%N]
  ++ lit "현재 질문과 직접적으로 연관된 문서 내용을 찾지 못해, "
  ++ lit "임의로 추측해서 답변하지 않겠습니다.".

(** [bool(safetyMeta.get("block_required") or False)] for the [safety]
    entry of the refinement's [meta]. *)
Definition block_required (norm : QueryRefineResult) : Result bool :=
  let normMeta := QueryRefine.meta norm in
  result_bind (as_dict (por (get (lit "safety") normMeta) (PDict [])))
    (fun safetyMeta =>
       Ok (truthy (por (get (lit "block_required") safetyMeta)
                       (PBool false)))).

(** The key of the sort that prepares the context of the model:
    positive scores first, then document id, then order index. *)
Definition context_key (c : Chunk) : Z * str * Z :=
  (if Qle_bool (score c) 0 then 1 else 0,
   default [] (or_str (document_id (Search.meta c)) (Some [])),
   default (10 ^ 9) (order_index (Search.meta c))).

Definition context_le (a b : Chunk) : bool :=
  let '(pa, da, oa) := context_key a in
  let '(pb, db, ob) := context_key b in
  if pa <? pb then true
  else if pb <? pa then false
  else match compare da db with
       | Lt => true
       | Gt => false
       | Eq => oa <=? ob
       end.

Section WithWorld.

Variables (w : World) (lib : PyLib).

Local Open Scope py_scope.

(** [time.time()], in milliseconds. *)
Definition now : M Q := fun tr => (Ok (clock_ms w tr), tr).

Definition progressQuery (chatbotId : str) (question : option str)
    (userGroup : option str) (topK : Z) (debug : bool) : M QueryResult :=
  t0 <~ now ;
  let q := strip (default [] question) in
  if is_empty q then raise ValueError
  else
    (* 1) refinement *)
    norm <~ refineQuery w lib q chatbotId userGroup ;
    let normalizedQuery := normalized_query norm in
    blockRequired <~ lift (block_required norm) ;
    if (blockRequired : bool) then
      t1 <~ now ;
      ret {| qr_question := q;
             qr_normalized_query := normalizedQuery;
             qr_answer := BLOCKED_ANSWER;
             qr_supporting_chunks := [];
             qr_retrieval_confidence := lit "blocked";
             qr_intent_ambiguity_level := lit "high";
             qr_need_clarification := false;
             qr_latency_ms := (t1 - t0)%Q;
             qr_images := [] |}
    else
      (* 2) vector search with neighbors *)
      rawChunks <~ searchTopKWithNeighbors w normalizedQuery chatbotId
                     userGroup topK 2 ;
      let chunks := by_score_desc rawChunks in
      let maxScore := max_score (score <$> chunks) in
      let retrievalConfidence := _estimateRetrievalConfidence maxScore in
      let intentAmbiguityLevel := _analyzeIntentAmbiguity (length chunks) in
      (* 3) too little confidence *)
      if _confidenceBelowMinimum retrievalConfidence then
        t1 <~ now ;
        ret {| qr_question := q;
               qr_normalized_query := normalizedQuery;
               qr_answer := LOW_CONFIDENCE_ANSWER;
               qr_supporting_chunks := context_chunk <$> chunks;
               qr_retrieval_confidence := retrievalConfidence;
               qr_intent_ambiguity_level := intentAmbiguityLevel;
               qr_need_clarification := false;
               qr_latency_ms := (t1 - t0)%Q;
               qr_images := _collectImagesFromChunks lib chunks |}
      else
        (* 4) the context of the model *)
        let chunksForLLM := sort_by context_le chunks in
        let contextChunksForLLM :=
          take MAX_CONTEXT_CHUNKS_FOR_LLM chunksForLLM in
        let images := _collectImagesFromChunks lib contextChunksForLLM in
        (* 5) the answer *)
        answerResult <~ generateAnswerWithContext w lib q normalizedQuery
                          (keywords norm) (filters norm) retrievalConfidence
                          intentAmbiguityLevel contextChunksForLLM ;
        t1 <~ now ;
        ret {| qr_question := q;
               qr_normalized_query := normalizedQuery;
               qr_answer := answer answerResult;
               qr_supporting_chunks := supporting_chunks answerResult;
               qr_retrieval_confidence :=
                 retrieval_confidence (AnswerGeneration.meta answerResult);
               qr_intent_ambiguity_level :=
                 intent_ambiguity_level (AnswerGeneration.meta answerResult);
               qr_need_clarification :=
                 need_clarification (AnswerGeneration.meta answerResult);
               qr_latency_ms := (t1 - t0)%Q;
               qr_images := images |}.

End WithWorld.

(** *** Vocabulary of the pipeline properties *)

(** A call to the model for a task. *)
Definition is_llm_call (task_id : Z) (e : event) : bool :=
  match e with
  | EvLlm t _ => t =? task_id
  | _ => false
  end.

(** A call to the vector store or to the embedding server. *)
Definition is_search_call (e : event) : bool :=
  match e with
  | EvEmbed _ | EvQuery _ _ _ | EvGet _ _ _ _ => true
  | EvLlm _ _ => false
  end.

(** Events that are all search calls. *)
Definition search_events (evs : list event) : Prop :=
  Forall (fun e => is_search_call e = true) evs.

(** The keys of the image dictionary. *)
Definition image_keys (image_map : list ImageInfo) : list (list N) :=
  image_key <$> image_map.

(** A reply that makes [callQwen] raise: anything but a 200 with content. *)
Definition call_fails (r : http_reply) : Prop :=
  match r with
  | Response 200 (Content _) => False
  | _ => True
  end.

(** The reply to a call of the model carries output that [parseJson]
    rejects. *)
Definition unparseable (lib : PyLib) (r : http_reply) : Prop :=
  exists c e, r = Response 200 (Content c)
    /\ parseJson (json_loads lib) (Some (default [] c)) = Raise e.


End QueryService.

(* ===================================================================== *)
(** ** A small world, used to run the code *)
(* ===================================================================== *)

Module Samples.
Import LlmClient Search.

Definition sample_meta (doc : string) (oi : Z) (group : string) : StoreMeta :=
  {| sm_chunk_id := Some (lit doc ++ lit "_p1_c" ++ str_of_Z oi);
     sm_document_id := Some (lit doc);
     sm_manual_id := None;
     sm_chatbot_id := Some (lit "bot");
     sm_user_group := Some (lit group);
     sm_user_group_tags := Some (lit group);
     sm_order_index := Some oi;
     sm_page_chunk_order := Some oi;
     sm_page := Some 1;
     sm_filename := Some (lit "manual.pdf");
     sm_process_tag := Some (lit "body");
     sm_image_paths := None |}.

Definition sample_record (doc : string) (oi : Z) (group : string)
  : StoreRecord :=
  {| rec_id := lit doc ++ lit "_p1_c" ++ str_of_Z oi;
     rec_document := lit "text of " ++ lit doc ++ lit " #" ++ str_of_Z oi;
     rec_meta := sample_meta doc oi group |}.

(** Document D has chunks 2..8, chunk 5 for the group "public" and the
    others for "staff"; document E has a chunk 4. *)
Definition sample_store : list StoreRecord :=
  [ sample_record "D" 2 "staff"; sample_record "D" 3 "staff";
    sample_record "D" 4 "staff"; sample_record "E" 4 "public";
    sample_record "D" 5 "public"; sample_record "D" 6 "staff";
    sample_record "D" 7 "staff"; sample_record "D" 8 "staff" ].

(** The query is nearest to chunk 5 of document D. *)
Definition sample_distance (r : StoreRecord) : Q :=
  if eqb (rec_id r) (lit "D_p1_c5") then 0%Q else 1%Q.

(** A world around the sample store: the model answers [reply task], the
    query is at [distance] of the records. *)
Definition world_with (reply : Z -> http_reply) (distance : StoreRecord -> Q)
  : World :=
  {| llm_reply := fun _ task_id _ => reply task_id;
     collection := fun _ chatbotId =>
       if eqb chatbotId (lit "bot") then Some sample_store else None;
     embed_distance := fun _ _ => Some distance;
     query_fails := fun _ => false;
     get_fails := fun _ => false;
     clock_ms := fun tr => inject_Z (Z.of_nat (length tr)) |}.

(** The model server is down. *)
Definition sample_world : World :=
  world_with (fun _ => RequestException) sample_distance.

(** The model answers with prose, without any JSON. *)
Definition prose : http_reply :=
  Response 200 (Content (Some (lit "Sorry, I cannot help with that."))).

Definition chatty_world : World := world_with (fun _ => prose) sample_distance.



(** The refinement asks to block the question. *)
Definition block_doc : str :=
  lit "{" ++ dq ++ lit "meta" ++ dq ++ lit ":{" ++ dq ++ lit "safety" ++ dq
  ++ lit ":{" ++ dq ++ lit "block_required" ++ dq ++ lit ":true}}}".

Definition blocking_world : World :=
  world_with (fun _ => Response 200 (Content (Some block_doc))) sample_distance.

(** The cleanup answers with a cleaned text. *)
Definition clean_doc : str :=
  lit "{" ++ dq ++ lit "cleaned_text" ++ dq ++ lit ":" ++ dq
  ++ lit "E3 error" ++ dq ++ lit "}".

Definition cleaning_world : World :=
  world_with (fun _ => Response 200 (Content (Some clean_doc))) sample_distance.

(** Stand-ins for the library: [json.loads] knows the sample documents,
    [json.dumps] prints the first string field only. *)
Definition sample_lib : PyLib :=
  {| json_loads := fun s =>
       if eqb s clean_doc then
         Some (PDict [(lit "cleaned_text", PStr (lit "E3 error"))])
       else if eqb s block_doc then
         Some (PDict [(lit "meta",
                 PDict [(lit "safety",
                   PDict [(lit "block_required", PBool true)])])])
       else loads_a1 s;
     json_dumps := fun v =>
       match v with
       | PDict ((_, PStr s) :: _) => s
       | _ => []
       end;
     repr_other := fun _ => lit "?";
     int_of_str := fun _ => None;
     float_of_str := fun _ => None;
     dict_of_list := fun _ => Raise TypeError |}.

(** Two OCR blocks, the second one blank. *)
Definition sample_blocks : list FirstRefine.TextBlock :=
  [ {| FirstRefine.tb_page := 1; FirstRefine.tb_block_id := lit "p1_ocr_b0";
       FirstRefine.tb_bbox := (0, 0, 10, 10)%Q;
       FirstRefine.tb_text := Some (lit "E3  err0r");
       FirstRefine.tb_prob := Some (9 # 10)%Q |};
    {| FirstRefine.tb_page := 1; FirstRefine.tb_block_id := lit "p1_ocr_b1";
       FirstRefine.tb_bbox := (0, 20, 10, 30)%Q;
       FirstRefine.tb_text := Some (lit "   ");
       FirstRefine.tb_prob := None |} ].

End Samples.

(* ===================================================================== *)
(** ** services/parsing/extractPDF.py: the images *)
(* ===================================================================== *)

Module ExtractPDF.

(** [fitz.Rect], by its corners. *)
Record Rect := { x0 : Q; y0 : Q; x1 : Q; y1 : Q }.

(** [ImageBlock] of services/schemas/pdfSchemas.py. *)
Record ImageBlock := {
  ib_page : Z;
  ib_image_id : str;
  ib_bbox : Q * Q * Q * Q;
  ib_width : Z;
  ib_height : Z;
  ib_image_bytes : list Byte.byte;
  ib_image_path : option str;
}.

(** One entry of [page.get_images(full=True)] with what
    [page.get_image_bbox] says of it ([None] when it raises). *)
Record ImgInfo := {
  img_xref : Z;
  img_width : Z;
  img_height : Z;
  img_bbox : option Rect;
}.

(** A candidate: [{"xref", "width", "height", "bbox"}]. *)
Record Candidate := {
  xref : Z;
  width : Z;
  height : Z;
  bbox : Rect;
}.

(** A document as PyMuPDF shows it: the images of each page ([None] when
    [doc.load_page] raises) and [doc.extract_image], which gives the bytes
    and the ["ext"] entry, if any ([None] when it raises or has no
    ["image"]). *)
Record Document := {
  doc_pages : list (option (list ImgInfo));
  extract_image : Z -> option (list Byte.byte * option str);
}.

(** [os.path.join(a, b)] on POSIX. *)
Definition path_join (a b : str) : str :=
  if startswith [47%N] b then b
  else if is_empty a || endswith [47%N] a then a ++ b
  else a ++ [47%N] ++ b.

Definition _filterImagesBySize (infos : list ImgInfo) : list Candidate :=
  let min_width := 100 in
  let min_height := 100 in
  omap (fun img_info =>
          if (min_width <=? img_width img_info)
             && (min_height <=? img_height img_info)
          then
            bbox ← img_bbox img_info;
            Some {| xref := img_xref img_info;
                    width := img_width img_info;
                    height := img_height img_info;
                    bbox := bbox |}
          else None)
       infos.

Section Fitz.

(** [bbox_j.contains(bbox_i)] of PyMuPDF, and [round(x, 1)] of Python. *)
Variable contains : Rect -> Rect -> bool.
Variable round1 : Q -> Q.

(** The loop [for j in range(num_candidates)] for one [i]; it returns the
    indices to remove. *)
Fixpoint containment_inner (i : nat) (bbox_i : Rect)
    (js : list (nat * Candidate)) (indices_to_remove : gset nat) : gset nat :=
  match js with
  | [] => indices_to_remove
  | (j, candidate_j) :: rest =>
      if bool_decide (i = j) || bool_decide (j ∈ indices_to_remove) then
        containment_inner i bbox_i rest indices_to_remove
      else if contains (bbox candidate_j) bbox_i then
        {[ i ]} ∪ indices_to_remove                          (* [break] *)
      else if contains bbox_i (bbox candidate_j) then
        containment_inner i bbox_i rest ({[ j ]} ∪ indices_to_remove)
      else containment_inner i bbox_i rest indices_to_remove
  end.

(** The loop [for i in range(num_candidates)]. *)
Fixpoint containment_outer (is_ all : list (nat * Candidate))
    (indices_to_remove : gset nat) : gset nat :=
  match is_ with
  | [] => indices_to_remove
  | (i, candidate_i) :: rest =>
      if bool_decide (i ∈ indices_to_remove) then
        containment_outer rest all indices_to_remove
      else
        containment_outer rest all
          (containment_inner i (bbox candidate_i) all indices_to_remove)
  end.

(** [enumerate(candidates)] *)
Definition enumerate {A} (l : list A) : list (nat * A) := zip (seq 0 (length l)) l.

Definition _filterImagesByContainment (candidates : list Candidate)
  : list Candidate :=
  match candidates with
  | [] => []
  | _ =>
      let indices_to_remove :=
        containment_outer (enumerate candidates) (enumerate candidates) ∅ in
      snd <$> filter (fun ic => ic.1 ∉ indices_to_remove) (enumerate candidates)
  end.

(** The names of an extracted image. *)
Definition image_id_of (page_num local_img_idx : Z) : str :=
  lit "p" ++ str_of_Z page_num ++ lit "_img" ++ str_of_Z local_img_idx.

Definition filename_of (image_id ext : str) : str := image_id ++ lit "." ++ ext.

Definition bbox_key_of (bbox_rect : Rect) : Q * Q * Q * Q :=
  (round1 (x0 bbox_rect), round1 (y0 bbox_rect),
   round1 (x1 bbox_rect), round1 (y1 bbox_rect)).

Definition key_eqb (a b : Q * Q * Q * Q) : bool :=
  let '(a0, a1, a2, a3) := a in
  let '(b0, b1, b2, b3) := b in
  Qeq_bool a0 b0 && Qeq_bool a1 b1 && Qeq_bool a2 b2 && Qeq_bool a3 b3.

Section ExtractImages.

Variables (doc : Document) (PDF_IMAGE_DIR documentId : str).
(** Whether [open(abs_path, "wb")] and the write succeed. *)
Variable write_ok : str -> bool.

(** The loop over the candidates of one page. *)
Fixpoint page_images (page_num : Z) (candidates : list Candidate)
    (seen_bboxes : list (Q * Q * Q * Q)) (local_img_idx : Z)
  : list ImageBlock :=
  match candidates with
  | [] => []
  | candidate :: rest =>
      let bbox_rect := bbox candidate in
      let bbox_key := bbox_key_of bbox_rect in
      if existsb (key_eqb bbox_key) seen_bboxes then
        page_images page_num rest seen_bboxes local_img_idx
      else
        let seen_bboxes := bbox_key :: seen_bboxes in
        match extract_image doc (xref candidate) with
        | None => page_images page_num rest seen_bboxes local_img_idx
        | Some (image_bytes, ext) =>
            let ext := default (lit "png") ext in
            let local_img_idx := local_img_idx + 1 in
            let image_id := image_id_of page_num local_img_idx in
            let filename := filename_of image_id ext in
            let abs_path :=
              path_join (path_join PDF_IMAGE_DIR documentId) filename in
            let image_path_rel :=
              if write_ok abs_path then Some (path_join documentId filename)
              else None in
            {| ib_page := page_num;
               ib_image_id := image_id;
               ib_bbox := (x0 bbox_rect, y0 bbox_rect, x1 bbox_rect, y1 bbox_rect);
               ib_width := width candidate;
               ib_height := height candidate;
               ib_image_bytes := image_bytes;
               ib_image_path := image_path_rel |}
              :: page_images page_num rest seen_bboxes local_img_idx
        end
  end.

(** The loop over the pages; [None] when [doc.load_page] raises. *)
Fixpoint pages_images (page_index : Z) (pages : list (option (list ImgInfo)))
  : option (list ImageBlock) :=
  match pages with
  | [] => Some []
  | page :: rest =>
      infos ← page;
      let page_num := page_index + 1 in
      let candidates := _filterImagesBySize infos in
      let filtered_candidates := _filterImagesByContainment candidates in
      more ← pages_images (page_index + 1) rest;
      Some (page_images page_num filtered_candidates [] 0 ++ more)
  end.

(** [_extractImages]; [None] when [os.makedirs] or [doc.load_page]
    raises. *)
Definition _extractImages (makedirs_ok : bool) : option (list ImageBlock) :=
  if makedirs_ok then pages_images 0 (doc_pages doc) else None.

End ExtractImages.

End Fitz.

End ExtractPDF.

(* ===================================================================== *)
(** ** Vocabulary of the properties of strings and chunks *)
(* ===================================================================== *)

Module Shape.
Import Chunking.

(** The characters [str(n)] of an integer is made of. *)
Definition digit_or_minus (c : N) : Prop := (c = 45 \/ 48 <= c <= 57)%N.

(** [x] occurs in [s] as a substring. *)
Definition infix_of (x s : str) : Prop := exists pre post, s = pre ++ x ++ post.

(** What an attempt of [parseJson] parses: a trimmed substring of the text
    that opens a brace, which [json.loads] accepts as [v]. *)
Definition parsed_from (json_loads : str -> option PyVal.pyval) (s : str)
    (v : PyVal.pyval) : Prop :=
  exists t, infix_of t s /\ (exists r, t = LlmClient.lbrace :: r)
            /\ strip t = t /\ json_loads t = Some v.

(** The tags [chunkMergedPages] hands to the chunks: ["default"] when none
    are given. *)
Definition effective_tags (userGroupTags : option (list str)) : list str :=
  match userGroupTags with
  | None | Some [] => [lit "default"]
  | Some tags => tags
  end.

(** A page of [mergedPages] whose blocks hold text. *)
Definition page_has_text (mergedPages : gmap Z (list MergedTextBlock))
    (page : Z) : Prop :=
  exists blocks, mergedPages !! page = Some blocks /\ _buildPageText blocks <> [].

(** [(page, order)] of a chunk. *)
Definition position (c : TextChunk) : Z * Z := (tc_page c, tc_order c).

(** The positions of chunks that come page by page, [n] chunks numbered
    from 0 for a page [(page, n)]. *)
Definition numbering (groups : list (Z * Z)) : list (Z * Z) :=
  g ← groups; (fun k => (g.1, k)) <$> seqZ 0 g.2.

(** The chunk id the chunker gives to the chunk at a position. *)
Definition chunk_id_at (documentId : str) (pos : Z * Z) : str :=
  documentId ++ lit "_p" ++ str_of_Z pos.1 ++ lit "_c" ++ str_of_Z pos.2.

(** What the chunk of one iteration of the window loop looks like. *)
Definition chunk_ok (page : Z) (chatbotId documentId : str)
    (filename : option str) (userGroupTags : list str) (maxChars order : Z)
    (c : TextChunk) : Prop :=
  c = make_chunk page chatbotId documentId filename userGroupTags order
                 (tc_text c)
  /\ tc_text c <> []
  /\ strip (tc_text c) = tc_text c
  /\ Z.of_nat (length (tc_text c)) <= maxChars.

(** The shape of a chunk of [chunkMergedPages]. *)
Definition well_formed (mergedPages : gmap Z (list MergedTextBlock))
    (chatbotId documentId : str) (filename : option str)
    (tags : list str) (maxChars : Z) (c : TextChunk) : Prop :=
  page_has_text mergedPages (tc_page c)
  /\ 0 <= tc_order c
  /\ tc_chunk_id c = chunk_id_at documentId (position c)
  /\ tc_text c <> [] /\ strip (tc_text c) = tc_text c
  /\ Z.of_nat (length (tc_text c)) <= maxChars
  /\ tc_meta c = {| cm_filename := filename;
                    cm_page := tc_page c;
                    cm_document_id := documentId;
                    cm_chatbot_id := chatbotId;
                    cm_user_group_tags := tags;
                    cm_process_tag := lit "body";
                    cm_chunk_order := tc_order c |}.

(** [isinstance(v, dict)] *)
Definition is_dict (v : PyVal.pyval) : bool :=
  match v with PyVal.PDict _ => true | _ => false end.

(** A value [len] does not take: a number or a boolean. *)
Definition unsized (v : PyVal.pyval) : bool :=
  match v with
  | PyVal.PBool _ | PyVal.PInt _ | PyVal.PFloat _ => true
  | _ => false
  end.


(** The chunk lists the image path [key] in its metadata. *)
Definition lists_image (lib : PyLib) (c : Search.Chunk) (key : str) : Prop :=
  exists ch raw,
    Search.image_paths (Search.meta c) = Some (ch :: raw)
    /\ key ∈ QueryService.decode_image_paths lib (ch :: raw).

(** An entry of the image dictionary after a chunk id was added to it. *)
Definition with_chunk_id (chunk_id : option str)
    (info : QueryService.ImageInfo) : QueryService.ImageInfo :=
  {| QueryService.image_key := QueryService.image_key info;
     QueryService.img_document_id := QueryService.img_document_id info;
     QueryService.img_page := QueryService.img_page info;
     QueryService.image_index := QueryService.image_index info;
     QueryService.related_chunk_ids :=
       match chunk_id with
       | Some (c :: id) => QueryService.related_chunk_ids info ++ [c :: id]
       | _ => QueryService.related_chunk_ids info
       end |}.

(** What holds of an entry of the image dictionary built from [chunks]:
    a chunk lists the image, and every related chunk id is the id of a
    chunk that lists it. *)
Definition image_entry_ok (lib : PyLib) (chunks : list Search.Chunk)
    (key : str) (related : list str) : Prop :=
  (exists c, c ∈ chunks /\ lists_image lib c key)
  /\ forall id, id ∈ related ->
       id <> [] /\ exists c, c ∈ chunks /\ Search.chunk_id c = Some id
                             /\ lists_image lib c key.

(** The path of an image block, if any, is its file under the directory
    of the document. *)
Definition image_path_ok (documentId : str) (b : ExtractPDF.ImageBlock)
  : Prop :=
  forall p, ExtractPDF.ib_image_path b = Some p ->
    exists ext,
      p = ExtractPDF.path_join documentId
            (ExtractPDF.filename_of (ExtractPDF.ib_image_id b) ext).

(** The (page, index) pairs of images numbered from 1 on each page, for
    consecutive pages from [page_num] on: [counts] gives the number of
    images of each page. *)
Fixpoint image_numbering (page_num : Z) (counts : list Z) : list (Z * Z) :=
  match counts with
  | [] => []
  | n :: rest =>
      ((fun k => (page_num, k)) <$> seqZ 1 n)
        ++ image_numbering (page_num + 1) rest
  end.

End Shape.

(* ===================================================================== *)
(** ** Further sample data *)
(* ===================================================================== *)

Module MoreSamples.
Import Chunking.

Definition sample_block (page : Z) (text : string) : MergedTextBlock :=
  {| mb_page := page;
     mb_block_id := lit "p" ++ str_of_Z page ++ lit "_m1";
     mb_text := Some (lit text);
     mb_src_block_ids := [] |}.

(** Three pages, the second one blank. *)
Definition sample_pages : gmap Z (list MergedTextBlock) :=
  {[ 1 := [sample_block 1 " abcdefgh "];
     2 := [sample_block 2 "   "];
     3 := [sample_block 3 "xy"] ]}.

(** A stand-in for the library whose [json.loads] knows the documents
    listed. *)
Definition lib_of (docs : list (str * PyVal.pyval)) : PyLib :=
  {| json_loads := fun s => PyVal.lookup s docs;
     json_dumps := fun v =>
       match v with
       | PyVal.PDict ((_, PyVal.PStr s) :: _) => s
       | _ => []
       end;
     repr_other := fun _ => lit "?";
     int_of_str := fun _ => None;
     float_of_str := fun _ => None;
     dict_of_list := fun _ => Raise TypeError |}.

(** The texts of three replies of the model and what the stand-in
    [json.loads] makes of them: an object with a filter, an object whose
    [filters] is a list, an object whose [supporting_chunks] are strings. *)
Definition filters_doc : str := lit "{filters}".
Definition bad_filters_doc : str := lit "{bad filters}".
Definition bad_chunks_doc : str := lit "{bad chunks}".

Definition sample_docs : list (str * PyVal.pyval) :=
  [ (filters_doc,
     PyVal.PDict
       [(lit "filters",
         PyVal.PDict [(lit "doc_type", PyVal.PStr (lit "manual"))])]);
    (bad_filters_doc,
     PyVal.PDict [(lit "filters", PyVal.PList [PyVal.PInt 1])]);
    (bad_chunks_doc,
     PyVal.PDict [(lit "answer", PyVal.PStr (lit "Press reset."));
                  (lit "supporting_chunks",
                   PyVal.PList [PyVal.PStr (lit "chunk one")])]) ].

(** A world whose model answers every call with the text [reply]. *)
Definition answering (reply : string) : World :=
  Samples.world_with
    (fun _ => Response 200 (Content (Some (lit reply))))
    Samples.sample_distance.

(** A stand-in for the library whose [int] reads the numerals listed. *)
Definition lib_reading (numerals : list (str * Z)) : PyLib :=
  {| json_loads := fun _ => None;
     json_dumps := fun _ => [];
     repr_other := fun _ => lit "?";
     int_of_str := fun s => snd <$> List.find (fun kv => eqb s kv.1) numerals;
     float_of_str := fun _ => None;
     dict_of_list := fun _ => Raise TypeError |}.

(** Rectangles with integer corners, and containment of rectangles. *)
Definition rect (a b c d : Z) : ExtractPDF.Rect :=
  {| ExtractPDF.x0 := inject_Z a; ExtractPDF.y0 := inject_Z b;
     ExtractPDF.x1 := inject_Z c; ExtractPDF.y1 := inject_Z d |}.

Definition rect_contains (a b : ExtractPDF.Rect) : bool :=
  Qle_bool (ExtractPDF.x0 a) (ExtractPDF.x0 b)
  && Qle_bool (ExtractPDF.y0 a) (ExtractPDF.y0 b)
  && Qle_bool (ExtractPDF.x1 b) (ExtractPDF.x1 a)
  && Qle_bool (ExtractPDF.y1 b) (ExtractPDF.y1 a).

Definition sample_image (xref w h : Z) (r : ExtractPDF.Rect)
  : ExtractPDF.ImgInfo :=
  {| ExtractPDF.img_xref := xref; ExtractPDF.img_width := w;
     ExtractPDF.img_height := h; ExtractPDF.img_bbox := Some r |}.

(** Two pages: on the first a picture, a picture inside it, an icon and a
    picture that cannot be extracted; on the second one picture. *)
Definition sample_document : ExtractPDF.Document :=
  {| ExtractPDF.doc_pages :=
       [ Some [ sample_image 1 400 300 (rect 0 0 400 300);
                sample_image 2 120 120 (rect 10 10 130 130);
                sample_image 3 16 16 (rect 500 0 516 16);
                sample_image 4 200 200 (rect 0 400 200 600);
                sample_image 5 200 100 (rect 300 400 500 500) ];
         Some [ sample_image 6 640 480 (rect 0 0 640 480) ] ];
     ExtractPDF.extract_image := fun xref =>
       if xref =? 4 then None
       else Some ([], if xref =? 6 then None else Some (lit "jpeg")) |}.

Definition sample_candidates : list ExtractPDF.Candidate :=
  ExtractPDF._filterImagesBySize
    [ sample_image 1 400 300 (rect 0 0 400 300);
      sample_image 2 120 120 (rect 10 10 130 130);
      sample_image 4 200 200 (rect 0 400 200 600) ].

End MoreSamples.

(* ===================================================================== *)
(** ** services/llm/secondRefine.py *)
(* ===================================================================== *)

Module SecondRefine.
Import LlmClient FirstRefine Chunking.

(** [PDFExtractionResult] of services/schemas/pdfSchemas.py. *)
Record PDFExtractionResult := {
  text_blocks : list TextBlock;
  image_blocks : list ExtractPDF.ImageBlock;
}.

(** A [MergedTextBlock] together with its [debug_log], the field the
    record of the chunker leaves out. *)
Record MergedBlock := {
  block : MergedTextBlock;
  debug_log : pyval;
}.

(** [d.setdefault(page, []).append(x)] *)
Definition append_at {A} (page : Z) (x : A) (d : gmap Z (list A))
  : gmap Z (list A) :=
  <[page := default [] (d !! page) ++ [x]]> d.

(** The four dictionaries the loops of [_buildPageTexts] fill. *)
Record PageBlocks := {
  pymupdf_by_page : gmap Z (list str);
  ocr_by_page : gmap Z (list str);
  src_ids_by_page : gmap Z (list str);
  blocks_by_page : gmap Z (list pyval);
}.

Definition opt_float (q : option Q) : pyval :=
  match q with Some q => PFloat q | None => PNone end.

(** The entry of a block in [blocks_by_page]. *)
Definition block_entry (source : str) (tb : TextBlock) (text : str) : pyval :=
  let '(x0, y0, x1, y1) := tb_bbox tb in
  PDict [ (lit "source", PStr source);
          (lit "block_id", PStr (tb_block_id tb));
          (lit "text", PStr text);
          (lit "bbox", PList [PFloat x0; PFloat y0; PFloat x1; PFloat y1]);
          (lit "prob", opt_float (tb_prob tb)) ].

(** The body of the loop over [extraction.text_blocks]. *)
Definition add_pymupdf (acc : PageBlocks) (tb : TextBlock) : PageBlocks :=
  let page := tb_page tb in
  let text := strip (default [] (tb_text tb)) in
  if is_empty text then acc
  else
    {| pymupdf_by_page := append_at page text (pymupdf_by_page acc);
       ocr_by_page := ocr_by_page acc;
       src_ids_by_page := append_at page (tb_block_id tb) (src_ids_by_page acc);
       blocks_by_page :=
         append_at page (block_entry (lit "pymupdf") tb text)
                   (blocks_by_page acc) |}.

(** The body of the loop over [ocrBlocks]. *)
Definition add_ocr (acc : PageBlocks) (tb : TextBlock) : PageBlocks :=
  let page := tb_page tb in
  let text := strip (default [] (tb_text tb)) in
  if is_empty text then acc
  else
    {| pymupdf_by_page := pymupdf_by_page acc;
       ocr_by_page := append_at page text (ocr_by_page acc);
       src_ids_by_page := append_at page (tb_block_id tb) (src_ids_by_page acc);
       blocks_by_page :=
         append_at page (block_entry (lit "ocr") tb text)
                   (blocks_by_page acc) |}.

Definition collect_blocks (extraction : PDFExtractionResult)
    (ocrBlocks : list TextBlock) : PageBlocks :=
  foldl add_ocr
        (foldl add_pymupdf
               {| pymupdf_by_page := ∅; ocr_by_page := ∅;
                  src_ids_by_page := ∅; blocks_by_page := ∅ |}
               (text_blocks extraction))
        ocrBlocks.

Definition _buildPageTexts (extraction : PDFExtractionResult)
    (ocrBlocks : list TextBlock)
  : gmap Z str * gmap Z str * gmap Z (list str) * gmap Z (list pyval) :=
  let acc := collect_blocks extraction ocrBlocks in
  let pymupdf_texts :=
    (fun texts => strip (join [10%N] texts)) <$> pymupdf_by_page acc in
  let ocr_texts :=
    (fun texts => strip (join [10%N] texts)) <$> ocr_by_page acc in
  (pymupdf_texts, ocr_texts, src_ids_by_page acc, blocks_by_page acc).

Definition _fallbackMergePage (page : Z) (pymupdf_text ocr_text_cleaned : str)
  : str :=
  let pym := strip pymupdf_text in
  let ocr := strip ocr_text_cleaned in
  if negb (is_empty pym) && negb (is_empty ocr) then pym ++ [10%N] ++ ocr
  else if negb (is_empty pym) then pym
  else if negb (is_empty ocr) then ocr
  else [].

Section WithWorld.

Variables (w : World) (lib : PyLib).

Local Open Scope py_scope.

(** The payload of the task 3 call of a page. *)
Definition task3_payload (page : Z) (pymupdf_text ocr_text_cleaned : str)
    (blocks_for_page : list pyval) : str :=
  json_dumps lib
    (PDict [ (lit "page", PInt page);
             (lit "pymupdf_text", PStr pymupdf_text);
             (lit "ocr_text_cleaned", PStr ocr_text_cleaned);
             (lit "blocks", PList blocks_for_page) ]).

Definition _runTask3ForPage (page : Z) (pymupdf_text ocr_text_cleaned : str)
    (blocks_for_page : list pyval) : M (option dict) :=
  if is_empty pymupdf_text && is_empty ocr_text_cleaned then ret None
  else
    let payload :=
      task3_payload page pymupdf_text ocr_text_cleaned blocks_for_page in
    called <~ try_except
                (raw_content <~ callQwen w 3 payload ; ret (Some raw_content))
                (fun _ => ret None) ;
    match called with
    | None => ret None
    | Some raw_content =>
        match parseJson (json_loads lib) (Some raw_content) with
        | Raise _ => ret None
        | Ok data =>
            data <~ lift (as_dict data) ;
            match get (lit "merged_blocks") data with
            | PList (_ :: _) => ret (Some data)
            | _ => ret None
            end
        end
    end.

(** The id [f"p{page}_m{n}"] of a merged block. *)
Definition merged_id (page n : Z) : str :=
  lit "p" ++ str_of_Z page ++ lit "_m" ++ str_of_Z n.

(** The body of the loop over [enumerate(merged_blocks)]: the block made
    of [blk], if its text is not blank. *)
Definition merged_block_of (page : Z) (merge_log : pyval) (idx : nat)
    (blk : pyval) : Result (option MergedBlock) :=
  result_bind (as_dict blk) (fun blk =>
  let text := strip (py_str lib (por (get (lit "text") blk) (PStr []))) in
  if is_empty text then Ok None
  else
    let src_ids_raw := por (get (lit "src_block_ids") blk) (PList []) in
    let src_ids :=
      match src_ids_raw with
      | PList l => py_str lib <$> l
      | _ => [py_str lib src_ids_raw]
      end in
    Ok (Some {| block := {| mb_page := page;
                            mb_block_id := merged_id page (Z.of_nat idx + 1);
                            mb_text := Some text;
                            mb_src_block_ids := src_ids |};
                debug_log := merge_log |})).

Fixpoint page_result_loop (page : Z) (merge_log : pyval) (idx : nat)
    (merged_blocks : list pyval) : Result (list MergedBlock) :=
  match merged_blocks with
  | [] => Ok []
  | blk :: rest =>
      result_bind (merged_block_of page merge_log idx blk) (fun merged_block =>
      result_bind (page_result_loop page merge_log (S idx) rest)
                  (fun page_result =>
      Ok match merged_block with
         | Some b => b :: page_result
         | None => page_result
         end))
  end.

(** The blocks made of a task 3 answer. *)
Definition task3_blocks (page : Z) (task3_data : dict)
  : Result (list MergedBlock) :=
  let merged_blocks := por (get (lit "merged_blocks") task3_data) (PList []) in
  let merge_log := get (lit "merge_log") task3_data in
  result_bind (AnswerGeneration.iter_items merged_blocks)
              (page_result_loop page merge_log 0).

(** The block of the fallback. *)
Definition fallback_block (page : Z) (merged_text : str) (src_ids : list str)
  : MergedBlock :=
  {| block := {| mb_page := page;
                 mb_block_id := merged_id page 1;
                 mb_text := Some merged_text;
                 mb_src_block_ids := src_ids |};
     debug_log := PNone |}.

(** The body of the loop over the pages: the value of [result[page]]. *)
Definition merge_page (pymupdf_texts ocr_texts : gmap Z str)
    (src_ids_by_page : gmap Z (list str)) (blocks_by_page : gmap Z (list pyval))
    (page : Z) : M (list MergedBlock) :=
  let pym_text := default [] (pymupdf_texts !! page) in
  let ocr_text := default [] (ocr_texts !! page) in
  let page_blocks := default [] (blocks_by_page !! page) in
  task3_data <~ _runTask3ForPage page pym_text ocr_text page_blocks ;
  page_result <~ lift match task3_data with
                      | Some task3_data => task3_blocks page task3_data
                      | None => Ok []
                      end ;
  match page_result with
  | [] =>
      let merged_text := strip (_fallbackMergePage page pym_text ocr_text) in
      if is_empty merged_text then ret []
      else
        let src_ids := default [] (src_ids_by_page !! page) in
        ret [fallback_block page merged_text src_ids]
  | _ => ret page_result
  end.

Fixpoint merge_pages (pymupdf_texts ocr_texts : gmap Z str)
    (src_ids_by_page : gmap Z (list str)) (blocks_by_page : gmap Z (list pyval))
    (pages : list Z) (result : gmap Z (list MergedBlock))
  : M (gmap Z (list MergedBlock)) :=
  match pages with
  | [] => ret result
  | page :: rest =>
      page_result <~ merge_page pymupdf_texts ocr_texts src_ids_by_page
                                blocks_by_page page ;
      merge_pages pymupdf_texts ocr_texts src_ids_by_page blocks_by_page rest
                  (<[page := page_result]> result)
  end.

Definition mergeText (extraction : PDFExtractionResult)
    (ocrBlocks : list TextBlock) : M (gmap Z (list MergedBlock)) :=
  let '(pymupdf_texts, ocr_texts, src_ids_by_page, blocks_by_page) :=
    _buildPageTexts extraction ocrBlocks in
  let all_pages : gset Z := dom pymupdf_texts ∪ dom ocr_texts in
  merge_pages pymupdf_texts ocr_texts src_ids_by_page blocks_by_page
              (merge_sort Z.le (elements all_pages)) ∅.

End WithWorld.

(** *** Vocabulary of the merge properties *)

(** The trimmed texts of the blocks of [page] that are not blank, and the
    ids of these blocks, in the order of the blocks. *)
Definition texts_of (page : Z) (blocks : list TextBlock) : list str :=
  omap (fun tb =>
          let text := strip (default [] (tb_text tb)) in
          if bool_decide (tb_page tb = page) && negb (is_empty text)
          then Some text else None)
       blocks.

Definition ids_of (page : Z) (blocks : list TextBlock) : list str :=
  omap (fun tb =>
          let text := strip (default [] (tb_text tb)) in
          if bool_decide (tb_page tb = page) && negb (is_empty text)
          then Some (tb_block_id tb) else None)
       blocks.

(** The texts and the block ids of a page, those of PyMuPDF before those of
    the OCR. *)
Definition page_texts (extraction : PDFExtractionResult)
    (ocrBlocks : list TextBlock) (page : Z) : list str :=
  texts_of page (text_blocks extraction) ++ texts_of page ocrBlocks.

Definition page_ids (extraction : PDFExtractionResult)
    (ocrBlocks : list TextBlock) (page : Z) : list str :=
  ids_of page (text_blocks extraction) ++ ids_of page ocrBlocks.

(** The pages of the blocks that are not blank, each once. *)
Definition pages_with_text (extraction : PDFExtractionResult)
    (ocrBlocks : list TextBlock) : list Z :=
  remove_dups
    (tb_page <$> filter (fun tb => strip (default [] (tb_text tb)) <> [])
                        (text_blocks extraction ++ ocrBlocks)).

(** What the dictionaries of [_buildPageTexts] hold after the blocks [pym]
    of PyMuPDF and [ocr] of the OCR. *)
Definition collected (acc : PageBlocks) (pym ocr : list TextBlock) : Prop :=
  forall page,
    default [] (pymupdf_by_page acc !! page) = texts_of page pym
    /\ default [] (ocr_by_page acc !! page) = texts_of page ocr
    /\ default [] (src_ids_by_page acc !! page)
       = ids_of page pym ++ ids_of page ocr
    /\ (forall l, pymupdf_by_page acc !! page = Some l -> l <> [])
    /\ (forall l, ocr_by_page acc !! page = Some l -> l <> []).

(** The merged blocks of a page as they should be: on the page, with a
    text that is trimmed and not empty, and with the ids [p<page>_m<k>]
    for increasing [k] from 1 on. *)
Definition merged_ok (page : Z) (blocks : list MergedBlock) : Prop :=
  Forall (fun b => mb_page (block b) = page
                   /\ exists t, mb_text (block b) = Some t
                                /\ t <> [] /\ strip t = t) blocks
  /\ exists ks : list Z,
       (fun b => mb_block_id (block b)) <$> blocks = merged_id page <$> ks
       /\ StronglySorted Z.lt ks /\ Forall (fun k => 1 <= k) ks.

(** The merged pages as the chunker takes them. *)
Definition merged_pages (result : gmap Z (list MergedBlock))
  : gmap Z (list MergedTextBlock) :=
  (fun blocks : list MergedBlock => block <$> blocks) <$> result.

End SecondRefine.

(* ===================================================================== *)
(** ** services/retrieval/store.py *)
(* ===================================================================== *)

Module Store.
Import Chunking.

(** The arguments of [col.upsert] (or [col.add]). *)
Record Upsert := {
  ids : list pyval;
  documents : list str;
  metadatas : list dict;
  embeddings : list (list Q);
}.

(** The vector store as [upsertChunks] meets it: whether
    [_getOrCreateCollection] raises for a chat bot, and whether the
    collection refuses the rows. *)
Record Chroma := {
  create_fails : str -> option exn;
  upsert_fails : str -> Upsert -> option exn;
}.

(** The writes the store has taken: the name of the collection and the
    rows. *)
Definition Writes := list (str * Upsert).

Section WithLibrary.

Variables (lib : PyLib) (chroma : Chroma) (COLLECTION_PREFIX : str).

Definition _collectionName (chatbotId : str) : str :=
  COLLECTION_PREFIX ++ chatbotId.

(** [[str(x) for x in v if x is not None]] *)
Definition strs_of (v : list pyval) : list str :=
  omap (fun x => match x with PNone => None | _ => Some (py_str lib x) end) v.

(** The body of the loop over [metaRaw.items()]; the state is [cleanMeta]
    and [user_group_value]. [json.dumps] does not raise on the values of
    the embedding. *)
Definition clean_item (st : dict * option str) (kv : str * pyval)
  : dict * option str :=
  let '(cleanMeta, user_group_value) := st in
  let '(k, v) := kv in
  match v with
  | PList l =>
      if eqb k (lit "user_group_tags") then
        let tags_list := strs_of l in
        match tags_list with
        | [] => (cleanMeta, user_group_value)
        | first :: _ =>
            (set (lit "user_group_tags") (PStr (join (lit ",") tags_list))
                 cleanMeta,
             Some first)
        end
      else if eqb k (lit "image_paths") then
        let paths := strs_of l in
        (set (lit "image_paths")
             (PStr (json_dumps lib (PList (PStr <$> paths)))) cleanMeta,
         user_group_value)
      else (set k (PStr (json_dumps lib v)) cleanMeta, user_group_value)
  | PDict _ => (set k (PStr (json_dumps lib v)) cleanMeta, user_group_value)
  | _ => (set k v cleanMeta, user_group_value)
  end.

(** The metadata of a chunk as it is stored. *)
Definition stored_meta (chatbotId documentId : str) (chunkId : pyval)
    (metaRaw : dict) : dict :=
  let '(cleanMeta, user_group_value) := foldl clean_item ([], None) metaRaw in
  let cleanMeta :=
    match user_group_value, lookup (lit "user_group") cleanMeta with
    | Some user_group_value, None =>
        set (lit "user_group") (PStr user_group_value) cleanMeta
    | _, _ => cleanMeta
    end in
  set (lit "document_id") (PStr documentId)
    (set (lit "chatbot_id") (PStr chatbotId)
       (set (lit "chunk_id") chunkId cleanMeta)).

(** The body of the loop over [zip(chunks, embeddings)]; the state is
    [ids], [docs] and [metas]. *)
Definition add_row (chatbotId documentId : str)
    (st : list pyval * list str * list dict) (row : dict * list Q)
  : list pyval * list str * list dict :=
  let '(ids, docs, metas) := st in
  let '(chunk, emb) := row in
  let chunkId := get (lit "chunk_id") chunk in
  let chunkId :=
    if truthy chunkId then chunkId
    else PStr (documentId ++ lit "_" ++ str_of_Z (Z.of_nat (length ids))) in
  let text := py_str lib (por (get (lit "text") chunk) (PStr [])) in
  let metaRaw :=
    match por (get (lit "meta") chunk) (PDict []) with
    | PDict metaRaw => metaRaw
    | metaRaw => [(lit "_raw_meta", PStr (py_str lib metaRaw))]
    end in
  (ids ++ [chunkId], docs ++ [text],
   metas ++ [stored_meta chatbotId documentId chunkId metaRaw]).

Definition upsertChunks (chatbotId documentId : str) (chunks : list dict)
    (embeddings : list (list Q)) (store : Writes) : Result Z * Writes :=
  if negb (length chunks =? length embeddings)%nat then
    (Raise ValueError, store)
  else
    match create_fails chroma chatbotId with
    | Some e => (Raise e, store)
    | None =>
        let '(ids, docs, metas) :=
          foldl (add_row chatbotId documentId) ([], [], [])
                (zip chunks embeddings) in
        let rows := {| ids := ids; documents := docs; metadatas := metas;
                       embeddings := embeddings |} in
        match upsert_fails chroma (_collectionName chatbotId) rows with
        | Some e => (Raise e, store)
        | None =>
            (Ok (Z.of_nat (length ids)),
             store ++ [(_collectionName chatbotId, rows)])
        end
    end.

End WithLibrary.

(** *** Vocabulary of the store properties *)

(** A value the vector store takes as metadata: [None], a boolean, a
    number or a string. *)
Definition scalar (v : pyval) : bool :=
  match v with
  | PList _ | PDict _ => false
  | _ => true
  end.

(** The id of the chunk at position [i]: its [chunk_id], if any. *)
Definition row_id (documentId : str) (i : nat) (chunk : dict) : pyval :=
  if truthy (get (lit "chunk_id") chunk) then get (lit "chunk_id") chunk
  else PStr (documentId ++ lit "_" ++ str_of_Z (Z.of_nat i)).

(** A store that takes everything. *)
Definition willing : Chroma :=
  {| create_fails := fun _ => None; upsert_fails := fun _ _ => None |}.

(** A stand-in for the library whose [json.dumps] and [json.loads] know
    one list of paths. *)
Definition paths_lib : PyLib :=
  {| json_loads := fun s =>
       if eqb s (lit "[doc/p1_img1.png]")
       then Some (PList [PStr (lit "doc/p1_img1.png")]) else None;
     json_dumps := fun v =>
       match v with
       | PList [PStr p] => lit "[" ++ p ++ lit "]"
       | _ => []
       end;
     repr_other := fun _ => lit "?";
     int_of_str := fun _ => None;
     float_of_str := fun _ => None;
     dict_of_list := fun _ => Raise TypeError |}.

(** Two chunks, the first one with an image, the second one without an id
    and with tags. *)
Definition sample_chunks : list dict :=
  [ [ (lit "chunk_id", PStr (lit "doc_p1_c0"));
      (lit "text", PStr (lit "Reset the device"));
      (lit "meta", PDict [ (lit "page", PInt 1);
                           (lit "document_id", PStr (lit "other"));
                           (lit "image_paths",
                            PList [PStr (lit "doc/p1_img1.png")]) ]) ];
    [ (lit "text", PStr (lit "Hold the button"));
      (lit "meta", PDict [ (lit "user_group_tags",
                            PList [PStr (lit "staff"); PStr (lit "admin")]);
                           (lit "bbox", PList [PInt 0; PInt 1]) ]) ] ].

End Store.

(* ===================================================================== *)
(** ** Sample data of the merge *)
(* ===================================================================== *)

Module MergeSamples.
Import FirstRefine SecondRefine.

Definition text_block (page : Z) (id text : string) : TextBlock :=
  {| tb_page := page; tb_block_id := lit id; tb_bbox := (0, 0, 10, 10)%Q;
     tb_text := Some (lit text); tb_prob := None |}.

(** A document with text on the pages 1 and 3, from PyMuPDF and from the
    OCR; the page 2 holds a blank block only. *)
Definition sample_extraction : PDFExtractionResult :=
  {| text_blocks := [ text_block 1 "p1_b0" " Reset the device ";
                      text_block 2 "p2_b0" "   ";
                      text_block 1 "p1_b1" "Hold the button" ];
     image_blocks := [] |}.

Definition sample_ocr : list TextBlock :=
  [ text_block 3 "p3_ocr_b0" "E3 error"; text_block 1 "p1_ocr_b0" "Fig. 1" ].

(** Two answers of the model to task 3, as the stand-in [json.loads] reads
    them: merged blocks that are objects, and merged blocks that are
    strings. *)
Definition merged_doc : str := lit "{merged}".
Definition bad_merged_doc : str := lit "{bad merged}".

Definition merge_docs : list (str * pyval) :=
  [ (merged_doc,
     PDict [(lit "merged_blocks",
             PList [PDict [(lit "text", PStr (lit " merged text "))];
                    PDict [(lit "text", PStr (lit "  "))];
                    PDict [(lit "text", PStr (lit "more"))]])]);
    (bad_merged_doc,
     PDict [(lit "merged_blocks", PList [PStr (lit "merged text")])]) ].

(** What [mergeText] makes of the sample document with a model that is
    down, and with a model that answers [merged_doc]. *)
Definition merged_by_fallback : gmap Z (list MergedBlock) :=
  match (mergeText Samples.sample_world Samples.sample_lib
                   sample_extraction sample_ocr []).1 with
  | Ok result => result
  | Raise _ => ∅
  end.

Definition merged_by_model : gmap Z (list MergedBlock) :=
  match (mergeText (MoreSamples.answering "{merged}")
                   (MoreSamples.lib_of merge_docs)
                   sample_extraction sample_ocr []).1 with
  | Ok result => result
  | Raise _ => ∅
  end.

End MergeSamples.

(* ===================================================================== *)
(** ** Vocabulary of the retrieval properties *)
(* ===================================================================== *)

Module Retrieval.
Import Search.

(** The chunk id the retrieval gives to a stored record: its [chunk_id],
    or the id of the store when it has none. *)
Definition id_of_record (r : StoreRecord) : option str :=
  if truthy_str (sm_chunk_id (rec_meta r)) then sm_chunk_id (rec_meta r)
  else Some (rec_id r).

End Retrieval.

(* ===================================================================== *)
(** * Properties *)
(* ===================================================================== *)

(** ** Python strings: the literals and the string operations at work *)

Module PyStrFacts.

Example lit_ascii : lit "p3_c0" = [112; 51; 95; 99; 48]%N.
Proof. reflexivity. Qed.

Example lit_hangul : lit "질문" = [51656; 47928]%N.
Proof. reflexivity. Qed.

Example strip_example : strip (lit "  a b  ") = lit "a b".
Proof. reflexivity. Qed.

Example slice_example : slice (lit "abcdef") 2 4 = lit "cd".
Proof. reflexivity. Qed.

Example str_of_Z_example :
  str_of_Z 120 = lit "120" /\ str_of_Z (-7) = lit "-7" /\ str_of_Z 0 = lit "0".
Proof. repeat split; reflexivity. Qed.

End PyStrFacts.

(* ===================================================================== *)
(** ** The chunker: termination, chunk count, overlap *)
(* ===================================================================== *)

Module ChunkingFacts.
Import Chunking.

Lemma cdiv_le (a b c : Z) : 0 < b -> (cdiv a b <= c <-> a <= c * b).
Proof.
  intros Hb. unfold cdiv.
  pose proof (Z.div_mod (- a) b ltac:(lia)) as Hdm.
  pose proof (Z.mod_pos_bound (- a) b Hb) as Hr.
  split; intros H; nia.
Qed.

Lemma slice_inside (s : str) (a b : Z) :
  0 <= a -> a <= b -> b <= Z.of_nat (length s) ->
  slice s a b = take (Z.to_nat (b - a)) (drop (Z.to_nat a) s).
Proof.
  intros Ha Hab Hb. unfold slice, norm_index.
  destruct (Z.ltb_spec a 0); [lia|]. destruct (Z.ltb_spec b 0); [lia|].
  rewrite !Z.min_l by lia. reflexivity.
Qed.

Lemma slice_length (s : str) (a b : Z) :
  0 <= a -> a <= b -> b <= Z.of_nat (length s) ->
  Z.of_nat (length (slice s a b)) = b - a.
Proof.
  intros Ha Hab Hb. rewrite slice_inside by lia.
  rewrite length_take, length_drop. lia.
Qed.

Lemma seqZ_head (k n : Z) : 0 < n -> seqZ k n = k :: seqZ (k + 1) (n - 1).
Proof.
  intros Hn. rewrite seqZ_cons by lia.
  replace (Z.succ k) with (k + 1) by lia.
  replace (Z.pred n) with (n - 1) by lia. reflexivity.
Qed.

Lemma seqZ_one (k : Z) : seqZ k 1 = [k].
Proof. rewrite seqZ_head by lia. now rewrite seqZ_nil by lia. Qed.

Section Loop.

Variables (page : Z) (chatbotId documentId : str) (filename : option str)
          (userGroupTags : list str) (maxChars overlap : Z).
Hypothesis overlap_range : 0 <= overlap < maxChars.

Local Abbreviation M := maxChars.
Local Abbreviation O := overlap.
Local Abbreviation body := (loop_body page chatbotId documentId filename userGroupTags M O).
Local Abbreviation loop := (while_loop page chatbotId documentId filename userGroupTags M O).
Local Abbreviation chunk := (make_chunk page chatbotId documentId filename userGroupTags).

(** The three ways an iteration can go. *)
Lemma loop_body_cases (text : str) (length start order : Z) :
  0 <= start < length ->
  (body text length start order = BreakEmpty
   /\ strip (slice text start (window_end M length start)) = [])
  \/ (exists c, body text length start order = AppendBreak c
      /\ window_end M length start = length)
  \/ (exists c, body text length start order
                = AppendNext c (start + (M - O)) (order + 1)
      /\ start + M < length).
Proof.
  intros Hs. unfold loop_body.
  destruct (strip (slice text start (window_end M length start))) eqn:E; simpl.
  - left; auto.
  - right. unfold window_end in *.
    destruct (Z.leb_spec length (Z.min (start + M) length)) as [Hle|Hlt].
    + left. eexists; split; [reflexivity|lia].
    + right. assert (Z.min (start + M) length = start + M) as -> by lia.
      destruct (Z.ltb_spec (start + M - O) 0); [lia|].
      eexists. split; [|lia]. f_equal. lia.
Qed.

(** Enough fuel: the loop returns, and more fuel changes nothing. *)
Lemma while_loop_returns (text : str) (length : Z) (fuel : nat) :
  forall start order,
    0 <= start -> length - start <= Z.of_nat fuel ->
    exists chunks,
      forall fuel', (fuel <= fuel')%nat ->
        loop fuel' text length start order = Some chunks.
Proof.
  induction fuel as [|fuel IH]; intros start order Hs Hf.
  - exists []. intros fuel' _.
    destruct fuel'; simpl; destruct (Z.ltb_spec start length); try lia; auto.
  - destruct (Z.ltb_spec start length) as [Hlt|Hge].
    + destruct (loop_body_cases text length start order ltac:(lia))
        as [[E _]|[(c & E & _)|(c & E & Hn)]].
      * exists []. intros [|f'] Hle; [lia|]. simpl.
        destruct (Z.ltb_spec start length); [|lia]. now rewrite E.
      * exists [c]. intros [|f'] Hle; [lia|]. simpl.
        destruct (Z.ltb_spec start length); [|lia]. now rewrite E.
      * destruct (IH (start + (M - O)) (order + 1) ltac:(lia) ltac:(lia))
          as [chunks Hc].
        exists (c :: chunks). intros [|f'] Hle; [lia|]. simpl.
        destruct (Z.ltb_spec start length); [|lia]. rewrite E.
        rewrite Hc by lia. reflexivity.
    + exists []. intros fuel' _.
      destruct fuel'; simpl; destruct (Z.ltb_spec start length); try lia; auto.
Qed.


(** With no blank window, the loop started at iteration [k] emits the
    trimmed windows [k], [k+1], ... up to the first one that reaches the
    end of the text. *)
Lemma while_loop_windows (text : str) (fuel : nat) :
  let L := Z.of_nat (length text) in
  no_blank_window M O text = true ->
  forall k,
    0 <= k -> k * (M - O) < L -> (k = 0 \/ k * (M - O) + O < L) ->
    L - k * (M - O) <= Z.of_nat fuel ->
    loop fuel text L (k * (M - O)) k
    = Some (map (fun j => chunk j (strip (window M O text j)))
                (seqZ k (chunk_count M O L - k))).
Proof.
  intros L Hnb. induction fuel as [|fuel IH]; intros k Hk Hlt Hreach Hf; [lia|].
  simpl. destruct (Z.ltb_spec (k * (M - O)) L); [|lia].
  assert (HLpos : 0 < L) by nia.
  assert (Hwk : strip (window M O text k) <> []).
  { unfold no_blank_window in Hnb. rewrite forallb_forall in Hnb.
    specialize (Hnb k). rewrite <- list_elem_of_In, elem_of_seqZ in Hnb.
    assert (k * 1 <= k * (M - O)) by (apply Z.mul_le_mono_nonneg_l; lia).
    assert (0 <= k < 0 + L) as Hin by lia.
    specialize (Hnb Hin). fold L in Hnb.
    destruct (Z.leb_spec L (k * (M - O))); [lia|].
    destruct (strip (window M O text k)); [discriminate|congruence]. }
  assert (Hcount : forall c, chunk_count M O L <= c <-> 1 <= c /\ L - O <= c * (M - O)).
  { intros c. unfold chunk_count. destruct (Z.eqb_spec L 0); [lia|].
    pose proof (cdiv_le (L - O) (M - O) c ltac:(lia)). lia. }
  destruct (loop_body_cases text L (k * (M - O)) k ltac:(nia))
    as [[_ E]|[(c & E & Hend)|(c & E & Hn)]].
  - exfalso. apply Hwk. exact E.
  - rewrite E.
    assert (chunk_count M O L = k + 1) as ->.
    { unfold window_end in Hend.
      apply Z.le_antisymm.
      - apply Hcount. nia.
      - destruct (Z.le_gt_cases (chunk_count M O L) k) as [Hle|]; [|lia].
        apply Hcount in Hle. nia. }
    replace (k + 1 - k) with 1 by lia. rewrite seqZ_one. simpl.
    unfold loop_body in E.
    destruct (strip (slice text (k * (M - O)) (window_end M L (k * (M - O))))) eqn:E';
      [discriminate|].
    simpl in E. destruct (L <=? _); [|discriminate].
    injection E as <-. change (window M O text k)
      with (slice text (k * (M - O)) (window_end M L (k * (M - O)))).
    rewrite E'. reflexivity.
  - rewrite E.
    replace (k * (M - O) + (M - O)) with ((k + 1) * (M - O)) by lia.
    rewrite IH by nia.
    assert (k + 1 < chunk_count M O L).
    { destruct (Z.le_gt_cases (chunk_count M O L) (k + 1)) as [Hle|]; [|lia].
      apply Hcount in Hle. nia. }
    rewrite (seqZ_head k) by lia. simpl.
    replace (chunk_count M O L - k - 1) with (chunk_count M O L - (k + 1)) by lia.
    f_equal. f_equal.
    unfold loop_body in E.
    destruct (strip (slice text (k * (M - O)) (window_end M L (k * (M - O))))) eqn:E';
      [discriminate|].
    simpl in E. destruct (L <=? _); [discriminate|].
    injection E as <- _. change (window M O text k)
      with (slice text (k * (M - O)) (window_end M L (k * (M - O)))).
    rewrite E'. reflexivity.
Qed.


Lemma chunk_count_le (L c : Z) :
  0 < L -> (chunk_count M O L <= c <-> 1 <= c /\ L - O <= c * (M - O)).
Proof.
  intros HL. unfold chunk_count. destruct (Z.eqb_spec L 0); [lia|].
  pose proof (cdiv_le (L - O) (M - O) c ltac:(lia)). lia.
Qed.

(** A window that is not the last one is [M] long and shares its last [O]
    characters with the start of the next one. *)
Lemma window_overlap (text : str) (k : Z) :
  let L := Z.of_nat (length text) in
  0 <= k -> k * (M - O) + M < L ->
  Z.of_nat (length (window M O text k)) = M
  /\ drop (Z.to_nat (M - O)) (window M O text k)
     = take (Z.to_nat O) (window M O text (k + 1))
  /\ Z.of_nat (length (take (Z.to_nat O) (window M O text (k + 1)))) = O.
Proof.
  intros L Hk Hlt. unfold window, window_end. fold L.
  assert (0 <= k * (M - O)) by nia.
  rewrite (Z.min_l (k * (M - O) + M) L) by lia.
  set (a := k * (M - O)) in *.
  replace ((k + 1) * (M - O)) with (a + (M - O)) by lia.
  set (e := Z.min (a + (M - O) + M) L).
  assert (a + M <= e <= L) by lia.
  rewrite !slice_inside by lia.
  replace (a + M - a) with M by lia.
  split; [|split].
  - rewrite length_take, length_drop. lia.
  - replace (Z.to_nat M) with (Z.to_nat (M - O) + Z.to_nat O)%nat by lia.
    rewrite <- take_drop_commute, drop_drop, take_take.
    replace (Z.to_nat a + Z.to_nat (M - O))%nat with (Z.to_nat (a + (M - O))) by lia.
    f_equal. lia.
  - rewrite !length_take, length_drop. lia.
Qed.

End Loop.

(** With [overlap = maxChars] the window never moves: no amount of fuel
    lets the loop return ([chunkMergedPages] rejects a negative overlap
    but not this one). *)
Lemma while_loop_stuck (fuel : nat) (order : Z) :
  while_loop 1 [] [] None [] 2 2 fuel (lit "abcd") 4 0 order = None.
Proof.
  revert order. induction fuel as [|fuel IH]; intros order; [reflexivity|].
  simpl. rewrite IH. reflexivity.
Qed.

(** The trimmed chunk texts need not overlap: white space at a window
    border is stripped from the chunk. *)
Example trimmed_chunks_lose_overlap :
  tc_text <$> default [] (_chunkPageText 1 [] [] None [] 4 2 9 (Some (lit "ab  cd")))
  = [lit "ab"; lit "cd"].
Proof. reflexivity. Qed.

(** A blank window ends the loop: the text after it yields no chunk. *)
Example blank_window_stops :
  tc_text <$> default [] (_chunkPageText 1 [] [] None [] 2 0 9 (Some (lit "a      b")))
  = [lit "a"].
Proof. reflexivity. Qed.


(** [_chunkPageText] returns once the fuel covers the trimmed text. *)
Lemma chunkPageText_returns (page : Z) (chatbotId documentId : list N)
    (filename : option (list N)) (userGroupTags : list (list N))
    (maxChars overlap : Z) (pageText : option (list N)) :
  0 <= overlap < maxChars ->
  exists chunks, forall fuel,
    (length (strip (default [] pageText)) <= fuel)%nat ->
    _chunkPageText page chatbotId documentId filename userGroupTags
                   maxChars overlap fuel pageText = Some chunks.
Proof.
  intros HO. unfold _chunkPageText.
  destruct (is_empty (strip (default [] pageText))); [exists []; auto|].
  destruct (while_loop_returns page chatbotId documentId filename
              userGroupTags maxChars overlap HO (strip (default [] pageText))
              (Z.of_nat (length (strip (default [] pageText))))
              (length (strip (default [] pageText))) 0 0
              ltac:(lia) ltac:(lia)) as [chunks H].
  exists chunks. exact H.
Qed.

(** So does the loop over the pages, and [chunkMergedPages] with it. *)
Lemma chunk_pages_returns (mergedPages : gmap Z (list MergedTextBlock))
    (chatbotId documentId : list N) (filename : option (list N))
    (userGroupTags : list (list N)) (maxChars overlap : Z) (pages : list Z) :
  0 <= overlap < maxChars ->
  exists fuel0 chunks, forall fuel, (fuel0 <= fuel)%nat ->
    chunk_pages fuel mergedPages chatbotId documentId filename userGroupTags
                maxChars overlap pages = Some chunks.
Proof.
  intros HO. induction pages as [|page rest (fuel1 & chunks1 & IH)].
  - exists 0%nat, []. reflexivity.
  - cbn [chunk_pages].
    destruct (is_empty (_buildPageText (default [] (mergedPages !! page)))).
    + exists fuel1, chunks1. exact IH.
    + destruct (chunkPageText_returns page chatbotId documentId filename
                  userGroupTags maxChars overlap
                  (Some (_buildPageText (default [] (mergedPages !! page)))) HO)
        as [chunks0 H0].
      cbn [default from_option id] in H0.
      exists (Nat.max fuel1
                (length (strip (_buildPageText
                                  (default [] (mergedPages !! page)))))),
             (chunks0 ++ chunks1).
      intros fuel Hfuel.
      rewrite H0 by lia. rewrite IH by lia. reflexivity.
Qed.

Lemma chunkMergedPages_returns (mergedPages : gmap Z (list MergedTextBlock))
    (chatbotId documentId : list N) (filename : option (list N))
    (userGroupTags : option (list (list N))) (maxChars overlap : Z) :
  0 < maxChars -> 0 <= overlap < maxChars ->
  exists fuel0 chunks, forall fuel, (fuel0 <= fuel)%nat ->
    chunkMergedPages fuel mergedPages chatbotId documentId filename
                     userGroupTags maxChars overlap = Some (Ok chunks).
Proof.
  intros HM HO. unfold chunkMergedPages.
  destruct (Z.leb_spec maxChars 0); [lia|].
  destruct (Z.ltb_spec overlap 0); [lia|].
  destruct (bool_decide (mergedPages = ∅)); [exists 0%nat, []; auto|].
  match goal with
  | |- context [chunk_pages _ _ _ _ _ ?tags _ _ ?pages] =>
      destruct (chunk_pages_returns mergedPages chatbotId documentId filename
                  tags maxChars overlap pages HO) as (fuel0 & chunks & Hrun)
  end.
  exists fuel0, chunks. intros fuel Hfuel. now rewrite Hrun.
Qed.

(** The guards of [chunkMergedPages]. *)
Lemma chunkMergedPages_guards (fuel : nat)
    (mergedPages : gmap Z (list MergedTextBlock))
    (chatbotId documentId : list N) (filename : option (list N))
    (userGroupTags : option (list (list N))) (maxChars overlap : Z) :
  maxChars <= 0 \/ overlap < 0 ->
  chunkMergedPages fuel mergedPages chatbotId documentId filename
                   userGroupTags maxChars overlap = Some (Raise ValueError).
Proof.
  intros H. unfold chunkMergedPages.
  destruct (Z.leb_spec maxChars 0); [reflexivity|].
  destruct (Z.ltb_spec overlap 0); [reflexivity|lia].
Qed.

(** C7 (as amended). For every page text and all parameters with
    [maxChars > 0] and [0 <= overlap < maxChars] the window loop of
    [_chunkPageText] terminates: as many iterations as the trimmed text has
    characters are enough, and more fuel does not change the result. Each
    iteration either leaves the loop (because the trimmed slice is empty, or
    after appending the chunk whose window reaches the end of the text) or
    appends a chunk and moves the window start forward by exactly
    [maxChars - overlap], which is positive. *)
Theorem chunk_loop_terminates :
  forall (page : Z) (chatbotId documentId : str) (filename : option str)
         (userGroupTags : list str) (maxChars overlap : Z)
         (pageText : option str),
    0 < maxChars -> 0 <= overlap < maxChars ->
    let text := strip (default [] pageText) in
    let L := Z.of_nat (length text) in
    (exists chunks, forall fuel, (length text <= fuel)%nat ->
        _chunkPageText page chatbotId documentId filename userGroupTags
                       maxChars overlap fuel pageText = Some chunks)
    /\ (forall start order, 0 <= start < L ->
          match loop_body page chatbotId documentId filename userGroupTags
                          maxChars overlap text L start order with
          | BreakEmpty =>
              strip (slice text start (window_end maxChars L start)) = []
          | AppendBreak _ => window_end maxChars L start = L
          | AppendNext _ start' order' =>
              start' = start + (maxChars - overlap) /\ start < start'
              /\ order' = order + 1
          end).
Proof.
  intros page chatbotId documentId filename tags M O pageText HM HO text L.
  split.
  - apply chunkPageText_returns. exact HO.
  - intros start order Hs.
    destruct (loop_body_cases page chatbotId documentId filename tags M O
                HO text L start order Hs)
      as [[E H]|[(c & E & H)|(c & E & H)]]; rewrite E; auto.
    repeat split; lia.
Qed.

Lemma chunk_loop_terminates_witness :
  (exists chunks, forall fuel, (8 <= fuel)%nat ->
      _chunkPageText 3 (lit "bot") (lit "doc") None [lit "default"]
                     4 1 fuel (Some (lit " abcdefgh ")) = Some chunks)
  /\ loop_body 3 (lit "bot") (lit "doc") None [lit "default"] 4 1
               (lit "abcdefgh") 8 3 1
     = AppendNext (make_chunk 3 (lit "bot") (lit "doc") None [lit "default"]
                              1 (lit "defg")) 6 2.
Proof.
  pose proof (chunk_loop_terminates 3 (lit "bot") (lit "doc") None
                [lit "default"] 4 1 (Some (lit " abcdefgh "))
                ltac:(lia) ltac:(lia)) as [Hret Hiter].
  split; [exact Hret|reflexivity].
Defined.

(** C7 as stated does not hold: the second iteration over this text has a
    window [2, 4) that does not reach the end of the text (8) and the loop
    does not advance either: the slice is blank and the loop is left. *)
Lemma iteration_neither_ends_nor_advances :
  let text := lit "a      b" in
  window_starts 1 [] [] None [] 2 0 8 text 8 0 0 = [0; 2]
  /\ loop_body 1 [] [] None [] 2 0 text 8 2 1 = BreakEmpty
  /\ window_end 2 8 2 = 4 /\ 4 < 8.
Proof. repeat split. Qed.

(** C2 (as amended). Let [text] be the trimmed page text, of length [L], and
    let no window be blank. With [maxChars = M > 0] and [0 <= overlap = O < M]
    the chunker emits [0] chunks when [L = 0] and otherwise
    [max 1 (ceil ((L - O) / (M - O)))] chunks; chunk [k] has order [k] and
    its text is the trimmed window [text[k(M-O) : min(k(M-O)+M, L)]]; every
    window but the last is [M] long and its last [O] characters are the
    first [O] characters of the next window; the last window ends at [L]. *)
Theorem chunk_count_and_overlap :
  forall (page : Z) (chatbotId documentId : str) (filename : option str)
         (userGroupTags : list str) (maxChars overlap : Z)
         (pageText : option str),
    0 < maxChars -> 0 <= overlap < maxChars ->
    let text := strip (default [] pageText) in
    let L := Z.of_nat (length text) in
    let n := chunk_count maxChars overlap L in
    no_blank_window maxChars overlap text = true ->
    exists chunks,
      (forall fuel, (length text <= fuel)%nat ->
         _chunkPageText page chatbotId documentId filename userGroupTags
                        maxChars overlap fuel pageText = Some chunks)
      /\ Z.of_nat (length chunks) = n
      /\ (forall k, 0 <= k < n ->
            chunks !! Z.to_nat k
            = Some (make_chunk page chatbotId documentId filename userGroupTags
                               k (strip (window maxChars overlap text k))))
      /\ (forall k, 0 <= k -> k + 1 < n ->
            Z.of_nat (length (window maxChars overlap text k)) = maxChars
            /\ drop (Z.to_nat (maxChars - overlap))
                    (window maxChars overlap text k)
               = take (Z.to_nat overlap) (window maxChars overlap text (k + 1))
            /\ Z.of_nat (length (take (Z.to_nat overlap)
                                 (window maxChars overlap text (k + 1))))
               = overlap)
      /\ (0 < n ->
          window_end maxChars L ((n - 1) * (maxChars - overlap)) = L).
Proof.
  intros page chatbotId documentId filename tags M O pageText HM HO text L n Hnb.
  destruct (Z.eq_dec L 0) as [HL0|HL0].
  - exists []. assert (text = []) as Htext by (destruct text; [auto|simpl in *; lia]).
    assert (n = 0) as Hn by (unfold n, chunk_count; now rewrite HL0).
    unfold _chunkPageText. fold text. rewrite Htext. simpl.
    repeat split; auto; intros; lia.
  - assert (0 < L) as HL by lia.
    pose proof (chunk_count_le M O HO L) as Hcount.
    assert (1 <= n) as Hn1.
    { destruct (Z.le_gt_cases n 0) as [Hle|]; [|lia].
      apply Hcount in Hle; lia. }
    exists (map (fun j => make_chunk page chatbotId documentId filename tags j
                            (strip (window M O text j))) (seqZ 0 n)).
    split; [|split; [|split; [|split]]].
    + intros fuel Hfuel. unfold _chunkPageText. fold text.
      assert (is_empty text = false) as ->.
      { clearbody text. destruct text; [simpl in *; lia|reflexivity]. }
      pose proof (while_loop_windows page chatbotId documentId filename tags
                    M O HO text fuel Hnb 0 ltac:(lia) ltac:(lia)
                    ltac:(left; reflexivity) ltac:(fold L; lia)) as Hloop.
      replace (0 * (M - O)) with 0 in Hloop by lia.
      rewrite Hloop. fold L. fold n.
      now replace (n - 0) with n by lia.
    + rewrite length_map, length_seqZ. lia.
    + intros k Hk. rewrite list_lookup_fmap.
      rewrite (lookup_seqZ_lt 0 n (Z.to_nat k)) by lia.
      replace (0 + Z.of_nat (Z.to_nat k)) with k by lia. reflexivity.
    + intros k Hk Hkn. apply window_overlap; auto.
      destruct (Z.le_gt_cases L (k * (M - O) + M)) as [Hle|]; [|lia].
      exfalso. assert (n <= k + 1); [|lia].
      apply Hcount; auto. split; [lia|nia].
    + intros _. unfold window_end.
      assert (n <= n) as Hnn by lia. apply Hcount in Hnn; auto. nia.
Qed.

Lemma chunk_count_and_overlap_witness :
  exists chunks,
    _chunkPageText 3 (lit "bot") (lit "doc") None [lit "default"]
                   4 1 8 (Some (lit " abcdefgh ")) = Some chunks
    /\ length chunks = 3%nat
    /\ tc_text <$> chunks = [lit "abcd"; lit "defg"; lit "gh"]
    /\ tc_chunk_id <$> chunks
       = [lit "doc_p3_c0"; lit "doc_p3_c1"; lit "doc_p3_c2"].
Proof.
  destruct (chunk_count_and_overlap 3 (lit "bot") (lit "doc") None
              [lit "default"] 4 1 (Some (lit " abcdefgh "))
              ltac:(lia) ltac:(lia) ltac:(vm_compute; reflexivity))
    as (chunks & Hrun & Hlen & Hnth & _).
  exists chunks.
  pose proof (Hrun 8%nat ltac:(vm_compute; lia)) as H8.
  split; [exact H8|].
  vm_compute in H8. injection H8 as <-. repeat split.
Defined.

(** C2 as stated does not hold. (1) A text no longer than the overlap
    still yields one chunk, where the formula gives
    [ceil((5 - 9) / (10 - 9)) = -4]. (2) The chunks are trimmed: of the
    windows "ab  " and "  cd" the chunks "ab" and "cd" are left, and the
    last two characters of the first are not the first two of the second.
    (3) A blank window ends the loop: one chunk where the formula gives
    [ceil(8 / 2) = 4], and the window of the last chunk ends at 2, not 8. *)
Lemma chunk_count_formula_fails :
  (exists chunks,
     _chunkPageText 1 (lit "bot") (lit "doc") None [] 10 9 5
                    (Some (lit "abcde")) = Some chunks
     /\ Z.of_nat (length chunks) = 1
     /\ cdiv (5 - 9) (10 - 9) = -4)
  /\ (exists c0 c1,
        _chunkPageText 1 (lit "bot") (lit "doc") None [] 4 2 6
                       (Some (lit "ab  cd")) = Some [c0; c1]
        /\ drop (length (tc_text c0) - 2) (tc_text c0) = lit "ab"
        /\ take 2 (tc_text c1) = lit "cd")
  /\ (exists c0,
        _chunkPageText 1 (lit "bot") (lit "doc") None [] 2 0 8
                       (Some (lit "a      b")) = Some [c0]
        /\ cdiv (8 - 0) (2 - 0) = 4
        /\ window_starts 1 (lit "bot") (lit "doc") None [] 2 0 8
                         (lit "a      b") 8 0 0 = [0; 2]
        /\ window_end 2 8 0 = 2).
Proof.
  split; [|split].
  - eexists. repeat split.
  - do 2 eexists. repeat split.
  - eexists. repeat split.
Qed.

End ChunkingFacts.

(* ===================================================================== *)
(** ** parseJson: the order of the recovery attempts *)
(* ===================================================================== *)

Module ParseJsonFacts.
Import LlmClient.

Lemma is_empty_nil (s : str) : is_empty s = true -> s = [].
Proof. destruct s; [reflexivity|discriminate]. Qed.

Section Facts.

Variable json_loads : str -> option pyval.

Lemma parseJson_refines_spec (raw : option str) :
  parseJson json_loads raw = parseJson_spec json_loads raw.
Proof.
  unfold parseJson, parseJson_spec.
  set (s := strip (default [] raw)).
  destruct (is_empty s) eqn:Es.
  - apply is_empty_nil in Es. rewrite Es. reflexivity.
  - unfold first_success, attempt_whole, attempt_fenced, attempt_braces,
      braces_substring.
    destruct (startswith [lbrace] s && endswith [rbrace] s);
      [destruct (json_loads s); [reflexivity|]|];
      (destruct (code_block_search s) as [g|]; simpl;
       [destruct (json_loads (strip g)); [reflexivity|]|];
       (destruct (find [lbrace] s) as [first|]; simpl; [|reflexivity];
        destruct (rfind [rbrace] s) as [last|]; simpl; [|reflexivity];
        destruct (last <=? first)%nat; simpl; [reflexivity|];
        match goal with
        | |- context [json_loads ?x] => destruct (json_loads x); reflexivity
        end)).
Qed.


End Facts.



(** The order matters: when the whole string is not a document but a fenced
    block inside it is, the block is returned; and a block that does not
    parse leaves the last word to the braces substring. *)
Example parseJson_order_example :
  let outer := lit "{ see ```" ++ obj_a1 ++ lit "``` }" in
  attempt_whole loads_a1 outer = None
  /\ parseJson loads_a1 (Some outer) = Ok (PDict [(lit "a", PInt 1)]).
Proof. split; reflexivity. Qed.

End ParseJsonFacts.

(* ===================================================================== *)
(** ** Stage 0, OCR cleanup: nothing is lost when the model fails *)
(* ===================================================================== *)

Module FirstRefineFacts.
Import LlmClient FirstRefine.

Section Facts.

Variables (w : World) (lib : PyLib).



End Facts.



Import Samples.


(** When the call succeeds the text of the block is the cleaned text, and
    a blank block is not sent to the model at all. *)
Example cleanOcrTextBlocks_cleans :
  exists out,
    cleanOcrTextBlocks cleaning_world sample_lib sample_blocks []
    = (Ok out, [EvLlm 0 (lit "E3  err0r")])
    /\ tb_text <$> out = [Some (lit "E3 error"); Some (lit "   ")].
Proof. eexists. split; vm_compute; reflexivity. Qed.

End FirstRefineFacts.

(* ===================================================================== *)
(** ** Retrieval: neighbor expansion *)
(* ===================================================================== *)

Module SearchFacts.
Import Search.

#[local] Set Warnings "-clear-no-such-hyp".

(** *** The stable insertion sort *)

Section Sorting.

Context {A : Type} (le : A -> A -> bool).
Hypothesis le_total : forall a b, le a b = false -> le b a = true.

Lemma insert_by_perm (x : A) (l : list A) : insert_by le x l ≡ₚ x :: l.
Proof.
  induction l as [|y l IH]; simpl; [reflexivity|].
  destruct (le x y); [reflexivity|].
  rewrite IH. apply Permutation_swap.
Qed.

Lemma sort_by_perm (l : list A) : sort_by le l ≡ₚ l.
Proof.
  induction l as [|x l IH]; simpl; [reflexivity|].
  rewrite insert_by_perm. now rewrite IH.
Qed.

Lemma insert_by_sorted (x : A) (l : list A) :
  Sorted (fun a b => le a b = true) l ->
  Sorted (fun a b => le a b = true) (insert_by le x l).
Proof.
  induction 1 as [|y l Hs IH Hhd]; simpl.
  - repeat constructor.
  - destruct (le x y) eqn:E.
    + constructor; [constructor; assumption|constructor; assumption].
    + constructor; [assumption|].
      destruct l as [|z l]; simpl in *.
      * constructor. now apply le_total.
      * destruct (le x z); constructor; [now apply le_total|].
        now inversion Hhd.
Qed.

Lemma sort_by_sorted (l : list A) :
  Sorted (fun a b => le a b = true) (sort_by le l).
Proof.
  induction l as [|x l IH]; simpl; [constructor|].
  now apply insert_by_sorted.
Qed.

End Sorting.

Lemma compare_antisym (a b : list N) :
  PyStr.compare b a = CompOpp (PyStr.compare a b).
Proof.
  revert b. induction a as [|x a IH]; intros [|y b]; simpl; try reflexivity.
  rewrite (N.compare_antisym x y).
  destruct (x ?= y)%N; simpl; auto.
Qed.


(** *** The targets collected from the base hits *)

Lemma eqb_eq (a b : list N) : eqb a b = true <-> a = b.
Proof. unfold eqb. apply bool_decide_eq_true. Qed.




(** *** The neighbors taken from one reply of [col.get] *)

Lemma drop_cons_lookup {A} (l : list A) (idx : nat) (x : A) (rest : list A) :
  drop idx l = x :: rest -> l !! idx = Some x /\ drop (S idx) l = rest.
Proof.
  intros H. split.
  - pose proof (lookup_drop l idx 0) as Hl. rewrite H in Hl. simpl in Hl.
    now rewrite Nat.add_0_r in Hl.
  - replace (S idx) with (idx + 1)%nat by lia.
    rewrite <- drop_drop, H. reflexivity.
Qed.

Lemma truthy_id_Some (ch : Chunk) (id : list N) :
  truthy_id ch = Some id <-> chunk_id ch = Some id /\ truthy_str (Some id) = true.
Proof.
  unfold truthy_id. destruct (truthy_str (chunk_id ch)) eqn:E.
  - split; [intros H; rewrite H in E; auto|intros [H _]; exact H].
  - split; [discriminate|intros [H1 H2]; rewrite H1 in E; congruence].
Qed.

Lemma neighbor_loop_spec (hits : list StoreRecord) (order_set : gset Z) :
  forall (rest : list StoreRecord) (idx : nat) seen found seen',
    drop idx hits = rest ->
    neighbor_loop (reply_of hits) order_set idx (rec_document <$> rest) seen
    = (found, seen') ->
    seen ⊆ seen'
    /\ NoDup (chunk_ids found)
    /\ (forall id, id ∈ chunk_ids found -> (id ∉ seen) /\ id ∈ seen')
    /\ (forall n, n ∈ found ->
          score n = 0%Q
          /\ (exists r, r ∈ hits /\ stored_as n r
                /\ (exists oi, sm_order_index (rec_meta r) = Some oi
                               /\ oi ∈ order_set))).
Proof.
  induction rest as [|r rest IH]; intros idx seen found seen' Hdrop Hrun.
  - simpl in Hrun. injection Hrun as <- <-.
    split; [reflexivity|]. split; [constructor|].
    split; intros ? H; inversion H.
  - apply drop_cons_lookup in Hdrop as [Hidx Hdrop].
    simpl in Hrun. rewrite list_lookup_fmap, Hidx in Hrun. simpl in Hrun.
    destruct (sm_order_index (rec_meta r)) as [oi|] eqn:Eoi;
      [|exact (IH _ _ _ _ Hdrop Hrun)].
    destruct (bool_decide (oi ∈ order_set)) eqn:Ein; simpl in Hrun;
      [|exact (IH _ _ _ _ Hdrop Hrun)].
    apply bool_decide_eq_true in Ein.
    set (chunkId := pick_chunk_id (rec_meta r) (rec_id <$> hits) idx) in *.
    destruct (truthy_str chunkId) eqn:Etr; simpl in Hrun;
      change (list_fmap StoreRecord (list N) rec_document rest)
        with (rec_document <$> rest) in Hrun.
    + destruct (bool_decide (default [] chunkId ∈ seen)) eqn:Eseen;
        [exact (IH _ _ _ _ Hdrop Hrun)|].
      apply bool_decide_eq_false in Eseen.
      destruct (neighbor_loop (reply_of hits) order_set (S idx)
                  (rec_document <$> rest) ({[default [] chunkId]} ∪ seen))
        as [more seen1] eqn:Emore.
      injection Hrun as <- <-.
      destruct (IH _ _ _ _ Hdrop Emore) as (Hsub & Hnd & Hids & Hn).
      destruct chunkId as [id|] eqn:Eid; [|discriminate]. simpl in *.
      assert (Htid : truthy_id {| chunk_id := Some id; text := rec_document r;
                                  score := 0%Q; meta := _buildMeta (rec_meta r) |}
                     = Some id).
      { apply truthy_id_Some. simpl. auto. }
      split; [set_solver|]. split; [|split].
      * unfold chunk_ids. simpl. rewrite Htid. constructor; [|exact Hnd].
        intros Hin. apply Hids in Hin. set_solver.
      * intros i Hi. unfold chunk_ids in Hi. simpl in Hi. rewrite Htid in Hi.
        apply elem_of_cons in Hi as [->|Hi]; [set_solver|].
        apply Hids in Hi. set_solver.
      * intros n Hin. apply elem_of_cons in Hin as [->|Hin]; [|now apply Hn].
        simpl. split; [reflexivity|]. exists r.
        split; [eapply list_elem_of_lookup_2; exact Hidx|].
        split; [split; reflexivity|]. exists oi. auto.
    + destruct (neighbor_loop (reply_of hits) order_set (S idx)
                  (rec_document <$> rest) seen) as [more seen1] eqn:Emore.
      injection Hrun as <- <-.
      destruct (IH _ _ _ _ Hdrop Emore) as (Hsub & Hnd & Hids & Hn).
      assert (Htid : truthy_id {| chunk_id := chunkId; text := rec_document r;
                                  score := 0%Q; meta := _buildMeta (rec_meta r) |}
                     = None).
      { unfold truthy_id. simpl. now rewrite Etr. }
      split; [exact Hsub|]. split; [|split].
      * unfold chunk_ids. simpl. rewrite Htid. exact Hnd.
      * intros i Hi. unfold chunk_ids in Hi. simpl in Hi. rewrite Htid in Hi.
        now apply Hids.
      * intros n Hin. apply elem_of_cons in Hin as [->|Hin]; [|now apply Hn].
        simpl. split; [reflexivity|]. exists r.
        split; [eapply list_elem_of_lookup_2; exact Hidx|].
        split; [split; reflexivity|]. exists oi. auto.
Qed.


Lemma col_get_reply (col : list StoreRecord) (wh : list cond) :
  col_get col wh = reply_of (filter (fun r => satisfies wh r = true) col).
Proof. reflexivity. Qed.

Lemma str_field_is_true (f : option (list N)) (v : list N) :
  str_field_is f v = true -> f = Some v.
Proof.
  unfold str_field_is. destruct f; [|discriminate].
  intros H. apply eqb_eq in H. now subst.
Qed.

Section Expansion.

Variable w : World.

(** *** The loop over the documents of the base hits *)





(** *** The base hits *)

Lemma base_chunks_spec (hits : list StoreRecord) (dist : StoreRecord -> Q) :
  forall (rest : list StoreRecord) (idx : nat),
    drop idx hits = rest ->
    forall c, c ∈ base_chunks (query_reply_of hits dist) idx
                              (rec_document <$> rest) ->
      exists r, r ∈ hits /\ stored_as c r.
Proof.
  induction rest as [|r rest IH]; intros idx Hdrop c Hc.
  - inversion Hc.
  - apply drop_cons_lookup in Hdrop as [Hidx Hdrop].
    cbn [fmap list_fmap base_chunks] in Hc.
    apply elem_of_cons in Hc as [->|Hc].
    + exists r. split; [eapply list_elem_of_lookup_2; exact Hidx|].
      split; simpl; [|reflexivity].
      now rewrite list_lookup_fmap, Hidx.
    + exact (IH (S idx) Hdrop c Hc).
Qed.

(** Every base hit is a stored record that passes the [where] filter of
    [_buildWhere]. *)
Lemma searchTopK_filtered (q chatbotId : list N) (userGroup : option (list N))
    (topK : Z) (tr tr1 : trace) (base : list Chunk) :
  searchTopK w q chatbotId userGroup topK tr = (Ok base, tr1) ->
  forall b, b ∈ base ->
    exists col r, collection w tr chatbotId = Some col /\ r ∈ col
      /\ satisfies (_buildWhere chatbotId userGroup) r = true
      /\ stored_as b r.
Proof.
  unfold searchTopK. intros Hrun b Hb.
  destruct (collection w tr chatbotId) as [col|];
    [|injection Hrun as <- _; inversion Hb].
  destruct (embed_distance w tr q) as [dist|];
    [|injection Hrun as <- _; inversion Hb].
  destruct (query_fails w _); [injection Hrun as <- _; inversion Hb|].
  injection Hrun as <- _.
  set (hits := take (Z.to_nat topK)
                 (sort_by (fun a b => Qle_bool (dist a) (dist b))
                    (filter (fun r => satisfies (_buildWhere chatbotId userGroup) r = true)
                            col))) in *.
  change (col_query col dist topK (_buildWhere chatbotId userGroup))
    with (query_reply_of hits dist) in Hb.
  destruct (base_chunks_spec hits dist hits 0%nat eq_refl b Hb) as (r & Hr & Hst).
  exists col, r. split; [reflexivity|].
  apply elem_of_take in Hr as (i & Hr & _).
  apply list_elem_of_lookup_2 in Hr.
  rewrite sort_by_perm in Hr.
  apply list_elem_of_filter in Hr as [Hsat Hr]. auto.
Qed.

End Expansion.




Import Samples.

(** The example of the specification: one base hit at order index 5 and
    radius 2. The neighbors are the chunks 3, 4, 6 and 7 of the same
    document; chunk 4 of document E and the chunks 2 and 8 are left out. *)
Example neighbors_of_order_index_5 :
  exists result,
    searchTopKWithNeighbors sample_world (lit "E3 error") (lit "bot")
                            (Some (lit "public")) 1 2 []
    = (Ok result, [ EvEmbed (lit "E3 error");
                    EvQuery (lit "bot") (Some (lit "public")) 1;
                    EvGet (lit "bot") (lit "D") 3 7 ])
    /\ map (fun ch => (chunk_id ch, score ch)) result
       = [ (Some (lit "D_p1_c5"), 1%Q);
           (Some (lit "D_p1_c3"), 0%Q); (Some (lit "D_p1_c4"), 0%Q);
           (Some (lit "D_p1_c6"), 0%Q); (Some (lit "D_p1_c7"), 0%Q) ].
Proof. eexists. split; vm_compute; reflexivity. Qed.

(** C9. The [user_group] filter of [_buildWhere] constrains the base hits:
    with a non-empty [userGroup], every base hit is a stored record of that
    group. The neighbor fetch filters on [document_id] and the
    [order_index] range only, so a neighbor of another group can be
    returned: in the sample store the query for the group "public" returns
    chunk 4 of document D, which is stored for the group "staff". *)
Theorem neighbor_fetch_ignores_user_group :
  (forall (w : World) (q chatbotId g : list N) (topK : Z) (tr tr1 : trace)
          (base : list Chunk),
      g <> [] ->
      searchTopK w q chatbotId (Some g) topK tr = (Ok base, tr1) ->
      forall b, b ∈ base ->
        exists col r, collection w tr chatbotId = Some col /\ r ∈ col
          /\ stored_as b r /\ sm_user_group (rec_meta r) = Some g)
  /\ (exists (result : list Chunk) (tr' : trace) (n : Chunk) (r : StoreRecord),
        searchTopKWithNeighbors sample_world (lit "E3 error") (lit "bot")
                                (Some (lit "public")) 1 2 [] = (Ok result, tr')
        /\ n ∈ result /\ r ∈ sample_store
        /\ stored_as n r /\ chunk_id n = Some (rec_id r)
        /\ sm_user_group (rec_meta r) = Some (lit "staff")
        /\ user_group_tags (meta n) = Some (lit "staff")).
Proof.
  split.
  - intros w q chatbotId g topK tr tr1 base Hg Hrun b Hb.
    destruct (searchTopK_filtered w q chatbotId (Some g) topK tr tr1 base Hrun b Hb)
      as (col & r & Hcol & Hr & Hsat & Hst).
    exists col, r. repeat (split; [assumption|]).
    destruct g as [|c g]; [congruence|].
    unfold satisfies, _buildWhere in Hsat. simpl in Hsat.
    apply andb_true_iff in Hsat as [_ Hsat].
    apply andb_true_iff in Hsat as [Hsat _].
    now apply str_field_is_true.
  - eexists _, _, _, (sample_record "D" 4 "staff").
    split; [vm_compute; reflexivity|].
    split; [do 2 right; left|].
    split; [do 2 right; left|].
    repeat split.
Qed.



Lemma neighbor_fetch_ignores_user_group_witness :
  exists col r,
    collection sample_world [] (lit "bot") = Some col /\ r ∈ col
    /\ stored_as {| chunk_id := Some (lit "D_p1_c5");
                    text := rec_document (sample_record "D" 5 "public");
                    score := 1;
                    meta := _buildMeta (sample_meta "D" 5 "public") |} r
    /\ sm_user_group (rec_meta r) = Some (lit "public").
Proof.
  destruct neighbor_fetch_ignores_user_group as [Hbase _].
  apply (Hbase sample_world (lit "E3 error") (lit "bot") (lit "public") 1 []
               [ EvEmbed (lit "E3 error");
                 EvQuery (lit "bot") (Some (lit "public")) 1 ]
               [ {| chunk_id := Some (lit "D_p1_c5");
                    text := rec_document (sample_record "D" 5 "public");
                    score := 1;
                    meta := _buildMeta (sample_meta "D" 5 "public") |} ]).
  - vm_compute. discriminate.
  - vm_compute. reflexivity.
  - left.
Defined.

End SearchFacts.

(* ===================================================================== *)
(** ** The query pipeline *)
(* ===================================================================== *)

Module QueryServiceFacts.
Import LlmClient Search QueryRefine AnswerGeneration QueryService.

Section Facts.

Variables (w : World) (lib : PyLib).

(** *** The calls to the model *)

Lemma callQwen_trace (task_id : Z) (payload : list N) (tr : trace) :
  snd (callQwen w task_id payload tr) = tr ++ [EvLlm task_id payload].
Proof.
  unfold callQwen. destruct (llm_reply w tr task_id payload) as [|code body];
    [reflexivity|].
  destruct (negb (code =? 200)); [reflexivity|]. now destruct body.
Qed.

Lemma callQwen_content (task_id : Z) (payload : list N) (tr : trace) c :
  llm_reply w tr task_id payload = Response 200 (Content c) ->
  callQwen w task_id payload tr
  = (Ok (default [] c), tr ++ [EvLlm task_id payload]).
Proof. intros H. unfold callQwen. now rewrite H. Qed.

Lemma callQwen_fails (task_id : Z) (payload : list N) (tr : trace) :
  call_fails (llm_reply w tr task_id payload) ->
  callQwen w task_id payload tr
  = (Raise RuntimeError, tr ++ [EvLlm task_id payload]).
Proof.
  unfold callQwen, call_fails.
  destruct (llm_reply w tr task_id payload) as [|code body]; [reflexivity|].
  destruct (Z.eqb_spec code 200) as [->|Hne]; simpl.
  - destruct body; simpl; tauto.
  - intros _. reflexivity.
Qed.

(** *** Refinement *)

Lemma refineQuery_trace (q chatbotId : list N) (userGroup : option (list N))
    (tr : trace) :
  snd (refineQuery w lib q chatbotId userGroup tr)
  = tr ++ [EvLlm 1 (refine_payload lib q chatbotId userGroup)].
Proof.
  unfold refineQuery, bind.
  pose proof (callQwen_trace 1 (refine_payload lib q chatbotId userGroup) tr) as Ht.
  destruct (callQwen w 1 _ tr) as [[raw|e] tr1]; simpl in Ht; subst tr1;
    [|reflexivity].
  destruct (parseJson (json_loads lib) (Some raw)) as [data|e]; [|reflexivity].
  unfold lift, ret.
  destruct (as_dict data) as [d|e]; [|reflexivity].
  destruct (as_dict (por (get (lit "filters") d) (PDict []))); [|reflexivity].
  destruct (as_dict (por (get (lit "meta") d) (PDict []))); [|reflexivity].
  destruct (py_len _); reflexivity.
Qed.

Lemma refineQuery_unparseable (q chatbotId : list N)
    (userGroup : option (list N)) (tr : trace) :
  unparseable lib (llm_reply w tr 1 (refine_payload lib q chatbotId userGroup)) ->
  refineQuery w lib q chatbotId userGroup tr
  = (Ok (refine_fallback q),
     tr ++ [EvLlm 1 (refine_payload lib q chatbotId userGroup)]).
Proof.
  intros (c & e & Hr & Hp). unfold refineQuery, bind.
  rewrite (callQwen_content _ _ _ _ Hr), Hp. reflexivity.
Qed.

Lemma refineQuery_call_fails (q chatbotId : list N)
    (userGroup : option (list N)) (tr : trace) :
  call_fails (llm_reply w tr 1 (refine_payload lib q chatbotId userGroup)) ->
  refineQuery w lib q chatbotId userGroup tr
  = (Raise RuntimeError,
     tr ++ [EvLlm 1 (refine_payload lib q chatbotId userGroup)]).
Proof.
  intros H. unfold refineQuery, bind. now rewrite (callQwen_fails _ _ _ H).
Qed.

Lemma lookup_set_same (k : list N) (v : pyval) (d : dict) :
  lookup k (PyVal.set k v d) = Some v.
Proof.
  induction d as [|[k' v'] d IH]; simpl.
  - unfold eqb. now rewrite bool_decide_eq_true_2.
  - destruct (eqb k k') eqn:E; simpl; rewrite ?E; auto.
    unfold eqb. now rewrite bool_decide_eq_true_2.
Qed.

Lemma por_dict (s : dict) : exists s', por (PDict s) (PDict []) = PDict s'.
Proof. unfold por. destruct (truthy (PDict s)); eauto. Qed.

(** Whatever [refineQuery] returns, its safety entry can be read. *)
Lemma refineQuery_block_required (q chatbotId : list N)
    (userGroup : option (list N)) (tr tr1 : trace) norm :
  refineQuery w lib q chatbotId userGroup tr = (Ok norm, tr1) ->
  exists b, block_required norm = Ok b.
Proof.
  unfold refineQuery, bind. 
  destruct (callQwen w 1 _ tr) as [[raw|e] tr']; [|discriminate].
  destruct (parseJson (json_loads lib) (Some raw)) as [data|e].
  2:{ intros H. injection H as <- _. exists false. reflexivity. }
  unfold lift, ret.
  destruct (as_dict data) as [d|e]; [|discriminate].
  destruct (as_dict (por (get (lit "filters") d) (PDict []))); [|discriminate].
  destruct (as_dict (por (get (lit "meta") d) (PDict []))) as [m|]; [|discriminate].
  destruct (py_len _); [|discriminate].
  intros H. injection H as <- _.
  unfold block_required. cbn [QueryRefine.meta].
  unfold get at 1. rewrite lookup_set_same. cbn [from_option id].
  match goal with
  | |- context [por (PDict ?s) (PDict [])] =>
      destruct (por_dict s) as [s' ->]
  end.
  cbn [as_dict result_bind]. eauto.
Qed.


(** *** Retrieval makes search calls only, and always returns *)

Lemma fetch_neighbors_events (chatbotId : list N) (col : list StoreRecord)
    (items : list (list N * gset Z)) :
  forall seen tr, exists found evs,
    fetch_neighbors w chatbotId col items seen tr = (Ok found, tr ++ evs)
    /\ search_events evs.
Proof.
  induction items as [|[doc_id order_set] items IH]; intros seen tr.
  - exists [], []. rewrite app_nil_r. split; [reflexivity|constructor].
  - cbn [fetch_neighbors]. destruct (bool_decide (order_set = ∅)); [apply IH|].
    set (ev := EvGet chatbotId doc_id (set_min order_set) (set_max order_set)).
    destruct (get_fails w tr).
    + destruct (IH seen (tr ++ [ev])) as (found & evs & Hrun & Hevs).
      exists found, (ev :: evs). rewrite Hrun, <- app_assoc.
      split; [reflexivity|]. constructor; [reflexivity|exact Hevs].
    + destruct (neighbor_loop _ order_set 0 _ seen) as [found1 seen1].
      destruct (IH seen1 (tr ++ [ev])) as (found & evs & Hrun & Hevs).
      exists (found1 ++ found), (ev :: evs). unfold bind. rewrite Hrun.
      rewrite <- app_assoc.
      split; [reflexivity|]. constructor; [reflexivity|exact Hevs].
Qed.

Lemma searchTopK_events (q chatbotId : list N) (userGroup : option (list N))
    (topK : Z) (tr : trace) :
  exists base evs,
    searchTopK w q chatbotId userGroup topK tr = (Ok base, tr ++ evs)
    /\ search_events evs.
Proof.
  unfold searchTopK.
  destruct (collection w tr chatbotId).
  2:{ exists [], []. rewrite app_nil_r. split; [reflexivity|constructor]. }
  destruct (embed_distance w tr q).
  2:{ exists [], [EvEmbed q]. split; [reflexivity|repeat constructor]. }
  destruct (query_fails w _); eexists _, [EvEmbed q; EvQuery chatbotId userGroup topK];
    rewrite <- app_assoc; (split; [reflexivity|repeat constructor]).
Qed.

Lemma search_returns (q chatbotId : list N) (userGroup : option (list N))
    (topK radius : Z) (tr : trace) :
  exists rawChunks evs,
    searchTopKWithNeighbors w q chatbotId userGroup topK radius tr
    = (Ok rawChunks, tr ++ evs)
    /\ search_events evs.
Proof.
  unfold searchTopKWithNeighbors, bind.
  destruct (searchTopK_events q chatbotId userGroup topK tr)
    as (base & evs & -> & Hevs).
  destruct base as [|b base]; [exists [], evs; split; [reflexivity|exact Hevs]|].
  destruct (radius <=? 0); [eexists _, evs; split; [reflexivity|exact Hevs]|].
  destruct (collection w (tr ++ evs) chatbotId) as [col|];
    [|eexists _, evs; split; [reflexivity|exact Hevs]].
  destruct (collect_targets radius (b :: base) [] ∅) as [targets seen].
  destruct (fetch_neighbors_events chatbotId col targets seen (tr ++ evs))
    as (found & evs' & -> & Hevs').
  eexists _, (evs ++ evs'). rewrite app_assoc. split; [reflexivity|].
  apply Forall_app. split; assumption.
Qed.

(** *** The answer stage *)

Lemma generateAnswer_trace (q nq : list N) (kw : list (list N)) (fl : dict)
    (rc ia : list N) (ctx : list Chunk) (tr : trace) :
  snd (generateAnswerWithContext w lib q nq kw fl rc ia ctx tr)
  = tr ++ [EvLlm 2 (answer_payload lib q nq kw fl rc ia ctx)].
Proof.
  unfold generateAnswerWithContext, bind.
  pose proof (callQwen_trace 2 (answer_payload lib q nq kw fl rc ia ctx) tr) as Ht.
  destruct (callQwen w 2 _ tr) as [[raw|e] tr1]; simpl in Ht; subst tr1;
    [|reflexivity].
  destruct (parseJson (json_loads lib) (Some raw)) as [data|e]; [|reflexivity].
  unfold lift, ret.
  destruct (as_dict data) as [d|e]; [|reflexivity].
  destruct (is_empty _); [reflexivity|].
  destruct (as_dict (por (get (lit "meta") d) (PDict []))); [|reflexivity].
  match goal with |- context [if ?c then _ else _] => destruct c end;
    [destruct (result_bind _ _); reflexivity|reflexivity].
Qed.


Lemma generateAnswer_call_fails (q nq : list N) (kw : list (list N))
    (fl : dict) (rc ia : list N) (ctx : list Chunk) (tr : trace) :
  call_fails (llm_reply w tr 2 (answer_payload lib q nq kw fl rc ia ctx)) ->
  generateAnswerWithContext w lib q nq kw fl rc ia ctx tr
  = (Raise RuntimeError,
     tr ++ [EvLlm 2 (answer_payload lib q nq kw fl rc ia ctx)]).
Proof.
  intros H. unfold generateAnswerWithContext, bind.
  now rewrite (callQwen_fails _ _ _ H).
Qed.

End Facts.

(** *** The confidence gate *)


(** The buckets of the specification. *)
Example confidence_buckets :
  _estimateRetrievalConfidence (9 # 10) = lit "high"
  /\ _estimateRetrievalConfidence (7 # 10) = lit "medium"
  /\ _estimateRetrievalConfidence (5 # 10) = lit "low"
  /\ _estimateRetrievalConfidence (1 # 10) = lit "unknown"
  /\ _confidenceBelowMinimum (lit "unknown") = true
  /\ _confidenceBelowMinimum (lit "low") = false
  /\ _confidenceBelowMinimum (lit "blocked") = true.
Proof. repeat split. Qed.


(** *** Images are collected from every chunk given *)

Section ImageFacts.

Variable lib : PyLib.






End ImageFacts.


Import Samples.

(** *** The gates of [progressQuery] *)

(** Every run on a non-blank question starts with the refinement call. *)
Lemma progressQuery_starts_with_refinement (w : World) (lib : PyLib)
    (chatbotId : list N) (question userGroup : option (list N)) (topK : Z)
    (debug : bool) (tr : trace) :
  let q := strip (default [] question) in
  q <> [] ->
  exists r rest,
    progressQuery w lib chatbotId question userGroup topK debug tr
    = (r, tr ++ EvLlm 1 (refine_payload lib q chatbotId userGroup) :: rest).
Proof.
  intros q Hq. unfold progressQuery, bind, now. fold q.
  destruct (is_empty q) eqn:Eq; [destruct q; [congruence|discriminate]|].
  pose proof (refineQuery_trace w lib q chatbotId userGroup tr) as Htr.
  destruct (refineQuery w lib q chatbotId userGroup tr) as [[norm|e] tr1] eqn:Eref;
    simpl in Htr; subst tr1; [|eexists _, []; reflexivity].
  destruct (refineQuery_block_required w lib _ _ _ _ _ _ Eref) as [b Hb].
  unfold lift. rewrite Hb. destruct b; [eexists _, []; reflexivity|].
  destruct (search_returns w (normalized_query norm) chatbotId userGroup topK 2
              (tr ++ [EvLlm 1 (refine_payload lib q chatbotId userGroup)]))
    as (rawChunks & evs & -> & _).
  destruct (_confidenceBelowMinimum _).
  { eexists _, evs. unfold ret. now rewrite <- app_assoc. }
  match goal with
  | |- context [generateAnswerWithContext w lib ?a ?b ?c ?d ?e ?f ?g ?t] =>
      pose proof (generateAnswer_trace w lib a b c d e f g t) as Hans;
      destruct (generateAnswerWithContext w lib a b c d e f g t) as [[ans|e'] tr3]
  end; simpl in Hans; subst tr3; unfold ret;
    eexists _, (evs ++ [_]); rewrite <- !app_assoc; reflexivity.
Qed.

(** C10. [progressQuery] raises [ValueError] when the question is absent,
    empty or white space only, and does so before any call: the trace is
    unchanged. For every other question it goes on into the pipeline: the
    refinement call for the trimmed question is made. *)
Theorem blank_question_raises_before_any_call :
  forall (w : World) (lib : PyLib) (chatbotId : list N)
         (question userGroup : option (list N)) (topK : Z) (debug : bool)
         (tr : trace),
    let q := strip (default [] question) in
    (q = [] ->
     progressQuery w lib chatbotId question userGroup topK debug tr
     = (Raise ValueError, tr))
    /\ (q <> [] ->
        exists r rest,
          progressQuery w lib chatbotId question userGroup topK debug tr
          = (r, tr ++ EvLlm 1 (refine_payload lib q chatbotId userGroup)
                     :: rest)).
Proof.
  intros w lib chatbotId question userGroup topK debug tr q. split.
  - intros Hq. unfold progressQuery, bind, now. fold q. now rewrite Hq.
  - apply progressQuery_starts_with_refinement.
Qed.

Lemma blank_question_raises_before_any_call_witness :
  progressQuery chatty_world sample_lib (lit "bot") (Some (lit "  ")) None 5
                true []
  = (Raise ValueError, [])
  /\ exists r rest,
       progressQuery chatty_world sample_lib (lit "bot")
                     (Some (lit " E3 error ")) None 5 true []
       = (r, EvLlm 1 (lit "E3 error") :: rest).
Proof.
  destruct (blank_question_raises_before_any_call chatty_world sample_lib
              (lit "bot") (Some (lit "  ")) None 5 true []) as [Hblank _].
  destruct (blank_question_raises_before_any_call chatty_world sample_lib
              (lit "bot") (Some (lit " E3 error ")) None 5 true [])
    as [_ Hgo].
  split; [exact (Hblank eq_refl)|].
  apply Hgo. vm_compute. discriminate.
Defined.

(** C3. When the refinement's safety metadata marks [block_required],
    [progressQuery] returns the fixed refusal with no supporting chunks and
    no images, and the refinement call is the only call made: no search
    call and no answer call. *)
Theorem safety_block_short_circuits :
  forall (w : World) (lib : PyLib) (chatbotId : list N)
         (question userGroup : option (list N)) (topK : Z) (debug : bool)
         (tr tr1 : trace) (norm : QueryRefineResult),
    let q := strip (default [] question) in
    q <> [] ->
    refineQuery w lib q chatbotId userGroup tr = (Ok norm, tr1) ->
    block_required norm = Ok true ->
    exists result,
      progressQuery w lib chatbotId question userGroup topK debug tr
      = (Ok result, tr1)
      /\ tr1 = tr ++ [EvLlm 1 (refine_payload lib q chatbotId userGroup)]
      /\ qr_answer result = BLOCKED_ANSWER
      /\ qr_supporting_chunks result = []
      /\ qr_images result = []
      /\ qr_retrieval_confidence result = lit "blocked"
      /\ qr_normalized_query result = normalized_query norm.
Proof.
  intros w lib chatbotId question userGroup topK debug tr tr1 norm q Hq Href Hb.
  unfold progressQuery, bind, now. fold q.
  destruct (is_empty q) eqn:Eq; [destruct q; [congruence|discriminate]|].
  rewrite Href. unfold lift. rewrite Hb. unfold ret.
  eexists. split; [reflexivity|].
  split; [|repeat split].
  pose proof (refineQuery_trace w lib q chatbotId userGroup tr) as Htr.
  now rewrite Href in Htr.
Qed.

Lemma safety_block_short_circuits_witness :
  exists result,
    progressQuery blocking_world sample_lib (lit "bot")
                  (Some (lit "how to pick a lock")) None 5 true []
    = (Ok result, [EvLlm 1 (lit "how to pick a lock")])
    /\ qr_answer result = BLOCKED_ANSWER
    /\ qr_supporting_chunks result = []
    /\ qr_images result = [].
Proof.
  destruct (safety_block_short_circuits blocking_world sample_lib (lit "bot")
              (Some (lit "how to pick a lock")) None 5 true []
              _ _ ltac:(vm_compute; discriminate) eq_refl eq_refl)
    as (result & Hrun & _ & Ha & Hc & Hi & _).
  exists result. repeat split; assumption.
Defined.







End QueryServiceFacts.

(* ===================================================================== *)
(** * Further properties

    Properties of the services beyond those the specification states:
    the shape and the numbering of the chunks, what the parser and the
    refinement stages accept, call and return, the images from extraction
    to the answer, the merge of the pages, the rows of the vector store
    and the completeness of the neighbor search. *)
(* ===================================================================== *)

(* ===================================================================== *)
(** ** Python strings: trimming, searching, printing integers *)
(* ===================================================================== *)

Module StrFacts.
Import Shape.

Lemma lstrip_head (s : str) c r : lstrip s = c :: r -> is_space c = false.
Proof.
  induction s as [|a s IH]; simpl; [discriminate|].
  destruct (is_space a) eqn:E; [exact IH|]. intros [= <- <-]. exact E.
Qed.

Lemma lstrip_app_nonspace (s : str) (c : N) :
  is_space c = false -> lstrip (s ++ [c]) = lstrip s ++ [c].
Proof.
  intros Hc. induction s as [|a s IH]; simpl; [now rewrite Hc|].
  destruct (is_space a); [exact IH|reflexivity].
Qed.

Lemma lstrip_suffix (s : str) :
  exists pre, s = pre ++ lstrip s /\ forallb is_space pre = true.
Proof.
  induction s as [|a s (pre & IH & Hpre)]; simpl; [exists []; auto|].
  destruct (is_space a) eqn:E.
  - exists (a :: pre). simpl. rewrite E, Hpre. split; [congruence|reflexivity].
  - exists []. auto.
Qed.

Lemma rstrip_prefix (s : str) :
  exists post, s = rstrip s ++ post /\ forallb is_space post = true.
Proof.
  unfold rstrip. destruct (lstrip_suffix (rev s)) as (pre & H & Hpre).
  exists (rev pre). split.
  - rewrite <- (rev_involutive s), H, rev_app_distr at 1. reflexivity.
  - rewrite forallb_forall in *. intros x Hx. apply Hpre.
    now apply in_rev.
Qed.

Lemma strip_infix (s : str) :
  exists pre post, s = pre ++ strip s ++ post
    /\ forallb is_space pre = true /\ forallb is_space post = true.
Proof.
  destruct (lstrip_suffix s) as (pre & H1 & Hpre).
  destruct (rstrip_prefix (lstrip s)) as (post & H2 & Hpost).
  exists pre, post. unfold strip. rewrite <- H2. auto.
Qed.

Lemma rstrip_cons_nonspace (c : N) (r : str) :
  is_space c = false -> exists r', rstrip (c :: r) = c :: r'.
Proof.
  intros Hc. unfold rstrip. simpl.
  destruct (lstrip_suffix (rev r ++ [c])) as (pre & H & Hpre).
  destruct (lstrip (rev r ++ [c])) as [|x l] eqn:E using rev_ind.
  - rewrite app_nil_r in H. subst pre.
    rewrite forallb_app in Hpre. simpl in Hpre. rewrite Hc in Hpre.
    rewrite andb_false_r in Hpre. discriminate.
  - clear IHl. rewrite app_assoc in H. apply app_inj_tail in H as [_ <-].
    rewrite rev_app_distr. simpl. eauto.
Qed.

Lemma strip_head (s : str) c r : strip s = c :: r -> is_space c = false.
Proof.
  unfold strip. destruct (lstrip s) as [|a l] eqn:E.
  - discriminate.
  - pose proof (lstrip_head _ _ _ E) as Ha.
    destruct (rstrip_cons_nonspace a l Ha) as [r' ->]. congruence.
Qed.

Lemma rstrip_last (s : str) r c : rstrip s = r ++ [c] -> is_space c = false.
Proof.
  unfold rstrip. intros H.
  assert (lstrip (rev s) = c :: rev r) as E.
  { rewrite <- (rev_involutive (lstrip (rev s))), H, rev_app_distr. reflexivity. }
  exact (lstrip_head _ _ _ E).
Qed.

Lemma strip_last (s : str) r c : strip s = r ++ [c] -> is_space c = false.
Proof. apply rstrip_last. Qed.

Lemma lstrip_nonspace (c : N) (r : str) :
  is_space c = false -> lstrip (c :: r) = c :: r.
Proof. intros H. simpl. now rewrite H. Qed.

Lemma rstrip_nonspace (r : str) (c : N) :
  is_space c = false -> rstrip (r ++ [c]) = r ++ [c].
Proof.
  intros H. unfold rstrip. rewrite rev_app_distr. simpl. rewrite H.
  simpl. now rewrite rev_involutive.
Qed.

(** A string that neither starts nor ends with white space is its own
    trimmed form. *)
Lemma strip_fixed (s : str) :
  (forall c r, s = c :: r -> is_space c = false) ->
  (forall r c, s = r ++ [c] -> is_space c = false) ->
  strip s = s.
Proof.
  intros Hh Hl. unfold strip. destruct s as [|c r]; [reflexivity|].
  rewrite lstrip_nonspace by eauto.
  destruct (c :: r) as [|x l] eqn:E using rev_ind; [discriminate|].
  apply rstrip_nonspace. eauto.
Qed.

Lemma strip_idem (s : str) : strip (strip s) = strip s.
Proof.
  apply strip_fixed.
  - intros c r H. exact (strip_head _ _ _ H).
  - intros r c H. exact (strip_last _ _ _ H).
Qed.

Lemma strip_length (s : str) : (length (strip s) <= length s)%nat.
Proof.
  destruct (strip_infix s) as (pre & post & H & _).
  rewrite H at 2. rewrite !length_app. lia.
Qed.

Lemma strip_cons_nonspace (c : N) (r : str) :
  is_space c = false -> exists r', strip (c :: r) = c :: r'.
Proof.
  intros H. unfold strip. rewrite lstrip_nonspace by exact H.
  now apply rstrip_cons_nonspace.
Qed.

Lemma is_empty_false (s : str) : is_empty s = false <-> s <> [].
Proof. destruct s; simpl; split; congruence. Qed.

Lemma is_empty_true (s : str) : is_empty s = true <-> s = [].
Proof. destruct s; simpl; split; congruence. Qed.

(** *** [str(n)] of an integer *)

Lemma string_of_uint_digits (d : Decimal.uint) :
  Forall digit_or_minus (bytes_of (NilEmpty.string_of_uint d)).
Proof.
  induction d; simpl; constructor; try exact IHd;
    unfold digit_or_minus; right; split; apply N.leb_le; reflexivity.
Qed.

Lemma str_of_Z_chars (z : Z) : Forall digit_or_minus (str_of_Z z).
Proof.
  unfold str_of_Z, NilZero.string_of_int.
  assert (forall d, Forall digit_or_minus (bytes_of (NilZero.string_of_uint d)))
    as Hu.
  { intros d. destruct d; try apply string_of_uint_digits.
    constructor; [|constructor].
    unfold digit_or_minus; right; split; apply N.leb_le; reflexivity. }
  destruct (Z.to_int z); simpl; [apply Hu|].
  constructor; [left; reflexivity|apply Hu].
Qed.

Lemma str_of_Z_no (z : Z) (c : N) :
  c <> 45%N -> ~ (48 <= c <= 57)%N -> c ∉ str_of_Z z.
Proof.
  intros H1 H2 Hin. pose proof (str_of_Z_chars z) as Hall.
  rewrite Forall_forall in Hall.
  destruct (Hall _ Hin); congruence.
Qed.

Lemma bytes_of_inj (a b : string) : bytes_of a = bytes_of b -> a = b.
Proof.
  revert b. induction a as [|x a IH]; intros [|y b]; simpl; try congruence.
  intros [= Hxy Hab]. f_equal; [|now apply IH].
  rewrite <- (ascii_N_embedding x), <- (ascii_N_embedding y). now rewrite Hxy.
Qed.

Lemma str_of_Z_inj (a b : Z) : str_of_Z a = str_of_Z b -> a = b.
Proof.
  unfold str_of_Z. intros H. apply bytes_of_inj in H.
  apply to_int_inj.
  assert (forall z, NilZero.int_of_string (NilZero.string_of_int (Z.to_int z))
                    = Some (Z.to_int z)) as Hisi.
  { intros z. apply NilZero.isi; destruct z; simpl; try discriminate;
      intros [= E]; now apply Unsigned.to_uint_nonnil in E. }
  pose proof (Hisi a) as Ha. rewrite H, Hisi in Ha. congruence.
Qed.

Lemma str_of_Z_nonempty (z : Z) : str_of_Z z <> [].
Proof.
  unfold str_of_Z, NilZero.string_of_int.
  assert (forall d, d <> Decimal.Nil -> bytes_of (NilZero.string_of_uint d) <> [])
    as Hu by (intros d Hd; destruct d; simpl; congruence).
  destruct z; simpl; try discriminate.
  apply Hu, Unsigned.to_uint_nonnil.
Qed.

(** Two strings cut at the first occurrence of a character agree part by
    part. *)
Lemma split_at_first (x : N) (a a' r r' : str) :
  x ∉ a -> x ∉ a' -> a ++ x :: r = a' ++ x :: r' -> a = a' /\ r = r'.
Proof.
  revert a'. induction a as [|c a IH]; intros [|c' a'] Ha Ha'; simpl.
  - intros [= ->]. auto.
  - intros [= -> _]. exfalso. apply Ha'. left.
  - intros [= -> _]. exfalso. apply Ha. left.
  - intros [= -> Hrest].
    destruct (IH a') as [-> ->]; auto.
    + intros Hin. apply Ha. now right.
    + intros Hin. apply Ha'. now right.
Qed.

End StrFacts.

(* ===================================================================== *)
(** ** The chunker: what the chunks look like *)
(* ===================================================================== *)

Module ChunkerFacts.
Import Chunking Shape StrFacts.

Lemma slice_from_zero (s : str) (e : Z) :
  0 <= e -> slice s 0 e = take (Z.to_nat e) s.
Proof.
  intros He. unfold slice, norm_index. change (0 <? 0) with false.
  cbv iota. destruct (Z.ltb_spec e 0); [lia|].
  assert (Z.min 0 (Z.of_nat (length s)) = 0) as -> by lia.
  rewrite Z.sub_0_r. change (Z.to_nat 0) with 0%nat. rewrite drop_0.
  destruct (Z.le_gt_cases e (Z.of_nat (length s))).
  - now rewrite Z.min_l by lia.
  - rewrite Z.min_r by lia. rewrite Nat2Z.id.
    rewrite !take_ge by lia. reflexivity.
Qed.

Lemma slice_short (s : str) (a b : Z) :
  0 <= a -> 0 <= b -> Z.of_nat (length (slice s a b)) <= Z.max 0 (b - a).
Proof.
  intros Ha Hb. unfold slice, norm_index.
  destruct (Z.ltb_spec a 0); [lia|]. destruct (Z.ltb_spec b 0); [lia|].
  rewrite length_take. lia.
Qed.

Section Loop.

Variables (page : Z) (chatbotId documentId : str) (filename : option str)
          (userGroupTags : list str) (maxChars overlap : Z).
Hypothesis maxChars_pos : 0 < maxChars.

Local Abbreviation body :=
  (loop_body page chatbotId documentId filename userGroupTags maxChars overlap).
Local Abbreviation loop :=
  (while_loop page chatbotId documentId filename userGroupTags maxChars overlap).
Local Abbreviation chunk :=
  (make_chunk page chatbotId documentId filename userGroupTags).

Lemma window_text_ok (text : str) (start order : Z) :
  0 <= start ->
  let t := strip (slice text start
                        (window_end maxChars (Z.of_nat (length text)) start)) in
  t <> [] -> chunk_ok page chatbotId documentId filename userGroupTags maxChars order (chunk order t).
Proof.
  intros Hs t Ht. unfold chunk_ok. cbn [tc_text chunk make_chunk].
  split; [reflexivity|]. split; [exact Ht|]. split; [apply strip_idem|].
  pose proof (strip_length (slice text start
                (window_end maxChars (Z.of_nat (length text)) start))) as H1.
  pose proof (slice_short text start
                (window_end maxChars (Z.of_nat (length text)) start) Hs) as H2.
  unfold window_end in *. fold t in H1. lia.
Qed.

Lemma loop_body_shape (text : str) (start order : Z) :
  0 <= start ->
  match body text (Z.of_nat (length text)) start order with
  | BreakEmpty => True
  | AppendBreak c => chunk_ok page chatbotId documentId filename userGroupTags maxChars order c
  | AppendNext c start' order' =>
      chunk_ok page chatbotId documentId filename userGroupTags maxChars order c /\ 0 <= start' /\ order' = order + 1
  end.
Proof.
  intros Hs. unfold loop_body.
  pose proof (window_text_ok text start order Hs) as Hok. cbv zeta in Hok.
  destruct (strip (slice text start _)) as [|c r] eqn:E; simpl; [exact I|].
  specialize (Hok ltac:(discriminate)).
  destruct (Z.of_nat (length text) <=? _); [exact Hok|].
  split; [exact Hok|]. split; [|reflexivity].
  destruct (Z.ltb_spec (window_end maxChars (Z.of_nat (length text)) start
                        - overlap) 0); lia.
Qed.

(** The chunks of one page: numbered from [order] on, each of them the
    chunk of its number. *)
Lemma while_loop_shape (text : str) (fuel : nat) :
  forall start order chunks,
    0 <= start ->
    loop fuel text (Z.of_nat (length text)) start order = Some chunks ->
    tc_order <$> chunks = seqZ order (Z.of_nat (length chunks))
    /\ Forall (fun c => chunk_ok page chatbotId documentId filename userGroupTags maxChars (tc_order c) c) chunks.
Proof.
  induction fuel as [|fuel IH]; intros start order chunks Hs; simpl.
  - destruct (start <? _); [discriminate|]. intros [= <-]. split; constructor.
  - destruct (start <? _); [|intros [= <-]; split; constructor].
    pose proof (loop_body_shape text start order Hs) as Hb.
    destruct (body text _ start order) as [|c|c start' order'].
    + intros [= <-]. split; constructor.
    + intros [= <-]. assert (tc_order c = order) as Ho.
      { destruct Hb as [-> _]. reflexivity. }
      split; [simpl; now rewrite Ho|].
      constructor; [now rewrite Ho|constructor].
    + destruct Hb as (Hc & Hs' & ->).
      destruct (loop fuel text _ start' (order + 1)) as [rest|] eqn:E;
        [|discriminate].
      intros [= <-]. destruct (IH _ _ _ Hs' E) as [Hord Hall].
      assert (tc_order c = order) as Ho.
      { destruct Hc as [-> _]. reflexivity. }
      split.
      * cbn [fmap list_fmap length]. change (list_fmap _ _ tc_order rest)
          with (tc_order <$> rest). rewrite Hord, Ho.
        rewrite (ChunkingFacts.seqZ_head order) by lia. f_equal. f_equal. lia.
      * constructor; [now rewrite Ho|exact Hall].
Qed.

(** A trimmed text that is not empty gives a first chunk. *)
Lemma while_loop_first (text : str) (fuel : nat) (chunks : list TextChunk) :
  text <> [] -> strip text = text ->
  loop fuel text (Z.of_nat (length text)) 0 0 = Some chunks ->
  chunks <> [].
Proof.
  intros Hne Hstrip. destruct text as [|c r] eqn:Et; [congruence|].
  rewrite <- Et in *.
  assert (0 < Z.of_nat (length text)) as HL by (subst text; simpl; lia).
  destruct fuel as [|fuel]; simpl;
    destruct (Z.ltb_spec 0 (Z.of_nat (length text))); try lia; [discriminate|].
  unfold loop_body.
  assert (strip (slice text 0 (window_end maxChars (Z.of_nat (length text)) 0))
          <> []) as Hw.
  { unfold window_end. rewrite slice_from_zero by lia.
    assert (is_space c = false) as Hc.
    { apply (strip_head text c r). now rewrite Hstrip. }
    destruct (Z.to_nat (Z.min (0 + maxChars) (Z.of_nat (length text))))
      as [|n] eqn:En; [lia|].
    rewrite Et. cbn [take].
    destruct (strip_cons_nonspace c (take n r) Hc) as [r' ->]. discriminate. }
  destruct (strip (slice text 0 _)); [congruence|]. simpl.
  destruct (_ <=? _); [intros [= <-]; discriminate|].
  destruct (loop fuel _ _ _ _); [intros [= <-]; discriminate|discriminate].
Qed.

End Loop.

(** [_buildPageText] gives a trimmed text. *)
Lemma buildPageText_trimmed (blocks : list MergedTextBlock) :
  strip (_buildPageText blocks) = _buildPageText blocks.
Proof.
  unfold _buildPageText. destruct blocks; [reflexivity|].
  destruct (block_texts _); [reflexivity|apply strip_idem].
Qed.

Lemma chunkPageText_shape (page : Z) (chatbotId documentId : list N)
    (filename : option (list N)) (tags : list (list N)) (maxChars overlap : Z)
    (fuel : nat) (pageText : list N) (chunks : list TextChunk) :
  0 < maxChars -> pageText <> [] -> strip pageText = pageText ->
  _chunkPageText page chatbotId documentId filename tags maxChars overlap
                 fuel (Some pageText) = Some chunks ->
  position <$> chunks
    = (fun k => (page, k)) <$> seqZ 0 (Z.of_nat (length chunks))
  /\ chunks <> []
  /\ Forall (fun c =>
       tc_page c = page /\ 0 <= tc_order c
       /\ tc_chunk_id c = chunk_id_at documentId (position c)
       /\ tc_text c <> [] /\ strip (tc_text c) = tc_text c
       /\ Z.of_nat (length (tc_text c)) <= maxChars
       /\ tc_meta c = {| cm_filename := filename;
                         cm_page := tc_page c;
                         cm_document_id := documentId;
                         cm_chatbot_id := chatbotId;
                         cm_user_group_tags := tags;
                         cm_process_tag := lit "body";
                         cm_chunk_order := tc_order c |}) chunks.
Proof.
  intros HM Hne Hstrip. unfold _chunkPageText. cbn [default from_option id].
  rewrite Hstrip. destruct (is_empty pageText) eqn:E.
  { apply is_empty_true in E. congruence. }
  intros Hrun.
  destruct (while_loop_shape page chatbotId documentId filename tags maxChars
              overlap HM pageText fuel 0 0 chunks ltac:(lia) Hrun)
    as [Hord Hall].
  pose proof (while_loop_first page chatbotId documentId filename tags
                maxChars overlap HM pageText fuel chunks Hne Hstrip Hrun) as H1.
  assert (Forall (fun c => tc_page c = page /\ 0 <= tc_order c) chunks) as Hpo.
  { rewrite Forall_forall. intros c Hc. split.
    - rewrite Forall_forall in Hall. destruct (Hall c Hc) as [-> _]. reflexivity.
    - assert (tc_order c ∈ tc_order <$> chunks) as Hin
        by (apply list_elem_of_fmap; eauto).
      rewrite Hord, elem_of_seqZ in Hin. lia. }
  split; [|split; [exact H1|]].
  - assert (position <$> chunks = (fun k => (page, k)) <$> (tc_order <$> chunks))
      as ->; [|now rewrite Hord].
    rewrite <- list_fmap_compose. apply Forall_fmap_ext.
    eapply Forall_impl; [exact Hpo|]. intros c [Hp _]. unfold position.
    simpl. now rewrite Hp.
  - rewrite Forall_forall in *. intros c Hc.
    destruct (Hall c Hc) as (Heq & Ht & Hs & Hl). destruct (Hpo c Hc) as [Hp Ho].
    repeat split; auto; rewrite Heq; reflexivity.
Qed.

Lemma has_text_iff (mergedPages : gmap Z (list MergedTextBlock)) (p : Z) :
  _buildPageText (default [] (mergedPages !! p)) <> []
  <-> page_has_text mergedPages p.
Proof.
  unfold page_has_text. destruct (mergedPages !! p) as [blocks|]; simpl.
  - split; [eauto|]. intros (b & [= <-] & H). exact H.
  - split; [congruence|]. intros (b & [=] & _).
Qed.

(** The loop over the pages: the chunks come page by page, for the pages
    that hold text, numbered from 0 on each page. *)
Lemma chunk_pages_layout (fuel : nat)
    (mergedPages : gmap Z (list MergedTextBlock))
    (chatbotId documentId : list N) (filename : option (list N))
    (tags : list (list N)) (maxChars overlap : Z) (pages : list Z) :
  0 < maxChars ->
  forall chunks,
    chunk_pages fuel mergedPages chatbotId documentId filename tags
                maxChars overlap pages = Some chunks ->
    exists groups,
      position <$> chunks = numbering groups
      /\ fst <$> groups
         = filter (fun p => _buildPageText (default [] (mergedPages !! p)) <> [])
                  pages
      /\ Forall (fun g => 0 < g.2) groups
      /\ Forall (well_formed mergedPages chatbotId documentId filename tags
                             maxChars) chunks.
Proof.
  intros HM. induction pages as [|page rest IH]; intros chunks; cbn [chunk_pages].
  - intros [= <-]. exists []. repeat split; constructor.
  - rewrite filter_cons.
    destruct (is_empty (_buildPageText (default [] (mergedPages !! page))))
      eqn:E.
    + apply is_empty_true in E. intros Hrun.
      destruct (IH _ Hrun) as (groups & H1 & H2 & H3 & H4).
      exists groups. rewrite decide_False by (intros H; now apply H).
      auto.
    + apply is_empty_false in E.
      destruct (_chunkPageText page _ _ _ _ _ _ fuel _) as [pageChunks|] eqn:E1;
        [|discriminate].
      cbn [mbind option_bind].
      destruct (chunk_pages fuel _ _ _ _ _ _ _ rest) as [more|] eqn:E2;
        [|discriminate].
      cbn [mbind option_bind]. intros [= <-].
      destruct (IH _ eq_refl) as (groups & H1 & H2 & H3 & H4).
      destruct (chunkPageText_shape _ _ _ _ _ _ _ _ _ _ HM E
                  (buildPageText_trimmed _) E1) as (Hpos & Hne & Hall).
      exists ((page, Z.of_nat (length pageChunks)) :: groups).
      rewrite decide_True by exact E.
      split; [|split; [|split]].
      * rewrite fmap_app, H1, Hpos. reflexivity.
      * cbn [fmap list_fmap fst]. f_equal. exact H2.
      * constructor; [|exact H3]. destruct pageChunks; [congruence|simpl; lia].
      * apply Forall_app. split; [|exact H4].
        eapply Forall_impl; [exact Hall|].
        intros c (Hp & Hrest). split; [|exact Hrest].
        rewrite Hp. now apply has_text_iff.
Qed.

Lemma StronglySorted_filter_lt (P : Z -> Prop) `{forall x, Decision (P x)}
    (l : list Z) :
  StronglySorted Z.lt l -> StronglySorted Z.lt (filter P l).
Proof.
  induction 1 as [|x l Hl IH Hx]; [constructor|].
  rewrite filter_cons. destruct (decide (P x)); [|exact IH].
  constructor; [exact IH|].
  rewrite Forall_forall in *. intros y Hy.
  apply list_elem_of_filter in Hy as [_ Hy]. auto.
Qed.

Lemma sorted_keys_strict (mergedPages : gmap Z (list MergedTextBlock)) :
  let pages := merge_sort Z.le (map fst (map_to_list mergedPages)) in
  StronglySorted Z.lt pages
  /\ forall p, p ∈ pages <-> is_Some (mergedPages !! p).
Proof.
  intros pages.
  assert (map fst (map_to_list mergedPages) = (map_to_list mergedPages).*1)
    as Hmap by reflexivity.
  assert (pages ≡ₚ (map_to_list mergedPages).*1) as Hperm.
  { unfold pages. rewrite Hmap. apply merge_sort_Permutation. }
  split.
  - assert (NoDup pages) as Hnd.
    { rewrite Hperm. apply NoDup_fst_map_to_list. }
    assert (StronglySorted Z.le pages) as Hs.
    { apply StronglySorted_merge_sort; [intros x y z; lia|intros x y; lia]. }
    clear Hperm. induction Hs as [|x l Hl IH Hx]; [constructor|].
    apply NoDup_cons in Hnd as [Hnot Hnd].
    constructor; [auto|].
    rewrite Forall_forall in *. intros y Hy.
    assert (x <> y) by (intros ->; contradiction).
    specialize (Hx y Hy). lia.
  - intros p. rewrite Hperm. rewrite list_elem_of_fmap. split.
    + intros ([k v] & -> & Hin). apply elem_of_map_to_list in Hin. eauto.
    + intros [v Hv]. exists (p, v). split; [reflexivity|].
      now apply elem_of_map_to_list.
Qed.

(** The layout of what [chunkMergedPages] returns. *)
Lemma chunkMergedPages_layout (fuel : nat)
    (mergedPages : gmap Z (list MergedTextBlock))
    (chatbotId documentId : list N) (filename : option (list N))
    (userGroupTags : option (list (list N))) (maxChars overlap : Z)
    (chunks : list TextChunk) :
  chunkMergedPages fuel mergedPages chatbotId documentId filename
                   userGroupTags maxChars overlap = Some (Ok chunks) ->
  exists groups,
    position <$> chunks = numbering groups
    /\ StronglySorted Z.lt (fst <$> groups)
    /\ (forall p, p ∈ fst <$> groups <-> page_has_text mergedPages p)
    /\ Forall (fun g => 0 < g.2) groups
    /\ Forall (well_formed mergedPages chatbotId documentId filename
                           (effective_tags userGroupTags) maxChars) chunks.
Proof.
  unfold chunkMergedPages.
  destruct (Z.leb_spec maxChars 0) as [|HM]; [discriminate|].
  destruct (overlap <? 0); [discriminate|].
  destruct (bool_decide (mergedPages = ∅)) eqn:Eempty.
  - apply bool_decide_eq_true in Eempty. subst mergedPages.
    intros [= <-]. exists []. repeat split; try constructor.
    + intros Hin. apply elem_of_nil in Hin. contradiction.
    + intros (b & Hb & _). rewrite lookup_empty in Hb. discriminate.
  - change (match userGroupTags with
            | Some [] | None => [lit "default"]
            | Some (l :: l0) => l :: l0
            end) with (effective_tags userGroupTags).
    destruct (chunk_pages fuel _ _ _ _ _ _ _ _) as [cs|] eqn:E; [|discriminate].
    cbn [fmap option_fmap option_map]. intros [= <-].
    destruct (chunk_pages_layout _ _ _ _ _ _ _ _ _ HM _ E)
      as (groups & H1 & H2 & H3 & H4).
    destruct (sorted_keys_strict mergedPages) as [Hsorted Hkeys].
    exists groups. split; [exact H1|]. split; [|split; [|split]]; auto.
    + rewrite H2. now apply StronglySorted_filter_lt.
    + intros p. rewrite H2, list_elem_of_filter, has_text_iff, Hkeys.
      split; [tauto|]. intros Hp. split; [exact Hp|].
      destruct Hp as (b & Hb & _). eauto.
Qed.

Lemma numbering_NoDup (groups : list (Z * Z)) :
  StronglySorted Z.lt (fst <$> groups) -> NoDup (numbering groups).
Proof.
  unfold numbering. induction groups as [|[p n] groups IH]; [constructor|].
  cbn [fmap list_fmap fst]. intros Hs. apply StronglySorted_inv in Hs as [Hs Hp].
  cbn [mbind list_bind]. change (list_bind _ _ ?f groups) with (groups ≫= f).
  apply NoDup_app. split; [|split; [|now apply IH]].
  - apply NoDup_fmap_2; [|apply NoDup_seqZ]. intros a b [= ->]. reflexivity.
  - intros [p' k] Hin Hin'. apply list_elem_of_fmap in Hin as (k' & [= -> ->] & _).
    apply list_elem_of_bind in Hin' as ([q m] & Hin' & Hq).
    apply list_elem_of_fmap in Hin' as (k'' & [= -> ->] & _).
    rewrite Forall_forall in Hp. simpl in *.
    assert (q ∈ fst <$> groups) as Hq'
      by (apply list_elem_of_fmap; exists (q, m); auto).
    specialize (Hp q Hq'). lia.
Qed.

Lemma chunk_id_at_inj (documentId : list N) (a b : Z * Z) :
  chunk_id_at documentId a = chunk_id_at documentId b -> a = b.
Proof.
  destruct a as [p k], b as [p' k']. unfold chunk_id_at. cbn [fst snd].
  intros H. apply app_inv_head in H.
  change (lit "_p") with [95%N; 112%N] in H.
  change (lit "_c") with [95%N; 99%N] in H. cbn [app] in H.
  injection H as H.
  apply split_at_first in H as [Hp H];
    try (apply str_of_Z_no; [discriminate|intros [? ?]; lia]).
  injection H as H.
  apply str_of_Z_inj in Hp, H. congruence.
Qed.

(** With an overlap that is not below [maxChars] the window of a text
    longer than [maxChars] stays at 0. *)
Lemma while_loop_never_returns (page : Z) (chatbotId documentId : list N)
    (filename : option (list N)) (tags : list (list N)) (maxChars overlap : Z)
    (text : list N) :
  0 < maxChars -> maxChars <= overlap ->
  strip text = text -> maxChars < Z.of_nat (length text) ->
  forall fuel order,
    while_loop page chatbotId documentId filename tags maxChars overlap
               fuel text (Z.of_nat (length text)) 0 order = None.
Proof.
  intros HM HO Hstrip HL.
  assert (loop_body_0 : forall order, exists c,
            loop_body page chatbotId documentId filename tags maxChars overlap
                      text (Z.of_nat (length text)) 0 order
            = AppendNext c 0 (order + 1)).
  { intros order. unfold loop_body, window_end.
    replace (Z.min (0 + maxChars) (Z.of_nat (length text))) with maxChars by lia.
    rewrite slice_from_zero by lia.
    destruct text as [|c r] eqn:Et; [simpl in HL; lia|]. rewrite <- Et in *.
    assert (is_space c = false) as Hc.
    { apply (strip_head text c r). now rewrite Hstrip. }
    destruct (Z.to_nat maxChars) as [|n] eqn:En; [lia|].
    replace (take (S n) text) with (c :: take n r)
      by (rewrite Et; reflexivity).
    destruct (strip_cons_nonspace c (take n r) Hc) as [r' ->].
    cbn [is_empty]. destruct (Z.leb_spec (Z.of_nat (length text)) maxChars); [lia|].
    destruct (Z.ltb_spec (maxChars - overlap) 0).
    - eauto.
    - replace (maxChars - overlap) with 0 by lia. eauto. }
  induction fuel as [|fuel IH]; intros order; simpl;
    destruct (Z.ltb_spec 0 (Z.of_nat (length text))); try lia; [reflexivity|].
  destruct (loop_body_0 order) as [c ->]. now rewrite IH.
Qed.

Lemma chunk_pages_never_returns (fuel : nat)
    (mergedPages : gmap Z (list MergedTextBlock))
    (chatbotId documentId : list N) (filename : option (list N))
    (tags : list (list N)) (maxChars overlap : Z) (page : Z)
    (blocks : list MergedTextBlock) (pages : list Z) :
  0 < maxChars -> maxChars <= overlap ->
  mergedPages !! page = Some blocks ->
  maxChars < Z.of_nat (length (_buildPageText blocks)) ->
  page ∈ pages ->
  chunk_pages fuel mergedPages chatbotId documentId filename tags
              maxChars overlap pages = None.
Proof.
  intros HM HO Hpage HL. induction pages as [|p rest IH]; intros Hin.
  - apply elem_of_nil in Hin. contradiction.
  - cbn [chunk_pages]. apply elem_of_cons in Hin as [<-|Hin].
    + rewrite Hpage. cbn [default from_option id].
      destruct (_buildPageText blocks) as [|c r] eqn:Et; [simpl in HL; lia|].
      rewrite <- Et in *. assert (is_empty (_buildPageText blocks) = false) as ->
        by (rewrite Et; reflexivity).
      unfold _chunkPageText. cbn [default from_option id].
      rewrite buildPageText_trimmed.
      assert (is_empty (_buildPageText blocks) = false) as ->
        by (rewrite Et; reflexivity).
      rewrite while_loop_never_returns;
        auto using buildPageText_trimmed.
    + rewrite (IH Hin). destruct (is_empty _); [reflexivity|].
      destruct (_chunkPageText _ _ _ _ _ _ _ _ _); reflexivity.
Qed.

(** X1. Every chunk [chunkMergedPages] returns is well formed: it belongs to a
    page of the input that holds text, its order is not negative, its id
    is [<documentId>_p<page>_c<order>], its text is trimmed, not empty and
    at most [maxChars] characters long, and its metadata repeat the page,
    the order, the ids, the file name and the tags (["default"] when none
    were given) under the process tag ["body"]. *)
Theorem chunks_are_well_formed :
  forall (fuel : nat) (mergedPages : gmap Z (list MergedTextBlock))
         (chatbotId documentId : str) (filename : option str)
         (userGroupTags : option (list str)) (maxChars overlap : Z)
         (chunks : list TextChunk),
    chunkMergedPages fuel mergedPages chatbotId documentId filename
                     userGroupTags maxChars overlap = Some (Ok chunks) ->
    Forall (fun c =>
      page_has_text mergedPages (tc_page c)
      /\ 0 <= tc_order c
      /\ tc_chunk_id c
         = documentId ++ lit "_p" ++ str_of_Z (tc_page c)
             ++ lit "_c" ++ str_of_Z (tc_order c)
      /\ tc_text c <> [] /\ strip (tc_text c) = tc_text c
      /\ Z.of_nat (length (tc_text c)) <= maxChars
      /\ tc_meta c = {| cm_filename := filename;
                        cm_page := tc_page c;
                        cm_document_id := documentId;
                        cm_chatbot_id := chatbotId;
                        cm_user_group_tags := effective_tags userGroupTags;
                        cm_process_tag := lit "body";
                        cm_chunk_order := tc_order c |}) chunks.
Proof.
  intros fuel mergedPages chatbotId documentId filename tags M O chunks Hrun.
  destruct (chunkMergedPages_layout _ _ _ _ _ _ _ _ _ Hrun)
    as (groups & _ & _ & _ & _ & Hall).
  exact Hall.
Qed.

Import MoreSamples.

Lemma chunks_are_well_formed_witness :
  exists chunks,
    chunkMergedPages 8 sample_pages (lit "bot") (lit "doc") None None 4 1
    = Some (Ok chunks)
    /\ tc_chunk_id <$> chunks
       = [lit "doc_p1_c0"; lit "doc_p1_c1"; lit "doc_p1_c2"; lit "doc_p3_c0"]
    /\ Forall (fun c => tc_text c <> []
                        /\ Z.of_nat (length (tc_text c)) <= 4
                        /\ cm_user_group_tags (tc_meta c) = [lit "default"])
              chunks.
Proof.
  eexists. split; [vm_compute; reflexivity|]. split; [vm_compute; reflexivity|].
  eapply Forall_impl.
  - apply (chunks_are_well_formed 8 sample_pages (lit "bot") (lit "doc")
             None None 4 1). vm_compute. reflexivity.
  - intros c (_ & _ & _ & Ht & _ & Hl & Hm). rewrite Hm. auto.
Defined.

(** X2. The chunks [chunkMergedPages] returns come page by page, the pages in
    strictly increasing order, and on each page the orders count up from
    0: the list of their (page, order) pairs is (p1,0) ... (p1,n1-1),
    (p2,0) ... with p1 < p2 < ... and every n at least 1. *)
Theorem chunks_numbered_page_by_page :
  forall (fuel : nat) (mergedPages : gmap Z (list MergedTextBlock))
         (chatbotId documentId : str) (filename : option str)
         (userGroupTags : option (list str)) (maxChars overlap : Z)
         (chunks : list TextChunk),
    chunkMergedPages fuel mergedPages chatbotId documentId filename
                     userGroupTags maxChars overlap = Some (Ok chunks) ->
    exists groups : list (Z * Z),
      (fun c => (tc_page c, tc_order c)) <$> chunks
      = (g ← groups; (fun k => (g.1, k)) <$> seqZ 0 g.2)
      /\ StronglySorted Z.lt (fst <$> groups)
      /\ Forall (fun g => 0 < g.2) groups.
Proof.
  intros fuel mergedPages chatbotId documentId filename tags M O chunks Hrun.
  destruct (chunkMergedPages_layout _ _ _ _ _ _ _ _ _ Hrun)
    as (groups & H1 & H2 & _ & H3 & _).
  exists groups. auto.
Qed.

Lemma chunks_numbered_page_by_page_witness :
  exists chunks groups,
    chunkMergedPages 8 sample_pages (lit "bot") (lit "doc") None None 4 1
    = Some (Ok chunks)
    /\ (fun c => (tc_page c, tc_order c)) <$> chunks
       = [(1, 0); (1, 1); (1, 2); (3, 0)]
    /\ (fun c => (tc_page c, tc_order c)) <$> chunks
       = (g ← groups; (fun k => (g.1, k)) <$> seqZ 0 g.2)
    /\ StronglySorted Z.lt (fst <$> groups).
Proof.
  eexists.
  destruct (chunks_numbered_page_by_page 8 sample_pages (lit "bot") (lit "doc")
              None None 4 1 _ ltac:(vm_compute; reflexivity))
    as (groups & H1 & H2 & _).
  exists groups. split; [reflexivity|]. split; [vm_compute; reflexivity|].
  split; [exact H1|exact H2].
Defined.

(** X3. No two chunks of one call of [chunkMergedPages] share a chunk id. *)
Theorem chunk_ids_are_distinct :
  forall (fuel : nat) (mergedPages : gmap Z (list MergedTextBlock))
         (chatbotId documentId : str) (filename : option str)
         (userGroupTags : option (list str)) (maxChars overlap : Z)
         (chunks : list TextChunk),
    chunkMergedPages fuel mergedPages chatbotId documentId filename
                     userGroupTags maxChars overlap = Some (Ok chunks) ->
    NoDup (tc_chunk_id <$> chunks).
Proof.
  intros fuel mergedPages chatbotId documentId filename tags M O chunks Hrun.
  destruct (chunkMergedPages_layout _ _ _ _ _ _ _ _ _ Hrun)
    as (groups & H1 & H2 & _ & _ & Hall).
  assert (tc_chunk_id <$> chunks
          = chunk_id_at documentId <$> (position <$> chunks)) as ->.
  { rewrite <- list_fmap_compose. apply Forall_fmap_ext.
    eapply Forall_impl; [exact Hall|]. intros c (_ & _ & Hid & _). exact Hid. }
  apply NoDup_fmap_2; [intros a b; apply chunk_id_at_inj|].
  rewrite H1. now apply numbering_NoDup.
Qed.

Lemma chunk_ids_are_distinct_witness :
  exists chunks,
    chunkMergedPages 8 sample_pages (lit "bot") (lit "doc") None None 4 1
    = Some (Ok chunks)
    /\ length chunks = 4%nat
    /\ NoDup (tc_chunk_id <$> chunks).
Proof.
  eexists. split; [vm_compute; reflexivity|]. split; [reflexivity|].
  apply (chunk_ids_are_distinct 8 sample_pages (lit "bot") (lit "doc")
           None None 4 1). vm_compute. reflexivity.
Defined.



(** X5. [chunkMergedPages] accepts an overlap that is not below [maxChars]
    (it rejects only [maxChars <= 0] and [overlap < 0]), and then never
    returns when a page text is longer than [maxChars]: the next window
    starts at [max(0, end - overlap) = 0] again, so no number of
    iterations ends the loop. *)
Theorem overlap_not_below_maxChars_never_returns :
  forall (mergedPages : gmap Z (list MergedTextBlock))
         (chatbotId documentId : str) (filename : option str)
         (userGroupTags : option (list str)) (maxChars overlap : Z)
         (page : Z) (blocks : list MergedTextBlock),
    0 < maxChars -> maxChars <= overlap ->
    mergedPages !! page = Some blocks ->
    maxChars < Z.of_nat (length (_buildPageText blocks)) ->
    forall fuel,
      chunkMergedPages fuel mergedPages chatbotId documentId filename
                       userGroupTags maxChars overlap = None.
Proof.
  intros mergedPages chatbotId documentId filename tags M O page blocks
         HM HO Hpage HL fuel.
  unfold chunkMergedPages.
  destruct (Z.leb_spec M 0); [lia|]. destruct (Z.ltb_spec O 0); [lia|].
  rewrite bool_decide_eq_false_2.
  2:{ intros ->. rewrite lookup_empty in Hpage. discriminate. }
  erewrite chunk_pages_never_returns; eauto.
  apply sorted_keys_strict. eauto.
Qed.

Lemma overlap_not_below_maxChars_never_returns_witness :
  _buildPageText [sample_block 1 " abcdefgh "] = lit "abcdefgh"
  /\ forall fuel,
       chunkMergedPages fuel sample_pages (lit "bot") (lit "doc") None None 4 4
       = None.
Proof.
  split; [reflexivity|].
  apply (overlap_not_below_maxChars_never_returns sample_pages (lit "bot")
           (lit "doc") None None 4 4 1 [sample_block 1 " abcdefgh "]);
    [lia|lia|reflexivity|vm_compute; reflexivity].
Defined.

End ChunkerFacts.

(* ===================================================================== *)
(** ** parseJson: what is handed to json.loads *)
(* ===================================================================== *)

Module ParseJsonObjectFacts.
Import LlmClient Shape StrFacts.

Lemma infix_refl (s : str) : infix_of s s.
Proof. exists [], []. now rewrite app_nil_r. Qed.

Lemma infix_trans (a b c : str) : infix_of a b -> infix_of b c -> infix_of a c.
Proof.
  intros (p1 & q1 & ->) (p2 & q2 & ->). exists (p2 ++ p1), (q1 ++ q2).
  now rewrite <- !app_assoc.
Qed.

Lemma infix_strip (s : str) : infix_of (strip s) s.
Proof. destruct (strip_infix s) as (pre & post & H & _). now exists pre, post. Qed.

Lemma infix_take_drop (s : str) (n m : nat) : infix_of (take n (drop m s)) s.
Proof.
  exists (take m s), (drop n (drop m s)).
  now rewrite take_drop, take_drop.
Qed.

Lemma infix_drop (s : str) (m : nat) : infix_of (drop m s) s.
Proof. exists (take m s), []. now rewrite app_nil_r, take_drop. Qed.

Lemma infix_slice (s : str) (a b : Z) : infix_of (slice s a b) s.
Proof. unfold slice. apply infix_take_drop. Qed.

Lemma infix_lstrip (s : str) : infix_of (lstrip s) s.
Proof.
  destruct (lstrip_suffix s) as (pre & H & _). exists pre, [].
  now rewrite app_nil_r.
Qed.

Lemma startswith_one (c : N) (s : str) :
  startswith [c] s = true -> exists r, s = c :: r.
Proof.
  destruct s as [|a r]; simpl; [discriminate|].
  rewrite andb_true_r. intros H. apply N.eqb_eq in H. subst. eauto.
Qed.

Lemma find_from_spec (p s : str) :
  forall i j, find_from p s i = Some j ->
    exists k, j = (i + k)%nat /\ startswith p (drop k s) = true.
Proof.
  induction s as [|a s IH]; intros i j; simpl.
  - destruct (startswith p []) eqn:E; [|destruct p; discriminate].
    destruct p; intros [= <-]; exists 0%nat; auto.
  - destruct (startswith p (a :: s)) eqn:E.
    + intros [= <-]. exists 0%nat. auto.
    + intros H. destruct (IH _ _ H) as (k & -> & Hk).
      exists (S k). split; [lia|exact Hk].
Qed.

Lemma rfind_from_spec (p s : str) :
  forall i j, rfind_from p s i = Some j ->
    exists k, j = (i + k)%nat /\ startswith p (drop k s) = true.
Proof.
  induction s as [|a s IH]; intros i j; simpl.
  - destruct (startswith p []) eqn:E; [|discriminate].
    intros [= <-]. exists 0%nat. auto.
  - destruct (rfind_from p s (S i)) as [j'|] eqn:Er.
    + intros [= <-]. destruct (IH _ _ Er) as (k & -> & Hk).
      exists (S k). split; [lia|exact Hk].
    + destruct (startswith p (a :: s)) eqn:E; [|discriminate].
      intros [= <-]. exists 0%nat. auto.
Qed.

Lemma find_char (c : N) (s : str) (i : nat) :
  find [c] s = Some i -> exists r, drop i s = c :: r.
Proof.
  intros H. destruct (find_from_spec _ _ _ _ H) as (k & -> & Hk).
  now apply startswith_one.
Qed.

Lemma rfind_char (c : N) (s : str) (i : nat) :
  rfind [c] s = Some i -> (i < length s)%nat.
Proof.
  intros H. destruct (rfind_from_spec _ _ _ _ H) as (k & -> & Hk).
  apply startswith_one in Hk as [r Hr].
  destruct (Nat.lt_ge_cases k (length s)); [lia|].
  rewrite drop_ge in Hr by lia. discriminate.
Qed.

(** The group of the regular expression: an object in braces. *)
Lemma lazy_body_spec (rest : str) :
  forall acc g, lazy_body rest acc = Some g ->
    exists inner post, g = rev acc ++ inner ++ [rbrace]
                       /\ rest = inner ++ rbrace :: post.
Proof.
  induction rest as [|c rest IH]; intros acc g; cbn [lazy_body];
    [discriminate|].
  destruct ((c =? rbrace)%N && startswith fence (lstrip rest)) eqn:E.
  - intros [= <-]. apply andb_true_iff in E as [E _]. apply N.eqb_eq in E.
    subst c. exists [], rest. simpl. auto.
  - intros H. destruct (IH _ _ H) as (inner & post & -> & ->).
    exists (c :: inner), post. simpl. rewrite <- app_assoc. auto.
Qed.

Lemma match_here_spec (s g : str) :
  match_here s = Some g ->
  infix_of g s /\ exists inner, g = lbrace :: inner ++ [rbrace].
Proof.
  unfold match_here. destruct (startswith fence s); [|discriminate].
  set (s2 := if json_ci (drop 3 s) then drop 4 (drop 3 s) else drop 3 s).
  assert (infix_of s2 s) as Hs2.
  { unfold s2. destruct (json_ci _).
    - eapply infix_trans; apply infix_drop.
    - apply infix_drop. }
  destruct (lstrip s2) as [|c rest] eqn:El; [discriminate|].
  destruct (N.eqb_spec c lbrace) as [->|]; [|discriminate].
  intros H. destruct (lazy_body_spec _ _ _ H) as (inner & post & -> & ->).
  split; [|exists inner; reflexivity].
  eapply infix_trans; [|exact Hs2].
  eapply infix_trans; [|apply infix_lstrip]. rewrite El.
  exists [], post. simpl. rewrite <- app_assoc. reflexivity.
Qed.

Lemma code_block_search_spec (s g : str) :
  code_block_search s = Some g ->
  infix_of g s /\ exists inner, g = lbrace :: inner ++ [rbrace].
Proof.
  induction s as [|a s IH]; cbn [code_block_search].
  - destruct (match_here []) eqn:E; [|discriminate].
    intros [= <-]. now apply match_here_spec.
  - destruct (match_here (a :: s)) eqn:E.
    + intros [= <-]. now apply match_here_spec.
    + intros H. destruct (IH H) as [Hin Hg]. split; [|exact Hg].
      eapply infix_trans; [exact Hin|]. exists [a], []. simpl.
      now rewrite app_nil_r.
Qed.

Lemma braced_is_trimmed (inner : str) :
  strip (lbrace :: inner ++ [rbrace]) = lbrace :: inner ++ [rbrace].
Proof.
  apply strip_fixed.
  - intros c r [= <- _]. reflexivity.
  - intros r c H. change (lbrace :: inner ++ [rbrace])
      with ((lbrace :: inner) ++ [rbrace]) in H.
    apply app_inj_tail in H as [_ <-]. reflexivity.
Qed.

Lemma strip_keeps_brace (r : str) :
  exists r', strip (lbrace :: r) = lbrace :: r'.
Proof. apply strip_cons_nonspace. reflexivity. Qed.

Section Attempts.

Variable json_loads : str -> option pyval.

Lemma attempt_whole_object (s : str) (v : pyval) :
  strip s = s -> attempt_whole json_loads s = Some v -> parsed_from json_loads s v.
Proof.
  intros Hs. unfold attempt_whole.
  destruct (startswith [lbrace] s) eqn:E; [|discriminate].
  destruct (endswith _ _); [|discriminate]. intros H.
  exists s. split; [apply infix_refl|]. split; [now apply startswith_one|auto].
Qed.

Lemma attempt_fenced_object (s : str) (v : pyval) :
  attempt_fenced json_loads s = Some v -> parsed_from json_loads s v.
Proof.
  unfold attempt_fenced. destruct (code_block_search s) as [g|] eqn:E;
    [|discriminate].
  cbn [mbind option_bind].
  destruct (code_block_search_spec _ _ E) as [Hin [inner ->]].
  rewrite braced_is_trimmed. intros H.
  exists (lbrace :: inner ++ [rbrace]). split; [exact Hin|].
  split; [eauto|]. split; [apply braced_is_trimmed|exact H].
Qed.

Lemma braces_substring_object (s sub : str) :
  braces_substring s = Some sub ->
  infix_of sub s /\ (exists r, sub = lbrace :: r) /\ strip sub = sub.
Proof.
  unfold braces_substring.
  destruct (find [lbrace] s) as [first|] eqn:Ef; [|discriminate].
  destruct (rfind [rbrace] s) as [last|] eqn:El; [|discriminate].
  cbn [mbind option_bind].
  destruct (Nat.leb_spec last first) as [|Hlt]; [discriminate|].
  pose proof (rfind_char _ _ _ El) as Hlast.
  destruct (find_char _ _ _ Ef) as [r Hr].
  set (cut := slice s (Z.of_nat first) (Z.of_nat last + 1)).
  assert (exists r1, cut = lbrace :: r1) as [r1 Hcut].
  { unfold cut. rewrite ChunkingFacts.slice_inside by lia.
    rewrite Nat2Z.id, Hr.
    destruct (Z.to_nat (Z.of_nat last + 1 - Z.of_nat first)) eqn:En; [lia|].
    simpl. eauto. }
  destruct (strip_keeps_brace r1) as [r2 Hsub]. rewrite <- Hcut in Hsub.
  assert (infix_of (strip cut) s) as Hin.
  { eapply infix_trans; [apply infix_strip|apply infix_slice]. }
  destruct (rfind fence (strip cut)) as [tb|] eqn:Et.
  - intros [= <-].
    destruct (rfind_from_spec _ _ _ _ Et) as (k & -> & Hk). simpl in Hk.
    destruct k as [|k].
    { rewrite drop_0, Hsub in Hk. discriminate. }
    rewrite ChunkerFacts.slice_from_zero by lia. rewrite Nat2Z.id.
    cbn [Nat.add]. rewrite Hsub. cbn [take].
    destruct (strip_keeps_brace (take k r2)) as [r3 Hr3]. rewrite Hr3.
    split; [|split; [eauto|rewrite <- Hr3; apply strip_idem]].
    eapply infix_trans; [|exact Hin]. rewrite <- Hr3.
    eapply infix_trans; [apply infix_strip|]. rewrite Hsub.
    change (lbrace :: take k r2) with (take (S k) (lbrace :: r2)).
    rewrite <- (drop_0 (lbrace :: r2)) at 1. apply infix_take_drop.
  - intros [= <-]. split; [exact Hin|]. split; [eauto|apply strip_idem].
Qed.

Lemma attempt_braces_object (s : str) (v : pyval) :
  attempt_braces json_loads s = Some v -> parsed_from json_loads s v.
Proof.
  unfold attempt_braces.
  destruct (braces_substring s) as [sub|] eqn:E; [|discriminate].
  cbn [mbind option_bind]. intros H.
  destruct (braces_substring_object _ _ E) as (Hin & Hb & Hs).
  exists sub. auto.
Qed.

End Attempts.

(** X6. Whatever [parseJson] returns, [json.loads] parsed it from a substring
    of the input that starts with '{' and is trimmed: the three attempts
    hand nothing else to [json.loads], so text that holds no '{' or only a
    JSON array never yields a value. *)
Theorem parseJson_parses_an_object :
  forall (json_loads : str -> option pyval) (raw : option str) (v : pyval),
    parseJson json_loads raw = Ok v ->
    exists t,
      (exists pre post, default [] raw = pre ++ t ++ post)
      /\ (exists r, t = lbrace :: r)
      /\ strip t = t
      /\ json_loads t = Some v.
Proof.
  intros json_loads raw v. rewrite ParseJsonFacts.parseJson_refines_spec.
  unfold parseJson_spec. set (s := strip (default [] raw)).
  assert (parsed_from json_loads s v ->
          exists t, (exists pre post, default [] raw = pre ++ t ++ post)
                    /\ (exists r, t = lbrace :: r) /\ strip t = t
                    /\ json_loads t = Some v) as Hdone.
  { intros (t & Hin & Hb & Ht & Hv). exists t. split; [|auto].
    exact (infix_trans _ _ _ Hin (infix_strip _)). }
  cbn [first_success].
  destruct (attempt_whole json_loads s) as [v1|] eqn:E1.
  { intros [= <-]. apply Hdone.
    apply attempt_whole_object; [apply strip_idem|exact E1]. }
  destruct (attempt_fenced json_loads s) as [v2|] eqn:E2.
  { intros [= <-]. apply Hdone. now apply attempt_fenced_object. }
  destruct (attempt_braces json_loads s) as [v3|] eqn:E3; [|discriminate].
  intros [= <-]. apply Hdone. now apply attempt_braces_object.
Qed.

Lemma parseJson_parses_an_object_witness :
  exists t,
    (exists pre post, prose_a1 = pre ++ t ++ post)
    /\ (exists r, t = lbrace :: r)
    /\ strip t = t
    /\ loads_a1 t = Some (PDict [(lit "a", PInt 1)]).
Proof.
  apply (parseJson_parses_an_object loads_a1 (Some prose_a1)). reflexivity.
Defined.

End ParseJsonObjectFacts.

(* ===================================================================== *)
(** ** Stage 0, OCR cleanup: the calls made and the texts returned *)
(* ===================================================================== *)

Module FirstRefineCallFacts.
Import LlmClient FirstRefine StrFacts.

Section Facts.

Variables (w : World) (lib : PyLib).

(** A text that is not blank costs one call, and comes back as it was or
    as a trimmed text that is not empty. *)
Lemma safeCleanText_outcome (raw_text : list N) (tr : trace) :
  strip raw_text <> [] ->
  exists out,
    _safeCleanText w lib raw_text tr
    = (Ok out, tr ++ [EvLlm 0 (payload_of lib raw_text)])
    /\ (out = raw_text \/ (out <> [] /\ strip out = out)).
Proof.
  intros Hne. unfold _safeCleanText.
  destruct (is_empty (strip raw_text)) eqn:Eb.
  { apply is_empty_true in Eb. contradiction. }
  unfold bind, try_except, callQwen, ret, lift, payload_of.
  set (payload := json_dumps lib (PDict [(lit "raw_text", PStr raw_text)])).
  destruct (llm_reply w tr 0 payload) as [|code body]; [eauto|].
  destruct (negb (code =? 200)); [eauto|].
  destruct body as [| |c]; [eauto|eauto|].
  cbn beta iota.
  destruct (parseJson (json_loads lib) (Some (default [] c))) as [data|e];
    [|eauto].
  destruct data as [| | | | | |d]; try (simpl; eauto; fail).
  simpl.
  destruct (is_empty (strip (py_str lib (get_or (lit "cleaned_text") (PStr []) d))))
    eqn:Ec; [eauto|].
  apply is_empty_false in Ec. eexists. split; [reflexivity|].
  right. split; [exact Ec|apply strip_idem].
Qed.

Lemma clean_loop_outcome (blocks : list TextBlock) :
  forall tr, exists out,
    clean_loop w lib blocks tr
    = (Ok out,
       tr ++ ((fun b => EvLlm 0 (payload_of lib (default [] (tb_text b))))
              <$> filter (fun b => strip (default [] (tb_text b)) <> []) blocks))
    /\ Forall2 (fun b b' =>
         (strip (default [] (tb_text b)) = [] -> b' = b)
         /\ (strip (default [] (tb_text b)) <> [] ->
             exists t, tb_text b' = Some t /\ strip t <> []
                       /\ (t = default [] (tb_text b) \/ strip t = t)))
       blocks out.
Proof.
  induction blocks as [|block rest IH]; intros tr.
  - exists []. rewrite app_nil_r. split; [reflexivity|constructor].
  - cbn [clean_loop]. rewrite filter_cons.
    destruct (is_empty (strip (default [] (tb_text block)))) eqn:Eb.
    + apply is_empty_true in Eb.
      destruct (IH tr) as (out & Hrun & Hall).
      exists (block :: out). unfold bind at 1. rewrite Hrun.
      rewrite decide_False by (intros H; now apply H).
      split; [reflexivity|]. constructor; [|exact Hall].
      split; [reflexivity|]. intros H. contradiction.
    + apply is_empty_false in Eb.
      destruct (safeCleanText_outcome (default [] (tb_text block)) tr Eb)
        as (cleaned & Hclean & Hout).
      destruct (IH (tr ++ [EvLlm 0 (payload_of lib (default [] (tb_text block)))]))
        as (out & Hrun & Hall).
      eexists (_ :: out). unfold bind at 1. rewrite Hclean.
      unfold bind at 1. rewrite Hrun. rewrite decide_True by exact Eb.
      rewrite <- app_assoc. split; [reflexivity|].
      constructor; [|exact Hall]. split; [intros H; contradiction|].
      intros _. exists cleaned. cbn [tb_text]. split; [reflexivity|].
      destruct Hout as [->|[Hne Hs]]; [auto|].
      split; [now rewrite Hs|auto].
Qed.

End Facts.

(** X7. [cleanOcrTextBlocks] calls the model (task 0) once for every block
    whose text is not blank, in the order of the blocks and with the text
    of the block as it is (not trimmed) in the payload; a blank block
    costs no call; nothing else is called. *)
Theorem cleanOcrTextBlocks_calls_once_per_block :
  forall (w : World) (lib : PyLib) (blocks : list TextBlock) (tr : trace),
    snd (cleanOcrTextBlocks w lib blocks tr)
    = tr ++ ((fun b => EvLlm 0 (payload_of lib (default [] (tb_text b))))
             <$> filter (fun b => strip (default [] (tb_text b)) <> []) blocks).
Proof.
  intros w lib blocks tr. destruct blocks as [|b blocks].
  - simpl. now rewrite app_nil_r.
  - cbn [cleanOcrTextBlocks].
    destruct (clean_loop_outcome w lib (b :: blocks) tr) as (out & -> & _).
    reflexivity.
Qed.

(** X8. A blank block comes back as it is, and a block that is not blank
    never comes back blank: its text is the original text or a trimmed
    text that is not empty. *)
Theorem cleanOcrTextBlocks_never_blanks_a_block :
  forall (w : World) (lib : PyLib) (blocks : list TextBlock) (tr : trace),
  exists out tr',
    cleanOcrTextBlocks w lib blocks tr = (Ok out, tr')
    /\ Forall2 (fun b b' =>
         (strip (default [] (tb_text b)) = [] -> b' = b)
         /\ (strip (default [] (tb_text b)) <> [] ->
             exists t, tb_text b' = Some t /\ strip t <> []
                       /\ (t = default [] (tb_text b) \/ strip t = t)))
       blocks out.
Proof.
  intros w lib blocks tr. destruct blocks as [|b blocks].
  - exists [], tr. split; [reflexivity|constructor].
  - cbn [cleanOcrTextBlocks].
    destruct (clean_loop_outcome w lib (b :: blocks) tr) as (out & Hrun & Hall).
    eauto.
Qed.

End FirstRefineCallFacts.

(* ===================================================================== *)
(** ** Dictionaries *)
(* ===================================================================== *)

Module DictFacts.

Lemma eqb_refl (k : list N) : eqb k k = true.
Proof. unfold eqb. now rewrite bool_decide_eq_true_2. Qed.

Lemma eqb_neq (a b : list N) : a <> b -> eqb a b = false.
Proof. intros H. unfold eqb. now rewrite bool_decide_eq_false_2. Qed.

Lemma lookup_app (k : list N) (d d' : dict) :
  lookup k (d ++ d')
  = match lookup k d with Some v => Some v | None => lookup k d' end.
Proof.
  induction d as [|[k' v'] d IH]; simpl; [reflexivity|].
  destruct (eqb k k'); [reflexivity|exact IH].
Qed.

Lemma lookup_setdefault_same (k : list N) (v : pyval) (d : dict) :
  is_Some (lookup k (setdefault k v d)).
Proof.
  unfold setdefault. destruct (lookup k d) eqn:E; [rewrite E; eauto|].
  rewrite lookup_app, E. simpl. rewrite eqb_refl. eauto.
Qed.

Lemma lookup_setdefault_keep (k k' : list N) (v x : pyval) (d : dict) :
  lookup k d = Some x -> lookup k (setdefault k' v d) = Some x.
Proof.
  intros H. unfold setdefault. destruct (lookup k' d); [exact H|].
  now rewrite lookup_app, H.
Qed.

Lemma lookup_setdefault_is_Some (k k' : list N) (v : pyval) (d : dict) :
  is_Some (lookup k d) -> is_Some (lookup k (setdefault k' v d)).
Proof. intros [x H]. exists x. now apply lookup_setdefault_keep. Qed.

Lemma lookup_set_other (k k' : list N) (v : pyval) (d : dict) :
  k <> k' -> lookup k (PyVal.set k' v d) = lookup k d.
Proof.
  intros Hne. induction d as [|[k0 v0] d IH]; cbn [PyVal.set lookup].
  - now rewrite eqb_neq.
  - destruct (eqb k' k0) eqn:E; cbn [lookup].
    + apply bool_decide_eq_true in E. subst k0. now rewrite !eqb_neq.
    + destruct (eqb k k0); [reflexivity|exact IH].
Qed.

Lemma por_dict_keeps (f : dict) :
  exists f', por (PDict f) (PDict []) = PDict f'
             /\ forall k v, lookup k f = Some v -> lookup k f' = Some v.
Proof.
  unfold por. destruct f; simpl; eauto.
Qed.

End DictFacts.

(* ===================================================================== *)
(** ** Refinement: the shape of the result, and when it raises *)
(* ===================================================================== *)

Module RefineFacts.
Import LlmClient QueryRefine Shape DictFacts.

Section Facts.

Variables (w : World) (lib : PyLib).

(** The result of [refineQuery] for a parsed reply, step by step. *)
Lemma refineQuery_parsed (q chatbotId : list N) (userGroup : option (list N))
    (tr : trace) (c : option (list N)) (data : pyval) :
  llm_reply w tr 1 (refine_payload lib q chatbotId userGroup)
  = Response 200 (Content c) ->
  parseJson (json_loads lib) (Some (default [] c)) = Ok data ->
  fst (refineQuery w lib q chatbotId userGroup tr)
  = result_bind (as_dict data) (fun d =>
    result_bind (as_dict (por (get (lit "filters") d) (PDict []))) (fun f =>
    result_bind (as_dict (por (get (lit "meta") d) (PDict []))) (fun m =>
    result_bind (py_len (por (get_or (lit "normalized_query") (PStr q) d)
                             (PStr []))) (fun _ =>
    Ok {| normalized_query :=
            py_str lib (get_or (lit "normalized_query") (PStr q) d);
          keywords :=
            py_str lib
              <$> (let kw := por (get_or (lit "keywords") (PList []) d)
                                 (PList []) in
                   match kw with
                   | PList l => l
                   | _ => [PStr (py_str lib kw)]
                   end);
          filters :=
            setdefault (lit "manual_tags") (PList [])
              (setdefault (lit "target_group") PNone
                 (setdefault (lit "section_hint") PNone
                    (setdefault (lit "doc_type") PNone f)));
          meta :=
            let m2 := setdefault (lit "in_scope") (PBool true)
                        (setdefault (lit "original_query") (PStr q) m) in
            PyVal.set (lit "safety")
              (PDict (setdefault (lit "reason") PNone
                        (setdefault (lit "category") (PStr (lit "unknown"))
                           (setdefault (lit "block_required") (PBool false)
                              match por (get (lit "safety") m2) (PDict []) with
                              | PDict s => s
                              | _ => []
                              end))))
              m2 |})))).
Proof.
  intros Hr Hp. unfold refineQuery, bind.
  rewrite (QueryServiceFacts.callQwen_content _ _ _ _ _ Hr), Hp.
  unfold lift, ret.
  destruct (as_dict data) as [d|e]; [|reflexivity]. cbn [result_bind].
  destruct (as_dict (por (get (lit "filters") d) (PDict []))); [|reflexivity].
  destruct (as_dict (por (get (lit "meta") d) (PDict []))); [|reflexivity].
  cbn [result_bind]. destruct (py_len _); reflexivity.
Qed.

Lemma reply_cases (r : http_reply) :
  QueryService.call_fails r \/ exists c, r = Response 200 (Content c).
Proof.
  destruct r as [|code body]; [left; exact I|].
  destruct (Z.eq_dec code 200) as [->|Hne].
  - destruct body; [left; exact I|left; exact I|right; eauto].
  - left. unfold QueryService.call_fails.
    destruct code as [|p|p]; try exact I.
    do 8 (destruct p; try exact I). congruence.
Qed.

End Facts.

(** X9. Whatever [refineQuery] returns carries the four filter keys
    ([doc_type], [section_hint], [target_group], [manual_tags]) and the
    [original_query] in its meta, after the fallback as well as after a
    parsed reply. After a parsed reply the defaults never replace what the
    model gave: every entry of the model's [filters], and every entry of
    its [meta] but [safety], is in the result with its value; and the meta
    has [in_scope] and a [safety] dictionary with [block_required],
    [category] and [reason]. *)
Theorem refineQuery_fills_in_defaults :
  forall (w : World) (lib : PyLib) (q chatbotId : str)
         (userGroup : option str) (tr tr' : trace) (r : QueryRefineResult),
    refineQuery w lib q chatbotId userGroup tr = (Ok r, tr') ->
    (forall k, k ∈ [lit "doc_type"; lit "section_hint"; lit "target_group";
                    lit "manual_tags"] ->
               is_Some (lookup k (filters r)))
    /\ is_Some (lookup (lit "original_query") (meta r))
    /\ (forall c d,
          llm_reply w tr 1 (refine_payload lib q chatbotId userGroup)
          = Response 200 (Content c) ->
          parseJson (json_loads lib) (Some (default [] c)) = Ok (PDict d) ->
          (forall f k v, get (lit "filters") d = PDict f ->
                         lookup k f = Some v -> lookup k (filters r) = Some v)
          /\ (forall m k v, get (lit "meta") d = PDict m ->
                            k <> lit "safety" ->
                            lookup k m = Some v -> lookup k (meta r) = Some v)
          /\ is_Some (lookup (lit "in_scope") (meta r))
          /\ exists s, lookup (lit "safety") (meta r) = Some (PDict s)
                       /\ is_Some (lookup (lit "block_required") s)
                       /\ is_Some (lookup (lit "category") s)
                       /\ is_Some (lookup (lit "reason") s)).
Proof.
  intros w lib q chatbotId userGroup tr tr' r Hrun.
  destruct (reply_cases
              (llm_reply w tr 1 (refine_payload lib q chatbotId userGroup)))
    as [Hfail|[c Hr]].
  { rewrite (QueryServiceFacts.refineQuery_call_fails _ _ _ _ _ _ Hfail) in Hrun.
    discriminate. }
  destruct (parseJson (json_loads lib) (Some (default [] c))) as [data|e] eqn:Hp.
  2:{ rewrite (QueryServiceFacts.refineQuery_unparseable w lib q chatbotId
                 userGroup tr) in Hrun by (exists c, e; auto).
      injection Hrun as <- _. split; [|split].
      - intros k Hk. cbn [filters refine_fallback].
        repeat (apply elem_of_cons in Hk as [->|Hk]; [vm_compute; eauto|]).
        apply elem_of_nil in Hk. contradiction.
      - cbn [meta refine_fallback lookup]. rewrite eqb_refl. eauto.
      - intros c' d Hr' Hp'. rewrite Hr in Hr'. injection Hr' as <-.
        rewrite Hp in Hp'. discriminate. }
  pose proof (refineQuery_parsed w lib q chatbotId userGroup tr c data Hr Hp)
    as Hfst.
  rewrite Hrun in Hfst. cbn [fst] in Hfst.
  destruct data as [| | | | | |d]; try discriminate. cbn [as_dict result_bind] in Hfst.
  destruct (as_dict (por (get (lit "filters") d) (PDict []))) as [f|] eqn:Ef;
    [|discriminate].
  destruct (as_dict (por (get (lit "meta") d) (PDict []))) as [m|] eqn:Em;
    [|discriminate].
  cbn [result_bind] in Hfst. destruct (py_len _); [|discriminate].
  cbn [result_bind] in Hfst. injection Hfst as ->.
  cbn [filters meta]. cbv zeta.
  set (m2 := setdefault (lit "in_scope") (PBool true)
               (setdefault (lit "original_query") (PStr q) m)).
  split; [|split].
  - intros k Hk.
    apply elem_of_cons in Hk as [->|Hk];
      [do 3 apply lookup_setdefault_is_Some; apply lookup_setdefault_same|].
    apply elem_of_cons in Hk as [->|Hk];
      [do 2 apply lookup_setdefault_is_Some; apply lookup_setdefault_same|].
    apply elem_of_cons in Hk as [->|Hk];
      [apply lookup_setdefault_is_Some; apply lookup_setdefault_same|].
    apply elem_of_cons in Hk as [->|Hk]; [apply lookup_setdefault_same|].
    apply elem_of_nil in Hk. contradiction.
  - rewrite lookup_set_other by (vm_compute; discriminate).
    apply lookup_setdefault_is_Some, lookup_setdefault_same.
  - intros c' d' Hr' Hp'. rewrite Hr in Hr'. injection Hr' as <-.
    rewrite Hp in Hp'. injection Hp' as <-.
    split; [|split; [|split]].
    + intros f0 k v Hf Hk. rewrite Hf in Ef.
      destruct (por_dict_keeps f0) as (f' & Hpor & Hkeep).
      rewrite Hpor in Ef. injection Ef as <-.
      do 4 apply lookup_setdefault_keep. auto.
    + intros m0 k v Hm Hne Hk. rewrite Hm in Em.
      destruct (por_dict_keeps m0) as (m' & Hpor & Hkeep).
      rewrite Hpor in Em. injection Em as <-.
      rewrite lookup_set_other by exact Hne.
      do 2 apply lookup_setdefault_keep. auto.
    + rewrite lookup_set_other by (vm_compute; discriminate).
      apply lookup_setdefault_same.
    + eexists. split; [apply QueryServiceFacts.lookup_set_same|].
      split; [|split].
      * do 2 apply lookup_setdefault_is_Some. apply lookup_setdefault_same.
      * apply lookup_setdefault_is_Some. apply lookup_setdefault_same.
      * apply lookup_setdefault_same.
Qed.

Import MoreSamples.

Lemma refineQuery_fills_in_defaults_witness :
  exists r tr',
    refineQuery (answering "{filters}") (lib_of sample_docs)
                (lit "reset?") (lit "bot") None [] = (Ok r, tr')
    /\ lookup (lit "doc_type") (filters r) = Some (PStr (lit "manual"))
    /\ is_Some (lookup (lit "manual_tags") (filters r))
    /\ is_Some (lookup (lit "original_query") (meta r)).
Proof.
  eexists _, _. split; [vm_compute; reflexivity|].
  destruct (refineQuery_fills_in_defaults (answering "{filters}")
              (lib_of sample_docs) (lit "reset?") (lit "bot") None [] _ _
              ltac:(vm_compute; reflexivity)) as (Hkeys & Horig & Hkept).
  split; [|split; [|exact Horig]].
  - destruct (Hkept (Some filters_doc) _ ltac:(vm_compute; reflexivity)
                ltac:(vm_compute; reflexivity)) as (Hf & _).
    apply (Hf [(lit "doc_type", PStr (lit "manual"))]); reflexivity.
  - apply Hkeys. do 3 right. left.
Defined.

Lemma as_dict_por (v : pyval) :
  as_dict (por v (PDict []))
  = if truthy v && negb (is_dict v) then Raise AttributeError
    else Ok (match por v (PDict []) with PDict d => d | _ => [] end).
Proof.
  unfold por. destruct v as [|b|z|x|s|l|d]; simpl; try reflexivity.
  - destruct b; reflexivity.
  - destruct (z =? 0); reflexivity.
  - destruct (Qeq_bool x 0); reflexivity.
  - destruct s; reflexivity.
  - destruct l; reflexivity.
  - destruct d; reflexivity.
Qed.

Lemma py_len_por (v : pyval) :
  py_len (por v (PStr []))
  = if truthy v && unsized v then Raise TypeError
    else Ok (match por v (PStr []) with
             | PStr s => Z.of_nat (length s)
             | PList l => Z.of_nat (length l)
             | PDict d => Z.of_nat (length d)
             | _ => 0
             end).
Proof.
  unfold por. destruct v as [|b|z|x|s|l|d]; simpl; try reflexivity.
  - destruct b; reflexivity.
  - destruct (z =? 0); reflexivity.
  - destruct (Qeq_bool x 0); reflexivity.
  - destruct s; reflexivity.
  - destruct l; reflexivity.
  - destruct d; reflexivity.
Qed.

(** X10. A parsed reply of the wrong shape is not absorbed. When the reply of
    the model parses, [refineQuery] raises [AttributeError] if the parsed
    value is not an object, or if its [filters] or its [meta] is truthy
    and not an object (a list, a string, a number, [true]); it raises
    [TypeError] if its [normalized_query] is a number other than 0 or is
    [true]; in every other case it returns a result. *)
Theorem refineQuery_raises_on_wrong_shapes :
  forall (w : World) (lib : PyLib) (q chatbotId : str)
         (userGroup : option str) (tr : trace) (c : option str)
         (data : pyval),
    llm_reply w tr 1 (refine_payload lib q chatbotId userGroup)
    = Response 200 (Content c) ->
    parseJson (json_loads lib) (Some (default [] c)) = Ok data ->
    let out := fst (refineQuery w lib q chatbotId userGroup tr) in
    match data with
    | PDict d =>
        let f := get (lit "filters") d in
        let m := get (lit "meta") d in
        let n := get_or (lit "normalized_query") (PStr q) d in
        if truthy f && negb (is_dict f) then out = Raise AttributeError
        else if truthy m && negb (is_dict m) then out = Raise AttributeError
        else if truthy n && unsized n then out = Raise TypeError
        else exists r, out = Ok r
    | _ => out = Raise AttributeError
    end.
Proof.
  intros w lib q chatbotId userGroup tr c data Hr Hp out. unfold out.
  rewrite (refineQuery_parsed w lib q chatbotId userGroup tr c data Hr Hp).
  destruct data as [| | | | | |d]; try reflexivity.
  cbn [as_dict result_bind]. cbv zeta.
  rewrite (as_dict_por (get (lit "filters") d)).
  destruct (truthy (get (lit "filters") d) && negb (is_dict (get (lit "filters") d)));
    [reflexivity|].
  cbn [result_bind]. rewrite (as_dict_por (get (lit "meta") d)).
  destruct (truthy (get (lit "meta") d) && negb (is_dict (get (lit "meta") d)));
    [reflexivity|].
  cbn [result_bind]. rewrite py_len_por.
  destruct (truthy _ && unsized _); [reflexivity|].
  cbn [result_bind]. eauto.
Qed.

Lemma refineQuery_raises_on_wrong_shapes_witness :
  fst (refineQuery (answering "{bad filters}") (lib_of sample_docs)
                   (lit "reset?") (lit "bot") None [])
  = Raise AttributeError.
Proof.
  exact (refineQuery_raises_on_wrong_shapes (answering "{bad filters}")
           (lib_of sample_docs) (lit "reset?") (lit "bot") None []
           (Some bad_filters_doc)
           (PDict [(lit "filters", PList [PInt 1])])
           ltac:(vm_compute; reflexivity) ltac:(vm_compute; reflexivity)).
Defined.

End RefineFacts.

(* ===================================================================== *)
(** ** The answer stage: what is returned, and when it raises *)
(* ===================================================================== *)

Module AnswerFacts.
Import LlmClient Search AnswerGeneration Shape StrFacts DictFacts.

Lemma result_map_length {A B} (f : A -> Result B) (l : list A) (l' : list B) :
  result_map f l = Ok l' -> length l' = length l.
Proof.
  revert l'. induction l as [|x l IH]; intros l'; simpl.
  - intros [= <-]. reflexivity.
  - destruct (f x); [|discriminate]. simpl.
    destruct (result_map f l); [|discriminate]. simpl.
    intros [= <-]. simpl. f_equal. now apply IH.
Qed.

Lemma result_map_raises {A B} (f : A -> Result B) (l : list A) (x : A) :
  x ∈ l -> (exists e, f x = Raise e) -> exists e, result_map f l = Raise e.
Proof.
  intros Hin [e He]. induction l as [|y l IH]; [inversion Hin|].
  simpl. apply elem_of_cons in Hin as [<-|Hin].
  - rewrite He. eauto.
  - destruct (f y); [|eauto]. simpl.
    destruct (IH Hin) as [e' ->]. eauto.
Qed.

Lemma fallback_answer_trimmed :
  FALLBACK_ANSWER <> [] /\ strip FALLBACK_ANSWER = FALLBACK_ANSWER.
Proof. split; [vm_compute; discriminate|vm_compute; reflexivity]. Qed.

Section Facts.

Variables (w : World) (lib : PyLib).

Lemma limited_items_length (rawChunks : pyval) (l : list pyval) :
  limited_items lib rawChunks = Ok l ->
  (length l <= MAX_SUPPORTING_CHUNKS_IN_RESULT)%nat.
Proof.
  unfold limited_items.
  destruct (result_bind (iter_items rawChunks) _) as [l0|] eqn:E.
  - intros [= <-]. destruct (iter_items rawChunks); [|discriminate].
    cbn [result_bind] in E. destruct (result_map _ _); [|discriminate].
    cbn [result_bind] in E. injection E as <-. rewrite length_take. lia.
  - unfold first_items. destruct rawChunks; try discriminate; intros [= <-].
    + rewrite length_fmap, length_take. lia.
    + rewrite length_take. lia.
Qed.

Lemma fallback_shape (q : list N) (ctx : list Chunk) (rc ia : list N) :
  let r := _fallbackAnswer q ctx rc ia in
  answer r <> [] /\ strip (answer r) = answer r
  /\ (length (supporting_chunks r) <= MAX_SUPPORTING_CHUNKS_IN_RESULT)%nat.
Proof.
  cbn [_fallbackAnswer answer supporting_chunks].
  destruct fallback_answer_trimmed as [H1 H2].
  split; [exact H1|]. split; [exact H2|].
  rewrite length_fmap, length_take. lia.
Qed.

End Facts.

(** X11. Whatever [generateAnswerWithContext] returns has an answer that is
    trimmed and not empty (the answer of the model, or the fixed apology
    when the reply does not parse or has no answer), and at most
    [MAX_SUPPORTING_CHUNKS_IN_RESULT] (5) supporting chunks, whether they
    come from the model or from the context. *)
Theorem answer_is_not_blank_and_chunks_are_capped :
  forall (w : World) (lib : PyLib) (question normalizedQuery : str)
         (keywords : list str) (filters : dict)
         (retrievalConfidence intentAmbiguityLevel : str)
         (contextChunks : list Chunk) (tr tr' : trace) (r : AnswerResult),
    generateAnswerWithContext w lib question normalizedQuery keywords filters
      retrievalConfidence intentAmbiguityLevel contextChunks tr = (Ok r, tr') ->
    answer r <> []
    /\ strip (answer r) = answer r
    /\ (length (supporting_chunks r) <= 5)%nat.
Proof.
  intros w lib q nq kw fl rc ia ctx tr tr' r Hrun.
  unfold generateAnswerWithContext, bind in Hrun.
  destruct (callQwen w 2 _ tr) as [[raw|e] tr1]; [|discriminate].
  destruct (parseJson (json_loads lib) (Some raw)) as [data|e].
  2:{ unfold ret in Hrun. injection Hrun as <- _. apply fallback_shape. }
  unfold lift, ret in Hrun.
  destruct (as_dict data) as [d|]; [|discriminate].
  destruct (is_empty (strip (py_str lib (por (get (lit "answer") d) (PStr [])))))
    eqn:Ea.
  { injection Hrun as <- _. apply fallback_shape. }
  apply is_empty_false in Ea.
  destruct (as_dict (por (get (lit "meta") d) (PDict []))); [|discriminate].
  destruct (truthy (get (lit "supporting_chunks") d)).
  - destruct (limited_items lib (get (lit "supporting_chunks") d)) as [items|]
      eqn:El; [|discriminate].
    cbn [result_bind] in Hrun.
    destruct (result_map (context_chunk_of lib) items) as [chunks|] eqn:Em;
      [|discriminate].
    injection Hrun as <- _. cbn [answer supporting_chunks].
    split; [exact Ea|]. split; [apply strip_idem|].
    rewrite (result_map_length _ _ _ Em).
    exact (limited_items_length lib _ _ El).
  - injection Hrun as <- _. cbn [answer supporting_chunks].
    split; [exact Ea|]. split; [apply strip_idem|].
    rewrite length_fmap, length_take.
    unfold MAX_SUPPORTING_CHUNKS_IN_RESULT. lia.
Qed.

Import Samples.

Lemma answer_is_not_blank_and_chunks_are_capped_witness :
  exists r tr',
    generateAnswerWithContext chatty_world sample_lib (lit "reset?")
      (lit "reset?") [] [] (lit "low") (lit "low") [] [] = (Ok r, tr')
    /\ answer r = FALLBACK_ANSWER
    /\ answer r <> []
    /\ (length (supporting_chunks r) <= 5)%nat.
Proof.
  eexists _, _. split; [vm_compute; reflexivity|].
  split; [vm_compute; reflexivity|].
  destruct (answer_is_not_blank_and_chunks_are_capped chatty_world sample_lib
              (lit "reset?") (lit "reset?") [] [] (lit "low") (lit "low") []
              [] _ _ ltac:(vm_compute; reflexivity)) as (H1 & _ & H3).
  split; [exact H1|exact H3].
Defined.

Lemma score_ge_total (a b : Chunk) : score_ge a b = false -> score_ge b a = true.
Proof.
  unfold score_ge. intros H. apply Qle_bool_iff.
  destruct (Qlt_le_dec (score a) (score b)) as [Hlt|Hle].
  - now apply Qlt_le_weak.
  - apply Qle_bool_iff in Hle. congruence.
Qed.

Lemma by_score_desc_sorted (chunks : list Chunk) :
  StronglySorted (fun a b => (score b <= score a)%Q) (by_score_desc chunks).
Proof.
  apply Sorted_StronglySorted.
  - intros a b c Hab Hbc. now apply Qle_trans with (score b).
  - eapply Sorted_ind with (P := fun l => Sorted _ l);
      [constructor| |apply (SearchFacts.sort_by_sorted score_ge score_ge_total)].
    intros a l Hs IH Hhd. constructor; [exact IH|].
    destruct Hhd as [|b l' Hab]; constructor.
    now apply Qle_bool_iff.
Qed.

(** X12. The supporting chunks of the fallback answer are the best chunks of
    the context: [sorted(...)[:5]] keeps [min(5, n)] of the [n] context
    chunks, in non-increasing order of score, and no chunk left out
    scores higher than a chunk kept. The answer is the fixed apology and
    the two confidence labels are passed on, with no clarification
    asked. *)
Theorem fallback_keeps_the_best_chunks :
  forall (question : str) (chunks : list Chunk)
         (retrievalConfidence intentAmbiguityLevel : str),
    let r := _fallbackAnswer question chunks retrievalConfidence
                             intentAmbiguityLevel in
    answer r = FALLBACK_ANSWER
    /\ AnswerGeneration.meta r
       = {| retrieval_confidence := retrievalConfidence;
            intent_ambiguity_level := intentAmbiguityLevel;
            need_clarification := false |}
    /\ exists kept left,
         supporting_chunks r = context_chunk <$> kept
         /\ kept ++ left ≡ₚ chunks
         /\ length kept = Nat.min 5 (length chunks)
         /\ StronglySorted (fun a b => (score b <= score a)%Q) (kept ++ left).
Proof.
  intros q chunks rc ia. cbv zeta.
  cbn [_fallbackAnswer answer supporting_chunks AnswerGeneration.meta].
  split; [reflexivity|]. split; [reflexivity|].
  exists (take 5 (by_score_desc chunks)), (drop 5 (by_score_desc chunks)).
  split; [reflexivity|]. rewrite take_drop.
  split; [apply SearchFacts.sort_by_perm|].
  split; [|apply by_score_desc_sorted].
  rewrite length_take. unfold by_score_desc.
  now rewrite (Permutation_length (SearchFacts.sort_by_perm score_ge chunks)).
Qed.

(** X13. Supporting chunks of the model that are not objects are not absorbed:
    the [try] around the sort falls back on the first five as they are,
    and the loop that builds the result then calls [.get] on them. When
    the reply parses to an object with an answer and one of the first
    five [supporting_chunks] is not an object, [generateAnswerWithContext]
    raises. *)
Theorem supporting_chunks_that_are_not_objects_raise :
  forall (w : World) (lib : PyLib) (question normalizedQuery : str)
         (keywords : list str) (filters : dict)
         (retrievalConfidence intentAmbiguityLevel : str)
         (contextChunks : list Chunk) (tr : trace) (c : option str)
         (d : dict) (l : list pyval) (x : pyval),
    llm_reply w tr 2
      (answer_payload lib question normalizedQuery keywords filters
         retrievalConfidence intentAmbiguityLevel contextChunks)
    = Response 200 (Content c) ->
    parseJson (json_loads lib) (Some (default [] c)) = Ok (PDict d) ->
    strip (py_str lib (por (get (lit "answer") d) (PStr []))) <> [] ->
    get (lit "supporting_chunks") d = PList l ->
    x ∈ take 5 l -> is_dict x = false ->
    exists e,
      fst (generateAnswerWithContext w lib question normalizedQuery keywords
             filters retrievalConfidence intentAmbiguityLevel contextChunks tr)
      = Raise e.
Proof.
  intros w lib q nq kw fl rc ia ctx tr c d l x Hr Hp Ha Hl Hx Hnd.
  unfold generateAnswerWithContext, bind.
  rewrite (QueryServiceFacts.callQwen_content _ _ _ _ _ Hr), Hp.
  unfold lift, ret. cbn [as_dict].
  apply is_empty_false in Ha. rewrite Ha.
  destruct (as_dict (por (get (lit "meta") d) (PDict []))); [|eauto].
  rewrite Hl.
  assert (x ∈ l) as Hxl.
  { apply elem_of_take in Hx as (i & Hi & _).
    eapply list_elem_of_lookup_2; exact Hi. }
  assert (truthy (PList l) = true) as ->
    by (destruct l; [inversion Hxl|reflexivity]).
  assert (as_dict x = Raise AttributeError) as Hax
    by (destruct x; try reflexivity; discriminate).
  assert (limited_items lib (PList l) = Ok (take 5 l)) as ->.
  { unfold limited_items. cbn [iter_items result_bind].
    destruct (result_map_raises (score_key lib) l x Hxl) as [e ->];
      [|reflexivity].
    unfold score_key. rewrite Hax. eauto. }
  cbn [result_bind].
  destruct (result_map_raises (context_chunk_of lib) (take 5 l) x Hx) as [e ->];
    [|eauto].
  unfold context_chunk_of. rewrite Hax. eauto.
Qed.

Import MoreSamples.

Lemma supporting_chunks_that_are_not_objects_raise_witness :
  fst (generateAnswerWithContext (answering "{bad chunks}") (lib_of sample_docs)
         (lit "reset?") (lit "reset?") [] [] (lit "low") (lit "low") [] [])
  = Raise AttributeError.
Proof.
  destruct (supporting_chunks_that_are_not_objects_raise
              (answering "{bad chunks}") (lib_of sample_docs)
              (lit "reset?") (lit "reset?") [] [] (lit "low") (lit "low") [] []
              (Some bad_chunks_doc) _ [PStr (lit "chunk one")]
              (PStr (lit "chunk one"))
              ltac:(vm_compute; reflexivity) ltac:(vm_compute; reflexivity)
              ltac:(vm_compute; discriminate) ltac:(vm_compute; reflexivity)
              ltac:(left) ltac:(reflexivity)) as [e He].
  rewrite He. vm_compute in He. symmetry. exact He.
Defined.

End AnswerFacts.

(* ===================================================================== *)
(** ** Retrieval: the scores of the base hits *)
(* ===================================================================== *)

Module ScoreFacts.
Import Search Shape.






Import Samples.


End ScoreFacts.

(* ===================================================================== *)
(** ** The query pipeline: the gate, the calls, the images *)
(* ===================================================================== *)

Module PipelineFacts.
Import LlmClient Search QueryRefine AnswerGeneration QueryService Shape.
Import StrFacts DictFacts.

Lemma index_of_None (x : list N) (l : list (list N)) :
  x ∉ l -> index_of x l = None.
Proof.
  induction l as [|y l IH]; [reflexivity|]. intros Hn. simpl.
  rewrite eqb_neq by (intros ->; apply Hn; left).
  rewrite IH; [reflexivity|]. intros H. apply Hn. now right.
Qed.

Lemma confidence_cases (s : Q) :
  (_estimateRetrievalConfidence s = lit "high" /\ (SCORE_HIGH <= s)%Q)
  \/ (_estimateRetrievalConfidence s = lit "medium"
      /\ (SCORE_MEDIUM <= s < SCORE_HIGH)%Q)
  \/ (_estimateRetrievalConfidence s = lit "low"
      /\ (SCORE_LOW <= s < SCORE_MEDIUM)%Q)
  \/ (_estimateRetrievalConfidence s = lit "unknown" /\ (s < SCORE_LOW)%Q).
Proof.
  unfold _estimateRetrievalConfidence.
  destruct (Qle_bool SCORE_HIGH s) eqn:E1.
  { apply Qle_bool_iff in E1. left. split; [reflexivity|exact E1]. }
  assert (s < SCORE_HIGH)%Q as H1.
  { apply Qnot_le_lt. intros H. apply Qle_bool_iff in H. congruence. }
  destruct (Qle_bool SCORE_MEDIUM s) eqn:E2.
  { apply Qle_bool_iff in E2. right. left. split; [reflexivity|split; assumption]. }
  assert (s < SCORE_MEDIUM)%Q as H2.
  { apply Qnot_le_lt. intros H. apply Qle_bool_iff in H. congruence. }
  destruct (Qle_bool SCORE_LOW s) eqn:E3.
  { apply Qle_bool_iff in E3. right. right. left.
    split; [reflexivity|split; assumption]. }
  assert (s < SCORE_LOW)%Q as H3.
  { apply Qnot_le_lt. intros H. apply Qle_bool_iff in H. congruence. }
  right. right. right. split; [reflexivity|exact H3].
Qed.

(** X15. The gate before the answer stage is the threshold 0.40 and nothing
    else: the confidence estimated from a maximal score is below the
    minimum exactly when the score is below 0.40; a higher score never
    gives a lower level of confidence; and a label that is none of
    [unknown], [low], [medium], [high] counts as below the minimum. *)
Theorem confidence_gate_is_the_low_threshold :
  (forall s : Q,
     _confidenceBelowMinimum (_estimateRetrievalConfidence s) = true
     <-> (s < SCORE_LOW)%Q)
  /\ (forall s1 s2 : Q, (s1 <= s2)%Q ->
        exists i j,
          index_of (_estimateRetrievalConfidence s1) CONFIDENCE_ORDER = Some i
          /\ index_of (_estimateRetrievalConfidence s2) CONFIDENCE_ORDER = Some j
          /\ (i <= j)%nat)
  /\ (forall level : str,
        level ∉ CONFIDENCE_ORDER -> _confidenceBelowMinimum level = true).
Proof.
  assert (SCORE_LOW < SCORE_MEDIUM /\ SCORE_MEDIUM < SCORE_HIGH)%Q as [Hlm Hmh]
    by (split; reflexivity).
  split; [|split].
  - intros s.
    destruct (confidence_cases s) as [[-> H]|[[-> H]|[[-> H]|[-> H]]]];
      (split; [intros E; vm_compute in E; try discriminate|intros E];
       try reflexivity; try lra; auto).
  - intros s1 s2 H12.
    destruct (confidence_cases s1) as [[-> H1]|[[-> H1]|[[-> H1]|[-> H1]]]];
      destruct (confidence_cases s2) as [[-> H2]|[[-> H2]|[[-> H2]|[-> H2]]]];
      try (exfalso; lra);
      (eexists _, _; split; [vm_compute; reflexivity|];
       split; [vm_compute; reflexivity|lia]).
  - intros level Hn. unfold _confidenceBelowMinimum.
    now rewrite index_of_None.
Qed.


(** *** The images *)

Lemma record_image_cases key fresh chunk_id image_map :
  ((key ∉ image_keys image_map)
   /\ record_image key fresh chunk_id image_map
      = image_map ++ [with_chunk_id chunk_id fresh])
  \/ (exists m1 info m2,
        image_map = m1 ++ info :: m2 /\ image_key info = key
        /\ record_image key fresh chunk_id image_map
           = m1 ++ with_chunk_id chunk_id info :: m2).
Proof.
  induction image_map as [|info rest IH]; cbn [record_image].
  - left. split; [apply not_elem_of_nil|reflexivity].
  - destruct (eqb (image_key info) key) eqn:E.
    + apply bool_decide_eq_true in E. right. exists [], info, rest. auto.
    + apply bool_decide_eq_false in E.
      destruct IH as [[Hn ->]|(m1 & i & m2 & -> & Hk & ->)].
      * left. split; [|reflexivity]. unfold image_keys. cbn [fmap list_fmap].
        intros H. apply elem_of_cons in H as [H|H]; [congruence|contradiction].
      * right. exists (info :: m1), i, m2. auto.
Qed.

Section ImageFacts.

Variable lib : PyLib.

(** The invariant of the image dictionary. *)
Lemma record_image_inv (chunks : list Chunk) (c : Chunk) key fresh image_map :
  image_key fresh = key -> related_chunk_ids fresh = [] ->
  c ∈ chunks -> lists_image lib c key ->
  NoDup (image_keys image_map) ->
  Forall (fun info => image_entry_ok lib chunks (image_key info)
                                     (related_chunk_ids info)) image_map ->
  NoDup (image_keys (record_image key fresh (chunk_id c) image_map))
  /\ Forall (fun info => image_entry_ok lib chunks (image_key info)
                                        (related_chunk_ids info))
            (record_image key fresh (chunk_id c) image_map).
Proof.
  intros Hkey Hrel Hc Hlists Hnd Hall.
  assert (forall info, image_key info = key ->
            (forall id, id ∈ related_chunk_ids info ->
               id <> [] /\ exists c0, c0 ∈ chunks /\ chunk_id c0 = Some id
                                      /\ lists_image lib c0 key) ->
            image_entry_ok lib chunks (image_key (with_chunk_id (chunk_id c) info))
              (related_chunk_ids (with_chunk_id (chunk_id c) info))) as Htouch.
  { intros info Hk Hids. cbn [with_chunk_id image_key related_chunk_ids].
    rewrite Hk. split; [eauto|]. intros id Hid.
    destruct (chunk_id c) as [[|x cid]|] eqn:Ecid; auto.
    apply elem_of_app in Hid as [Hid|Hid]; [auto|].
    apply list_elem_of_singleton in Hid as ->. split; [discriminate|eauto]. }
  destruct (record_image_cases key fresh (chunk_id c) image_map)
    as [[Hn ->]|(m1 & info & m2 & -> & Hk & ->)].
  - split.
    + unfold image_keys in *. rewrite fmap_app. cbn [fmap list_fmap with_chunk_id image_key].
      rewrite Hkey. apply NoDup_app. split; [exact Hnd|].
      split; [|apply NoDup_singleton].
      intros x Hx Hx'. apply list_elem_of_singleton in Hx' as ->. contradiction.
    + apply Forall_app. split; [exact Hall|]. constructor; [|constructor].
      apply Htouch; [exact Hkey|]. rewrite Hrel. intros id Hid. inversion Hid.
  - split.
    + unfold image_keys in *. rewrite fmap_app in *. exact Hnd.
    + apply Forall_app in Hall as [H1 H2]. apply Forall_cons in H2 as [Hi H2].
      apply Forall_app. split; [exact H1|]. constructor; [|exact H2].
      apply Htouch; [exact Hk|]. rewrite <- Hk. apply Hi.
Qed.

Lemma image_entry_ok_mono (chunks chunks' : list Chunk) key related :
  (forall c, c ∈ chunks -> c ∈ chunks') ->
  image_entry_ok lib chunks key related ->
  image_entry_ok lib chunks' key related.
Proof.
  intros Hsub [(c & Hc & Hl) Hids]. split; [eauto|].
  intros id Hid. destruct (Hids id Hid) as (Hne & c0 & Hc0 & Hcid & Hl0).
  eauto 6.
Qed.

Lemma collect_from_chunk_inv (chunks : list Chunk) (c : Chunk)
    (image_map : list ImageInfo) :
  c ∈ chunks ->
  NoDup (image_keys image_map) ->
  Forall (fun info => image_entry_ok lib chunks (image_key info)
                                     (related_chunk_ids info)) image_map ->
  NoDup (image_keys (collect_from_chunk lib image_map c))
  /\ Forall (fun info => image_entry_ok lib chunks (image_key info)
                                        (related_chunk_ids info))
            (collect_from_chunk lib image_map c).
Proof.
  intros Hc. unfold collect_from_chunk.
  destruct (image_paths (Search.meta c)) as [[|ch raw]|] eqn:Ep; auto.
  assert (forall p, p ∈ decode_image_paths lib (ch :: raw) ->
                    lists_image lib c p) as Hlists
    by (intros p Hp; exists ch, raw; auto).
  revert image_map.
  induction (decode_image_paths lib (ch :: raw)) as [|p paths IH];
    intros image_map Hnd Hall; cbn [fold_left]; [auto|].
  destruct (parse_image_key lib p) as [[doc pg] ix].
  apply IH.
  - intros p' Hp'. apply Hlists. now right.
  - apply (record_image_inv chunks c); auto. apply Hlists. left.
  - apply (record_image_inv chunks c); auto. apply Hlists. left.
Qed.

Lemma collect_chunks_inv (chunks : list Chunk) :
  forall (rest : list Chunk) (image_map : list ImageInfo),
    (forall c, c ∈ rest -> c ∈ chunks) ->
    NoDup (image_keys image_map) ->
    Forall (fun info => image_entry_ok lib chunks (image_key info)
                                       (related_chunk_ids info)) image_map ->
    NoDup (image_keys (fold_left (collect_from_chunk lib) rest image_map))
    /\ Forall (fun info => image_entry_ok lib chunks (image_key info)
                                          (related_chunk_ids info))
              (fold_left (collect_from_chunk lib) rest image_map).
Proof.
  induction rest as [|c rest IH]; intros image_map Hsub Hnd Hall;
    cbn [fold_left]; [auto|].
  destruct (collect_from_chunk_inv chunks c image_map) as [H1 H2]; auto.
  { apply Hsub. left. }
  apply IH; auto. intros c' Hc'. apply Hsub. now right.
Qed.

End ImageFacts.

Lemma leb_total (a b : list N) : PyStr.leb a b = false -> PyStr.leb b a = true.
Proof.
  unfold PyStr.leb. rewrite (SearchFacts.compare_antisym a b).
  destruct (PyStr.compare a b); simpl; congruence.
Qed.

(** X17. The images [_collectImagesFromChunks] returns are sound: no two of
    them share an image key; the url of each is ["/pdf_images/"] followed
    by its key; each is listed in the metadata of one of the chunks; and
    its related chunk ids are sorted, without repetition, none of them
    empty, and each the id of a chunk that lists the image. *)
Theorem collected_images_are_sound :
  forall (lib : PyLib) (chunks : list Chunk),
    let images := _collectImagesFromChunks lib chunks in
    NoDup (i_image_key <$> images)
    /\ Forall (fun img =>
         i_url img = lit "/pdf_images/" ++ i_image_key img
         /\ (exists c, c ∈ chunks /\ lists_image lib c (i_image_key img))
         /\ Sorted (fun a b => PyStr.leb a b = true) (i_related_chunk_ids img)
         /\ NoDup (i_related_chunk_ids img)
         /\ forall id, id ∈ i_related_chunk_ids img ->
              id <> []
              /\ exists c, c ∈ chunks /\ chunk_id c = Some id
                           /\ lists_image lib c (i_image_key img))
       images.
Proof.
  intros lib chunks images. unfold images, _collectImagesFromChunks.
  destruct (collect_chunks_inv lib chunks chunks [] ltac:(auto)
              ltac:(constructor) ltac:(constructor)) as [Hnd Hall].
  set (image_map := fold_left (collect_from_chunk lib) chunks []) in *.
  split.
  - rewrite <- list_fmap_compose. exact Hnd.
  - apply Forall_fmap. eapply Forall_impl; [exact Hall|].
    intros info [Hc Hids]. cbn [compose i_url i_image_key i_related_chunk_ids].
    split; [reflexivity|]. split; [exact Hc|].
    split; [apply (SearchFacts.sort_by_sorted PyStr.leb leb_total)|].
    assert (forall id, id ∈ sort_by PyStr.leb (remove_dups (related_chunk_ids info))
                       <-> id ∈ related_chunk_ids info) as Hmem.
    { intros id. rewrite (SearchFacts.sort_by_perm PyStr.leb).
      apply elem_of_remove_dups. }
    split.
    + rewrite (SearchFacts.sort_by_perm PyStr.leb). apply NoDup_remove_dups.
    + intros id Hid. apply Hids. now apply Hmem.
Qed.

End PipelineFacts.

(* ===================================================================== *)
(** ** Extraction: the containment filter of the images *)
(* ===================================================================== *)

Module ContainmentFacts.
Import ExtractPDF Shape.

Lemma enumerate_from_lookup {A} (l : list A) (k j : nat) (x : A) :
  (j, x) ∈ zip (seq k (length l)) l <-> (k <= j)%nat /\ l !! (j - k)%nat = Some x.
Proof.
  revert k. induction l as [|a l IH]; intros k; simpl.
  - split; [intros H; inversion H | intros [_ H]; discriminate].
  - rewrite elem_of_cons, IH. split.
    + intros [He | [Hle Hl]].
      * inversion He; subst. split; [lia|]. by rewrite Nat.sub_diag.
      * split; [lia|]. replace (j - k)%nat with (S (j - S k)) by lia. done.
    + intros [Hle Hl]. destruct (decide (j = k)) as [->|Hne].
      * left. rewrite Nat.sub_diag in Hl. simpl in Hl. congruence.
      * right. split; [lia|].
        replace (j - k)%nat with (S (j - S k)) in Hl by lia. done.
Qed.

Lemma enumerate_lookup {A} (l : list A) (j : nat) (x : A) :
  (j, x) ∈ enumerate l <-> l !! j = Some x.
Proof.
  unfold enumerate. rewrite enumerate_from_lookup, Nat.sub_0_r.
  split; [tauto | intros; split; [lia | done]].
Qed.

Lemma enumerate_fst {A} (l : list A) : (enumerate l).*1 = seq 0 (length l).
Proof. unfold enumerate. apply fst_zip. by rewrite length_seq. Qed.

Lemma enumerate_snd {A} (l : list A) : (enumerate l).*2 = l.
Proof. unfold enumerate. apply snd_zip. by rewrite length_seq. Qed.

Lemma StronglySorted_seq (k n : nat) : StronglySorted lt (seq k n).
Proof.
  revert k. induction n as [|n IH]; intros k; simpl; constructor; [apply IH|].
  apply Forall_forall. intros x Hx. apply elem_of_seq in Hx. lia.
Qed.

Lemma StronglySorted_filter_fst {A B} (R : A -> A -> Prop)
    (P : A * B -> Prop) `{!forall x, Decision (P x)} (l : list (A * B)) :
  StronglySorted R l.*1 -> StronglySorted R (filter P l).*1.
Proof.
  induction l as [|x l IH]; [done|].
  rewrite fmap_cons. intros Hs. apply StronglySorted_inv in Hs as [Hs Hall].
  rewrite filter_cons. destruct (decide (P x)); [|by apply IH].
  rewrite fmap_cons. constructor; [by apply IH|].
  apply Forall_forall. intros y Hy.
  apply list_elem_of_fmap in Hy as [z [-> Hz]].
  apply list_elem_of_filter in Hz as [_ Hz].
  eapply Forall_forall in Hall; [exact Hall|].
  apply list_elem_of_fmap. by exists z.
Qed.

Section Loops.

Variable contains : Rect -> Rect -> bool.
Variable candidates : list Candidate.

Lemma inner_mono (i : nat) (b : Rect) (js : list (nat * Candidate))
    (R : gset nat) :
  R ⊆ containment_inner contains i b js R.
Proof.
  revert R. induction js as [|[j cj] js IH]; intros R; simpl; [done|].
  destruct (bool_decide (i = j) || bool_decide (j ∈ R)); [apply IH|].
  destruct (contains (bbox cj) b); [apply union_subseteq_r|].
  destruct (contains b (bbox cj)); [|apply IH].
  etrans; [apply (union_subseteq_r {[ j ]} R)|apply IH].
Qed.

Lemma outer_mono (is_ all : list (nat * Candidate)) (R : gset nat) :
  R ⊆ containment_outer contains is_ all R.
Proof.
  revert R. induction is_ as [|[i ci] is_ IH]; intros R; simpl; [done|].
  destruct (bool_decide (i ∈ R)); [apply IH|].
  etrans; [apply (inner_mono i (bbox ci) all)|apply IH].
Qed.

(** What an index that survives its own turn has been compared with. *)
Lemma inner_checked (i : nat) (b : Rect) (js : list (nat * Candidate))
    (R : gset nat) :
  i ∉ containment_inner contains i b js R ->
  forall j cj, (j, cj) ∈ js -> j <> i ->
    j ∉ containment_inner contains i b js R ->
    contains (bbox cj) b = false /\ contains b (bbox cj) = false.
Proof.
  revert R. induction js as [|[j0 c0] js IH]; intros R Hi j cj Hin Hne Hj.
  { inversion Hin. }
  simpl in Hi, Hj.
  destruct (bool_decide (i = j0) || bool_decide (j0 ∈ R)) eqn:Eskip.
  - apply elem_of_cons in Hin as [He | Hin]; [|by eapply IH].
    inversion He; subst j0 c0.
    apply orb_true_iff in Eskip as [E | E]; apply bool_decide_eq_true in E.
    + congruence.
    + exfalso. apply Hj. by apply inner_mono.
  - destruct (contains (bbox c0) b) eqn:E1.
    { exfalso. apply Hi, elem_of_union. left. by apply elem_of_singleton. }
    destruct (contains b (bbox c0)) eqn:E2.
    + apply elem_of_cons in Hin as [He | Hin]; [|by eapply IH].
      inversion He; subst j0 c0.
      exfalso. apply Hj. apply inner_mono, elem_of_union. left.
      by apply elem_of_singleton.
    + apply elem_of_cons in Hin as [He | Hin]; [|by eapply IH].
      inversion He; subst j0 c0. done.
Qed.

Lemma outer_checked (is_ all : list (nat * Candidate)) (R : gset nat) :
  let F := containment_outer contains is_ all R in
  forall i ci, (i, ci) ∈ is_ -> i ∉ F ->
  forall j cj, (j, cj) ∈ all -> j <> i -> j ∉ F ->
    contains (bbox cj) (bbox ci) = false.
Proof.
  revert R. induction is_ as [|[i0 c0] is_ IH]; intros R F i ci Hin Hi j cj Hj Hne HjF.
  { inversion Hin. }
  subst F. simpl in Hi, HjF.
  destruct (bool_decide (i0 ∈ R)) eqn:Eskip.
  - apply elem_of_cons in Hin as [He | Hin]; [|by eapply IH].
    inversion He; subst i0 c0. apply bool_decide_eq_true in Eskip.
    exfalso. apply Hi. by apply outer_mono.
  - apply elem_of_cons in Hin as [He | Hin]; [|by eapply IH].
    inversion He; subst i0 c0.
    eapply (inner_checked i (bbox ci) all R); eauto.
    + intros H. apply Hi. by apply outer_mono.
    + intros H. apply HjF. by apply outer_mono.
Qed.

(** An invariant of the set of removed indices: whatever is kept by every
    removal of an index [r] that another index [c], not removed so far,
    contains. *)
Section Invariant.

Variable I : gset nat -> Prop.
Hypothesis I_step :
  forall (R : gset nat) (r c : nat) (cr cc : Candidate),
    r ∉ R -> c ∉ R -> r <> c ->
    candidates !! r = Some cr -> candidates !! c = Some cc ->
    contains (bbox cc) (bbox cr) = true ->
    I R -> I ({[ r ]} ∪ R).

Lemma inner_inv (i : nat) (ci : Candidate) (js : list (nat * Candidate))
    (R : gset nat) :
  candidates !! i = Some ci -> i ∉ R ->
  (forall j cj, (j, cj) ∈ js -> candidates !! j = Some cj) ->
  I R -> I (containment_inner contains i (bbox ci) js R).
Proof.
  intros Hi. revert R. induction js as [|[j cj] js IH]; intros R HiR Hjs HI;
    simpl; [done|].
  assert (forall j' cj', (j', cj') ∈ js -> candidates !! j' = Some cj') as Hjs'.
  { intros j' cj' H. apply Hjs. by right. }
  assert (candidates !! j = Some cj) as Hj by (apply Hjs; left).
  destruct (bool_decide (i = j) || bool_decide (j ∈ R)) eqn:Eskip;
    [by apply IH|].
  apply orb_false_iff in Eskip as [E1 E2].
  apply bool_decide_eq_false in E1, E2.
  destruct (contains (bbox cj) (bbox ci)) eqn:Ec1.
  { by apply (I_step R i j ci cj). }
  destruct (contains (bbox ci) (bbox cj)) eqn:Ec2; [|by apply IH].
  apply IH; [|done|].
  - intros [H%elem_of_singleton | H]%elem_of_union; [congruence|done].
  - apply (I_step R j i cj ci); auto.
Qed.

Lemma outer_inv (is_ all : list (nat * Candidate)) (R : gset nat) :
  (forall i ci, (i, ci) ∈ is_ -> candidates !! i = Some ci) ->
  (forall j cj, (j, cj) ∈ all -> candidates !! j = Some cj) ->
  I R -> I (containment_outer contains is_ all R).
Proof.
  intros His Hall. revert R His.
  induction is_ as [|[i ci] is_ IH]; intros R His HI; simpl; [done|].
  assert (forall i' ci', (i', ci') ∈ is_ -> candidates !! i' = Some ci') as His'.
  { intros i' ci' H. apply His. by right. }
  destruct (bool_decide (i ∈ R)) eqn:Eskip; [by apply IH|].
  apply bool_decide_eq_false in Eskip.
  apply IH; [done|]. apply inner_inv; auto. apply His. left.
Qed.

Lemma removed_inv :
  I ∅ ->
  I (containment_outer contains (enumerate candidates) (enumerate candidates) ∅).
Proof.
  intros H0. apply outer_inv; auto; intros i ci; apply enumerate_lookup.
Qed.

End Invariant.

(** What [_filterImagesByContainment] returns, by the indices kept. *)
Lemma filter_by_indices :
  let R := containment_outer contains (enumerate candidates)
             (enumerate candidates) ∅ in
  let kept := (filter (fun ic => ic.1 ∉ R) (enumerate candidates)).*1 in
  StronglySorted lt kept
  /\ Forall2 (fun i c => candidates !! i = Some c) kept
       (_filterImagesByContainment contains candidates)
  /\ (forall i, i ∈ kept <-> (i < length candidates)%nat /\ i ∉ R).
Proof.
  intros R kept. split; [|split].
  - subst kept. apply StronglySorted_filter_fst.
    rewrite enumerate_fst. apply StronglySorted_seq.
  - assert (_filterImagesByContainment contains candidates
            = (filter (fun ic => ic.1 ∉ R) (enumerate candidates)).*2) as ->.
    { unfold _filterImagesByContainment. destruct candidates; reflexivity. }
    subst kept.
    assert (forall ic, ic ∈ filter (fun ic => ic.1 ∉ R) (enumerate candidates)
                       -> candidates !! ic.1 = Some ic.2) as H.
    { intros [i c] Hin. apply list_elem_of_filter in Hin as [_ Hin].
      by apply enumerate_lookup. }
    induction (filter (fun ic => ic.1 ∉ R) (enumerate candidates)) as [|x l IH];
      simpl; constructor.
    + apply H. left.
    + apply IH. intros ic Hic. apply H. by right.
  - intros i. subst kept. rewrite list_elem_of_fmap. split.
    + intros [[i' c] [-> Hin]]. apply list_elem_of_filter in Hin as [Hn Hin].
      split; [|done]. apply enumerate_lookup in Hin.
      by apply lookup_lt_Some in Hin.
    + intros [Hlt Hn]. destruct (lookup_lt_is_Some_2 candidates i Hlt) as [c Hc].
      exists (i, c). split; [done|]. apply list_elem_of_filter. split; [done|].
      by apply enumerate_lookup.
Qed.

End Loops.

(** X18. [_filterImagesByContainment] keeps the candidates at some indices, in
    their order; it keeps at least one candidate of a list that is not
    empty; no candidate kept contains another candidate kept; and every
    candidate left out is contained in another candidate of the list. *)
Theorem containment_filter_keeps_incomparable_images :
  forall (contains : Rect -> Rect -> bool) (candidates : list Candidate),
  exists kept : list nat,
    StronglySorted lt kept
    /\ Forall2 (fun i c => candidates !! i = Some c) kept
         (_filterImagesByContainment contains candidates)
    /\ (candidates <> [] -> kept <> [])
    /\ (forall i j ci cj,
          i ∈ kept -> j ∈ kept -> i <> j ->
          candidates !! i = Some ci -> candidates !! j = Some cj ->
          contains (bbox cj) (bbox ci) = false)
    /\ (forall i ci,
          candidates !! i = Some ci -> i ∉ kept ->
          exists j cj, j <> i /\ candidates !! j = Some cj
                       /\ contains (bbox cj) (bbox ci) = true).
Proof.
  intros contains candidates.
  destruct (filter_by_indices contains candidates) as (Hsorted & Hall & Hkept).
  set (R := containment_outer contains (enumerate candidates)
              (enumerate candidates) ∅) in *.
  set (kept := (filter (fun ic => ic.1 ∉ R) (enumerate candidates)).*1) in *.
  exists kept. split; [done|]. split; [done|]. split; [|split].
  - (* something is kept *)
    intros Hne.
    assert (exists y, (y < length candidates)%nat /\ y ∉ R) as (y & Hy & HyR).
    { apply (removed_inv contains candidates
               (fun R => exists y, (y < length candidates)%nat /\ y ∉ R)).
      - intros R0 r c cr cc Hr Hc Hrc Hlr Hlc _ _. exists c. split.
        + by apply lookup_lt_Some in Hlc.
        + intros [H%elem_of_singleton | H]%elem_of_union; [congruence|done].
      - exists 0%nat. split; [|apply not_elem_of_empty].
        destruct candidates; [done|simpl; lia]. }
    intros Hnil. assert (y ∈ kept) as Hin by (by apply Hkept).
    rewrite Hnil in Hin. inversion Hin.
  - (* the candidates kept do not contain one another *)
    intros i j ci cj Hi Hj Hne Hli Hlj.
    apply Hkept in Hi as [_ Hi]. apply Hkept in Hj as [_ Hj].
    eapply (outer_checked contains (enumerate candidates) (enumerate candidates) ∅
              i ci); eauto; by apply enumerate_lookup.
  - (* a candidate left out is contained in another one *)
    intros i ci Hli Hi.
    assert (i ∈ R) as HiR.
    { destruct (decide (i ∈ R)) as [|Hn]; [done|]. exfalso. apply Hi, Hkept.
      split; [|done]. by apply lookup_lt_Some in Hli. }
    assert (forall x, x ∈ R ->
              exists y cx cy, y <> x /\ candidates !! x = Some cx
                /\ candidates !! y = Some cy
                /\ contains (bbox cy) (bbox cx) = true) as Hinv.
    { apply (removed_inv contains candidates
               (fun R => forall x, x ∈ R ->
                  exists y cx cy, y <> x /\ candidates !! x = Some cx
                    /\ candidates !! y = Some cy
                    /\ contains (bbox cy) (bbox cx) = true)).
      - intros R0 r c cr cc Hr Hc Hrc Hlr Hlc Hcon IH x
               [->%elem_of_singleton | Hx]%elem_of_union; [|by apply IH].
        exists c, cr, cc. auto.
      - intros x Hx. by apply not_elem_of_empty in Hx. }
    destruct (Hinv i HiR) as (y & cx & cy & Hne & Hlx & Hly & Hcon).
    exists y, cy. rewrite Hli in Hlx. injection Hlx as <-. auto.
Qed.

(** X19. When containment of rectangles is transitive, as it is for
    rectangles, every candidate is kept by [_filterImagesByContainment] or
    is contained in a candidate that is kept: no picture is dropped but
    for a picture that covers it. *)
Theorem every_image_is_kept_or_covered :
  forall (contains : Rect -> Rect -> bool) (candidates : list Candidate),
    (forall a b c : Rect,
       contains a b = true -> contains b c = true -> contains a c = true) ->
    forall c, c ∈ candidates ->
      exists k, k ∈ _filterImagesByContainment contains candidates
                /\ (k = c \/ contains (bbox k) (bbox c) = true).
Proof.
  intros contains candidates Htrans c Hc.
  destruct (filter_by_indices contains candidates) as (_ & Hall & Hkept).
  set (R := containment_outer contains (enumerate candidates)
              (enumerate candidates) ∅) in *.
  set (kept := (filter (fun ic => ic.1 ∉ R) (enumerate candidates)).*1) in *.
  assert (forall i, i ∈ kept ->
            exists k, candidates !! i = Some k
                      /\ k ∈ _filterImagesByContainment contains candidates)
    as Hout.
  { intros i Hi. apply list_elem_of_lookup_1 in Hi as [n Hn].
    destruct (Forall2_lookup_l _ _ _ _ _ Hall Hn) as (k & Hk & Hik).
    exists k. split; [done|]. by eapply list_elem_of_lookup_2. }
  assert (forall x, x ∈ R ->
            exists y cx cy, (y ∉ R) /\ candidates !! x = Some cx
              /\ candidates !! y = Some cy
              /\ contains (bbox cy) (bbox cx) = true) as Hinv.
  { apply (removed_inv contains candidates
             (fun R => forall x, x ∈ R ->
                exists y cx cy, (y ∉ R) /\ candidates !! x = Some cx
                  /\ candidates !! y = Some cy
                  /\ contains (bbox cy) (bbox cx) = true)).
    - intros R0 r c0 cr cc Hr Hc0 Hrc Hlr Hlc Hcon IH x Hx.
      assert (c0 ∉ {[r]} ∪ R0) as Hc0'.
      { intros [H%elem_of_singleton | H]%elem_of_union; [congruence|done]. }
      apply elem_of_union in Hx as [->%elem_of_singleton | Hx].
      + exists c0, cr, cc. auto.
      + destruct (IH x Hx) as (y & cx & cy & Hy & Hlx & Hly & Hyx).
        destruct (decide (y = r)) as [->|Hne].
        * exists c0, cx, cc. rewrite Hlr in Hly. injection Hly as <-.
          split; [done|]. split; [done|]. split; [done|].
          by apply (Htrans _ (bbox cr)).
        * exists y, cx, cy. split; [|auto].
          intros [H%elem_of_singleton | H]%elem_of_union; [congruence|done].
    - intros x Hx. by apply not_elem_of_empty in Hx. }
  apply list_elem_of_lookup_1 in Hc as [i Hi].
  destruct (decide (i ∈ R)) as [HiR | HiR].
  - destruct (Hinv i HiR) as (y & cx & cy & Hy & Hlx & Hly & Hcon).
    rewrite Hi in Hlx. injection Hlx as <-.
    destruct (Hout y) as (k & Hk & Hin).
    { apply Hkept. split; [|done]. by apply lookup_lt_Some in Hly. }
    rewrite Hly in Hk. injection Hk as <-. exists cy. auto.
  - destruct (Hout i) as (k & Hk & Hin).
    { apply Hkept. split; [|done]. by apply lookup_lt_Some in Hi. }
    rewrite Hi in Hk. injection Hk as <-. exists c. auto.
Qed.

Lemma rect_contains_trans (a b c : Rect) :
  MoreSamples.rect_contains a b = true ->
  MoreSamples.rect_contains b c = true ->
  MoreSamples.rect_contains a c = true.
Proof.
  unfold MoreSamples.rect_contains. rewrite !andb_true_iff, !Qle_bool_iff.
  intros [[[H1 H2] H3] H4] [[[G1 G2] G3] G4].
  repeat split; eapply Qle_trans; eauto.
Qed.

Lemma every_image_is_kept_or_covered_witness :
  exists c k,
    c ∈ MoreSamples.sample_candidates
    /\ k ∈ _filterImagesByContainment MoreSamples.rect_contains
             MoreSamples.sample_candidates
    /\ (k = c \/ MoreSamples.rect_contains (bbox k) (bbox c) = true).
Proof.
  assert (exists c, MoreSamples.sample_candidates !! 1%nat = Some c) as [c Hc].
  { eexists. vm_compute. reflexivity. }
  assert (c ∈ MoreSamples.sample_candidates) as Hin
    by (by eapply list_elem_of_lookup_2).
  destruct (every_image_is_kept_or_covered MoreSamples.rect_contains
              MoreSamples.sample_candidates rect_contains_trans c Hin)
    as (k & Hk & Hor).
  exists c, k. auto.
Defined.

End ContainmentFacts.

(* ===================================================================== *)
(** ** Extraction: the names of the images, and reading them back *)
(* ===================================================================== *)

Module ImageNameFacts.
Import ExtractPDF Shape QueryService.

Lemma image_id_of_chars (page idx : Z) :
  image_id_of page idx
  = 112%N :: str_of_Z page ++ 95%N :: [105; 109; 103]%N ++ str_of_Z idx.
Proof. reflexivity. Qed.

Lemma underscore_not_in_number (z : Z) : 95%N ∉ str_of_Z z.
Proof. apply StrFacts.str_of_Z_no; [discriminate|]. intros [_ H]. lia. Qed.

Lemma image_id_of_inj (a b a' b' : Z) :
  image_id_of a b = image_id_of a' b' -> a = a' /\ b = b'.
Proof.
  rewrite !image_id_of_chars. intros H. injection H as H.
  apply StrFacts.split_at_first in H as [Ha Hb];
    try apply underscore_not_in_number.
  injection Hb as Hb.
  split; by apply StrFacts.str_of_Z_inj.
Qed.

Lemma image_numbering_pages (page_num : Z) (counts : list Z) :
  forall pk, pk ∈ image_numbering page_num counts -> page_num <= pk.1.
Proof.
  revert page_num. induction counts as [|n counts IH]; intros page_num pk Hin;
    simpl in Hin.
  - inversion Hin.
  - apply elem_of_app in Hin as [Hin | Hin].
    + apply list_elem_of_fmap in Hin as [k [-> _]]. simpl. lia.
    + apply IH in Hin. lia.
Qed.

Lemma image_numbering_NoDup (page_num : Z) (counts : list Z) :
  NoDup (image_numbering page_num counts).
Proof.
  revert page_num. induction counts as [|n counts IH]; intros page_num; simpl.
  - constructor.
  - apply NoDup_app. split; [|split].
    + apply NoDup_fmap_2; [|apply NoDup_seqZ]. intros x y H. by injection H.
    + intros pk Hin Hin'. apply list_elem_of_fmap in Hin as [k [-> _]].
      apply image_numbering_pages in Hin'. simpl in Hin'. lia.
    + apply IH.
Qed.

Section Naming.

Variables (contains : Rect -> Rect -> bool) (round1 : Q -> Q)
          (doc : Document) (PDF_IMAGE_DIR documentId : str)
          (write_ok : str -> bool).

Lemma page_images_names (page_num : Z) (candidates : list Candidate) :
  forall (seen_bboxes : list (Q * Q * Q * Q)) (local_img_idx : Z),
  let out := page_images round1 doc PDF_IMAGE_DIR documentId write_ok
               page_num candidates seen_bboxes local_img_idx in
  exists n, 0 <= n
    /\ (fun b => (ib_page b, ib_image_id b)) <$> out
       = (fun k => (page_num, image_id_of page_num k))
           <$> seqZ (local_img_idx + 1) n
    /\ Forall (image_path_ok documentId) out.
Proof.
  induction candidates as [|candidate rest IH]; intros seen idx; cbn zeta.
  - exists 0. split; [lia|]. split; [reflexivity|constructor].
  - cbn [page_images].
    destruct (existsb _ seen); [apply IH|].
    destruct (extract_image doc (xref candidate)) as [[image_bytes ext]|];
      [|apply IH].
    destruct (IH (bbox_key_of round1 (bbox candidate) :: seen) (idx + 1))
      as (n & Hn & Hnames & Hpaths).
    exists (n + 1). split; [lia|]. split.
    + rewrite fmap_cons, Hnames. cbn [ib_page ib_image_id].
      rewrite (seqZ_cons (idx + 1) (n + 1)) by lia. rewrite fmap_cons.
      repeat f_equal; lia.
    + constructor; [|exact Hpaths].
      intros p. cbn [ib_image_path ib_image_id].
      destruct (write_ok _); [|discriminate].
      intros [= <-]. by eexists.
Qed.

Lemma pages_images_names (pages : list (option (list ImgInfo))) :
  forall (page_index : Z) (blocks : list ImageBlock),
    pages_images contains round1 doc PDF_IMAGE_DIR documentId write_ok
                 page_index pages = Some blocks ->
    exists counts : list Z,
      length counts = length pages
      /\ Forall (fun n => 0 <= n) counts
      /\ (fun b => (ib_page b, ib_image_id b)) <$> blocks
         = (fun pk => (pk.1, image_id_of pk.1 pk.2))
             <$> image_numbering (page_index + 1) counts
      /\ Forall (image_path_ok documentId) blocks.
Proof.
  induction pages as [|page rest IH]; intros page_index blocks; simpl.
  - intros [= <-]. exists []. repeat split; constructor.
  - destruct page as [infos|]; [|discriminate]. simpl.
    destruct (pages_images _ _ _ _ _ _ (page_index + 1) rest) as [more|] eqn:Em;
      [|discriminate].
    simpl. intros [= <-].
    destruct (IH _ _ Em) as (counts & Hlen & Hpos & Hnames & Hpaths).
    destruct (page_images_names (page_index + 1)
                (_filterImagesByContainment contains (_filterImagesBySize infos))
                [] 0) as (n & Hn & Hpage & Hpage_paths).
    exists (n :: counts). split; [simpl; lia|]. split; [by constructor|]. split.
    + rewrite fmap_app, Hpage, Hnames. cbn [image_numbering].
      rewrite fmap_app, <- list_fmap_compose. reflexivity.
    + by apply Forall_app.
Qed.

End Naming.

(** X20. The image blocks [_extractImages] returns come page by page, the pages
    counted from 1, and on each page the images are numbered from 1
    without a gap: the block of image [k] of page [n] has the id
    [p<n>_img<k>]. No two blocks of a document share an id, and the path
    of a block, when its file was written, is
    [os.path.join(documentId, "<image_id>.<ext>")]. *)
Theorem extracted_images_are_numbered :
  forall (contains : Rect -> Rect -> bool) (round1 : Q -> Q) (doc : Document)
         (PDF_IMAGE_DIR documentId : str) (write_ok : str -> bool)
         (makedirs_ok : bool) (blocks : list ImageBlock),
    _extractImages contains round1 doc PDF_IMAGE_DIR documentId write_ok
                   makedirs_ok = Some blocks ->
    exists counts : list Z,
      length counts = length (doc_pages doc)
      /\ Forall (fun n => 0 <= n) counts
      /\ (fun b => (ib_page b, ib_image_id b)) <$> blocks
         = (fun pk => (pk.1, image_id_of pk.1 pk.2)) <$> image_numbering 1 counts
      /\ NoDup (ib_image_id <$> blocks)
      /\ Forall (fun b => forall p, ib_image_path b = Some p ->
                   exists ext,
                     p = path_join documentId (filename_of (ib_image_id b) ext))
           blocks.
Proof.
  intros contains round1 doc DIR documentId write_ok makedirs_ok blocks.
  unfold _extractImages. destruct makedirs_ok; [|discriminate]. intros H.
  apply pages_images_names in H as (counts & Hlen & Hpos & Hnames & Hpaths).
  exists counts. repeat (split; [done|]). split; [|exact Hpaths].
  assert (ib_image_id <$> blocks
          = (fun pk => image_id_of pk.1 pk.2) <$> image_numbering 1 counts) as ->.
  { apply (f_equal (fmap snd)) in Hnames.
    rewrite <- !list_fmap_compose in Hnames. exact Hnames. }
  apply NoDup_fmap_2; [|apply image_numbering_NoDup].
  intros [a b] [a' b'] H. cbn [fst snd] in H.
  apply image_id_of_inj in H as [Ha Hb]. by subst.
Qed.

Lemma extracted_images_are_numbered_witness :
  exists blocks,
    _extractImages MoreSamples.rect_contains (fun q => q)
      MoreSamples.sample_document (lit "/data/pdf_images") (lit "DOC123")
      (fun _ => true) true = Some blocks
    /\ exists counts : list Z,
         length counts = 2%nat
         /\ Forall (fun n => 0 <= n) counts
         /\ (fun b => (ib_page b, ib_image_id b)) <$> blocks
            = (fun pk => (pk.1, image_id_of pk.1 pk.2))
                <$> image_numbering 1 counts
         /\ NoDup (ib_image_id <$> blocks)
         /\ Forall (fun b => forall p, ib_image_path b = Some p ->
                      exists ext,
                        p = path_join (lit "DOC123")
                              (filename_of (ib_image_id b) ext))
              blocks.
Proof.
  eexists. split; [vm_compute; reflexivity|].
  apply (extracted_images_are_numbered MoreSamples.rect_contains (fun q => q)
           MoreSamples.sample_document (lit "/data/pdf_images")
           (lit "DOC123") (fun _ => true) true).
  vm_compute. reflexivity.
Defined.

(** *** Reading a path back *)

Lemma find_from_skip (c : N) (p a s : str) (i : nat) :
  c ∉ a -> startswith (c :: p) s = true ->
  find_from (c :: p) (a ++ s) i = Some (i + length a)%nat.
Proof.
  revert i. induction a as [|x a IH]; intros i Hc Hs.
  - destruct s as [|y s]; [discriminate|].
    cbn [app find_from]. rewrite Hs. f_equal. simpl. lia.
  - apply not_elem_of_cons in Hc as [Hne Hc].
    cbn [app find_from startswith].
    destruct (N.eqb_spec c x) as [->|_]; [done|]. cbn [andb].
    rewrite IH by done. f_equal. simpl. lia.
Qed.

Lemma rfind_from_absent (c : N) (s : str) (i : nat) :
  c ∉ s -> rfind_from [c] s i = None.
Proof.
  revert i. induction s as [|x s IH]; intros i Hc; [reflexivity|].
  apply not_elem_of_cons in Hc as [Hne Hc].
  cbn [rfind_from]. rewrite IH by done. cbn [startswith].
  destruct (N.eqb_spec c x) as [->|_]; [done|reflexivity].
Qed.

Lemma rfind_from_last (c : N) (a r : str) (i : nat) :
  c ∉ r -> rfind_from [c] (a ++ c :: r) i = Some (i + length a)%nat.
Proof.
  intros Hc. revert i. induction a as [|x a IH]; intros i.
  - cbn [app rfind_from]. rewrite rfind_from_absent by done.
    cbn [startswith]. rewrite N.eqb_refl. simpl. f_equal. lia.
  - cbn [app rfind_from]. rewrite IH. f_equal. simpl. lia.
Qed.

Lemma split_once_first (c : N) (p a r : str) :
  c ∉ a -> split_once (c :: p) (a ++ (c :: p) ++ r) = Some (a, r).
Proof.
  intros Hc. unfold split_once, find.
  rewrite (find_from_skip c p a ((c :: p) ++ r) 0 Hc).
  - cbn [Nat.add]. rewrite take_app_length.
    rewrite drop_app_add'. 2: reflexivity.
    by rewrite drop_app_length.
  - clear. cbn [app startswith]. rewrite N.eqb_refl. cbn [andb].
    induction p as [|x p IH]; [reflexivity|].
    cbn [app startswith]. by rewrite N.eqb_refl.
Qed.

Lemma endswith_last (c : N) (s : str) : endswith [c] s = true -> c ∈ s.
Proof.
  unfold endswith. cbn [rev app]. intros H.
  apply ParseJsonObjectFacts.startswith_one in H as [r Hr].
  apply list_elem_of_In, in_rev. rewrite Hr. by left.
Qed.

Lemma image_id_has_no (c : N) (page idx : Z) :
  c <> 45%N -> ~ (48 <= c <= 57)%N -> c ∉ [112; 95; 105; 109; 103]%N ->
  c ∉ image_id_of page idx.
Proof.
  intros H1 H2 H3. rewrite image_id_of_chars.
  pose proof (StrFacts.str_of_Z_no page c H1 H2).
  pose proof (StrFacts.str_of_Z_no idx c H1 H2).
  rewrite !not_elem_of_cons in H3. destruct H3 as (? & ? & ? & ? & ? & _).
  rewrite not_elem_of_cons, not_elem_of_app, not_elem_of_cons, not_elem_of_app,
    !not_elem_of_cons.
  repeat split; auto using not_elem_of_nil.
Qed.

(** X21. The path [_extractImages] gives to an image is read back by
    [_collectImagesFromChunks]: for a document id that is not empty and
    holds no ['/'], and an extension without ['.'] and ['/'], the path
    [<documentId>/p<page>_img<idx>.<ext>] is decoded to the document id,
    the page and the index of the image, provided [int] reads the two
    numerals. *)
Theorem image_path_is_read_back :
  forall (lib : PyLib) (documentId ext : str) (page idx : Z),
    documentId <> [] -> 47%N ∉ documentId ->
    46%N ∉ ext -> 47%N ∉ ext ->
    int_of_str lib (str_of_Z page) = Some page ->
    int_of_str lib (str_of_Z idx) = Some idx ->
    parse_image_key lib
      (path_join documentId (filename_of (image_id_of page idx) ext))
    = (Some documentId, Some page, Some idx).
Proof.
  intros lib documentId ext page idx Hne Hslash Hdot Hslash' Hpage Hidx.
  set (image_id := image_id_of page idx).
  assert (filename_of image_id ext = image_id ++ 46%N :: ext) as Hname
    by reflexivity.
  assert (path_join documentId (filename_of image_id ext)
          = documentId ++ [47%N] ++ filename_of image_id ext) as ->.
  { unfold path_join. rewrite Hname. subst image_id.
    rewrite image_id_of_chars at 1. cbn [app startswith N.eqb Pos.eqb andb].
    destruct documentId as [|d0 ds] eqn:Ed; [done|]. rewrite <- Ed in *.
    assert (is_empty documentId = false) as -> by (by rewrite Ed).
    destruct (endswith [47%N] documentId) eqn:Ee.
    - exfalso. by apply Hslash, endswith_last.
    - reflexivity. }
  unfold parse_image_key.
  rewrite (split_once_first 47%N [] documentId _ Hslash).
  assert (splitext_root (filename_of image_id ext) = image_id) as ->.
  { unfold splitext_root, rfind. rewrite Hname.
    rewrite (rfind_from_last 46%N image_id ext 0 Hdot). cbn [Nat.add].
    rewrite rfind_from_absent.
    2:{ rewrite not_elem_of_app, not_elem_of_cons. split; [|split; [done|done]].
        subst image_id. apply image_id_has_no; [done|lia|].
        rewrite !not_elem_of_cons. repeat split; auto using not_elem_of_nil;
          discriminate. }
    rewrite Nat.sub_0_r, drop_0, take_app_length.
    assert (has_other_than_dot image_id = true) as ->.
    { subst image_id. rewrite image_id_of_chars. reflexivity. }
    by rewrite andb_true_r. }
  subst image_id. rewrite image_id_of_chars.
  change (lit "_img") with (95%N :: [105; 109; 103]%N).
  change (95%N :: [105; 109; 103]%N ++ str_of_Z idx)
    with ((95%N :: [105; 109; 103]%N) ++ str_of_Z idx).
  rewrite (split_once_first 95%N [105; 109; 103]%N (str_of_Z page)
             (str_of_Z idx) (underscore_not_in_number page)).
  by rewrite Hpage, Hidx.
Qed.

Lemma image_path_is_read_back_witness :
  parse_image_key (MoreSamples.lib_reading [(lit "3", 3); (lit "1", 1)])
    (path_join (lit "DOC123") (filename_of (image_id_of 3 1) (lit "png")))
  = (Some (lit "DOC123"), Some 3, Some 1).
Proof.
  apply (image_path_is_read_back
           (MoreSamples.lib_reading [(lit "3", 3); (lit "1", 1)])
           (lit "DOC123") (lit "png") 3 1);
    try (vm_compute; reflexivity); try discriminate;
    apply (bool_decide_unpack _); vm_compute; exact I.
Defined.

End ImageNameFacts.

(* ===================================================================== *)
(** ** The second refinement: the texts of the pages *)
(* ===================================================================== *)

Module PageTextFacts.
Import Chunking FirstRefine SecondRefine StrFacts.

Lemma join_cons2 (sep t t' : str) (rest : list str) :
  join sep (t :: t' :: rest) = t ++ sep ++ join sep (t' :: rest).
Proof. reflexivity. Qed.

Lemma join_app (sep : str) (A B : list str) :
  A <> [] -> B <> [] -> join sep (A ++ B) = join sep A ++ sep ++ join sep B.
Proof.
  intros HA HB. induction A as [|a A IH]; [done|].
  destruct A as [|a' A].
  - destruct B as [|b B]; [done|]. reflexivity.
  - change ((a :: a' :: A) ++ B) with (a :: a' :: (A ++ B)).
    rewrite !join_cons2.
    change (a' :: A ++ B) with ((a' :: A) ++ B).
    rewrite IH by done. by rewrite <- !app_assoc.
Qed.

(** A text that is trimmed and not empty starts and ends with a character
    that is not white space. *)
Lemma trimmed_ends (t : str) :
  t <> [] -> strip t = t ->
  (exists c r, t = c :: r /\ is_space c = false)
  /\ (exists r c, t = r ++ [c] /\ is_space c = false).
Proof.
  intros Hne Hs. split.
  - destruct t as [|c r]; [done|]. exists c, r. split; [done|].
    by apply (strip_head (c :: r) c r).
  - destruct (exists_last Hne) as (r & c & ->). exists r, c. split; [done|].
    by apply (strip_last (r ++ [c]) r c).
Qed.

Lemma ends_trimmed (t : str) :
  (exists c r, t = c :: r /\ is_space c = false) ->
  (exists r c, t = r ++ [c] /\ is_space c = false) ->
  t <> [] /\ strip t = t.
Proof.
  intros (c & r & -> & Hc) (r' & c' & Hr & Hc'). split; [done|].
  apply strip_fixed.
  - intros c0 r0 [= <- <-]. exact Hc.
  - intros r0 c0 H. rewrite Hr in H. apply app_inj_tail in H as [_ <-].
    exact Hc'.
Qed.

Lemma join_ends (sep : str) (texts : list str) :
  texts <> [] ->
  Forall (fun t => t <> [] /\ strip t = t) texts ->
  (exists c r, join sep texts = c :: r /\ is_space c = false)
  /\ (exists r c, join sep texts = r ++ [c] /\ is_space c = false).
Proof.
  intros Hne Hall. induction texts as [|t texts IH]; [done|].
  apply Forall_cons in Hall as [[Ht1 Ht2] Hall].
  destruct (trimmed_ends t Ht1 Ht2) as [(c & r & Hc & Hsp) (r' & c' & Hr' & Hsp')].
  destruct texts as [|t' texts].
  - simpl. split; eauto.
  - rewrite join_cons2. destruct IH as [_ (r2 & c2 & Hj & Hsp2)]; [done|done|].
    split.
    + exists c, (r ++ sep ++ join sep (t' :: texts)). by rewrite Hc.
    + exists (t ++ sep ++ r2), c2. rewrite Hj. by rewrite <- !app_assoc.
Qed.

Lemma join_trimmed (sep : str) (texts : list str) :
  texts <> [] ->
  Forall (fun t => t <> [] /\ strip t = t) texts ->
  join sep texts <> [] /\ strip (join sep texts) = join sep texts.
Proof.
  intros Hne Hall. destruct (join_ends sep texts Hne Hall).
  by apply ends_trimmed.
Qed.

Lemma texts_of_trimmed (page : Z) (blocks : list TextBlock) :
  Forall (fun t => t <> [] /\ strip t = t) (texts_of page blocks).
Proof.
  apply Forall_forall. intros t Ht. unfold texts_of in Ht.
  apply list_elem_of_omap in Ht as (tb & _ & Ht).
  destruct (bool_decide _ && negb (is_empty _)) eqn:E; [|discriminate].
  injection Ht as <-. apply andb_true_iff in E as [_ E].
  apply negb_true_iff, is_empty_false in E. split; [done|apply strip_idem].
Qed.

Lemma texts_of_app (page : Z) (a b : list TextBlock) :
  texts_of page (a ++ b) = texts_of page a ++ texts_of page b.
Proof. apply omap_app. Qed.

Lemma ids_of_app (page : Z) (a b : list TextBlock) :
  ids_of page (a ++ b) = ids_of page a ++ ids_of page b.
Proof. apply omap_app. Qed.

Lemma ids_of_nil_iff (page : Z) (blocks : list TextBlock) :
  ids_of page blocks = [] <-> texts_of page blocks = [].
Proof.
  unfold ids_of, texts_of. induction blocks as [|tb blocks IH]; [done|].
  cbn [omap list_omap]. 
  destruct (bool_decide _ && negb (is_empty _)); simpl; [split; discriminate|].
  exact IH.
Qed.

(** *** The dictionaries of [_buildPageTexts] *)

Lemma append_at_lookup {A} (page q : Z) (x : A) (d : gmap Z (list A)) :
  default [] (append_at page x d !! q)
  = default [] (d !! q) ++ (if bool_decide (page = q) then [x] else []).
Proof.
  unfold append_at. destruct (decide (page = q)) as [->|Hne].
  - rewrite lookup_insert_eq, bool_decide_eq_true_2 by done. reflexivity.
  - rewrite lookup_insert_ne, bool_decide_eq_false_2 by done.
    by rewrite app_nil_r.
Qed.

Lemma append_at_is_Some {A} (page q : Z) (x : A) (d : gmap Z (list A)) :
  is_Some (append_at page x d !! q) <-> is_Some (d !! q) \/ page = q.
Proof.
  unfold append_at. destruct (decide (page = q)) as [->|Hne].
  - rewrite lookup_insert_eq. split; eauto.
  - rewrite lookup_insert_ne by done. split; [eauto|]. intros [?|?]; done.
Qed.

(** A dictionary of lists filled by the blocks: every list it holds is
    not empty. *)
Lemma append_at_nonempty {A} (page : Z) (x : A) (d : gmap Z (list A)) :
  (forall q l, d !! q = Some l -> l <> []) ->
  forall q l, append_at page x d !! q = Some l -> l <> [].
Proof.
  intros Hd q l. unfold append_at. destruct (decide (page = q)) as [->|Hne].
  - rewrite lookup_insert_eq. intros [= <-]. by destruct (default [] (d !! q)).
  - rewrite lookup_insert_ne by done. apply Hd.
Qed.

End PageTextFacts.

(* ===================================================================== *)
(** ** The second refinement: the merge of the pages *)
(* ===================================================================== *)

Module MergeFacts.
Import LlmClient Chunking FirstRefine SecondRefine StrFacts PageTextFacts Shape.

Lemma texts_of_snoc (page : Z) (blocks : list TextBlock) (tb : TextBlock) :
  texts_of page (blocks ++ [tb])
  = texts_of page blocks
    ++ (if bool_decide (tb_page tb = page)
           && negb (is_empty (strip (default [] (tb_text tb))))
        then [strip (default [] (tb_text tb))] else []).
Proof.
  rewrite texts_of_app. f_equal. unfold texts_of. cbn [omap list_omap].
  by destruct (bool_decide _ && negb _).
Qed.

Lemma ids_of_snoc (page : Z) (blocks : list TextBlock) (tb : TextBlock) :
  ids_of page (blocks ++ [tb])
  = ids_of page blocks
    ++ (if bool_decide (tb_page tb = page)
           && negb (is_empty (strip (default [] (tb_text tb))))
        then [tb_block_id tb] else []).
Proof.
  rewrite ids_of_app. f_equal. unfold ids_of. cbn [omap list_omap].
  by destruct (bool_decide _ && negb _).
Qed.

Lemma collected_add_pymupdf (acc : PageBlocks) (pym : list TextBlock)
    (tb : TextBlock) :
  collected acc pym [] -> collected (add_pymupdf acc tb) (pym ++ [tb]) [].
Proof.
  intros H page. destruct (H page) as (H1 & H2 & H3 & H4 & H5).
  rewrite texts_of_snoc, ids_of_snoc. unfold add_pymupdf.
  destruct (is_empty (strip (default [] (tb_text tb)))) eqn:E.
  - rewrite andb_false_r, !app_nil_r. cbn [ids_of omap list_omap] in *.
    rewrite app_nil_r in H3. auto.
  - rewrite andb_true_r.
    cbn [pymupdf_by_page ocr_by_page src_ids_by_page blocks_by_page].
    rewrite !append_at_lookup, H1.
    cbn [ids_of omap list_omap] in *. rewrite app_nil_r in *. rewrite H3.
    repeat split; auto.
    intros l. apply append_at_nonempty. intros q l' Hq.
    destruct (H q) as (_ & _ & _ & G & _). by apply G.
Qed.

Lemma collected_add_ocr (acc : PageBlocks) (pym ocr : list TextBlock)
    (tb : TextBlock) :
  collected acc pym ocr -> collected (add_ocr acc tb) pym (ocr ++ [tb]).
Proof.
  intros H page. destruct (H page) as (H1 & H2 & H3 & H4 & H5).
  rewrite texts_of_snoc, ids_of_snoc. unfold add_ocr.
  destruct (is_empty (strip (default [] (tb_text tb)))) eqn:E.
  - rewrite andb_false_r, !app_nil_r. auto.
  - rewrite andb_true_r.
    cbn [pymupdf_by_page ocr_by_page src_ids_by_page blocks_by_page].
    rewrite !append_at_lookup, H2, H3, app_assoc.
    repeat split; auto.
    intros l. apply append_at_nonempty. intros q l' Hq.
    destruct (H q) as (_ & _ & _ & _ & G). by apply G.
Qed.

Lemma foldl_add_pymupdf (l : list TextBlock) :
  forall acc pre, collected acc pre [] ->
                  collected (foldl add_pymupdf acc l) (pre ++ l) [].
Proof.
  induction l as [|tb l IH]; intros acc pre H; simpl.
  - by rewrite app_nil_r.
  - rewrite (cons_middle tb pre l), app_assoc.
    apply IH. by apply collected_add_pymupdf.
Qed.

Lemma foldl_add_ocr (pym l : list TextBlock) :
  forall acc pre, collected acc pym pre ->
                  collected (foldl add_ocr acc l) pym (pre ++ l).
Proof.
  induction l as [|tb l IH]; intros acc pre H; simpl.
  - by rewrite app_nil_r.
  - rewrite (cons_middle tb pre l), app_assoc.
    apply IH. by apply collected_add_ocr.
Qed.

Lemma collect_blocks_collected (extraction : PDFExtractionResult)
    (ocrBlocks : list TextBlock) :
  collected (collect_blocks extraction ocrBlocks) (text_blocks extraction)
            ocrBlocks.
Proof.
  unfold collect_blocks.
  apply (foldl_add_ocr (text_blocks extraction) ocrBlocks _ []).
  apply (foldl_add_pymupdf (text_blocks extraction) _ []).
  intros page. cbn [pymupdf_by_page ocr_by_page src_ids_by_page].
  rewrite !lookup_empty. repeat split; done.
Qed.

(** The text of a page in [pymupdf_texts] and [ocr_texts]. *)
Lemma page_text_lookup (d : gmap Z (list str)) (page : Z) (texts : list str) :
  default [] (d !! page) = texts ->
  (forall l, d !! page = Some l -> l <> []) ->
  Forall (fun t => t <> [] /\ strip t = t) texts ->
  default [] (((fun texts => strip (join [10%N] texts)) <$> d) !! page)
  = join [10%N] texts
  /\ (is_Some (((fun texts => strip (join [10%N] texts)) <$> d) !! page)
      <-> texts <> []).
Proof.
  intros Hd Hne Hall. rewrite lookup_fmap.
  destruct (d !! page) as [l|] eqn:El; simpl in *.
  - subst l. specialize (Hne texts eq_refl).
    destruct (join_trimmed [10%N] texts Hne Hall) as [_ ->].
    split; [done|]. split; eauto.
  - subst texts. split; [done|]. split; [intros [? [=]]|done].
Qed.

(** The text of the fallback: the texts of the page, joined by new
    lines. *)
Lemma fallback_text (page : Z) (A B : list str) :
  Forall (fun t => t <> [] /\ strip t = t) A ->
  Forall (fun t => t <> [] /\ strip t = t) B ->
  strip (_fallbackMergePage page (join [10%N] A) (join [10%N] B))
  = join [10%N] (A ++ B).
Proof.
  intros HA HB. unfold _fallbackMergePage.
  destruct A as [|a A]; destruct B as [|b B].
  - reflexivity.
  - destruct (join_trimmed [10%N] (b :: B)) as [Hne Hs]; [done|done|].
    change (join [10%N] []) with (@nil N). change (strip []) with (@nil N).
    cbn [is_empty negb andb]. rewrite Hs.
    apply is_empty_false in Hne. rewrite Hne. cbn [negb app].
    by rewrite Hs.
  - destruct (join_trimmed [10%N] (a :: A)) as [Hne Hs]; [done|done|].
    change (join [10%N] []) with (@nil N). change (strip []) with (@nil N).
    rewrite (app_nil_r (a :: A)), Hs. apply is_empty_false in Hne.
    rewrite Hne. cbn [is_empty negb andb]. by rewrite Hs.
  - destruct (join_trimmed [10%N] (a :: A)) as [Hne Hs]; [done|done|].
    destruct (join_trimmed [10%N] (b :: B)) as [Hne' Hs']; [done|done|].
    rewrite Hs, Hs'. apply is_empty_false in Hne, Hne'. rewrite Hne, Hne'.
    cbn [negb andb]. rewrite <- join_app by done.
    apply join_trimmed; [done|]. by apply Forall_app.
Qed.

Section WithWorld.

Variables (w : World) (lib : PyLib).

(** *** The task 3 call of a page *)

Lemma runTask3_fails (page : Z) (pym ocr : str) (blocks : list pyval)
    (tr : trace) :
  pym ++ ocr <> [] ->
  QueryService.call_fails
    (llm_reply w tr 3 (task3_payload lib page pym ocr blocks)) ->
  _runTask3ForPage w lib page pym ocr blocks tr
  = (Ok None, tr ++ [EvLlm 3 (task3_payload lib page pym ocr blocks)]).
Proof.
  intros Hne Hf. unfold _runTask3ForPage.
  assert (is_empty pym && is_empty ocr = false) as ->.
  { destruct pym; [destruct ocr; [done|reflexivity]|reflexivity]. }
  unfold bind, try_except.
  by rewrite (QueryServiceFacts.callQwen_fails w 3 _ tr Hf).
Qed.

Lemma runTask3_content (page : Z) (pym ocr : str) (blocks : list pyval)
    (tr : trace) (c : option str) :
  pym ++ ocr <> [] ->
  llm_reply w tr 3 (task3_payload lib page pym ocr blocks)
  = Response 200 (Content c) ->
  _runTask3ForPage w lib page pym ocr blocks tr
  = (match parseJson (json_loads lib) (Some (default [] c)) with
     | Raise _ => Ok None
     | Ok (PDict data) =>
         match get (lit "merged_blocks") data with
         | PList (_ :: _) => Ok (Some data)
         | _ => Ok None
         end
     | Ok _ => Raise AttributeError
     end,
     tr ++ [EvLlm 3 (task3_payload lib page pym ocr blocks)]).
Proof.
  intros Hne Hc. unfold _runTask3ForPage.
  assert (is_empty pym && is_empty ocr = false) as ->.
  { destruct pym; [destruct ocr; [done|reflexivity]|reflexivity]. }
  unfold bind, try_except.
  rewrite (QueryServiceFacts.callQwen_content w 3 _ tr c Hc).
  unfold ret.
  destruct (parseJson (json_loads lib) (Some (default [] c))) as [data|e];
    [|reflexivity].
  destruct data; try reflexivity. unfold lift, as_dict.
  destruct (get (lit "merged_blocks") d) as [| | | | |[|x l]|]; reflexivity.
Qed.

(** *** The blocks made of an answer *)

Lemma merged_block_of_ok (page : Z) (merge_log : pyval) (idx : nat)
    (blk : pyval) (b : MergedBlock) :
  merged_block_of lib page merge_log idx blk = Ok (Some b) ->
  mb_page (block b) = page
  /\ (exists t, mb_text (block b) = Some t /\ t <> [] /\ strip t = t)
  /\ mb_block_id (block b) = merged_id page (Z.of_nat idx + 1).
Proof.
  unfold merged_block_of. destruct blk; try discriminate. cbn [as_dict result_bind].
  destruct (is_empty _) eqn:E; [discriminate|]. intros [= <-].
  cbn [block mb_page mb_text mb_block_id]. split; [done|]. split; [|done].
  eexists. split; [reflexivity|]. split; [by apply is_empty_false|].
  apply strip_idem.
Qed.

Lemma page_result_loop_ok (page : Z) (merge_log : pyval) (l : list pyval) :
  forall (idx : nat) (out : list MergedBlock),
    page_result_loop lib page merge_log idx l = Ok out ->
    Forall (fun b => mb_page (block b) = page
                     /\ exists t, mb_text (block b) = Some t
                                  /\ t <> [] /\ strip t = t) out
    /\ exists ks : list Z,
         (fun b => mb_block_id (block b)) <$> out = merged_id page <$> ks
         /\ StronglySorted Z.lt ks
         /\ Forall (fun k => Z.of_nat idx + 1 <= k) ks.
Proof.
  induction l as [|blk l IH]; intros idx out; cbn [page_result_loop].
  - intros [= <-]. split; [constructor|]. exists []. repeat split; constructor.
  - destruct (merged_block_of lib page merge_log idx blk) as [mb|e] eqn:Eb;
      [|discriminate].
    cbn [result_bind].
    destruct (page_result_loop lib page merge_log (S idx) l) as [rest|e] eqn:Er;
      [|discriminate].
    cbn [result_bind]. intros [= <-].
    destruct (IH _ _ Er) as (Hall & ks & Hids & Hsorted & Hks).
    assert (Forall (fun k => Z.of_nat idx + 1 <= k) ks) as Hks'.
    { eapply Forall_impl; [exact Hks|]. intros k Hk. cbn beta in Hk. lia. }
    destruct mb as [b|]; [|split; [done|]; exists ks; auto].
    destruct (merged_block_of_ok _ _ _ _ _ Eb) as (Hp & Ht & Hid).
    split; [by constructor|].
    exists ((Z.of_nat idx + 1) :: ks). split; [|split].
    + rewrite !fmap_cons, Hid, Hids. reflexivity.
    + constructor; [done|]. eapply Forall_impl; [exact Hks|].
      intros k Hk. cbn beta in Hk. lia.
    + constructor; [lia|done].
Qed.

Lemma page_result_loop_raises (page : Z) (merge_log : pyval) (l : list pyval)
    (x : pyval) :
  x ∈ l -> is_dict x = false ->
  forall idx, page_result_loop lib page merge_log idx l = Raise AttributeError.
Proof.
  intros Hin Hx. induction l as [|blk l IH]; intros idx; [inversion Hin|].
  cbn [page_result_loop].
  destruct (merged_block_of lib page merge_log idx blk) as [mb|e] eqn:Eb.
  - cbn [result_bind]. rewrite IH; [reflexivity|].
    apply elem_of_cons in Hin as [->|Hin]; [|done].
    destruct blk; try discriminate.
  - unfold merged_block_of in Eb. destruct blk; try (by injection Eb as <-).
    cbn [as_dict result_bind] in Eb. by destruct (is_empty _).
Qed.

Lemma page_result_loop_raises_only (page : Z) (merge_log : pyval)
    (l : list pyval) :
  forall idx e, page_result_loop lib page merge_log idx l = Raise e ->
                e = AttributeError.
Proof.
  induction l as [|blk l IH]; intros idx e; cbn [page_result_loop];
    [discriminate|].
  destruct (merged_block_of lib page merge_log idx blk) as [mb|e'] eqn:Eb.
  - cbn [result_bind].
    destruct (page_result_loop lib page merge_log (S idx) l) as [rest|e'] eqn:Er;
      [discriminate|].
    cbn [result_bind]. intros [= <-]. by eapply IH.
  - cbn [result_bind]. intros [= <-].
    unfold merged_block_of in Eb. destruct blk; try (by injection Eb as <-).
    cbn [as_dict result_bind] in Eb. by destruct (is_empty _).
Qed.

(** *** One page *)

Section OnePage.

Variables (pymupdf_texts ocr_texts : gmap Z str)
          (src_ids_by_page : gmap Z (list str))
          (blocks_by_page : gmap Z (list pyval))
          (page : Z) (A B : list str).

Hypothesis pym_text : default [] (pymupdf_texts !! page) = join [10%N] A.
Hypothesis ocr_text : default [] (ocr_texts !! page) = join [10%N] B.
Hypothesis A_trimmed : Forall (fun t => t <> [] /\ strip t = t) A.
Hypothesis B_trimmed : Forall (fun t => t <> [] /\ strip t = t) B.
Hypothesis has_text : A ++ B <> [].

Lemma page_input_not_empty : join [10%N] A ++ join [10%N] B <> [].
Proof.
  intros H. apply app_eq_nil in H as [HA HB].
  destruct A as [|a A']; [destruct B as [|b B']; [done|]|].
  - by destruct (join_trimmed [10%N] (b :: B')).
  - by destruct (join_trimmed [10%N] (a :: A')).
Qed.

Lemma fallback_block_ok :
  merged_ok page
    [fallback_block page (join [10%N] (A ++ B))
                    (default [] (src_ids_by_page !! page))].
Proof.
  destruct (join_trimmed [10%N] (A ++ B)) as [Hne Hs];
    [done|by apply Forall_app|].
  split.
  - constructor; [|constructor]. split; [done|]. by eexists.
  - exists [1]. split; [reflexivity|].
    split; [repeat constructor|constructor; [lia|constructor]].
Qed.

Lemma merge_page_fallback (tr : trace) (data : option dict) :
  match data with
  | Some d => task3_blocks lib page d = Ok []
  | None => True
  end ->
  _runTask3ForPage w lib page (join [10%N] A) (join [10%N] B)
                   (default [] (blocks_by_page !! page)) tr
  = (Ok data,
     tr ++ [EvLlm 3 (task3_payload lib page (join [10%N] A) (join [10%N] B)
                       (default [] (blocks_by_page !! page)))]) ->
  merge_page w lib pymupdf_texts ocr_texts src_ids_by_page blocks_by_page
             page tr
  = (Ok [fallback_block page (join [10%N] (A ++ B))
                        (default [] (src_ids_by_page !! page))],
     tr ++ [EvLlm 3 (task3_payload lib page (join [10%N] A) (join [10%N] B)
                       (default [] (blocks_by_page !! page)))]).
Proof.
  intros Hd Hrun. unfold merge_page, bind. rewrite pym_text, ocr_text, Hrun.
  assert (lift match data with
               | Some d => task3_blocks lib page d
               | None => Ok []
               end
          = lift (Ok [])) as ->.
  { destruct data; [by rewrite Hd|reflexivity]. }
  unfold lift. rewrite fallback_text by done.
  destruct (join_trimmed [10%N] (A ++ B)) as [Hne _];
    [done|by apply Forall_app|].
  apply is_empty_false in Hne. by rewrite Hne.
Qed.

(** What one page costs and gives: one call of task 3, and then blocks
    that are as they should be, or [AttributeError]. *)
Lemma merge_page_outcome (tr : trace) :
  let payload := task3_payload lib page (join [10%N] A) (join [10%N] B)
                   (default [] (blocks_by_page !! page)) in
  let run := merge_page w lib pymupdf_texts ocr_texts src_ids_by_page
               blocks_by_page page tr in
  run.2 = tr ++ [EvLlm 3 payload]
  /\ match run.1 with
     | Ok blocks => blocks <> [] /\ merged_ok page blocks
     | Raise e => e = AttributeError
     end.
Proof.
  intros payload run. subst run.
  pose proof page_input_not_empty as Hin.
  destruct (RefineFacts.reply_cases (llm_reply w tr 3 payload)) as [Hf | [c Hc]].
  - rewrite (merge_page_fallback tr None I (runTask3_fails _ _ _ _ _ Hin Hf)).
    split; [reflexivity|]. split; [done|apply fallback_block_ok].
  - pose proof (runTask3_content _ _ _ _ _ c Hin Hc) as Hrun.
    destruct (parseJson (json_loads lib) (Some (default [] c))) as [data|e].
    2:{ rewrite (merge_page_fallback tr None I Hrun).
        split; [reflexivity|]. split; [done|apply fallback_block_ok]. }
    destruct data as [| | | | | |d];
      try (unfold merge_page, bind; rewrite pym_text, ocr_text, Hrun;
           split; reflexivity).
    destruct (get (lit "merged_blocks") d) as [| | | | |[|x l]|] eqn:Em;
      try (rewrite (merge_page_fallback tr None I Hrun);
           split; [reflexivity|]; split; [done|apply fallback_block_ok]).
    unfold merge_page, bind. rewrite pym_text, ocr_text, Hrun.
    unfold task3_blocks. rewrite Em. cbn [por truthy AnswerGeneration.iter_items
                                           result_bind].
    unfold lift.
    destruct (page_result_loop lib page (get (lit "merge_log") d) 0 (x :: l))
      as [out|e] eqn:El.
    + destruct out as [|b out].
      * rewrite fallback_text by done.
        destruct (join_trimmed [10%N] (A ++ B)) as [Hne _];
          [done|by apply Forall_app|].
        apply is_empty_false in Hne. rewrite Hne.
        split; [reflexivity|]. split; [done|apply fallback_block_ok].
      * split; [reflexivity|]. split; [done|].
        destruct (page_result_loop_ok _ _ _ _ _ El) as (Hall & ks & Hids & Hs & Hk).
        split; [exact Hall|]. exists ks. split; [exact Hids|]. split; [exact Hs|].
        eapply Forall_impl; [exact Hk|]. intros k Hk'. cbn beta in Hk'. lia.
    + split; [reflexivity|]. by eapply page_result_loop_raises_only.
Qed.

End OnePage.

(** *** All the pages *)

Section Document.

Variables (extraction : PDFExtractionResult) (ocrBlocks : list TextBlock).

Local Abbreviation tables := (_buildPageTexts extraction ocrBlocks).

Lemma tables_pymupdf (page : Z) :
  default [] (tables.1.1.1 !! page)
  = join [10%N] (texts_of page (text_blocks extraction))
  /\ (is_Some (tables.1.1.1 !! page)
      <-> texts_of page (text_blocks extraction) <> []).
Proof.
  destruct (collect_blocks_collected extraction ocrBlocks page)
    as (H1 & _ & _ & H4 & _).
  apply page_text_lookup; [done|done|apply texts_of_trimmed].
Qed.

Lemma tables_ocr (page : Z) :
  default [] (tables.1.1.2 !! page) = join [10%N] (texts_of page ocrBlocks)
  /\ (is_Some (tables.1.1.2 !! page) <-> texts_of page ocrBlocks <> []).
Proof.
  destruct (collect_blocks_collected extraction ocrBlocks page)
    as (_ & H2 & _ & _ & H5).
  apply page_text_lookup; [done|done|apply texts_of_trimmed].
Qed.

Lemma tables_src_ids (page : Z) :
  default [] (tables.1.2 !! page) = page_ids extraction ocrBlocks page.
Proof.
  by destruct (collect_blocks_collected extraction ocrBlocks page)
    as (_ & _ & H3 & _).
Qed.

(** The pages [mergeText] visits. *)
Lemma visited_pages (page : Z) :
  page ∈ merge_sort Z.le (elements (dom tables.1.1.1 ∪ dom tables.1.1.2))
  <-> page_texts extraction ocrBlocks page <> [].
Proof.
  rewrite merge_sort_Permutation, elem_of_elements, elem_of_union,
    !elem_of_dom.
  destruct (tables_pymupdf page) as [_ ->].
  destruct (tables_ocr page) as [_ ->].
  unfold page_texts. split.
  - intros [H|H] Happ; apply app_eq_nil in Happ as [? ?]; done.
  - intros H. destruct (texts_of page (text_blocks extraction)); [|by left].
    right. by intros E; rewrite E in H.
Qed.

Lemma texts_of_not_nil (page : Z) (blocks : list TextBlock) :
  texts_of page blocks <> []
  <-> exists tb, tb ∈ blocks /\ tb_page tb = page
                 /\ strip (default [] (tb_text tb)) <> [].
Proof.
  induction blocks as [|tb blocks IH].
  - split; [done|]. intros (tb & Hin & _). inversion Hin.
  - unfold texts_of. cbn [omap list_omap]. fold (texts_of page blocks).
    destruct (bool_decide (tb_page tb = page)
              && negb (is_empty (strip (default [] (tb_text tb))))) eqn:E.
    + apply andb_true_iff in E as [E1 E2]. apply bool_decide_eq_true in E1.
      apply negb_true_iff, is_empty_false in E2.
      split; [|done]. intros _. exists tb. split; [left|done].
    + rewrite IH. split.
      * intros (tb' & Hin & H). exists tb'. split; [by right|done].
      * intros (tb' & Hin & Hp & Ht).
        apply elem_of_cons in Hin as [->|Hin]; [|by exists tb'].
        apply andb_false_iff in E as [E|E].
        -- by apply bool_decide_eq_false in E.
        -- apply negb_false_iff, is_empty_true in E. done.
Qed.

Lemma visited_pages_length :
  length (merge_sort Z.le (elements (dom tables.1.1.1 ∪ dom tables.1.1.2)))
  = length (pages_with_text extraction ocrBlocks).
Proof.
  apply Permutation_length. apply NoDup_Permutation.
  - rewrite merge_sort_Permutation. apply NoDup_elements.
  - apply NoDup_remove_dups.
  - intros page. rewrite visited_pages. unfold pages_with_text, page_texts.
    rewrite elem_of_remove_dups, list_elem_of_fmap.
    rewrite <- texts_of_app, texts_of_not_nil. split.
    + intros (tb & Hin & Hp & Ht). exists tb. split; [done|].
      by apply list_elem_of_filter.
    + intros (tb & Hp & Hin). apply list_elem_of_filter in Hin as [Ht Hin].
      by exists tb.
Qed.

Lemma page_hypotheses (page : Z) :
  page_texts extraction ocrBlocks page <> [] ->
  default [] (tables.1.1.1 !! page)
  = join [10%N] (texts_of page (text_blocks extraction))
  /\ default [] (tables.1.1.2 !! page) = join [10%N] (texts_of page ocrBlocks)
  /\ Forall (fun t => t <> [] /\ strip t = t)
            (texts_of page (text_blocks extraction))
  /\ Forall (fun t => t <> [] /\ strip t = t) (texts_of page ocrBlocks).
Proof.
  intros _. split; [apply tables_pymupdf|]. split; [apply tables_ocr|].
  split; apply texts_of_trimmed.
Qed.

Lemma merge_pages_outcome (pages : list Z) :
  (forall page, page ∈ pages -> page_texts extraction ocrBlocks page <> []) ->
  forall (result : gmap Z (list MergedBlock)) (tr : trace),
  let run := merge_pages w lib tables.1.1.1 tables.1.1.2 tables.1.2 tables.2
               pages result tr in
  exists payloads,
    run.2 = tr ++ (EvLlm 3 <$> payloads)
    /\ match run.1 with
       | Ok result' =>
           length payloads = length pages
           /\ (forall page, page ∈ pages ->
                 exists blocks, result' !! page = Some blocks
                                /\ blocks <> [] /\ merged_ok page blocks)
           /\ (forall page, page ∉ pages -> result' !! page = result !! page)
       | Raise e => e = AttributeError /\ (length payloads <= length pages)%nat
       end.
Proof.
  induction pages as [|page rest IH]; intros Hpages result tr run; subst run.
  - exists []. cbn [merge_pages]. unfold ret. cbn [fst snd].
    split; [by rewrite app_nil_r|]. split; [done|]. split; [|done].
    intros page Hin. inversion Hin.
  - destruct (page_hypotheses page) as (Hp & Ho & HA & HB);
      [apply Hpages; left|].
    assert (page_texts extraction ocrBlocks page <> []) as Htext
      by (apply Hpages; left).
    pose proof (merge_page_outcome tables.1.1.1 tables.1.1.2 tables.1.2
                  tables.2 page _ _ Hp Ho HA HB Htext tr) as [Htr Hres].
    cbn [merge_pages]. unfold bind.
    destruct (merge_page w lib tables.1.1.1 tables.1.1.2 tables.1.2 tables.2
                page tr) as [[blocks|e] tr1] eqn:Erun; cbn [fst snd] in *.
    + destruct Hres as [Hne Hok].
      destruct (IH (fun p Hin => Hpages p (list_elem_of_further _ _ _ Hin))
                   (<[page := blocks]> result) tr1) as (payloads & Htr' & Hres').
      eexists (_ :: payloads). split.
      { rewrite Htr', Htr, <- app_assoc. reflexivity. }
      destruct (merge_pages _ _ _ _ _ _ rest _ tr1) as [[result'|e] tr2];
        cbn [fst snd] in *.
      * destruct Hres' as (Hlen & Hin & Hout). split; [simpl; lia|]. split.
        -- intros p Hp'. destruct (decide (p ∈ rest)) as [Hr|Hr]; [by apply Hin|].
           apply elem_of_cons in Hp' as [->|Hp']; [|done].
           exists blocks. rewrite (Hout page Hr), lookup_insert_eq. done.
        -- intros p Hp'. apply not_elem_of_cons in Hp' as [Hne' Hr].
           rewrite (Hout p Hr). by rewrite lookup_insert_ne.
      * destruct Hres' as [-> Hlen]. split; [done|simpl; lia].
    + eexists [_]. split; [rewrite Htr; reflexivity|].
      split; [done|simpl; lia].
Qed.

Lemma mergeText_unfold (tr : trace) :
  mergeText w lib extraction ocrBlocks tr
  = merge_pages w lib tables.1.1.1 tables.1.1.2 tables.1.2 tables.2
      (merge_sort Z.le (elements (dom tables.1.1.1 ∪ dom tables.1.1.2))) ∅ tr.
Proof. reflexivity. Qed.

Lemma mergeText_outcome (tr : trace) :
  let run := mergeText w lib extraction ocrBlocks tr in
  exists payloads,
    run.2 = tr ++ (EvLlm 3 <$> payloads)
    /\ match run.1 with
       | Ok result =>
           length payloads = length (pages_with_text extraction ocrBlocks)
           /\ forall page,
                match result !! page with
                | Some blocks =>
                    page_texts extraction ocrBlocks page <> []
                    /\ blocks <> [] /\ merged_ok page blocks
                | None => page_texts extraction ocrBlocks page = []
                end
       | Raise e =>
           e = AttributeError
           /\ (length payloads
               <= length (pages_with_text extraction ocrBlocks))%nat
       end.
Proof.
  intros run. subst run. rewrite mergeText_unfold.
  destruct (merge_pages_outcome
              (merge_sort Z.le (elements (dom tables.1.1.1 ∪ dom tables.1.1.2)))
              (fun p Hin => proj1 (visited_pages p) Hin) ∅ tr)
    as (payloads & Htr & Hres).
  exists payloads. split; [exact Htr|].
  destruct (merge_pages _ _ _ _ _ _ _ _ tr) as [[result|e] tr']; cbn [fst snd] in *.
  - destruct Hres as (Hlen & Hin & Hout). rewrite <- visited_pages_length.
    split; [done|]. intros page.
    destruct (decide (page ∈ merge_sort Z.le
                       (elements (dom tables.1.1.1 ∪ dom tables.1.1.2))))
      as [Hv|Hv].
    + destruct (Hin page Hv) as (blocks & -> & Hne & Hok).
      split; [by apply visited_pages|done].
    + rewrite (Hout page Hv), lookup_empty.
      destruct (decide (page_texts extraction ocrBlocks page = []));
        [done|]. exfalso. by apply Hv, visited_pages.
  - destruct Hres as [-> Hlen]. by rewrite <- visited_pages_length.
Qed.

(** With the model down or its output unparseable, every page is merged
    by the fallback. *)
Lemma merge_pages_fallback (pages : list Z) :
  (forall tr payload,
     QueryService.call_fails (llm_reply w tr 3 payload)
     \/ QueryService.unparseable lib (llm_reply w tr 3 payload)) ->
  (forall page, page ∈ pages -> page_texts extraction ocrBlocks page <> []) ->
  forall (result : gmap Z (list MergedBlock)) (tr : trace),
  exists result' tr',
    merge_pages w lib tables.1.1.1 tables.1.1.2 tables.1.2 tables.2
                pages result tr = (Ok result', tr')
    /\ (forall page, page ∈ pages ->
          result' !! page
          = Some [fallback_block page
                    (join [10%N] (page_texts extraction ocrBlocks page))
                    (page_ids extraction ocrBlocks page)])
    /\ (forall page, page ∉ pages -> result' !! page = result !! page).
Proof.
  intros Hdown. induction pages as [|page rest IH]; intros Hpages result tr.
  - exists result, tr. split; [reflexivity|]. split; [|done].
    intros page Hin. inversion Hin.
  - destruct (page_hypotheses page) as (Hp & Ho & HA & HB);
      [apply Hpages; left|].
    assert (page_texts extraction ocrBlocks page <> []) as Htext
      by (apply Hpages; left).
    pose proof (page_input_not_empty _ _ _ _ _ Hp Ho HA HB Htext) as Hin.
    assert (_runTask3ForPage w lib page
              (join [10%N] (texts_of page (text_blocks extraction)))
              (join [10%N] (texts_of page ocrBlocks))
              (default [] (tables.2 !! page)) tr
            = (Ok None,
               tr ++ [EvLlm 3 (task3_payload lib page
                        (join [10%N] (texts_of page (text_blocks extraction)))
                        (join [10%N] (texts_of page ocrBlocks))
                        (default [] (tables.2 !! page)))])) as Hrun.
    { destruct (Hdown tr (task3_payload lib page
                  (join [10%N] (texts_of page (text_blocks extraction)))
                  (join [10%N] (texts_of page ocrBlocks))
                  (default [] (tables.2 !! page)))) as [Hf | (c & e & Hc & He)].
      - by apply runTask3_fails.
      - rewrite (runTask3_content _ _ _ _ _ c Hin Hc). by rewrite He. }
    pose proof (merge_page_fallback tables.1.1.1 tables.1.1.2 tables.1.2
                  tables.2 page _ _ Hp Ho HA HB Htext tr None I Hrun) as Hpage.
    cbn [merge_pages]. unfold bind. rewrite Hpage.
    destruct (IH (fun p Hin => Hpages p (list_elem_of_further _ _ _ Hin))
                 (<[page := [fallback_block page
                     (join [10%N] (texts_of page (text_blocks extraction)
                                   ++ texts_of page ocrBlocks))
                     (default [] (tables.1.2 !! page))]]> result)
                 (tr ++ [EvLlm 3 (task3_payload lib page
                        (join [10%N] (texts_of page (text_blocks extraction)))
                        (join [10%N] (texts_of page ocrBlocks))
                        (default [] (tables.2 !! page)))]))
      as (result' & tr' & Hrest & Hin' & Hout).
    exists result', tr'. split; [exact Hrest|]. split.
    + intros p Hp'. destruct (decide (p ∈ rest)) as [Hr|Hr]; [by apply Hin'|].
      apply elem_of_cons in Hp' as [->|Hp']; [|done].
      rewrite (Hout page Hr), lookup_insert_eq, tables_src_ids. reflexivity.
    + intros p Hp'. apply not_elem_of_cons in Hp' as [Hne' Hr].
      rewrite (Hout p Hr). by rewrite lookup_insert_ne.
Qed.

(** With merged blocks that are not objects, the first page raises. *)
Lemma merge_pages_raises (pages : list Z) (c : option str) (d : dict)
    (l : list pyval) (x : pyval) :
  (forall tr payload, llm_reply w tr 3 payload = Response 200 (Content c)) ->
  parseJson (json_loads lib) (Some (default [] c)) = Ok (PDict d) ->
  get (lit "merged_blocks") d = PList l ->
  x ∈ l -> is_dict x = false ->
  pages <> [] ->
  (forall page, page ∈ pages -> page_texts extraction ocrBlocks page <> []) ->
  forall (result : gmap Z (list MergedBlock)) (tr : trace),
    (merge_pages w lib tables.1.1.1 tables.1.1.2 tables.1.2 tables.2
                 pages result tr).1 = Raise AttributeError.
Proof.
  intros Hreply Hparse Hget Hx Hnd Hne Hpages result tr.
  destruct pages as [|page rest]; [done|].
  destruct (page_hypotheses page) as (Hp & Ho & HA & HB);
    [apply Hpages; left|].
  assert (page_texts extraction ocrBlocks page <> []) as Htext
    by (apply Hpages; left).
  pose proof (page_input_not_empty _ _ _ _ _ Hp Ho HA HB Htext) as Hin.
  cbn [merge_pages]. unfold bind at 1. unfold merge_page, bind.
  rewrite Hp, Ho.
  rewrite (runTask3_content _ _ _ _ _ c Hin (Hreply _ _)), Hparse, Hget.
  destruct l as [|x0 l0]; [inversion Hx|].
  unfold task3_blocks. rewrite Hget.
  cbn [por truthy AnswerGeneration.iter_items result_bind].
  rewrite (page_result_loop_raises _ _ _ x Hx Hnd). reflexivity.
Qed.

End Document.

End WithWorld.

(** The merged blocks of a page give the chunker a text. *)
Lemma merged_page_has_text (page : Z) (blocks : list MergedBlock) :
  blocks <> [] -> merged_ok page blocks ->
  _buildPageText (block <$> blocks) <> [].
Proof.
  intros Hne [Hall _].
  assert (block_texts (block <$> blocks)
          = (fun b => default [] (mb_text (block b))) <$> blocks
          /\ Forall (fun t => t <> [] /\ strip t = t)
               ((fun b => default [] (mb_text (block b))) <$> blocks))
    as [Htexts Htrim].
  { clear Hne. induction Hall as [|b blocks (Hp & t & Ht & Hnt & Hs) Hall IH].
    - split; [reflexivity|constructor].
    - destruct IH as [IH1 IH2]. rewrite !fmap_cons. cbn [block_texts].
      rewrite Ht. change (default [] (Some t)) with t. rewrite Hs.
      apply is_empty_false in Hnt. rewrite Hnt. rewrite IH1.
      split; [reflexivity|]. constructor; [|done].
      split; [by apply is_empty_false|done]. }
  unfold _buildPageText. destruct blocks as [|b blocks]; [done|].
  rewrite !fmap_cons in Htexts. rewrite fmap_cons in Htrim.
  rewrite fmap_cons, Htexts.
  destruct (join_trimmed [10; 10]%N
              (default [] (mb_text (block b))
               :: ((fun b => default [] (mb_text (block b))) <$> blocks)))
    as [Hj Hs]; [done|exact Htrim|].
  rewrite Hs. exact Hj.
Qed.

Lemma chunked_pages (fuel : nat) (mergedPages : gmap Z (list MergedTextBlock))
    (chatbotId documentId : str) (filename : option str)
    (userGroupTags : option (list str)) (maxChars overlap : Z)
    (chunks : list TextChunk) :
  chunkMergedPages fuel mergedPages chatbotId documentId filename
                   userGroupTags maxChars overlap = Some (Ok chunks) ->
  forall page,
    (exists c, c ∈ chunks /\ tc_page c = page)
    <-> page_has_text mergedPages page.
Proof.
  intros Hrun page.
  destruct (ChunkerFacts.chunkMergedPages_layout _ _ _ _ _ _ _ _ _ Hrun)
    as (groups & H1 & _ & H2 & H3 & Hall).
  split.
  - intros (c & Hc & <-). rewrite Forall_forall in Hall.
    destruct (Hall c Hc) as [Hp _]. exact Hp.
  - intros Hp. apply H2 in Hp.
    apply list_elem_of_fmap in Hp as ([p n] & -> & Hg). cbn [fst].
    rewrite Forall_forall in H3. specialize (H3 _ Hg). cbn [snd] in H3.
    assert ((p, 0) ∈ position <$> chunks) as Hin.
    { rewrite H1. unfold numbering. apply list_elem_of_bind.
      exists (p, n). split; [|exact Hg]. cbn [fst snd].
      apply list_elem_of_fmap. exists 0. split; [reflexivity|].
      apply elem_of_seqZ. lia. }
    apply list_elem_of_fmap in Hin as (c & Hpos & Hc).
    exists c. split; [exact Hc|]. unfold position in Hpos. congruence.
Qed.

(** X22. Whatever the model answers, [mergeText] loses no page: its result has
    an entry for a page exactly when a block of PyMuPDF or of the OCR on
    that page is not blank, and the entry holds at least one block; every
    block is on its page, its text is trimmed and not empty, and the ids
    of the blocks of a page are [p<page>_m<k>] for increasing [k] from 1
    on. *)
Theorem mergeText_keeps_every_page_with_text :
  forall (w : World) (lib : PyLib) (extraction : PDFExtractionResult)
         (ocrBlocks : list TextBlock) (tr tr' : trace)
         (result : gmap Z (list MergedBlock)),
    mergeText w lib extraction ocrBlocks tr = (Ok result, tr') ->
    forall page,
      match result !! page with
      | Some blocks =>
          page_texts extraction ocrBlocks page <> []
          /\ blocks <> []
          /\ Forall (fun b => mb_page (block b) = page
                              /\ exists t, mb_text (block b) = Some t
                                           /\ t <> [] /\ strip t = t) blocks
          /\ exists ks : list Z,
               (fun b => mb_block_id (block b)) <$> blocks
               = merged_id page <$> ks
               /\ StronglySorted Z.lt ks /\ Forall (fun k => 1 <= k) ks
      | None => page_texts extraction ocrBlocks page = []
      end.
Proof.
  intros w lib extraction ocrBlocks tr tr' result Hrun page.
  destruct (mergeText_outcome w lib extraction ocrBlocks tr)
    as (payloads & _ & Hres).
  rewrite Hrun in Hres. cbn [fst] in Hres. destruct Hres as [_ Hres].
  specialize (Hres page). destruct (result !! page) as [blocks|]; [|done].
  destruct Hres as (H1 & H2 & H3 & H4). auto.
Qed.

Lemma mergeText_keeps_every_page_with_text_witness :
  exists tr' blocks,
    mergeText (MoreSamples.answering "{merged}")
              (MoreSamples.lib_of MergeSamples.merge_docs)
              MergeSamples.sample_extraction MergeSamples.sample_ocr []
    = (Ok MergeSamples.merged_by_model, tr')
    /\ MergeSamples.merged_by_model !! 1 = Some blocks
    /\ (fun b => mb_block_id (block b)) <$> blocks
       = [merged_id 1 1; merged_id 1 3]
    /\ match MergeSamples.merged_by_model !! 2 with
       | Some _ => False
       | None =>
           page_texts MergeSamples.sample_extraction MergeSamples.sample_ocr 2
           = []
       end.
Proof.
  assert (exists tr',
            mergeText (MoreSamples.answering "{merged}")
              (MoreSamples.lib_of MergeSamples.merge_docs)
              MergeSamples.sample_extraction MergeSamples.sample_ocr []
            = (Ok MergeSamples.merged_by_model, tr')) as [tr' H1].
  { eexists. vm_compute. reflexivity. }
  pose proof (mergeText_keeps_every_page_with_text _ _ _ _ _ _ _ H1 2) as H.
  exists tr'. eexists. split; [exact H1|].
  split; [vm_compute; reflexivity|]. split; [vm_compute; reflexivity|].
  destruct (MergeSamples.merged_by_model !! 2) eqn:E; [|exact H].
  vm_compute in E. discriminate.
Defined.

(** X23. With the model down, or its output not JSON, [mergeText] returns and
    every page is merged by the fallback: one block [p<page>_m1] whose
    text is the trimmed texts of the blocks of the page that are not
    blank, those of PyMuPDF before those of the OCR, joined by new lines,
    and whose sources are the ids of these blocks in the same order. *)
Theorem mergeText_without_the_model :
  forall (w : World) (lib : PyLib) (extraction : PDFExtractionResult)
         (ocrBlocks : list TextBlock) (tr : trace),
    (forall tr payload,
       QueryService.call_fails (llm_reply w tr 3 payload)
       \/ QueryService.unparseable lib (llm_reply w tr 3 payload)) ->
    exists result tr',
      mergeText w lib extraction ocrBlocks tr = (Ok result, tr')
      /\ forall page,
           result !! page
           = match page_texts extraction ocrBlocks page with
             | [] => None
             | texts =>
                 Some [fallback_block page (join [10%N] texts)
                                      (page_ids extraction ocrBlocks page)]
             end.
Proof.
  intros w lib extraction ocrBlocks tr Hdown.
  destruct (merge_pages_fallback w lib extraction ocrBlocks
              (merge_sort Z.le
                 (elements (dom (_buildPageTexts extraction ocrBlocks).1.1.1
                            ∪ dom (_buildPageTexts extraction ocrBlocks).1.1.2)))
              Hdown
              (fun p Hin => proj1 (visited_pages extraction ocrBlocks p) Hin)
              ∅ tr) as (result & tr' & Hrun & Hin & Hout).
  exists result, tr'. split; [exact Hrun|]. intros page.
  destruct (decide (page ∈ merge_sort Z.le
              (elements (dom (_buildPageTexts extraction ocrBlocks).1.1.1
                         ∪ dom (_buildPageTexts extraction ocrBlocks).1.1.2))))
    as [Hv|Hv].
  - rewrite (Hin page Hv). apply visited_pages in Hv.
    by destruct (page_texts extraction ocrBlocks page).
  - rewrite (Hout page Hv), lookup_empty.
    destruct (page_texts extraction ocrBlocks page) eqn:E; [done|].
    exfalso. apply Hv, visited_pages. by rewrite E.
Qed.

Lemma mergeText_without_the_model_witness :
  exists result tr',
    mergeText Samples.sample_world Samples.sample_lib
              MergeSamples.sample_extraction MergeSamples.sample_ocr []
    = (Ok result, tr')
    /\ result !! 1
       = Some [fallback_block 1
                 (lit "Reset the device" ++ [10%N] ++ lit "Hold the button"
                  ++ [10%N] ++ lit "Fig. 1")
                 [lit "p1_b0"; lit "p1_b1"; lit "p1_ocr_b0"]].
Proof.
  destruct (mergeText_without_the_model Samples.sample_world Samples.sample_lib
              MergeSamples.sample_extraction MergeSamples.sample_ocr [])
    as (result & tr' & Hrun & Hres).
  { intros tr payload. left. exact I. }
  exists result, tr'. split; [exact Hrun|]. rewrite (Hres 1).
  vm_compute. reflexivity.
Defined.

(** X24. Merged blocks that are not objects are not absorbed by the fallback:
    when the model answers task 3 with an object whose [merged_blocks] is
    a list that holds something else than objects (strings, say), and the
    document has text, [mergeText] raises [AttributeError]. *)
Theorem merged_blocks_that_are_not_objects_raise :
  forall (w : World) (lib : PyLib) (extraction : PDFExtractionResult)
         (ocrBlocks : list TextBlock) (tr : trace) (c : option str)
         (d : dict) (l : list pyval) (x : pyval) (page : Z),
    (forall tr payload, llm_reply w tr 3 payload = Response 200 (Content c)) ->
    parseJson (json_loads lib) (Some (default [] c)) = Ok (PDict d) ->
    get (lit "merged_blocks") d = PList l ->
    x ∈ l -> is_dict x = false ->
    page_texts extraction ocrBlocks page <> [] ->
    (mergeText w lib extraction ocrBlocks tr).1 = Raise AttributeError.
Proof.
  intros w lib extraction ocrBlocks tr c d l x page Hreply Hparse Hget Hx Hnd
         Htext.
  rewrite mergeText_unfold.
  apply (merge_pages_raises w lib extraction ocrBlocks _ c d l x); auto.
  - intros Hnil. apply visited_pages in Htext. rewrite Hnil in Htext.
    inversion Htext.
  - intros p Hin. by apply visited_pages.
Qed.

Lemma merged_blocks_that_are_not_objects_raise_witness :
  (mergeText (MoreSamples.answering "{bad merged}")
             (MoreSamples.lib_of MergeSamples.merge_docs)
             MergeSamples.sample_extraction MergeSamples.sample_ocr []).1
  = Raise AttributeError.
Proof.
  apply (merged_blocks_that_are_not_objects_raise
           (MoreSamples.answering "{bad merged}")
           (MoreSamples.lib_of MergeSamples.merge_docs)
           MergeSamples.sample_extraction MergeSamples.sample_ocr []
           (Some (lit "{bad merged}"))
           [(lit "merged_blocks", PList [PStr (lit "merged text")])]
           [PStr (lit "merged text")] (PStr (lit "merged text")) 1).
  - intros tr payload. reflexivity.
  - vm_compute. reflexivity.
  - vm_compute. reflexivity.
  - left.
  - reflexivity.
  - vm_compute. discriminate.
Defined.

(** X25. [mergeText] calls the model (task 3) once for every page with text,
    and calls nothing else; when it raises, it raises [AttributeError],
    after at most that many calls. *)
Theorem mergeText_calls_once_per_page :
  forall (w : World) (lib : PyLib) (extraction : PDFExtractionResult)
         (ocrBlocks : list TextBlock) (tr : trace),
  exists payloads : list str,
    (mergeText w lib extraction ocrBlocks tr).2 = tr ++ (EvLlm 3 <$> payloads)
    /\ match (mergeText w lib extraction ocrBlocks tr).1 with
       | Ok _ =>
           length payloads = length (pages_with_text extraction ocrBlocks)
       | Raise e =>
           e = AttributeError
           /\ (length payloads
               <= length (pages_with_text extraction ocrBlocks))%nat
       end.
Proof.
  intros w lib extraction ocrBlocks tr.
  destruct (mergeText_outcome w lib extraction ocrBlocks tr)
    as (payloads & Htr & Hres).
  exists payloads. split; [exact Htr|].
  destruct ((mergeText w lib extraction ocrBlocks tr).1); [|exact Hres].
  by destruct Hres.
Qed.

(** X26. From the extraction to the chunks no page is lost: when [mergeText]
    returns and [chunkMergedPages] returns on its result, a page has a
    chunk exactly when a block of PyMuPDF or of the OCR on that page is
    not blank. *)
Theorem every_page_with_text_is_chunked :
  forall (w : World) (lib : PyLib) (extraction : PDFExtractionResult)
         (ocrBlocks : list TextBlock) (tr tr' : trace)
         (result : gmap Z (list MergedBlock))
         (fuel : nat) (chatbotId documentId : str) (filename : option str)
         (userGroupTags : option (list str)) (maxChars overlap : Z)
         (chunks : list TextChunk),
    mergeText w lib extraction ocrBlocks tr = (Ok result, tr') ->
    chunkMergedPages fuel (merged_pages result) chatbotId documentId filename
                     userGroupTags maxChars overlap = Some (Ok chunks) ->
    forall page,
      (exists c, c ∈ chunks /\ tc_page c = page)
      <-> page_texts extraction ocrBlocks page <> [].
Proof.
  intros w lib extraction ocrBlocks tr tr' result fuel chatbotId documentId
         filename tags maxChars overlap chunks Hmerge Hchunk page.
  rewrite (chunked_pages _ _ _ _ _ _ _ _ _ Hchunk page).
  destruct (mergeText_outcome w lib extraction ocrBlocks tr)
    as (payloads & _ & Hres).
  rewrite Hmerge in Hres. cbn [fst] in Hres. destruct Hres as [_ Hres].
  specialize (Hres page). unfold page_has_text, merged_pages.
  rewrite lookup_fmap. destruct (result !! page) as [blocks|]; cbn [fmap option_fmap option_map].
  - destruct Hres as (Htext & Hne & Hok). split; [done|]. intros _.
    eexists. split; [reflexivity|]. by eapply merged_page_has_text.
  - split; [|by rewrite Hres]. intros (blocks & [=] & _).
Qed.

Lemma every_page_with_text_is_chunked_witness :
  exists tr' chunks,
    mergeText Samples.sample_world Samples.sample_lib
              MergeSamples.sample_extraction MergeSamples.sample_ocr []
    = (Ok MergeSamples.merged_by_fallback, tr')
    /\ chunkMergedPages 8 (merged_pages MergeSamples.merged_by_fallback)
         (lit "bot") (lit "doc") None None 100 10 = Some (Ok chunks)
    /\ ((exists c, c ∈ chunks /\ tc_page c = 3)
        <-> page_texts MergeSamples.sample_extraction MergeSamples.sample_ocr 3
            <> []).
Proof.
  assert (exists tr',
            mergeText Samples.sample_world Samples.sample_lib
              MergeSamples.sample_extraction MergeSamples.sample_ocr []
            = (Ok MergeSamples.merged_by_fallback, tr')) as [tr' H1].
  { eexists. vm_compute. reflexivity. }
  assert (exists chunks,
            chunkMergedPages 8 (merged_pages MergeSamples.merged_by_fallback)
              (lit "bot") (lit "doc") None None 100 10 = Some (Ok chunks))
    as [chunks H2].
  { eexists. vm_compute. reflexivity. }
  exists tr', chunks. split; [exact H1|]. split; [exact H2|].
  exact (every_page_with_text_is_chunked _ _ _ _ _ _ _ _ _ _ _ _ _ _ _ H1 H2 3).
Defined.

End MergeFacts.

(* ===================================================================== *)
(** ** The vector store: what [upsertChunks] writes *)
(* ===================================================================== *)

Module StoreFacts.
Import Chunking Store DictFacts.

Lemma lookup_set (k k' : str) (v : pyval) (d : dict) :
  lookup k (PyVal.set k' v d) = if eqb k k' then Some v else lookup k d.
Proof.
  destruct (eqb k k') eqn:E.
  - apply bool_decide_eq_true in E. subst k'.
    apply QueryServiceFacts.lookup_set_same.
  - apply bool_decide_eq_false in E. by apply lookup_set_other.
Qed.

Section WithLibrary.

Variable lib : PyLib.

(** One item changes the entry of its key only, and only the tags change
    the user group. *)
Lemma clean_item_other (st : dict * option str) (k k' : str) (v : pyval) :
  k' <> k -> lookup k' (clean_item lib st (k, v)).1 = lookup k' st.1.
Proof.
  intros Hne. destruct st as [cleanMeta ugv]. unfold clean_item.
  destruct v; cbn [fst]; try (by apply lookup_set_other).
  destruct (eqb k (lit "user_group_tags")) eqn:E1.
  { apply bool_decide_eq_true in E1. subst k.
    destruct (strs_of lib l); cbn [fst]; [done|by apply lookup_set_other]. }
  destruct (eqb k (lit "image_paths")) eqn:E2; cbn [fst].
  - apply bool_decide_eq_true in E2. subst k. by apply lookup_set_other.
  - by apply lookup_set_other.
Qed.

Lemma clean_item_user_group (st : dict * option str) (k : str) (v : pyval) :
  k <> lit "user_group_tags" -> (clean_item lib st (k, v)).2 = st.2.
Proof.
  intros Hne. destruct st as [cleanMeta ugv]. unfold clean_item.
  destruct v; try reflexivity.
  rewrite (eqb_neq k _ Hne). by destruct (eqb k (lit "image_paths")).
Qed.

Lemma clean_item_scalar (st : dict * option str) (kv : str * pyval) :
  (forall k v, lookup k st.1 = Some v -> scalar v = true) ->
  forall k v, lookup k (clean_item lib st kv).1 = Some v -> scalar v = true.
Proof.
  intros Hst k v. destruct st as [cleanMeta ugv], kv as [k0 v0].
  cbn [fst] in Hst. unfold clean_item.
  assert (forall x, scalar x = true ->
            lookup k (PyVal.set k0 x cleanMeta) = Some v -> scalar v = true)
    as Hset.
  { intros x Hx. rewrite lookup_set. destruct (eqb k k0); [congruence|].
    apply Hst. }
  assert (forall k1 x, scalar x = true ->
            lookup k (PyVal.set k1 x cleanMeta) = Some v -> scalar v = true)
    as Hset'.
  { intros k1 x Hx. rewrite lookup_set. destruct (eqb k k1); [congruence|].
    apply Hst. }
  destruct v0; cbn [fst]; try (by apply Hset).
  destruct (eqb k0 (lit "user_group_tags")).
  { destruct (strs_of lib l); cbn [fst]; [apply Hst|by apply Hset']. }
  destruct (eqb k0 (lit "image_paths")); cbn [fst]; by apply Hset'.
Qed.

Lemma clean_items_other (items : dict) (k' : str) :
  k' ∉ items.*1 ->
  forall st, lookup k' (foldl (clean_item lib) st items).1 = lookup k' st.1.
Proof.
  induction items as [|[k v] items IH]; intros Hk st; [reflexivity|].
  rewrite fmap_cons in Hk. apply not_elem_of_cons in Hk as [Hne Hk].
  cbn [foldl]. rewrite IH by done. by apply clean_item_other.
Qed.

Lemma clean_items_user_group (items : dict) :
  lit "user_group_tags" ∉ items.*1 ->
  forall st, (foldl (clean_item lib) st items).2 = st.2.
Proof.
  induction items as [|[k v] items IH]; intros Hk st; [reflexivity|].
  rewrite fmap_cons in Hk. apply not_elem_of_cons in Hk as [Hne Hk].
  cbn [foldl]. rewrite IH by done. by apply clean_item_user_group.
Qed.

Lemma clean_items_scalar (items : dict) :
  forall st,
    (forall k v, lookup k st.1 = Some v -> scalar v = true) ->
    forall k v, lookup k (foldl (clean_item lib) st items).1 = Some v ->
                scalar v = true.
Proof.
  induction items as [|kv items IH]; intros st Hst; [exact Hst|].
  cbn [foldl]. apply IH. by apply clean_item_scalar.
Qed.

(** The entry of a key of a dictionary, after the loop. *)
Lemma clean_items_at (metaRaw : dict) (k : str) (v : pyval) :
  NoDup metaRaw.*1 -> lookup k metaRaw = Some v ->
  exists st,
    let st' := clean_item lib st (k, v) in
    lookup k (foldl (clean_item lib) ([], None) metaRaw).1 = lookup k st'.1
    /\ (k = lit "user_group_tags" ->
        (foldl (clean_item lib) ([], None) metaRaw).2 = st'.2).
Proof.
  generalize (@nil (str * pyval), @None str).
  induction metaRaw as [|[k0 v0] items IH]; intros st0 Hnd Hk; [discriminate|].
  rewrite fmap_cons in Hnd. apply NoDup_cons in Hnd as [Hk0 Hnd].
  cbn [lookup] in Hk. cbn [foldl].
  destruct (eqb k k0) eqn:E.
  - apply bool_decide_eq_true in E. subst k0. injection Hk as <-.
    exists st0. cbn zeta. split; [by apply clean_items_other|].
    intros ->. by apply clean_items_user_group.
  - by apply (IH (clean_item lib st0 (k0, v0)) Hnd Hk).
Qed.

Lemma lookup_None (k : str) (d : dict) : lookup k d = None <-> k ∉ d.*1.
Proof.
  induction d as [|[k0 v0] d IH]; cbn [lookup].
  - split; [intros _ H; inversion H|done].
  - rewrite fmap_cons, not_elem_of_cons. cbn [fst].
    destruct (eqb k k0) eqn:E.
    + apply bool_decide_eq_true in E. split; [discriminate|]. by intros [? _].
    + apply bool_decide_eq_false in E. rewrite IH. tauto.
Qed.

(** The stored metadata: the three ids are forced, and everything else is
    a scalar. *)
Lemma stored_meta_forced (chatbotId documentId : str) (chunkId : pyval)
    (metaRaw : dict) :
  let meta := stored_meta lib chatbotId documentId chunkId metaRaw in
  lookup (lit "chunk_id") meta = Some chunkId
  /\ lookup (lit "chatbot_id") meta = Some (PStr chatbotId)
  /\ lookup (lit "document_id") meta = Some (PStr documentId)
  /\ forall k v, lookup k meta = Some v -> k <> lit "chunk_id" ->
                 scalar v = true.
Proof.
  unfold stored_meta.
  pose proof (clean_items_scalar metaRaw ([], None) ltac:(discriminate)) as Hs.
  destruct (foldl (clean_item lib) ([], None) metaRaw) as [cleanMeta ugv].
  cbn [fst] in Hs. cbn zeta.
  set (cm := match ugv, lookup (lit "user_group") cleanMeta with
             | Some u, None => PyVal.set (lit "user_group") (PStr u) cleanMeta
             | _, _ => cleanMeta
             end).
  assert (forall k v, lookup k cm = Some v -> scalar v = true) as Hcm.
  { subst cm. destruct ugv as [u|]; [|exact Hs].
    destruct (lookup (lit "user_group") cleanMeta); [exact Hs|].
    intros k v. rewrite lookup_set.
    destruct (eqb k _); [by intros [= <-]|apply Hs]. }
  rewrite !lookup_set.
  change (eqb (lit "chunk_id") (lit "document_id")) with false.
  change (eqb (lit "chunk_id") (lit "chatbot_id")) with false.
  change (eqb (lit "chatbot_id") (lit "document_id")) with false.
  rewrite !eqb_refl. repeat split.
  intros k v. rewrite !lookup_set.
  destruct (eqb k (lit "document_id")); [by intros [= <-]|].
  destruct (eqb k (lit "chatbot_id")); [by intros [= <-]|].
  destruct (eqb k (lit "chunk_id")) eqn:E.
  - apply bool_decide_eq_true in E. congruence.
  - intros H _. by eapply Hcm.
Qed.

(** The tags: the first one becomes the user group. *)
Lemma stored_meta_user_group (chatbotId documentId : str) (chunkId : pyval)
    (metaRaw : dict) (tags : list pyval) (first : str) (rest : list str) :
  NoDup metaRaw.*1 ->
  lookup (lit "user_group_tags") metaRaw = Some (PList tags) ->
  strs_of lib tags = first :: rest ->
  lookup (lit "user_group") metaRaw = None ->
  let meta := stored_meta lib chatbotId documentId chunkId metaRaw in
  lookup (lit "user_group") meta = Some (PStr first)
  /\ lookup (lit "user_group_tags") meta
     = Some (PStr (join (lit ",") (first :: rest))).
Proof.
  intros Hnd Htags Hstrs Hug. unfold stored_meta.
  destruct (clean_items_at metaRaw _ _ Hnd Htags) as (st & H1 & H2).
  specialize (H2 eq_refl). cbn zeta in H1, H2.
  pose proof (clean_items_other metaRaw (lit "user_group")
                (proj1 (lookup_None _ _) Hug) ([], None)) as H3.
  destruct (foldl (clean_item lib) ([], None) metaRaw) as [cleanMeta ugv].
  destruct st as [cm0 ugv0]. cbn [fst snd] in *.
  unfold clean_item in H1, H2. rewrite eqb_refl, Hstrs in H1, H2.
  cbn [fst snd] in H1, H2. rewrite QueryServiceFacts.lookup_set_same in H1.
  subst ugv. rewrite H3. cbn [lookup]. rewrite !lookup_set.
  change (eqb (lit "user_group") (lit "document_id")) with false.
  change (eqb (lit "user_group") (lit "chatbot_id")) with false.
  change (eqb (lit "user_group") (lit "chunk_id")) with false.
  change (eqb (lit "user_group_tags") (lit "document_id")) with false.
  change (eqb (lit "user_group_tags") (lit "chatbot_id")) with false.
  change (eqb (lit "user_group_tags") (lit "chunk_id")) with false.
  change (eqb (lit "user_group_tags") (lit "user_group")) with false.
  rewrite eqb_refl. split; [reflexivity|exact H1].
Qed.

(** The image paths: written as JSON, they are read back. *)
Lemma stored_meta_image_paths (chatbotId documentId : str) (chunkId : pyval)
    (metaRaw : dict) (paths : list pyval) :
  NoDup metaRaw.*1 ->
  lookup (lit "image_paths") metaRaw = Some (PList paths) ->
  json_loads lib (json_dumps lib (PList (PStr <$> strs_of lib paths)))
  = Some (PList (PStr <$> strs_of lib paths)) ->
  exists s,
    lookup (lit "image_paths")
           (stored_meta lib chatbotId documentId chunkId metaRaw)
    = Some (PStr s)
    /\ QueryService.decode_image_paths lib s = strs_of lib paths.
Proof.
  intros Hnd Hpaths Hjson. unfold stored_meta.
  destruct (clean_items_at metaRaw _ _ Hnd Hpaths) as (st & H1 & _).
  cbn zeta in H1.
  destruct (foldl (clean_item lib) ([], None) metaRaw) as [cleanMeta ugv].
  destruct st as [cm0 ugv0]. cbn [fst snd] in *.
  unfold clean_item in H1.
  change (eqb (lit "image_paths") (lit "user_group_tags")) with false in H1.
  rewrite eqb_refl in H1. cbn [fst] in H1.
  rewrite QueryServiceFacts.lookup_set_same in H1.
  exists (json_dumps lib (PList (PStr <$> strs_of lib paths))). split.
  - rewrite !lookup_set.
    change (eqb (lit "image_paths") (lit "document_id")) with false.
    change (eqb (lit "image_paths") (lit "chatbot_id")) with false.
    change (eqb (lit "image_paths") (lit "chunk_id")) with false.
    destruct ugv as [u|]; [|exact H1].
    destruct (lookup (lit "user_group") cleanMeta); [exact H1|].
    rewrite lookup_set.
    change (eqb (lit "image_paths") (lit "user_group")) with false. exact H1.
  - unfold QueryService.decode_image_paths. rewrite Hjson.
    clear Hjson H1 Hpaths.
    induction (strs_of lib paths) as [|p ps IH]; [reflexivity|].
    rewrite fmap_cons. cbn [omap list_omap py_str]. by rewrite IH.
Qed.

(** *** The rows *)

Lemma add_rows (chatbotId documentId : str) (chunks : list dict) :
  forall (embs : list (list Q)) (ids0 : list pyval) (docs0 : list str)
         (metas0 : list dict),
    length chunks = length embs ->
    foldl (add_row lib chatbotId documentId) (ids0, docs0, metas0)
          (zip chunks embs)
    = (ids0 ++ imap (fun i => row_id documentId (length ids0 + i)) chunks,
       docs0 ++ ((fun chunk =>
                    py_str lib (por (get (lit "text") chunk) (PStr [])))
                 <$> chunks),
       metas0 ++ imap (fun i chunk =>
                   stored_meta lib chatbotId documentId
                     (row_id documentId (length ids0 + i) chunk)
                     match por (get (lit "meta") chunk) (PDict []) with
                     | PDict metaRaw => metaRaw
                     | metaRaw =>
                         [(lit "_raw_meta", PStr (py_str lib metaRaw))]
                     end) chunks).
Proof.
  induction chunks as [|chunk chunks IH]; intros embs ids0 docs0 metas0 Hlen.
  - cbn [zip zip_with foldl imap fmap list_fmap]. by rewrite !app_nil_r.
  - destruct embs as [|emb embs]; [discriminate|]. injection Hlen as Hlen.
    cbn [zip zip_with foldl]. unfold add_row at 2.
    fold (row_id documentId (length ids0) chunk).
    change (zip_with pair chunks embs) with (zip chunks embs).
    rewrite IH by done. rewrite !length_app. cbn [length].
    rewrite <- !app_assoc. cbn [app imap fmap list_fmap].
    rewrite Nat.add_0_r.
    f_equal; [f_equal|].
    + do 2 f_equal. apply imap_ext. intros i x _. cbn [compose].
      by replace (length ids0 + 1 + i)%nat with (length ids0 + S i)%nat by lia.
    + do 2 f_equal. apply imap_ext. intros i x _. cbn [compose].
      by replace (length ids0 + 1 + i)%nat with (length ids0 + S i)%nat by lia.
Qed.

End WithLibrary.

(** X27. When [upsertChunks] returns, it has written one batch, to the
    collection of the chat bot: one id, one document and one metadata
    dictionary for every chunk, with the embeddings as given. The id of a
    chunk is its [chunk_id] or, without one, [<documentId>_<index>]. Every
    metadata dictionary carries that id and the chat bot and document ids
    of the call, whatever the chunk says, and every other value in it is
    [None], a boolean, a number or a string. *)
Theorem upsertChunks_writes_clean_rows :
  forall (lib : PyLib) (chroma : Chroma) (COLLECTION_PREFIX : str)
         (chatbotId documentId : str) (chunks : list dict)
         (embeddings : list (list Q)) (store store' : Writes) (n : Z),
    upsertChunks lib chroma COLLECTION_PREFIX chatbotId documentId chunks
                 embeddings store = (Ok n, store') ->
    n = Z.of_nat (length chunks)
    /\ length embeddings = length chunks
    /\ exists rows,
         store' = store ++ [(COLLECTION_PREFIX ++ chatbotId, rows)]
         /\ ids rows = imap (row_id documentId) chunks
         /\ length (documents rows) = length chunks
         /\ Store.embeddings rows = embeddings
         /\ Forall2 (fun id meta =>
              lookup (lit "chunk_id") meta = Some id
              /\ lookup (lit "chatbot_id") meta = Some (PStr chatbotId)
              /\ lookup (lit "document_id") meta = Some (PStr documentId)
              /\ forall k v, lookup k meta = Some v -> k <> lit "chunk_id" ->
                             scalar v = true)
            (ids rows) (metadatas rows).
Proof.
  intros lib chroma PREFIX chatbotId documentId chunks embs store store' n.
  unfold upsertChunks.
  destruct (Nat.eqb_spec (length chunks) (length embs)) as [Hlen|];
    [|discriminate].
  cbn [negb]. destruct (create_fails chroma chatbotId); [discriminate|].
  rewrite (add_rows lib chatbotId documentId chunks embs [] [] [] Hlen).
  cbn [app length Nat.add].
  destruct (upsert_fails chroma _ _); [discriminate|].
  intros [= <- <-]. rewrite length_imap. split; [done|]. split; [done|].
  eexists. split; [reflexivity|]. cbn [ids documents metadatas Store.embeddings].
  split; [reflexivity|]. split; [by rewrite length_fmap|]. split; [done|].
  apply Forall2_same_length_lookup. split; [by rewrite !length_imap|].
  intros i id meta Hid Hmeta.
  rewrite list_lookup_imap in Hid. rewrite list_lookup_imap in Hmeta.
  destruct (chunks !! i) as [chunk|]; [|discriminate].
  cbn [fmap option_fmap option_map] in Hid, Hmeta.
  injection Hid as <-. injection Hmeta as <-.
  apply stored_meta_forced.
Qed.

Lemma upsertChunks_writes_clean_rows_witness :
  exists n store',
    upsertChunks paths_lib willing (lit "chatbot_") (lit "bot") (lit "doc")
                 sample_chunks [[1%Q]; [2%Q]] [] = (Ok n, store')
    /\ n = 2
    /\ exists rows,
         store' = [(lit "chatbot_" ++ lit "bot", rows)]
         /\ ids rows = [PStr (lit "doc_p1_c0"); PStr (lit "doc_1")].
Proof.
  assert (exists n store',
            upsertChunks paths_lib willing (lit "chatbot_") (lit "bot")
              (lit "doc") sample_chunks [[1%Q]; [2%Q]] [] = (Ok n, store'))
    as (n & store' & H).
  { do 2 eexists. vm_compute. reflexivity. }
  exists n, store'. split; [exact H|].
  destruct (upsertChunks_writes_clean_rows _ _ _ _ _ _ _ _ _ _ H)
    as (Hn & _ & rows & Hstore & Hids & _).
  split; [exact Hn|]. exists rows. split; [exact Hstore|]. exact Hids.
Defined.

(** X28. Of the tags of a chunk the vector store gets the first one as the
    user group, the one the search can filter on: when the metadata of a
    chunk (a dictionary, its keys distinct) hold a list [user_group_tags]
    whose first tag (that is not [None]) is [first], and no [user_group],
    the stored metadata have [user_group = first], and [user_group_tags]
    is the tags joined by commas. *)
Theorem stored_user_group_is_the_first_tag :
  forall (lib : PyLib) (chroma : Chroma) (COLLECTION_PREFIX : str)
         (chatbotId documentId : str) (chunks : list dict)
         (embeddings : list (list Q)) (store store' : Writes) (n : Z),
    upsertChunks lib chroma COLLECTION_PREFIX chatbotId documentId chunks
                 embeddings store = (Ok n, store') ->
    exists rows,
      last store' = Some (COLLECTION_PREFIX ++ chatbotId, rows)
      /\ Forall2 (fun chunk meta =>
           forall (metaRaw : dict) (tags : list pyval) (first : str)
                  (rest : list str),
             get (lit "meta") chunk = PDict metaRaw ->
             NoDup metaRaw.*1 ->
             lookup (lit "user_group_tags") metaRaw = Some (PList tags) ->
             strs_of lib tags = first :: rest ->
             lookup (lit "user_group") metaRaw = None ->
             lookup (lit "user_group") meta = Some (PStr first)
             /\ lookup (lit "user_group_tags") meta
                = Some (PStr (join (lit ",") (first :: rest))))
         chunks (metadatas rows).
Proof.
  intros lib chroma PREFIX chatbotId documentId chunks embs store store' n.
  unfold upsertChunks.
  destruct (Nat.eqb_spec (length chunks) (length embs)) as [Hlen|];
    [|discriminate].
  cbn [negb]. destruct (create_fails chroma chatbotId); [discriminate|].
  rewrite (add_rows lib chatbotId documentId chunks embs [] [] [] Hlen).
  cbn [app length Nat.add].
  destruct (upsert_fails chroma _ _); [discriminate|].
  intros [= <- <-]. eexists. split; [by rewrite last_snoc|].
  cbn [metadatas].
  apply Forall2_same_length_lookup. split; [by rewrite length_imap|].
  intros i chunk meta Hchunk Hmeta.
  rewrite list_lookup_imap, Hchunk in Hmeta.
  cbn [fmap option_fmap option_map] in Hmeta. injection Hmeta as <-.
  intros metaRaw tags first rest Hget Hnd Htags Hstrs Hug.
  rewrite Hget.
  assert (por (PDict metaRaw) (PDict []) = PDict metaRaw) as ->.
  { unfold por. destruct metaRaw; [discriminate|reflexivity]. }
  by apply (stored_meta_user_group lib chatbotId documentId _ metaRaw tags).
Qed.

Lemma stored_user_group_is_the_first_tag_witness :
  exists n store' rows meta,
    upsertChunks paths_lib willing (lit "chatbot_") (lit "bot") (lit "doc")
                 sample_chunks [[1%Q]; [2%Q]] [] = (Ok n, store')
    /\ last store' = Some (lit "chatbot_" ++ lit "bot", rows)
    /\ metadatas rows !! 1%nat = Some meta
    /\ lookup (lit "user_group") meta = Some (PStr (lit "staff"))
    /\ lookup (lit "user_group_tags") meta = Some (PStr (lit "staff,admin")).
Proof.
  assert (exists n store',
            upsertChunks paths_lib willing (lit "chatbot_") (lit "bot")
              (lit "doc") sample_chunks [[1%Q]; [2%Q]] [] = (Ok n, store'))
    as (n & store' & H).
  { do 2 eexists. vm_compute. reflexivity. }
  destruct (stored_user_group_is_the_first_tag _ _ _ _ _ _ _ _ _ _ H)
    as (rows & Hlast & Hall).
  assert (exists chunk, sample_chunks !! 1%nat = Some chunk) as [chunk Hc]
    by (eexists; reflexivity).
  destruct (Forall2_lookup_l _ _ _ _ _ Hall Hc) as (meta & Hm & Hprop).
  exists n, store', rows, meta. split; [exact H|]. split; [exact Hlast|].
  split; [exact Hm|].
  injection Hc as <-.
  apply (Hprop [ (lit "user_group_tags",
                  PList [PStr (lit "staff"); PStr (lit "admin")]);
                 (lit "bbox", PList [PInt 0; PInt 1]) ]
               [PStr (lit "staff"); PStr (lit "admin")]
               (lit "staff") [lit "admin"]);
    try reflexivity.
  apply (bool_decide_unpack _). vm_compute. exact I.
Defined.

(** X29. The image paths of a chunk survive the store: [upsertChunks] writes
    the list as a JSON string, and [_collectImagesFromChunks] decodes that
    string to the paths again (as strings, without the [None]s), provided
    the metadata of the chunk are a dictionary (its keys distinct) and
    [json.loads] reads what [json.dumps] wrote of the paths. *)
Theorem image_paths_survive_the_store :
  forall (lib : PyLib) (chroma : Chroma) (COLLECTION_PREFIX : str)
         (chatbotId documentId : str) (chunks : list dict)
         (embeddings : list (list Q)) (store store' : Writes) (n : Z),
    upsertChunks lib chroma COLLECTION_PREFIX chatbotId documentId chunks
                 embeddings store = (Ok n, store') ->
    exists rows,
      last store' = Some (COLLECTION_PREFIX ++ chatbotId, rows)
      /\ Forall2 (fun chunk meta =>
           forall (metaRaw : dict) (paths : list pyval),
             get (lit "meta") chunk = PDict metaRaw ->
             NoDup metaRaw.*1 ->
             lookup (lit "image_paths") metaRaw = Some (PList paths) ->
             json_loads lib
               (json_dumps lib (PList (PStr <$> strs_of lib paths)))
             = Some (PList (PStr <$> strs_of lib paths)) ->
             exists s,
               lookup (lit "image_paths") meta = Some (PStr s)
               /\ QueryService.decode_image_paths lib s = strs_of lib paths)
         chunks (metadatas rows).
Proof.
  intros lib chroma PREFIX chatbotId documentId chunks embs store store' n.
  unfold upsertChunks.
  destruct (Nat.eqb_spec (length chunks) (length embs)) as [Hlen|];
    [|discriminate].
  cbn [negb]. destruct (create_fails chroma chatbotId); [discriminate|].
  rewrite (add_rows lib chatbotId documentId chunks embs [] [] [] Hlen).
  cbn [app length Nat.add].
  destruct (upsert_fails chroma _ _); [discriminate|].
  intros [= <- <-]. eexists. split; [by rewrite last_snoc|].
  cbn [metadatas].
  apply Forall2_same_length_lookup. split; [by rewrite length_imap|].
  intros i chunk meta Hchunk Hmeta.
  rewrite list_lookup_imap, Hchunk in Hmeta.
  cbn [fmap option_fmap option_map] in Hmeta. injection Hmeta as <-.
  intros metaRaw paths Hget Hnd Hpaths Hjson.
  rewrite Hget.
  assert (por (PDict metaRaw) (PDict []) = PDict metaRaw) as ->.
  { unfold por. destruct metaRaw; [discriminate|reflexivity]. }
  by apply (stored_meta_image_paths lib chatbotId documentId _ metaRaw paths).
Qed.

Lemma image_paths_survive_the_store_witness :
  exists n store' rows meta s,
    upsertChunks paths_lib willing (lit "chatbot_") (lit "bot") (lit "doc")
                 sample_chunks [[1%Q]; [2%Q]] [] = (Ok n, store')
    /\ last store' = Some (lit "chatbot_" ++ lit "bot", rows)
    /\ metadatas rows !! 0%nat = Some meta
    /\ lookup (lit "image_paths") meta = Some (PStr s)
    /\ QueryService.decode_image_paths paths_lib s = [lit "doc/p1_img1.png"].
Proof.
  assert (exists n store',
            upsertChunks paths_lib willing (lit "chatbot_") (lit "bot")
              (lit "doc") sample_chunks [[1%Q]; [2%Q]] [] = (Ok n, store'))
    as (n & store' & H).
  { do 2 eexists. vm_compute. reflexivity. }
  destruct (image_paths_survive_the_store _ _ _ _ _ _ _ _ _ _ H)
    as (rows & Hlast & Hall).
  assert (exists chunk, sample_chunks !! 0%nat = Some chunk) as [chunk Hc]
    by (eexists; reflexivity).
  destruct (Forall2_lookup_l _ _ _ _ _ Hall Hc) as (meta & Hm & Hprop).
  injection Hc as <-.
  destruct (Hprop [ (lit "page", PInt 1);
                    (lit "document_id", PStr (lit "other"));
                    (lit "image_paths", PList [PStr (lit "doc/p1_img1.png")]) ]
                  [PStr (lit "doc/p1_img1.png")])
    as (s & Hs & Hdec); try reflexivity.
  { apply (bool_decide_unpack _). vm_compute. exact I. }
  exists n, store', rows, meta, s. auto.
Defined.

End StoreFacts.

(* ===================================================================== *)
(** ** Retrieval: the neighbors that are found *)
(* ===================================================================== *)

Module NeighborFacts.
Import Search SearchFacts Retrieval.

Lemma foldr_min_le (l : list Z) (x0 y : Z) :
  y ∈ x0 :: l -> foldr Z.min x0 l <= y.
Proof.
  induction l as [|a l IH]; intros Hy; simpl.
  - apply list_elem_of_singleton in Hy. lia.
  - apply elem_of_cons in Hy as [Hy|Hy].
    + assert (foldr Z.min x0 l <= y) by (apply IH; subst; left). lia.
    + apply elem_of_cons in Hy as [Hy|Hy]; [lia|].
      assert (foldr Z.min x0 l <= y) by (apply IH; by right). lia.
Qed.

Lemma foldr_max_ge (l : list Z) (x0 y : Z) :
  y ∈ x0 :: l -> y <= foldr Z.max x0 l.
Proof.
  induction l as [|a l IH]; intros Hy; simpl.
  - apply list_elem_of_singleton in Hy. lia.
  - apply elem_of_cons in Hy as [Hy|Hy].
    + assert (y <= foldr Z.max x0 l) by (apply IH; subst; left). lia.
    + apply elem_of_cons in Hy as [Hy|Hy]; [lia|].
      assert (y <= foldr Z.max x0 l) by (apply IH; by right). lia.
Qed.

Lemma set_min_max (s : gset Z) (x : Z) :
  x ∈ s -> set_min s <= x <= set_max s.
Proof.
  intros Hx. apply elem_of_elements in Hx. unfold set_min, set_max.
  destruct (elements s) as [|x0 l]; [inversion Hx|].
  split; [by apply foldr_min_le|by apply foldr_max_ge].
Qed.

Lemma neighbor_orders_within (radius oi o : Z) :
  o <> oi -> oi - radius <= o <= oi + radius ->
  o ∈ neighbor_orders radius oi.
Proof.
  intros Hne Hr. unfold neighbor_orders. apply list_elem_of_fmap.
  exists (o - oi). split; [lia|]. apply list_elem_of_filter.
  split; [lia|]. apply elem_of_seqZ. lia.
Qed.

(** *** The targets *)

Lemma add_targets_keeps (doc_id : str) (orders : list Z)
    (d : list (str * gset Z)) (doc : str) (s : gset Z) (o : Z) :
  (doc, s) ∈ d -> o ∈ s ->
  exists s', (doc, s') ∈ add_targets doc_id orders d /\ o ∈ s'.
Proof.
  induction d as [|[k s0] d IH]; intros Hin Ho; [inversion Hin|].
  cbn [add_targets]. apply elem_of_cons in Hin as [[= <- <-]|Hin].
  - destruct (eqb doc doc_id).
    + exists (s ∪ list_to_set orders). split; [left|]. by apply elem_of_union_l.
    + exists s. split; [left|done].
  - destruct (IH Hin Ho) as (s' & Hs' & Ho').
    destruct (eqb k doc_id).
    + exists s. split; [by right|done].
    + exists s'. split; [by right|done].
Qed.

Lemma add_targets_adds (doc_id : str) (orders : list Z)
    (d : list (str * gset Z)) (o : Z) :
  o ∈ orders ->
  exists s', (doc_id, s') ∈ add_targets doc_id orders d /\ o ∈ s'.
Proof.
  intros Ho. induction d as [|[k s0] d IH]; cbn [add_targets].
  - exists (list_to_set orders). split; [left|]. by apply elem_of_list_to_set.
  - destruct (eqb k doc_id) eqn:E.
    + apply eqb_eq in E. subst k. exists (s0 ∪ list_to_set orders).
      split; [left|]. apply elem_of_union_r. by apply elem_of_list_to_set.
    + destruct IH as (s' & Hs' & Ho'). exists s'. split; [by right|done].
Qed.

Lemma collect_targets_complete (radius : Z) (rest : list Chunk) :
  forall targets seen targets' seen',
    collect_targets radius rest targets seen = (targets', seen') ->
    (forall doc s o, (doc, s) ∈ targets -> o ∈ s ->
       exists s', (doc, s') ∈ targets' /\ o ∈ s')
    /\ (forall b doc oi o,
          b ∈ rest -> document_id (meta b) = Some doc ->
          order_index (meta b) = Some oi -> o ∈ neighbor_orders radius oi ->
          exists s', (doc, s') ∈ targets' /\ o ∈ s')
    /\ (forall id, id ∈ seen' -> id ∈ seen \/ id ∈ chunk_ids rest).
Proof.
  induction rest as [|ch rest IH]; intros targets seen targets' seen' Hrun.
  - simpl in Hrun. injection Hrun as <- <-. split; [eauto|].
    split; [intros ? ? ? ? H; inversion H|auto].
  - cbn [collect_targets] in Hrun.
    set (seen1 := match chunk_id ch with
                  | Some (c :: id) => {[c :: id]} ∪ seen
                  | _ => seen
                  end) in *.
    assert (forall id, id ∈ seen1 -> id ∈ seen \/ id ∈ chunk_ids [ch]) as Hseen1.
    { intros id. unfold seen1, chunk_ids. cbn [omap list_omap].
      unfold truthy_id, truthy_str.
      destruct (chunk_id ch) as [[|c i]|]; cbn [omap list_omap]; auto.
      intros [->%elem_of_singleton|H]%elem_of_union; [right; left|by left]. }
    assert (forall targets1,
              collect_targets radius rest targets1 seen1 = (targets', seen') ->
              forall id, id ∈ seen' -> id ∈ seen \/ id ∈ chunk_ids (ch :: rest))
      as Hseen.
    { intros targets1 Hrun1 id Hid.
      destruct (IH _ _ _ _ Hrun1) as (_ & _ & H3).
      change (ch :: rest) with ([ch] ++ rest). unfold chunk_ids.
      rewrite omap_app. fold (chunk_ids [ch]) (chunk_ids rest).
      destruct (H3 id Hid) as [H|H].
      - destruct (Hseen1 id H); [by left|right]. by apply elem_of_app; left.
      - right. by apply elem_of_app; right. }
    destruct (document_id (meta ch)) as [doc_id|] eqn:Ed;
      [destruct (order_index (meta ch)) as [oi0|] eqn:Eo|].
    + destruct (IH _ _ _ _ Hrun) as (H1 & H2 & _).
      split; [|split; [|by eapply Hseen]].
      * intros doc s o Hin Ho.
        destruct (add_targets_keeps doc_id (neighbor_orders radius oi0)
                    targets doc s o Hin Ho) as (s1 & Hs1 & Ho1).
        by apply (H1 doc s1 o).
      * intros b doc oi o Hb Hdoc Hoi Ho.
        apply elem_of_cons in Hb as [->|Hb]; [|by eapply H2].
        rewrite Ed in Hdoc. rewrite Eo in Hoi.
        injection Hdoc as <-. injection Hoi as <-.
        destruct (add_targets_adds doc_id (neighbor_orders radius oi0)
                    targets o Ho) as (s1 & Hs1 & Ho1).
        by apply (H1 doc_id s1 o).
    + destruct (IH _ _ _ _ Hrun) as (H1 & H2 & _).
      split; [exact H1|]. split; [|by eapply Hseen].
      intros b doc oi o Hb Hdoc Hoi Ho.
      apply elem_of_cons in Hb as [->|Hb]; [congruence|by eapply H2].
    + destruct (IH _ _ _ _ Hrun) as (H1 & H2 & _).
      split; [exact H1|]. split; [|by eapply Hseen].
      intros b doc oi o Hb Hdoc Hoi Ho.
      apply elem_of_cons in Hb as [->|Hb]; [congruence|by eapply H2].
Qed.

(** *** The loop over one reply of the store *)

Lemma pick_chunk_id_reply (hits : list StoreRecord) (idx : nat)
    (r : StoreRecord) :
  hits !! idx = Some r ->
  pick_chunk_id (rec_meta r) (rec_id <$> hits) idx = id_of_record r.
Proof.
  intros H. unfold pick_chunk_id, id_of_record.
  rewrite list_lookup_fmap, H.
  by destruct (truthy_str (sm_chunk_id (rec_meta r))).
Qed.

Lemma neighbor_loop_complete (hits : list StoreRecord) (order_set : gset Z) :
  forall (rest : list StoreRecord) (idx : nat) seen found seen',
    drop idx hits = rest ->
    neighbor_loop (reply_of hits) order_set idx (rec_document <$> rest) seen
    = (found, seen') ->
    (forall id, id ∈ seen' -> id ∈ seen \/ id ∈ chunk_ids found)
    /\ forall r oi,
         r ∈ rest -> sm_order_index (rec_meta r) = Some oi -> oi ∈ order_set ->
         (exists n, n ∈ found /\ stored_as n r)
         \/ (truthy_str (id_of_record r) = true
             /\ default [] (id_of_record r) ∈ seen').
Proof.
  induction rest as [|r0 rest IH]; intros idx seen found seen' Hdrop Hrun.
  - simpl in Hrun. injection Hrun as <- <-. split; [auto|].
    intros r oi H. inversion H.
  - pose proof (neighbor_loop_spec hits order_set (r0 :: rest) idx seen found
                  seen' Hdrop Hrun) as (Hsub & _).
    apply drop_cons_lookup in Hdrop as [Hidx Hdrop].
    cbn [fmap list_fmap neighbor_loop] in Hrun.
    change (list_fmap StoreRecord (list N) rec_document rest)
      with (rec_document <$> rest) in Hrun.
    change (g_metadatas (reply_of hits)) with (rec_meta <$> hits) in Hrun.
    change (g_ids (reply_of hits)) with (rec_id <$> hits) in Hrun.
    rewrite list_lookup_fmap, Hidx in Hrun.
    cbn [fmap option_fmap option_map default from_option id] in Hrun.
    rewrite (pick_chunk_id_reply hits idx r0 Hidx) in Hrun.
    assert (forall found1 seen1,
              neighbor_loop (reply_of hits) order_set (S idx)
                            (rec_document <$> rest) seen = (found1, seen1) ->
              found1 = found -> seen1 = seen' ->
              (forall oi, sm_order_index (rec_meta r0) = Some oi ->
                          oi ∈ order_set ->
                          truthy_str (id_of_record r0) = true
                          /\ default [] (id_of_record r0) ∈ seen) ->
              (forall id, id ∈ seen' -> id ∈ seen \/ id ∈ chunk_ids found)
              /\ forall r oi,
                   r ∈ r0 :: rest -> sm_order_index (rec_meta r) = Some oi ->
                   oi ∈ order_set ->
                   (exists n, n ∈ found /\ stored_as n r)
                   \/ (truthy_str (id_of_record r) = true
                       /\ default [] (id_of_record r) ∈ seen')) as Hskip.
    { intros found1 seen1 Hrun1 -> -> Hr0.
      destruct (IH _ _ _ _ Hdrop Hrun1) as [H1 H2]. split; [exact H1|].
      intros r oi Hr Hoi Hin. apply elem_of_cons in Hr as [->|Hr].
      - right. destruct (Hr0 oi Hoi Hin) as [Ht Hs]. split; [exact Ht|].
        by apply Hsub.
      - by eapply H2. }
    destruct (sm_order_index (rec_meta r0)) as [oi0|] eqn:Eoi.
    2:{ eapply Hskip; eauto. intros oi [=]. }
    destruct (bool_decide (oi0 ∈ order_set)) eqn:Ein; cbn [negb] in Hrun.
    2:{ eapply Hskip; eauto. intros oi [= <-] Hin.
        by apply bool_decide_eq_false in Ein. }
    destruct (truthy_str (id_of_record r0)) eqn:Etr; cbn [andb] in Hrun.
    + destruct (bool_decide (default [] (id_of_record r0) ∈ seen)) eqn:Eseen.
      { eapply Hskip; eauto. intros oi _ _.
        by apply bool_decide_eq_true in Eseen. }
      destruct (neighbor_loop (reply_of hits) order_set (S idx)
                  (rec_document <$> rest)
                  ({[default [] (id_of_record r0)]} ∪ seen))
        as [more seen1] eqn:Emore.
      injection Hrun as <- <-.
      destruct (IH _ _ _ _ Hdrop Emore) as [H1 H2].
      destruct (id_of_record r0) as [id0|] eqn:Eid; [|discriminate].
      cbn [default from_option id] in *.
      assert (truthy_id {| chunk_id := Some id0; text := rec_document r0;
                           score := 0%Q; meta := _buildMeta (rec_meta r0) |}
              = Some id0) as Htid.
      { apply truthy_id_Some. auto. }
      split.
      * intros id Hid. unfold chunk_ids. cbn [omap list_omap]. rewrite Htid.
        destruct (H1 id Hid) as [[->%elem_of_singleton|H]%elem_of_union|H].
        -- right. left.
        -- by left.
        -- right. by right.
      * intros r oi Hr Hoi Hin. apply elem_of_cons in Hr as [->|Hr].
        -- left. eexists. split; [left|]. split; reflexivity.
        -- destruct (H2 r oi Hr Hoi Hin) as [(n & Hn & Hst)|H]; [|by right].
           left. exists n. split; [by right|done].
    + destruct (neighbor_loop (reply_of hits) order_set (S idx)
                  (rec_document <$> rest) seen) as [more seen1] eqn:Emore.
      injection Hrun as <- <-.
      destruct (IH _ _ _ _ Hdrop Emore) as [H1 H2].
      assert (truthy_id {| chunk_id := id_of_record r0;
                           text := rec_document r0; score := 0%Q;
                           meta := _buildMeta (rec_meta r0) |} = None) as Htid.
      { unfold truthy_id. cbn [chunk_id]. by rewrite Etr. }
      split.
      * intros id Hid. unfold chunk_ids. cbn [omap list_omap]. rewrite Htid.
        by apply H1.
      * intros r oi Hr Hoi Hin. apply elem_of_cons in Hr as [->|Hr].
        -- left. eexists. split; [left|]. split; reflexivity.
        -- destruct (H2 r oi Hr Hoi Hin) as [(n & Hn & Hst)|H]; [|by right].
           left. exists n. split; [by right|done].
Qed.

(** *** The loop over the documents *)

Section Store.

Variable w : World.
Hypothesis store_answers : forall t, get_fails w t = false.

Lemma fetch_neighbors_complete (chatbotId : str) (col : list StoreRecord)
    (items : list (str * gset Z)) :
  forall seen tr found tr',
    fetch_neighbors w chatbotId col items seen tr = (Ok found, tr') ->
    forall doc s r oi,
      (doc, s) ∈ items -> r ∈ col ->
      sm_document_id (rec_meta r) = Some doc ->
      sm_order_index (rec_meta r) = Some oi -> oi ∈ s ->
      (exists n, n ∈ found /\ stored_as n r)
      \/ (truthy_str (id_of_record r) = true
          /\ (default [] (id_of_record r) ∈ seen
              \/ default [] (id_of_record r) ∈ chunk_ids found)).
Proof.
  induction items as [|[doc_id order_set] items IH];
    intros seen tr found tr' Hrun doc s r oi Hitem Hr Hdoc Hoi Hin.
  { inversion Hitem. }
  cbn [fetch_neighbors] in Hrun.
  destruct (bool_decide (order_set = ∅)) eqn:Eempty.
  { apply bool_decide_eq_true in Eempty.
    apply elem_of_cons in Hitem as [[= -> ->]|Hitem].
    - subst order_set. by apply not_elem_of_empty in Hin.
    - by eapply IH. }
  rewrite store_answers in Hrun. rewrite col_get_reply in Hrun.
  set (wh := [DocumentIdEq doc_id; OrderIndexGte (set_min order_set);
              OrderIndexLte (set_max order_set)]) in *.
  set (hits := filter (fun r => satisfies wh r = true) col) in *.
  change (g_documents (reply_of hits)) with (rec_document <$> hits) in Hrun.
  destruct (neighbor_loop (reply_of hits) order_set 0 (rec_document <$> hits)
              seen) as [found1 seen1] eqn:Eloop.
  destruct (neighbor_loop_complete hits order_set hits 0%nat seen found1 seen1
              eq_refl Eloop) as [Hseen1 Hfound1].
  unfold bind in Hrun.
  destruct (fetch_neighbors w chatbotId col items seen1 _)
    as [[more|e] tr2] eqn:Emore; [|discriminate].
  injection Hrun as <- <-.
  unfold chunk_ids. rewrite omap_app. fold (chunk_ids found1) (chunk_ids more).
  apply elem_of_cons in Hitem as [[= -> ->]|Hitem].
  - assert (r ∈ hits) as Hhit.
    { apply list_elem_of_filter. split; [|exact Hr].
      unfold satisfies, wh. cbn [forallb satisfies_cond].
      rewrite Hdoc, Hoi. cbn [str_field_is].
      destruct (set_min_max order_set oi Hin) as [Hlo Hhi].
      assert (eqb doc_id doc_id = true) as -> by
        (unfold eqb; by rewrite bool_decide_eq_true_2).
      cbn [andb]. rewrite andb_true_r. apply andb_true_iff.
      split; by apply Z.leb_le. }
    destruct (Hfound1 r oi Hhit Hoi Hin) as [(n & Hn & Hst)|[Ht Hs]].
    + left. exists n. split; [by apply elem_of_app; left|done].
    + right. split; [exact Ht|]. destruct (Hseen1 _ Hs) as [H|H]; [by left|].
      right. by apply elem_of_app; left.
  - destruct (IH _ _ _ _ Emore doc s r oi Hitem Hr Hdoc Hoi Hin)
      as [(n & Hn & Hst)|[Ht [Hs|Hs]]].
    + left. exists n. split; [by apply elem_of_app; right|done].
    + right. split; [exact Ht|]. destruct (Hseen1 _ Hs) as [H|H]; [by left|].
      right. by apply elem_of_app; left.
    + right. split; [exact Ht|]. right. by apply elem_of_app; right.
Qed.

End Store.

Lemma chunk_ids_elem (l : list Chunk) (id : str) :
  id ∈ chunk_ids l -> exists n, n ∈ l /\ chunk_id n = Some id.
Proof.
  unfold chunk_ids. intros H. apply list_elem_of_omap in H as (n & Hn & Hid).
  apply truthy_id_Some in Hid as [Hid _]. by exists n.
Qed.

(** X30. When the store answers, no neighbor within the radius is missed: for
    every base hit with a document id and an order index, every record of
    the collection in the same document whose order index is within the
    radius of the hit's (and not the hit's own) is in the result of
    [searchTopKWithNeighbors], as the chunk built from it or, when a base
    hit or another neighbor already has its id, as that chunk. *)
Theorem no_neighbor_within_the_radius_is_missed :
  forall (w : World) (q chatbotId : str) (userGroup : option str)
         (topK radius : Z) (tr tr1 tr' : trace) (base result : list Chunk)
         (col : list StoreRecord),
    0 < radius ->
    (forall t, get_fails w t = false) ->
    searchTopK w q chatbotId userGroup topK tr = (Ok base, tr1) ->
    collection w tr1 chatbotId = Some col ->
    searchTopKWithNeighbors w q chatbotId userGroup topK radius tr
    = (Ok result, tr') ->
    forall (b : Chunk) (doc : str) (oi : Z) (r : StoreRecord) (oi' : Z),
      b ∈ base -> document_id (meta b) = Some doc ->
      order_index (meta b) = Some oi ->
      r ∈ col -> sm_document_id (rec_meta r) = Some doc ->
      sm_order_index (rec_meta r) = Some oi' ->
      oi' <> oi -> oi - radius <= oi' <= oi + radius ->
      exists n,
        (n ∈ result)
        /\ (stored_as n r
            \/ (truthy_str (id_of_record r) = true
                /\ chunk_id n = id_of_record r)).
Proof.
  intros w q chatbotId userGroup topK radius tr tr1 tr' base result col
         Hradius Hstore Hbase Hcol Hrun b doc oi r oi' Hb Hbdoc Hboi Hr Hrdoc
         Hroi Hne Hwithin.
  unfold searchTopKWithNeighbors, bind in Hrun. rewrite Hbase in Hrun.
  destruct base as [|b0 base'] eqn:Ebase; [inversion Hb|].
  rewrite <- Ebase in *. clear Ebase b0 base'.
  assert ((radius <=? 0) = false) as E by (apply Z.leb_gt; lia).
  rewrite E, Hcol in Hrun. clear E.
  destruct (collect_targets radius base [] ∅) as [targets seen] eqn:Etargets.
  destruct (collect_targets_complete radius base [] ∅ targets seen Etargets)
    as (_ & Htargets & Hseen).
  destruct (fetch_neighbors w chatbotId col targets seen tr1)
    as [[found|e] tr2] eqn:Efetch; [|discriminate].
  unfold ret in Hrun. injection Hrun as <- <-.
  destruct (Htargets b doc oi oi' Hb Hbdoc Hboi
              (neighbor_orders_within radius oi oi' Hne Hwithin))
    as (s & Hs & Hin).
  destruct (fetch_neighbors_complete w Hstore chatbotId col targets seen tr1
              found tr2 Efetch doc s r oi' Hs Hr Hrdoc Hroi Hin)
    as [(n & Hn & Hst)|[Ht Hid]].
  - exists n. split; [|by left]. apply elem_of_app. right.
    by rewrite (sort_by_perm neighbor_le found).
  - destruct (id_of_record r) as [rid|] eqn:Eid; [|discriminate].
    cbn [default from_option id] in Hid.
    destruct Hid as [Hid|Hid].
    + destruct (Hseen rid Hid) as [H|H]; [by apply not_elem_of_empty in H|].
      apply chunk_ids_elem in H as (n & Hn & Hc).
      exists n. split; [by apply elem_of_app; left|]. right. by split.
    + apply chunk_ids_elem in Hid as (n & Hn & Hc).
      exists n. split; [|right; by split]. apply elem_of_app. right.
      by rewrite (sort_by_perm neighbor_le found).
Qed.

Lemma no_neighbor_within_the_radius_is_missed_witness :
  exists result tr' n,
    searchTopKWithNeighbors Samples.sample_world (lit "E3 error") (lit "bot")
                            (Some (lit "public")) 1 2 [] = (Ok result, tr')
    /\ n ∈ result
    /\ (stored_as n (Samples.sample_record "D" 7 "staff")
        \/ (truthy_str (id_of_record (Samples.sample_record "D" 7 "staff"))
            = true
            /\ chunk_id n
               = id_of_record (Samples.sample_record "D" 7 "staff"))).
Proof.
  assert (exists base tr1,
            searchTopK Samples.sample_world (lit "E3 error") (lit "bot")
                       (Some (lit "public")) 1 [] = (Ok base, tr1))
    as (base & tr1 & Hbase) by (do 2 eexists; vm_compute; reflexivity).
  assert (exists result tr',
            searchTopKWithNeighbors Samples.sample_world (lit "E3 error")
              (lit "bot") (Some (lit "public")) 1 2 [] = (Ok result, tr'))
    as (result & tr' & Hrun) by (do 2 eexists; vm_compute; reflexivity).
  assert (exists b, base !! 0%nat = Some b
                    /\ document_id (meta b) = Some (lit "D")
                    /\ order_index (meta b) = Some 5) as (b & Hb & Hdoc & Hoi).
  { vm_compute in Hbase. injection Hbase as <- _. eexists.
    split; [reflexivity|]. split; reflexivity. }
  destruct (no_neighbor_within_the_radius_is_missed Samples.sample_world
              (lit "E3 error") (lit "bot") (Some (lit "public")) 1 2 [] tr1 tr'
              base result Samples.sample_store ltac:(lia)
              ltac:(intros t; reflexivity) Hbase ltac:(reflexivity) Hrun
              b (lit "D") 5 (Samples.sample_record "D" 7 "staff") 7)
    as (n & Hn & Hst).
  - by eapply list_elem_of_lookup_2.
  - exact Hdoc.
  - exact Hoi.
  - apply (list_elem_of_lookup_2 _ 6%nat). reflexivity.
  - reflexivity.
  - reflexivity.
  - lia.
  - lia.
  - exists result, tr', n. auto.
Defined.

End NeighborFacts.
